(* ===== verification/_CoqProject ===== *)
-Q . S2P
Prelude.v
Machine.v
GoTime.v
Phases.v
GoStrings.v
GoText.v
GoJson.v
Varint.v
Frame.v
Stream.v
Cancel.v
Budget.v
Capability.v
Base58.v
Identity.v
DidWeb.v
GoUrl.v
Verifier.v
VerifierConc.v
Hello.v
Handshake.v
HandshakeConc.v
Conn.v
ErrorText.v
Endpoint.v
Dispatch.v
Session.v
Demo.v
Peers.v
Transcript.v
NodeLife.v
NodeStop.v
Serve.v
ServeRun.v
ServeInv.v
ServeProps.v
Addressing.v
WebIdentity.v
Conformance.v
