(* ===== verification/Prelude.v ===== *)
(** * A verification of aire-go

    aire-go is the Go implementation of AIRE, an agent-to-agent protocol over
    QUIC.  Two nodes open a QUIC connection, exchange signed HELLO frames on its
    first stream (the handshake), and then run any number of operations, one
    stream each: a caller invokes an agent by name, the serving node dispatches
    the INVOKE to the agent, and frames flow both ways.  Peers are found by
    resolving DIDs and handles.

    ** Parts of the program and the files that model them

    - [Prelude] (this file): bytes, errors with [errors.Is], the three-way
      outcome [go] of a call (values, error, panic) and its monad, counted loops,
      [inevitably] for transition systems, the tactics [go_inv], [zbool] and
      [zguard].
    - [Machine]: fixed-width integers and big-endian words.  [GoTime]: the time
      package (instants in nanoseconds, saturating [Sub], wrap-around negation).
      [GoStrings]: the strings package on byte strings.  [GoText]: decimal
      integers, UTF-8 and Fields.  [GoJson]: encoding/json (Go 1.24), parsing and
      decoding into strings, slices and structs, and a printer.  [GoUrl]: the parts
      of net/url (Go 1.24) and TrimSpace that address resolution uses.
    - [Varint]: AppendVarint and ReadVarint of frame.go, appendString and
      readString of handshake.go, and the class [Codec], the interface that every
      self-delimiting wire format satisfies (varints, strings, frames, signature
      blocks); sequences of items and [spells] are proved against it alone.
    - [Frame]: frame.go.  [Stream]: readFrame and readVarintFrom of conn.go, the
      incremental reader on an [io.Reader].
    - [Cancel]: cancel.go.  [Budget]: budget.go.  [Capability]: capability.go.
    - [Base58] and [Identity]: base58btc, multibase, did:key, Signer and the
      signature-block codec of identity.go.  crypto/ed25519 is the class
      [Ed25519] with its documented laws [Ed25519Laws]; [toy_ed25519] satisfies
      them.
    - [DidWeb]: the DID Document and its decoding, didWebToURL and
      fetchDIDDocument of addressing.go.  HTTP and DNS are the class [NetEnv].
    - [Verifier]: Verifier.Verify and ResolveKey of identity.go, and the classes
      [WireSigner] and [Verifiable], what the two ends of a handshake rely on in a
      Signer; did:key signers are instances.  [VerifierConc]:
      concurrent Verify calls, interleaved at their phases (clock reading and
      checks, critical section, signature check).  [Phases]: the theory of such
      operations, for any object; Verify and the handshake are its instances.
    - [Hello]: HELLO payloads of handshake.go.  [Handshake]: SendFrame and
      RecvFrame of conn.go and runHandshake; the code after the first frame is
      [process_hello], the signature part [verify_hello].  [HandshakeConc]: the
      handshakes of a node's connections, interleaved at the phases of the Verify
      calls they make on the shared Verifier.
    - [Conn]: Conn, Conn.Handshake, and operation.go.  QUIC is the class [Quic]
      with the stream-numbering laws of RFC 9000; [rfc9000] satisfies them.
      [ErrorText]: the texts of errors, and the reason with which a failed
      handshake closes the connection.  [Endpoint]: DevTLSConfig, Listen, Dial and the Listener of conn.go.
    - [Dispatch]: the per-operation part of node.go (INVOKE payload, Conn.Invoke,
      RegisterAgent, handleOperation).  [NodeLife]: Listen, Stop, acceptLoop,
      handleConn and the operation goroutines of node.go as a labelled transition
      system with one thread per call or goroutine and arbitrary interleaving;
      labels tell the node's own steps from those of peers, agents and callers.
      [NodeStop]: termination and liveness of that system.
    - [Session]: a client and a server end of one connection, from the handshake
      through any number of invocations.
    - [Serve]: a whole node, the threads of [NodeLife] with the data they work on
      (connections, operations, the shared Verifier, the table of agents) and
      RegisterAgent at any moment, with a log of what happened and the panic that
      ended the process if one did.  A handshake after the arrival of the peer's
      first frame is one step, as [HandshakeConc] justifies.
      [ServeRun]: an executable scheduler for it and concrete runs; [ServeInv]:
      its invariants; [ServeProps]: its theorems.
    - [Demo]: cmd/aire-demo, the stream agent and main.  [Peers]: cmd/aire-peers,
      the worker agents, the coordinator with its goroutines and channel as a
      transition system, and main.  [Transcript]: what the two programs print.
    - [Addressing]: the Resolver of addressing.go.  [WebIdentity]: did:web
      identities, where the Resolver, the Verifier and the handshake meet.
    - [Conformance]: the vectors of testdata/ evaluated in the model, byte for
      byte, and the registry of error codes.

    ** How code becomes definitions

    A function keeps its name; a method [(T).m] is [T_m] where the plain name is
    taken.  Strings and byte slices are [list byte], a uint64 or int64 is a [Z]
    with its range or wrap-around written out, nil pointers are [None].  Code
    that mutates an object returns the new contents next to its outcome
    ([Verifier], [Stream], [Conn], [Operation]).  What the code reads from its
    surroundings is an argument: the clock of Verify, randomness and [time.Now]
    of the handshake ([henv]), the outcome of opening a stream ([go ends]), the
    bytes a stream will deliver and what its Write does ([Stream]).  Errors keep
    their [fmt.Errorf] format, the wrapped error and the operands, from which
    [errors.Is] and, in [ErrorText], [err.Error()] are computed.

    ** What the theorems show

    - Wire formats: round trips, exact acceptance on arbitrary bytes, truncation,
      no panics ([Frame], [Stream], [Cancel], [Budget], [Identity], [Hello]); the
      stream reader refines the buffer decoder; base58btc and did:key are
      bijections; the signed bytes of a HELLO determine it.
    - Capabilities: the name grammar and the negotiation on every branch, and
      that both sides negotiate the same set.
    - Verifier: an accepted block is never accepted again, what acceptance means,
      when genuine blocks are accepted; and the edges: nonces burnt by forged
      blocks, exactly which timestamps are stale.  Concurrent calls are
      linearizable, and the race on the clock is bounded by its length.
    - did:web: exactly which signatures verify under a published document; a peer
      whose NodeID is the DID of a resolved address holds a key that the document
      at the same URL lists.
    - Handshake: two parties agree end to end, whatever the method of their DIDs;
      concurrent handshakes are linearizable and a recorded HELLO gets through a
      second time only in the race on the clock; the reason a peer is given for a
      failure names its class; what a completed handshake authenticates; signed
      HELLOs are accepted at most once; every error class; the unsigned downgrade.
    - Connections: OpIDs are unique and non-zero, the peer identity is fixed,
      operations deliver their frames, invocations reach the right agent with the
      authenticated identity, and every fate of an inbound operation.
    - Sessions: from the two handshakes to the last frame of the last of any
      sequence of invocations, client and server agree on everything.
    - A serving node, in every interleaving: agents are only called with
      identities that a completed handshake of that connection vouches for; the
      node refines [NodeLife]; an identity is replayed on another connection only
      through the race on the clock, and a run in which it is; what can end the
      process by a panic; when Stop completes, if nothing more comes from outside;
      Stop closes the connections of running operations.
    - Node lifecycle: when Stop returns no goroutine is left and none starts again;
      the node does bounded work per event; the race with Listen that leaks the
      listener and the peer that holds up Stop.
    - Demos: the tokens arrive in order; the coordinator settles even if calls into
      the transport never return, forwards every answer once and is not held up by
      a silent agent; the two nodes together give the client both
      answers in one of the two orders; the in-place reversal is reversal; what
      the programs print, line by line.
    - Addressing: handles are verified in both directions; what a domain publishes
      (TXT record and JSON text of the DID Document) resolves to what it says;
      which handles and URIs are accepted.

    ** Bounds and fuel

    Loops bounded by a count from the wire run on its binary representation
    ([for_n]), so no fuel is involved.  [dec_all] and [recv_all] take a number of
    items, and the theorems state which number is enough (the buffer length, the
    number of frames plus one).  [b58_digits] has two digits per byte as fuel,
    enough because 256 < 58 * 58; [trim_left] has the length of its input, as have
    [spans] and the loop of the reverse agent.  [Itoa] has 20 digits, enough for 64
    bits.  The JSON parser has twice the length of its input (lemma [value_fuel]).

    ** Not modelled

    The log lines of the demos' agents, sleeping, deadlines of contexts (their
    cancellation by Stop is modelled), the accessors Context, LocalAddr and
    RemoteAddr, and memory exhaustion: [make] panics where the runtime says the
    size is out of range (more than 2^48 bytes), a smaller request is assumed to
    be granted.  QUIC, HTTP, DNS, certificates and Ed25519 are parameters.

    The texts of errors made by encoding/json and net/url are shortened.  What is
    left of src/ is imports, doc comments, and generated or test files.

    ** Limits of the composition

    [Serve] takes what follows the arrival of a HELLO as one step, placed where it
    takes effect on the Verifier; [HandshakeConc] proves that the interleavings of
    the phases inside it have the same results.  The clock was read before that
    step, so readings need not be in the order of the steps, and no theorem about
    [Serve] assumes that they are.  Calls of crypto/rand and crypto/ed25519 return
    or fail but do not panic ([env_sound]).  The transport of [Session] loses
    nothing and delivers in order, as QUIC streams do. *)

From Stdlib Require Import Strings.Byte Arith.Wf_nat.
From stdpp Require Import base numbers list gmap strings.
Open Scope Z_scope.

(** ** Bytes

    A Go [byte] is [Byte.byte]; a Go [[]byte] and a Go [string] are both byte
    sequences, [list byte].  [bval] is the conversion to an integer and
    [to_byte] Go's truncating conversion [byte(v)]. *)

Abbreviation byte := Byte.byte.
Abbreviation bytes := (list Byte.byte).

Definition bval (b : byte) : Z := Z.of_N (Byte.to_N b).

Definition to_byte (z : Z) : byte :=
  default x00 (Byte.of_N (Z.to_N (z mod 256))).

(** Bitwise or and and on bytes, [a | b] and [a & b]. *)
Definition bor (a b : byte) : byte := to_byte (Z.lor (bval a) (bval b)).
Definition band (a b : byte) : byte := to_byte (Z.land (bval a) (bval b)).

(** The bytes of a Go string literal. *)
Definition str (s : string) : bytes := String.list_byte_of_string s.
Arguments str s%_string.

Global Instance byte_eq_decision : EqDecision byte := Byte.byte_eq_dec.

Global Program Instance byte_countable : Countable byte :=
  inj_countable Byte.to_N Byte.of_N _.
Next Obligation. intros b. apply Byte.of_to_N. Qed.

Abbreviation len l := (Z.of_nat (length l)).

Lemma bval_range b : 0 <= bval b < 256.
Proof. unfold bval. pose proof (Byte.to_N_bounded b). lia. Qed.

Lemma bval_inj b1 b2 : bval b1 = bval b2 -> b1 = b2.
Proof.
  unfold bval. intros H%N2Z.inj.
  pose proof (Byte.of_to_N b1) as E. rewrite H, Byte.of_to_N in E. congruence.
Qed.

Lemma bval_to_byte z : bval (to_byte z) = z mod 256.
Proof.
  unfold bval, to_byte. pose proof (Z.mod_pos_bound z 256 ltac:(lia)).
  destruct (Byte.of_N (Z.to_N (z mod 256))) as [b|] eqn:E; simpl.
  - apply Byte.to_of_N in E. rewrite E. lia.
  - apply Byte.of_N_None_iff in E. lia.
Qed.

Lemma to_byte_bval b : to_byte (bval b) = b.
Proof.
  apply bval_inj. rewrite bval_to_byte. pose proof (bval_range b).
  by apply Z.mod_small.
Qed.

Lemma bval_to_byte_small z : 0 <= z < 256 -> bval (to_byte z) = z.
Proof. intros. rewrite bval_to_byte. by apply Z.mod_small. Qed.

(** ** Errors

    The error values the package returns.  [Sentinel] is a package-level
    [errors.New] variable (or [io.EOF]/[io.ErrUnexpectedEOF]); [Errorf fmt w args]
    is [fmt.Errorf(fmt, ...)] with its [%w] operand (if any) in [w] and its other
    operands in [args]; [External n] stands for an error value produced by code
    outside the package (transport, resolver, operating system). *)

Inductive sentinel : Type :=
| ErrShortBuffer | ErrFrameTooLarge
| ErrCancelled | ErrBudgetExceeded | ErrDeadlineExceeded | ErrDelegateFailed
| ErrBadSignature | ErrStaleTimestamp | ErrReplayedNonce | ErrUnresolvableDID
| ErrKeyMismatch
| ErrIncompatibleVersion | ErrMissingRequiredCapability | ErrMalformedHello
| ErrProtocolViolation
| ErrNoAIREv1Service | ErrAlsoKnownAsMismatch | ErrUnsupportedDIDMethod
| ErrMalformedHandle | ErrMalformedDIDWeb
| EOF | ErrUnexpectedEOF.

Global Instance sentinel_eq_decision : EqDecision sentinel.
Proof. solve_decision. Defined.

Inductive error : Type :=
| Sentinel (s : sentinel)
| Errorf (fmt : string) (w : option error) (args : list arg)
| External (n : Z)
with arg : Type :=
| ArgInt (z : Z)
| ArgStr (s : bytes)
| ArgErr (e : error).

Coercion Sentinel : sentinel >-> error.

(** [errors.Is(e, s)] follows the chain of [%w] operands. *)
Fixpoint errors_Is (e : error) (s : sentinel) : bool :=
  match e with
  | Sentinel s' => bool_decide (s' = s)
  | Errorf _ (Some w) _ => errors_Is w s
  | Errorf _ None _ => false
  | External _ => false
  end.

(** The chain ends in at most one sentinel. *)
Fixpoint errors_Is_unique e s1 s2 {struct e} :
  errors_Is e s1 = true -> errors_Is e s2 = true -> s1 = s2.
Proof.
  destruct e as [s|fmt [w|] args|n]; simpl; try discriminate.
  - rewrite !bool_decide_eq_true. congruence.
  - apply errors_Is_unique.
Qed.

(** [errors.New(msg)] and [fmt.Errorf] with no [%w]. *)
Definition newError (msg : string) : error := Errorf msg None [].

(** ** Results

    A Go call returns its values, returns a non-nil error, or panics.  [go A]
    is the three-way outcome, with its monad: [Err] is the early return
    [if err != nil { return ..., err }] and [Panic] unwinds the goroutine. *)

Inductive panic : Type :=
| PanicVarint (v : Z)       (* AppendVarint: value exceeds MaxVarint *)
| PanicMakeSlice (n : Z)    (* makeslice: cap out of range *)
| PanicSlice                (* slice bounds out of range *)
| PanicIndex                (* index out of range *)
| PanicNil                  (* nil pointer dereference *)
| PanicKeyLength (n : Z)    (* ed25519: bad public key length *)
| PanicError (fmt : string) (e : error). (* panic(fmt.Sprintf(fmt, err)) *)

Inductive go (A : Type) : Type :=
| Ok (a : A)
| Err (e : error)
| Panic (p : panic).
Arguments Ok {A} a.
Arguments Err {A} e.
Arguments Panic {A} p.

Global Instance go_ret : MRet go := fun A a => Ok a.
Global Instance go_bind : MBind go := fun A B f m =>
  match m with
  | Ok a => f a
  | Err e => Err e
  | Panic p => Panic p
  end.

(** [if err != nil { return ..., fmt.Errorf("...", err) }]. *)
Definition on_err {A} (f : error -> error) (m : go A) : go A :=
  match m with
  | Err e => Err (f e)
  | m => m
  end.

Definition is_ok {A} (m : go A) : bool :=
  match m with Ok _ => true | _ => false end.

Definition panics {A} (m : go A) : bool :=
  match m with Panic _ => true | _ => false end.

(** Inversion of the monad: the automation of every later file goes through
    these, by rewriting or with [go_inv]. *)
Section GoMonad.
Context {A B C : Type}.

Lemma bind_Ok (m : go A) (f : A -> go B) b :
  (m ≫= f) = Ok b <-> exists a, m = Ok a /\ f a = Ok b.
Proof. destruct m; simpl; naive_solver. Qed.

Lemma bind_Panic (m : go A) (f : A -> go B) p :
  (m ≫= f) = Panic p <-> m = Panic p \/ exists a, m = Ok a /\ f a = Panic p.
Proof. destruct m; simpl; naive_solver. Qed.

Lemma bind_Err (m : go A) (f : A -> go B) e :
  (m ≫= f) = Err e <-> m = Err e \/ exists a, m = Ok a /\ f a = Err e.
Proof. destruct m; simpl; naive_solver. Qed.

Lemma bind_ret_r (m : go A) : (m ≫= mret) = m.
Proof. by destruct m. Qed.

Lemma bind_bind (m : go A) (f : A -> go B) (g : B -> go C) :
  ((m ≫= f) ≫= g) = (m ≫= fun a => f a ≫= g).
Proof. by destruct m. Qed.

Lemma on_err_Ok (f : error -> error) (m : go A) a :
  on_err f m = Ok a <-> m = Ok a.
Proof. destruct m; simpl; naive_solver. Qed.

Lemma on_err_Panic (f : error -> error) (m : go A) p :
  on_err f m = Panic p <-> m = Panic p.
Proof. destruct m; simpl; naive_solver. Qed.
End GoMonad.

(** [go_inv] decomposes hypotheses [(x ← m; k) = Ok r] into the successful
    steps they are made of. *)
Ltac go_inv :=
  repeat match goal with
  | H : mret _ = Ok _ |- _ => injection H as H; simplify_eq
  | H : Ok _ = Ok _ |- _ => injection H as H; simplify_eq
  | H : Err _ = Ok _ |- _ => discriminate H
  | H : Panic _ = Ok _ |- _ => discriminate H
  | H : on_err _ _ = Ok _ |- _ => apply on_err_Ok in H
  | H : mbind _ _ = Ok _ |- _ =>
      apply bind_Ok in H; let a := fresh "v" in let E := fresh "E" in
      destruct H as (a & E & H)
  | H : (let '(_, _) := ?p in _) = Ok _ |- _ => destruct p
  | H : (if ?b then _ else _) = Ok _ |- _ =>
      let E := fresh "Hc" in destruct b eqn:E
  end.

(** Boolean guards of the source as propositions. *)
Ltac zbool :=
  repeat match goal with
  | H : (_ <? _) = true |- _ => apply Z.ltb_lt in H
  | H : (_ <? _) = false |- _ => apply Z.ltb_ge in H
  | H : (_ <=? _) = true |- _ => apply Z.leb_le in H
  | H : (_ <=? _) = false |- _ => apply Z.leb_gt in H
  | H : (_ =? _) = true |- _ => apply Z.eqb_eq in H
  | H : (_ =? _) = false |- _ => apply Z.eqb_neq in H
  | H : (_ <? _)%nat = true |- _ => apply Nat.ltb_lt in H
  | H : (_ <? _)%nat = false |- _ => apply Nat.ltb_ge in H
  | H : (_ <=? _)%nat = true |- _ => apply Nat.leb_le in H
  | H : (_ <=? _)%nat = false |- _ => apply Nat.leb_gt in H
  | H : (_ =? _)%nat = true |- _ => apply Nat.eqb_eq in H
  | H : (_ =? _)%nat = false |- _ => apply Nat.eqb_neq in H
  | H : negb _ = true |- _ => apply negb_true_iff in H
  | H : negb _ = false |- _ => apply negb_false_iff in H
  | H : bool_decide _ = true |- _ => apply bool_decide_eq_true in H
  | H : bool_decide _ = false |- _ => apply bool_decide_eq_false in H
  | H : _ && _ = true |- _ => apply andb_true_iff in H as [? ?]
  | H : _ || _ = false |- _ => apply orb_false_iff in H as [? ?]
  end.

(** Decide the guard in the goal that arithmetic settles. *)
Ltac zguard :=
  match goal with
  | |- context [?a <? ?b] =>
      first [ rewrite (proj2 (Z.ltb_lt a b)) by lia
            | rewrite (proj2 (Z.ltb_ge a b)) by lia ]
  | |- context [?a <=? ?b] =>
      first [ rewrite (proj2 (Z.leb_le a b)) by lia
            | rewrite (proj2 (Z.leb_gt a b)) by lia ]
  | |- context [?a =? ?b] =>
      first [ rewrite (proj2 (Z.eqb_eq a b)) by lia
            | rewrite (proj2 (Z.eqb_neq a b)) by lia ]
  end.

(** ** Counted loops

    [for i := uint64(0); i < n; i++ { body }] where [body] may return early.
    The iteration is on the binary representation of [n], so a loop whose bound
    is a 62-bit integer read off the wire still evaluates: it stops at the first
    early return.  The loop index is part of the state [S]. *)

Fixpoint for_pos {S} (p : positive) (body : S -> go S) (s : S) : go S :=
  match p with
  | xH => body s
  | xO p => s1 ← for_pos p body s; for_pos p body s1
  | xI p => s0 ← body s; s1 ← for_pos p body s0; for_pos p body s1
  end.

Definition for_n {S} (n : Z) (body : S -> go S) (s : S) : go S :=
  match n with
  | Zpos p => for_pos p body s
  | _ => Ok s
  end.

(** The unary reference iteration the proofs use. *)
Fixpoint for_nat {S} (n : nat) (body : S -> go S) (s : S) : go S :=
  match n with
  | O => Ok s
  | Datatypes.S n => s1 ← body s; for_nat n body s1
  end.

Section Loops.
Context {S : Type} (body : S -> go S).

Lemma for_nat_add n m s :
  for_nat (n + m) body s = (s1 ← for_nat n body s; for_nat m body s1).
Proof.
  revert s. induction n as [|n IH]; intros s; simpl; [done|].
  rewrite bind_bind. destruct (body s); simpl; [apply IH|done|done].
Qed.

Lemma for_pos_nat p s : for_pos p body s = for_nat (Pos.to_nat p) body s.
Proof.
  revert s. induction p as [p IH|p IH|]; intros s; simpl for_pos.
  - rewrite Pos2Nat.inj_xI. simpl. destruct (body s); simpl; [|done|done].
    rewrite Nat.add_0_r, for_nat_add, IH. destruct (for_nat _ body a); simpl; auto.
  - rewrite Pos2Nat.inj_xO. simpl.
    rewrite Nat.add_0_r, for_nat_add, IH. destruct (for_nat _ body s); simpl; auto.
  - simpl. by destruct (body s).
Qed.

Lemma for_n_nat n s : for_n (Z.of_nat n) body s = for_nat n body s.
Proof.
  destruct n; simpl; [done|]. rewrite for_pos_nat, SuccNat2Pos.id_succ. done.
Qed.

Lemma for_n_to_nat n s : 0 <= n -> for_n n body s = for_nat (Z.to_nat n) body s.
Proof. intros. rewrite <-for_n_nat. by rewrite Z2Nat.id by lia. Qed.
End Loops.

(** The same for a body that changes a state it keeps when it returns early. *)
Definition then_do {S} (m : go unit * S) (k : S -> go unit * S) : go unit * S :=
  match m with
  | (Ok _, s) => k s
  | (r, s) => (r, s)
  end.

Fixpoint sfor_pos {S} (p : positive) (body : S -> go unit * S) (s : S) : go unit * S :=
  match p with
  | xH => body s
  | xO p => then_do (sfor_pos p body s) (sfor_pos p body)
  | xI p => then_do (body s) (fun s => then_do (sfor_pos p body s) (sfor_pos p body))
  end.

Definition sfor_n {S} (n : Z) (body : S -> go unit * S) (s : S) : go unit * S :=
  match n with
  | Zpos p => sfor_pos p body s
  | _ => (Ok tt, s)
  end.

Fixpoint sfor_nat {S} (n : nat) (body : S -> go unit * S) (s : S) : go unit * S :=
  match n with
  | O => (Ok tt, s)
  | Datatypes.S n => then_do (body s) (sfor_nat n body)
  end.

Section StateLoops.
Context {S : Type} (body : S -> go unit * S).

Lemma sfor_nat_add n m s :
  sfor_nat (n + m) body s = then_do (sfor_nat n body s) (sfor_nat m body).
Proof.
  revert s. induction n as [|n IH]; intros s; simpl; [done|].
  destruct (body s) as [[]]; simpl; [apply IH|done|done].
Qed.

Lemma sfor_pos_nat p s : sfor_pos p body s = sfor_nat (Pos.to_nat p) body s.
Proof.
  revert s. induction p as [p IH|p IH|]; intros s; simpl sfor_pos.
  - rewrite Pos2Nat.inj_xI. simpl. destruct (body s) as [[] s1]; simpl; [|done|done].
    rewrite Nat.add_0_r, sfor_nat_add, IH. destruct (sfor_nat _ body s1) as [[]]; simpl; auto.
  - rewrite Pos2Nat.inj_xO. simpl.
    rewrite Nat.add_0_r, sfor_nat_add, IH. destruct (sfor_nat _ body s) as [[]]; simpl; auto.
  - simpl. by destruct (body s) as [[[]| |]].
Qed.

Lemma sfor_n_nat n s : sfor_n n body s = sfor_nat (Z.to_nat n) body s.
Proof. destruct n; [done|apply sfor_pos_nat|done]. Qed.
End StateLoops.

(** ** Inevitability

    For the transition systems: [inevitably R P s] says that from [s], whichever
    steps of [R] are taken, [P] holds after finitely many of them, and that a
    step is possible until then. *)

Inductive inevitably {S} (R : S -> S -> Prop) (P : S -> Prop) (s : S) : Prop :=
| inev_now : P s -> inevitably R P s
| inev_later : (exists s', R s s') -> (forall s', R s s' -> inevitably R P s') -> inevitably R P s.

(** A measure that every step decreases, and an invariant under which every state
    has a step or satisfies [P]. *)
Lemma inevitably_by_measure {S} (work : S -> nat) (R : S -> S -> Prop) (P I : S -> Prop) :
  (forall s s', R s s' -> (work s' < work s)%nat) ->
  (forall s s', I s -> R s s' -> I s') ->
  (forall s, I s -> P s \/ exists s', R s s') ->
  forall s, I s -> inevitably R P s.
Proof.
  intros Hw HI HP s Hi. remember (work s) as n eqn:Hn.
  revert s Hn Hi. induction (lt_wf n) as [n _ IH]. intros s -> Hi.
  destruct (HP s Hi) as [Hp|Hs]; [by apply inev_now|].
  apply inev_later; [done|]. intros s' Hr. eapply IH; [by apply Hw|done|by eapply HI].
Qed.

(** Inevitability through a simulation: the steps of [R'] are steps of [R] on
    images, or end in [D], and [R'] moves when [R] does. *)
Lemma inevitably_sim {S T} (R : S -> S -> Prop) (R' : T -> T -> Prop) (f : T -> S) (I D : T -> Prop)
    (P : S -> Prop) :
  (forall t t', I t -> R' t t' -> D t' \/ (I t' /\ R (f t) (f t'))) ->
  (forall t, I t -> (exists s', R (f t) s') -> exists t', R' t t') ->
  forall t, I t -> inevitably R P (f t) -> inevitably R' (fun t => D t \/ P (f t)) t.
Proof.
  intros Hsim Hmove t Ht H. remember (f t) as s eqn:Es. revert t Es Ht.
  induction H as [s Hp|s He _ IH]; intros t -> Ht.
  - apply inev_now. by right.
  - apply inev_later; [by apply Hmove|]. intros t' Hr.
    destruct (Hsim t t' Ht Hr) as [Hd|[Ht' Hs]]; [apply inev_now; by left|by eapply IH].
Qed.

(** An invariant holds where one ends up. *)
Lemma inevitably_inv {S} (R : S -> S -> Prop) (I P : S -> Prop) s :
  (forall s s', I s -> R s s' -> I s') -> I s -> inevitably R P s ->
  inevitably R (fun s => I s /\ P s) s.
Proof.
  intros HI Hs H. induction H as [s Hp|s He _ IH]; [by apply inev_now|].
  apply inev_later; [done|]. eauto.
Qed.

Lemma inevitably_impl {S} (R : S -> S -> Prop) (P Q : S -> Prop) s :
  (forall s, P s -> Q s) -> inevitably R P s -> inevitably R Q s.
Proof.
  intros HPQ. induction 1 as [s Hp|s Hs _ IH]; [apply inev_now; auto|by apply inev_later].
Qed.
