(* ===== verification/Machine.v ===== *)
(** * Machine integers and big-endian byte order

    Fixed-width integers as [Z] with their wrap-around written out, the bit
    facts the varint codec needs, and [encoding/binary]'s BigEndian functions. *)

From Stdlib Require Import Strings.Byte.
From stdpp Require Import base numbers list gmap strings.
From S2P Require Import Prelude.
Open Scope Z_scope.

(** Evaluate the closed powers [2 ^ k] of the goal and the context, which the
    arithmetic solver does not do below a division. *)
Ltac pow_norm :=
  repeat match goal with
  | |- context [2 ^ ?k] =>
      let v := eval vm_compute in (2 ^ k) in
      match v with Zpos _ => change (2 ^ k) with v end
  | H : context [2 ^ ?k] |- _ =>
      let v := eval vm_compute in (2 ^ k) in
      match v with Zpos _ => change (2 ^ k) with v in H end
  end.
Ltac plia := pow_norm; Z.to_euclidean_division_equations; lia.

(** Go's integer conversions [uint32(v)], [uint64(v)] and [int64(v)]. *)
Definition u32 (z : Z) : Z := z mod 2 ^ 32.
Definition u64 (z : Z) : Z := z mod 2 ^ 64.
Definition i64 (z : Z) : Z := (z + 2 ^ 63) mod 2 ^ 64 - 2 ^ 63.

Definition is_u64 (z : Z) : Prop := 0 <= z < 2 ^ 64.
Definition is_i64 (z : Z) : Prop := - 2 ^ 63 <= z < 2 ^ 63.

Lemma u64_range z : is_u64 (u64 z).
Proof. unfold is_u64, u64. apply Z.mod_pos_bound. lia. Qed.

Lemma i64_range z : is_i64 (i64 z).
Proof.
  unfold is_i64, i64. pose proof (Z.mod_pos_bound (z + 2 ^ 63) (2 ^ 64) ltac:(lia)). lia.
Qed.

Lemma i64_id z : is_i64 z -> i64 z = z.
Proof. unfold is_i64, i64. intros. rewrite Z.mod_small; lia. Qed.

(** [int64(uint64(x)) = x]: the two's-complement round trip. *)
Lemma i64_u64 z : is_i64 z -> i64 (u64 z) = z.
Proof.
  unfold is_i64, i64, u64. intros.
  rewrite Zplus_mod_idemp_l, Z.mod_small; lia.
Qed.

Lemma u64_i64 z : is_u64 z -> u64 (i64 z) = z.
Proof.
  unfold is_u64, i64, u64. intros.
  rewrite Zminus_mod_idemp_l. replace (z + 2 ^ 63 - 2 ^ 63) with z by lia.
  by apply Z.mod_small.
Qed.

(** ** Bit facts *)

(** Disjoint bits: [a | b] is [a + b] when [a] has no bit below [k] and [b]
    none from [k] on. *)
Lemma lor_add k a b :
  0 <= k -> a mod 2 ^ k = 0 -> 0 <= b < 2 ^ k -> Z.lor a b = a + b.
Proof.
  intros Hk Ha Hb. symmetry. apply Z.add_nocarry_lor.
  apply Z.bits_inj'. intros i Hi. rewrite Z.land_spec, Z.bits_0.
  destruct (Z.lt_ge_cases i k).
  - rewrite <-(Z.mod_pow2_bits_low a k i) by lia. by rewrite Ha, Z.bits_0.
  - rewrite <-(Z.mod_small b (2 ^ k)) by lia.
    rewrite Z.mod_pow2_bits_high by lia. by rewrite andb_false_r.
Qed.

Lemma shl_mul a n : 0 <= n -> a ≪ n = a * 2 ^ n.
Proof. intros. by rewrite Z.shiftl_mul_pow2. Qed.

Lemma shr_div a n : 0 <= n -> a ≫ n = a / 2 ^ n.
Proof. intros. by rewrite Z.shiftr_div_pow2. Qed.

Lemma land_mask a n : 0 <= n -> Z.land a (2 ^ n - 1) = a mod 2 ^ n.
Proof. intros. rewrite <-Z.land_ones by done. by rewrite Z.ones_equiv. Qed.

(** ** BigEndian

    [be_bytes n v] is what [PutUint32]/[PutUint64] store ([n] = 4, 8) and
    [be_val] what [Uint64] reads. *)

Fixpoint be_bytes (n : nat) (v : Z) : bytes :=
  match n with
  | O => []
  | S n => to_byte (v ≫ (8 * Z.of_nat n)) :: be_bytes n v
  end.

Definition be_val (bs : bytes) : Z :=
  foldl (fun acc b => Z.lor (acc ≪ 8) (bval b)) 0 bs.

Lemma be_bytes_length n v : length (be_bytes n v) = n.
Proof. induction n; simpl; auto. Qed.

Lemma be_val_snoc bs b : be_val (bs ++ [b]) = be_val bs * 256 + bval b.
Proof.
  unfold be_val. rewrite foldl_app. simpl. pose proof (bval_range b).
  rewrite (lor_add 8), shl_mul; try lia.
  rewrite shl_mul by lia. apply Z.mod_mul. lia.
Qed.

Lemma be_val_bound bs : 0 <= be_val bs < 256 ^ len bs.
Proof.
  induction bs as [|b bs IH] using rev_ind; [by vm_compute|].
  rewrite be_val_snoc, length_app, Nat2Z.inj_add. simpl (len [b]).
  rewrite Z.pow_add_r by lia. pose proof (bval_range b). lia.
Qed.

Lemma be_bytes_snoc n v : be_bytes (S n) v = be_bytes n (v ≫ 8) ++ [to_byte v].
Proof.
  revert v. induction n as [|n IH]; intros v; [simpl; by rewrite Z.shiftr_0_r|].
  change (be_bytes (S (S n)) v) with (to_byte (v ≫ (8 * Z.of_nat (S n))) :: be_bytes (S n) v).
  rewrite IH. simpl (be_bytes (S n) (v ≫ 8)). simpl app. f_equal.
  f_equal. rewrite Z.shiftr_shiftr by lia. f_equal. lia.
Qed.

Lemma be_val_bytes n v : be_val (be_bytes n v) = v mod 256 ^ Z.of_nat n.
Proof.
  revert v. induction n as [|n IH]; intros v.
  - simpl. by rewrite Z.mod_1_r.
  - rewrite be_bytes_snoc, be_val_snoc, IH, bval_to_byte, shr_div by lia.
    rewrite Nat2Z.inj_succ, Z.pow_succ_r by lia.
    rewrite (Z.rem_mul_r v 256) by lia. change (2 ^ 8) with 256. lia.
Qed.

Lemma be_bytes_val bs : be_bytes (length bs) (be_val bs) = bs.
Proof.
  induction bs as [|b bs IH] using rev_ind; [done|].
  rewrite length_app. simpl (length [b]). rewrite Nat.add_1_r.
  rewrite be_bytes_snoc, be_val_snoc. pose proof (bval_range b). f_equal.
  - rewrite shr_div by lia. change (2 ^ 8) with 256.
    rewrite Z.div_add_l by lia. rewrite (Z.div_small (bval b)) by lia.
    rewrite Z.add_0_r. exact IH.
  - f_equal. apply bval_inj. rewrite bval_to_byte, Z.add_comm, Z.mod_add by lia.
    by apply Z.mod_small.
Qed.

Lemma be_bytes_mod n v : be_bytes n (v mod 256 ^ Z.of_nat n) = be_bytes n v.
Proof.
  rewrite <-(be_bytes_val (be_bytes n v)), be_bytes_length. by rewrite be_val_bytes.
Qed.

(** 64-bit forms. *)
Lemma be_val_u64 v : is_u64 v -> be_val (be_bytes 8 v) = v.
Proof. unfold is_u64. intros. rewrite be_val_bytes. apply Z.mod_small. lia. Qed.

Lemma be_bytes_8_val bs : length bs = 8%nat -> be_bytes 8 (be_val bs) = bs.
Proof. intros <-. apply be_bytes_val. Qed.

Lemma be_val_8_u64 bs : length bs = 8%nat -> is_u64 (be_val bs).
Proof.
  intros H. pose proof (be_val_bound bs) as B. rewrite H in B.
  unfold is_u64. lia.
Qed.

(** An [int64] through [PutUint64(uint64(x))] and [int64(Uint64(...))]. *)
Lemma i64_be_roundtrip z : is_i64 z -> i64 (be_val (be_bytes 8 (u64 z))) = z.
Proof. intros. rewrite be_val_u64 by apply u64_range. by apply i64_u64. Qed.
