(* ===== verification/GoTime.v ===== *)
(** * Time

    Go's [time] package as the sources use it: instants as nanoseconds since the
    Unix epoch (wall clock), durations as 64-bit nanoseconds. *)

From stdpp Require Import base numbers list gmap strings.
From S2P Require Import Prelude Machine.
Open Scope Z_scope.

Abbreviation Time := Z.
Abbreviation Duration := Z.

Definition minDuration : Duration := - 2 ^ 63.
Definition maxDuration : Duration := 2 ^ 63 - 1.

Definition Second : Duration := 1000000000.

(** [time.UnixMilli(ms)]. *)
Definition UnixMilli (ms : Z) : Time := ms * 1000000.

(** [t.UnixMilli()]. *)
Definition Time_UnixMilli (t : Time) : Z := i64 (t / 1000000).

(** [t.Sub(u)] saturates at the ends of the duration range. *)
Definition Time_Sub (t u : Time) : Duration :=
  let d := t - u in
  if (minDuration <=? d) && (d <=? maxDuration) then d
  else if t <? u then minDuration
  else maxDuration.

(** [t.Add(d)]. *)
Definition Time_Add (t : Time) (d : Duration) : Time := t + d.

(** [-d] on durations wraps at [minDuration]. *)
Definition Duration_neg (d : Duration) : Duration := i64 (- d).

Lemma Time_Sub_range t u : is_i64 (Time_Sub t u).
Proof.
  unfold Time_Sub, is_i64, minDuration, maxDuration. repeat case_match; zbool; pow_norm; lia.
Qed.

(** Saturation, in closed form. *)
Lemma Time_Sub_clamp t u :
  Time_Sub t u = Z.max minDuration (Z.min maxDuration (t - u)).
Proof.
  unfold Time_Sub, minDuration, maxDuration. pow_norm.
  case_match eqn:Hc; [zbool; lia|].
  apply andb_false_iff in Hc as [Hc|Hc]; case_match; zbool; lia.
Qed.

Lemma Duration_neg_min : Duration_neg minDuration = minDuration.
Proof. reflexivity. Qed.

Lemma Duration_neg_id d : minDuration < d <= maxDuration -> Duration_neg d = - d.
Proof.
  unfold Duration_neg, minDuration, maxDuration. intros. apply i64_id. unfold is_i64. lia.
Qed.
