(* ===== verification/Phases.v ===== *)
(** * Operations that run in phases

    A method on a shared object of the kind that Verify of [identity.go] is: it
    reads the clock and decides what it can without the object's mutex, then runs
    one critical section, then finishes without the mutex.  Any number of calls
    interleave between these phases.  If what the outer phases read of the object
    never changes, the calls are linearizable: they have the results and the
    effect of running one after the other in the order of their critical
    sections. *)

From stdpp Require Import base numbers list gmap.
From S2P Require Import Prelude GoTime.
Open Scope Z_scope.

(** Calls [C] on an object with contents [O] that return an [R].  [Some r] in the
    first two phases is an early return. *)
Class Phased (C O R : Type) := {
  ph_pre : Time -> C -> O -> option R;
  ph_lock : Time -> C -> O -> option R * O;
  ph_post : C -> O -> R;
}.

Class PhasedLaws (C O R : Type) `{HP : Phased C O R} : Prop := {
  ph_pre_const now c now' c' o : ph_pre now c (ph_lock now' c' o).2 = ph_pre now c o;
  ph_post_const c now' c' o : ph_post c (ph_lock now' c' o).2 = ph_post c o;
}.

(** Where a call stands.  [k] is its place in the log. *)
Inductive pthread (C : Type) : Type :=
| PCalled (c : C)                (* before the clock is read *)
| PChecked (now : Time) (c : C)  (* before the mutex is taken *)
| PLocked (k : nat) (c : C).     (* after it is released *)
Arguments PCalled {C} c.
Arguments PChecked {C} now c.
Arguments PLocked {C} k c.

(** The clock, the object, the calls in progress, and two records of what
    happened: the calls in the order in which they took effect, each with its
    clock reading and the time of its effect, and the results returned. *)
Record pstate (C O R : Type) := mkPS {
  ps_clock : Time;
  ps_obj : O;
  ps_threads : list (pthread C);
  ps_log : list (Time * C * Time);
  ps_results : list (nat * R);
}.
Arguments mkPS {C O R} _ _ _ _ _.
Arguments ps_clock {C O R} _.
Arguments ps_obj {C O R} _.
Arguments ps_threads {C O R} _.
Arguments ps_log {C O R} _.
Arguments ps_results {C O R} _.

Section Phases.
Context {C O R : Type} `{HP : Phased C O R}.
Implicit Types s : pstate C O R.

(** ** One call after the other *)

(** All phases of one call. *)
Definition ph_op (now : Time) (c : C) (o : O) : R * O :=
  match ph_pre now c o with
  | Some r => (r, o)
  | None =>
      match ph_lock now c o with
      | (Some r, o) => (r, o)
      | (None, o) => (ph_post c o, o)
      end
  end.

Definition prun (calls : list (Time * C)) (o : O) : O :=
  foldl (fun o '(now, c) => (ph_op now c o).2) o calls.

Fixpoint pall (calls : list (Time * C)) (o : O) : list R :=
  match calls with
  | [] => []
  | (now, c) :: calls => let '(r, o) := ph_op now c o in r :: pall calls o
  end.

Lemma prun_snoc calls now c o : prun (calls ++ [(now, c)]) o = (ph_op now c (prun calls o)).2.
Proof. unfold prun. by rewrite foldl_app. Qed.

Lemma pall_length calls o : length (pall calls o) = length calls.
Proof.
  revert o. induction calls as [|[now c] calls IH]; intros o; cbn; [done|].
  destruct (ph_op _ _ o) as [r o']. cbn. by rewrite IH.
Qed.

Lemma pall_snoc calls now c o :
  pall (calls ++ [(now, c)]) o = pall calls o ++ [(ph_op now c (prun calls o)).1].
Proof.
  revert o. induction calls as [|[now0 c0] calls IH]; intros o; cbn.
  - by destruct (ph_op _ _ o).
  - destruct (ph_op now0 c0 o) as [r o'] eqn:E. cbn. by rewrite IH.
Qed.

Lemma pall_snoc_l calls x o k r : pall calls o !! k = Some r -> pall (calls ++ [x]) o !! k = Some r.
Proof. destruct x as [now c]. intros H. rewrite pall_snoc. by apply lookup_app_l_Some. Qed.

Lemma pall_snoc_new calls now c o :
  pall (calls ++ [(now, c)]) o !! length calls = Some (ph_op now c (prun calls o)).1.
Proof. rewrite pall_snoc, lookup_app_r; rewrite pall_length; [|done]. by rewrite Nat.sub_diag. Qed.

(** The call at place [j] runs on what the earlier ones left. *)
Lemma pall_at calls o j now c :
  calls !! j = Some (now, c) ->
  pall calls o !! j = Some (ph_op now c (prun (take j calls) o)).1.
Proof.
  intros Hj. pose proof (lookup_lt_Some _ _ _ Hj) as Hl.
  rewrite <-(take_drop (S j) calls), (take_S_r _ _ _ Hj) at 1.
  induction (drop (S j) calls) as [|x rest IH] using rev_ind.
  - rewrite app_nil_r. pose proof (pall_snoc_new (take j calls) now c o) as E.
    by rewrite length_take_le in E by lia.
  - rewrite app_assoc. by apply pall_snoc_l.
Qed.

Lemma pall_take calls o i j : (i < j)%nat -> pall (take j calls) o !! i = pall calls o !! i.
Proof.
  intros Hij. destruct (calls !! i) as [[now c]|] eqn:Hi.
  - rewrite (pall_at _ _ _ _ _ Hi), (pall_at (take j calls) o i now c).
    + by rewrite take_take, Nat.min_l by lia.
    + by rewrite lookup_take_lt.
  - rewrite !lookup_ge_None_2; [done|..]; rewrite pall_length;
      apply lookup_ge_None_1 in Hi; rewrite ?length_take; lia.
Qed.

(** ** Interleavings *)

(** One phase of one call, an invocation, or the passing of time. *)
Inductive pstep (s : pstate C O R) : pstate C O R -> Prop :=
| p_tick t : ps_clock s <= t ->
    pstep s (mkPS t (ps_obj s) (ps_threads s) (ps_log s) (ps_results s))
| p_call c :
    pstep s (mkPS (ps_clock s) (ps_obj s) (PCalled c :: ps_threads s) (ps_log s) (ps_results s))
| p_refused pre post c r :
    ps_threads s = pre ++ PCalled c :: post -> ph_pre (ps_clock s) c (ps_obj s) = Some r ->
    pstep s (mkPS (ps_clock s) (ps_obj s) (pre ++ post)
      (ps_log s ++ [(ps_clock s, c, ps_clock s)]) ((length (ps_log s), r) :: ps_results s))
| p_passed pre post c :
    ps_threads s = pre ++ PCalled c :: post -> ph_pre (ps_clock s) c (ps_obj s) = None ->
    pstep s (mkPS (ps_clock s) (ps_obj s) (pre ++ PChecked (ps_clock s) c :: post)
      (ps_log s) (ps_results s))
| p_locked_returns pre post now c r o :
    ps_threads s = pre ++ PChecked now c :: post -> ph_lock now c (ps_obj s) = (Some r, o) ->
    pstep s (mkPS (ps_clock s) o (pre ++ post)
      (ps_log s ++ [(now, c, ps_clock s)]) ((length (ps_log s), r) :: ps_results s))
| p_locked pre post now c o :
    ps_threads s = pre ++ PChecked now c :: post -> ph_lock now c (ps_obj s) = (None, o) ->
    pstep s (mkPS (ps_clock s) o (pre ++ PLocked (length (ps_log s)) c :: post)
      (ps_log s ++ [(now, c, ps_clock s)]) (ps_results s))
| p_returns pre post k c :
    ps_threads s = pre ++ PLocked k c :: post ->
    pstep s (mkPS (ps_clock s) (ps_obj s) (pre ++ post) (ps_log s)
      ((k, ph_post c (ps_obj s)) :: ps_results s)).

Definition ps_init (t : Time) (o : O) : pstate C O R := mkPS t o [] [] [].

Inductive preachable (t0 : Time) (o0 : O) : pstate C O R -> Prop :=
| pr_init : preachable t0 o0 (ps_init t0 o0)
| pr_step s s' : preachable t0 o0 s -> pstep s s' -> preachable t0 o0 s'.

(** The calls that took effect, in that order. *)
Definition plinear s : list (Time * C) := (ps_log s).*1.

Lemma plinear_length s : length (plinear s) = length (ps_log s).
Proof. apply length_fmap. Qed.

(** The place of a call that has taken effect and not returned. *)
Definition pplace (t : pthread C) : option nat :=
  match t with PLocked k _ => Some k | _ => None end.

Lemma pplaces_split pre t post :
  omap pplace (pre ++ t :: post) ≡ₚ option_list (pplace t) ++ omap pplace (pre ++ post).
Proof. rewrite !omap_app. cbn. destruct (pplace t); cbn; [|done]. by rewrite Permutation_middle. Qed.

(** ** Linearizability *)

Record pinv (o0 : O) (s : pstate C O R) : Prop := {
  pi_obj : ps_obj s = prun (plinear s) o0;
  pi_checked now c : PChecked now c ∈ ps_threads s -> ph_pre now c o0 = None /\ now <= ps_clock s;
  pi_locked k c : PLocked k c ∈ ps_threads s -> pall (plinear s) o0 !! k = Some (ph_post c o0);
  pi_results k r : (k, r) ∈ ps_results s -> pall (plinear s) o0 !! k = Some r;
  pi_places : (ps_results s).*1 ++ omap pplace (ps_threads s) ≡ₚ seq 0 (length (ps_log s));
  pi_times now c t : (now, c, t) ∈ ps_log s -> now <= t <= ps_clock s;
  pi_sorted i j ci ti cj tj : (i <= j)%nat ->
    ps_log s !! i = Some (ci, ti) -> ps_log s !! j = Some (cj, tj) -> ti <= tj;
}.

(** Appending the effect of one call to the log. *)
Lemma plog_times s now c : now <= ps_clock s ->
  (forall now c t, (now, c, t) ∈ ps_log s -> now <= t <= ps_clock s) ->
  forall now' c' t, (now', c', t) ∈ ps_log s ++ [(now, c, ps_clock s)] -> now' <= t <= ps_clock s.
Proof.
  intros Hc H now' c' t. rewrite elem_of_app, list_elem_of_singleton. intros [?|E]; [by eapply H|].
  simplify_eq. lia.
Qed.

Lemma plog_sorted s x :
  (forall now c t, (now, c, t) ∈ ps_log s -> now <= t <= ps_clock s) ->
  (forall i j ci ti cj tj, (i <= j)%nat -> ps_log s !! i = Some (ci, ti) ->
    ps_log s !! j = Some (cj, tj) -> ti <= tj) ->
  forall i j ci ti cj tj, (i <= j)%nat ->
    (ps_log s ++ [(x, ps_clock s)]) !! i = Some (ci, ti) ->
    (ps_log s ++ [(x, ps_clock s)]) !! j = Some (cj, tj) -> ti <= tj.
Proof.
  intros Ht Hs i j ci ti cj tj Hij Hi Hj.
  apply lookup_snoc_Some in Hi as [[? Hi]|[? Hi]], Hj as [[? Hj]|[? Hj]]; simplify_eq; try lia.
  - exact (Hs _ _ _ _ _ _ Hij Hi Hj).
  - apply list_elem_of_lookup_2 in Hi. destruct ci as [now c]. apply Ht in Hi. lia.
Qed.

(** A call takes effect: it goes to the end of the log, and either returns its
    result or is left with the last phase. *)
Lemma pinv_effect o0 s now c ts rs :
  let '(r, o) := ph_op now c (ps_obj s) in
  pinv o0 s -> now <= ps_clock s ->
  (forall now c, PChecked now c ∈ ts -> PChecked now c ∈ ps_threads s) ->
  (forall k c, PLocked k c ∈ ts ->
    PLocked k c ∈ ps_threads s \/ k = length (ps_log s) /\ r = ph_post c o0) ->
  (forall k r', (k, r') ∈ rs -> (k, r') ∈ ps_results s \/ k = length (ps_log s) /\ r' = r) ->
  rs.*1 ++ omap pplace ts ≡ₚ
    length (ps_log s) :: (ps_results s).*1 ++ omap pplace (ps_threads s) ->
  pinv o0 (mkPS (ps_clock s) o ts (ps_log s ++ [(now, c, ps_clock s)]) rs).
Proof.
  destruct (ph_op _ _ _) as [r o] eqn:E. intros H Hc Hck Hrec Hres Hpl.
  assert (plinear (mkPS (ps_clock s) o ts (ps_log s ++ [(now, c, ps_clock s)]) rs)
    = plinear s ++ [(now, c)]) as Hlin by (unfold plinear; cbn [ps_log]; by rewrite fmap_app).
  assert (pall (plinear s ++ [(now, c)]) o0 !! length (ps_log s) = Some r) as Hnew.
  { by rewrite <-plinear_length, pall_snoc_new, <-(pi_obj _ _ H), E. }
  split; rewrite ?Hlin; cbn.
  - by rewrite prun_snoc, <-(pi_obj _ _ H), E.
  - intros now' c' Ht. apply (pi_checked _ _ H now' c'). auto.
  - intros k c' [Ht|[-> Hr]]%Hrec; [|congruence]. apply pall_snoc_l, (pi_locked _ _ H), Ht.
  - intros k r' [Ht|[-> ->]]%Hres; [|done]. apply pall_snoc_l, (pi_results _ _ H), Ht.
  - rewrite Hpl, (pi_places _ _ H), length_app, Nat.add_1_r, seq_S. apply Permutation_cons_append.
  - apply plog_times; [done|apply (pi_times _ _ H)].
  - apply plog_sorted; [apply (pi_times _ _ H)|apply (pi_sorted _ _ H)].
Qed.

(** A step that leaves the log alone. *)
Lemma pinv_internal o0 s t ts rs :
  pinv o0 s -> ps_clock s <= t ->
  (forall now c, PChecked now c ∈ ts -> PChecked now c ∈ ps_threads s \/
    ph_pre now c o0 = None /\ now = ps_clock s) ->
  (forall k c, PLocked k c ∈ ts -> PLocked k c ∈ ps_threads s) ->
  (forall k r, (k, r) ∈ rs -> (k, r) ∈ ps_results s \/
    exists c, PLocked k c ∈ ps_threads s /\ r = ph_post c o0) ->
  rs.*1 ++ omap pplace ts ≡ₚ (ps_results s).*1 ++ omap pplace (ps_threads s) ->
  pinv o0 (mkPS t (ps_obj s) ts (ps_log s) rs).
Proof.
  intros H Ht Hck Hrec Hres Hpl. split; cbn.
  - apply (pi_obj _ _ H).
  - intros now c [Hx|[? ->]]%Hck; [|by split]. apply (pi_checked _ _ H) in Hx. intuition lia.
  - intros k c Hx%Hrec. by apply (pi_locked _ _ H).
  - intros k r [Hx|(c & Hx & ->)]%Hres; [by apply (pi_results _ _ H)|by apply (pi_locked _ _ H)].
  - rewrite Hpl. apply (pi_places _ _ H).
  - intros now c t' Hx%(pi_times _ _ H). lia.
  - apply (pi_sorted _ _ H).
Qed.

Context `{HL : !PhasedLaws C O R}.

(** What the outer phases read never changes. *)
Lemma ph_op_const now c o :
  (forall now' c', ph_pre now' c' (ph_op now c o).2 = ph_pre now' c' o) /\
  (forall c', ph_post c' (ph_op now c o).2 = ph_post c' o).
Proof.
  pose proof (fun now' c' => ph_pre_const now' c' now c o) as H1.
  pose proof (fun c' => ph_post_const c' now c o) as H2. unfold ph_op.
  destruct (ph_pre now c o); [done|]. by destruct (ph_lock now c o) as [[r|] o'].
Qed.

Lemma prun_const calls o :
  (forall now c, ph_pre now c (prun calls o) = ph_pre now c o) /\
  (forall c, ph_post c (prun calls o) = ph_post c o).
Proof.
  induction calls as [|[now c] calls [IH1 IH2]] using rev_ind; [done|].
  rewrite prun_snoc. destruct (ph_op_const now c (prun calls o)) as [H1 H2].
  split; intros; [by rewrite H1|by rewrite H2].
Qed.

Lemma pinv_const o0 s : pinv o0 s ->
  (forall now c, ph_pre now c (ps_obj s) = ph_pre now c o0) /\
  (forall c, ph_post c (ps_obj s) = ph_post c o0).
Proof. intros H. rewrite (pi_obj _ _ H). apply prun_const. Qed.

Lemma pstep_pinv o0 s s' : pinv o0 s -> pstep s s' -> pinv o0 s'.
Proof.
  intros H Hst. destruct (pinv_const _ _ H) as [Hpre Hpost].
  destruct Hst as [t Ht|c|pre post c r Hts Hp|pre post c Hts Hp
    |pre post now c r o Hts Hp|pre post now c o Hts Hp|pre post k c Hts].
  - apply pinv_internal; auto.
  - apply pinv_internal; [done|lia|..]; intros; set_solver.
  - pose proof (pinv_effect o0 s (ps_clock s) c (pre ++ post)
      ((length (ps_log s), r) :: ps_results s)) as He. unfold ph_op in He. rewrite Hp in He.
    apply He; [done|lia|..]; rewrite ?Hts; try (intros; set_solver). cbn. by rewrite pplaces_split.
  - apply pinv_internal; [done|lia|..]; rewrite ?Hts; try (intros; set_solver).
    + rewrite Hpre in Hp. intros now' c'. rewrite !elem_of_app, !elem_of_cons. naive_solver.
    + by rewrite !pplaces_split.
  - pose proof (pinv_effect o0 s now c (pre ++ post)
      ((length (ps_log s), r) :: ps_results s)) as He. unfold ph_op in He.
    destruct (pi_checked _ _ H now c) as [Hn Hnow]; [rewrite Hts; set_solver|].
    rewrite Hpre, Hn, Hp in He.
    apply He; [done|done|..]; rewrite ?Hts; try (intros; set_solver). cbn. by rewrite pplaces_split.
  - pose proof (pinv_effect o0 s now c (pre ++ PLocked (length (ps_log s)) c :: post)
      (ps_results s)) as He. unfold ph_op in He.
    destruct (pi_checked _ _ H now c) as [Hn Hnow]; [rewrite Hts; set_solver|].
    rewrite Hpre, Hn, Hp in He.
    apply He; [done|done|..]; rewrite ?Hts.
    + intros now' c'. set_solver.
    + intros k c'. rewrite !elem_of_app, !elem_of_cons.
      pose proof (ph_post_const c now c (ps_obj s)) as Hc. rewrite Hp in Hc. cbn in Hc.
      intros [?|[E|?]]; [by left; auto| |by left; auto]. simplify_eq. right. split; [done|].
      by rewrite Hc, Hpost.
    + auto.
    + rewrite !pplaces_split. cbn. by rewrite Permutation_middle.
  - apply pinv_internal; [done|lia|..]; rewrite ?Hts; try (intros; set_solver).
    rewrite pplaces_split. cbn. by rewrite Permutation_middle.
Qed.

Lemma preachable_pinv t0 o0 s : preachable t0 o0 s -> pinv o0 s.
Proof.
  induction 1 as [|s s' _ IH Hst]; [|by eapply pstep_pinv].
  split; cbn; try done; try (intros; set_solver).
Qed.

(** Each call returned what it returns at its place, and none twice. *)
Lemma pinv_results_nodup o0 s : pinv o0 s -> NoDup (ps_results s).*1.
Proof.
  intros H. eapply (NoDup_app _ (omap pplace (ps_threads s))). rewrite (pi_places _ _ H). apply NoDup_seq.
Qed.

(** When no call is in progress all have returned. *)
Lemma pinv_all_returned o0 s :
  pinv o0 s -> ps_threads s = [] -> (ps_results s).*1 ≡ₚ seq 0 (length (ps_log s)).
Proof.
  intros H Ht. pose proof (pi_places _ _ H) as Hp. rewrite Ht in Hp. cbn in Hp. by rewrite app_nil_r in Hp.
Qed.
End Phases.

(** ** Executions *)

(** A schedule: let time pass, invoke, or run a phase of the [i]-th call in
    progress. *)
Inductive paction (C : Type) : Type :=
| PTick (t : Time)
| PInvoke (c : C)
| PMove (i : nat).
Arguments PTick {C} t.
Arguments PInvoke {C} c.
Arguments PMove {C} i.

Section Executions.
Context {C O R : Type} `{HP : Phased C O R}.

Definition pexec1 (a : paction C) (s : pstate C O R) : option (pstate C O R) :=
  let '(mkPS clock o ts log rs) := s in
  match a with
  | PTick t => if clock <=? t then Some (mkPS t o ts log rs) else None
  | PInvoke c => Some (mkPS clock o (PCalled c :: ts) log rs)
  | PMove i =>
      let pre := take i ts in let post := drop (S i) ts in
      match ts !! i with
      | None => None
      | Some (PCalled c) =>
          match ph_pre clock c o with
          | Some r => Some (mkPS clock o (pre ++ post) (log ++ [(clock, c, clock)]) ((length log, r) :: rs))
          | None => Some (mkPS clock o (pre ++ PChecked clock c :: post) log rs)
          end
      | Some (PChecked now c) =>
          match ph_lock now c o with
          | (Some r, o) => Some (mkPS clock o (pre ++ post) (log ++ [(now, c, clock)]) ((length log, r) :: rs))
          | (None, o) =>
              Some (mkPS clock o (pre ++ PLocked (length log) c :: post) (log ++ [(now, c, clock)]) rs)
          end
      | Some (PLocked k c) => Some (mkPS clock o (pre ++ post) log ((k, ph_post c o) :: rs))
      end
  end.

Fixpoint pexec (acts : list (paction C)) (s : pstate C O R) : option (pstate C O R) :=
  match acts with
  | [] => Some s
  | a :: acts => s' ← pexec1 a s; pexec acts s'
  end.

Lemma pexec1_sound a s s' : pexec1 a s = Some s' -> pstep s s'.
Proof.
  destruct s as [clock o ts log rs]. destruct a as [t|c|i]; cbn; intros E.
  - case_match eqn:Hc; simplify_eq. zbool. by apply (p_tick (mkPS clock o ts log rs)).
  - simplify_eq. apply (p_call (mkPS clock o ts log rs)).
  - destruct (ts !! i) as [t|] eqn:Hi; [|done]. apply take_drop_middle in Hi. destruct t as [c|now c|k c].
    + destruct (ph_pre _ _ _) eqn:Hp; simplify_eq;
        [by eapply (p_refused (mkPS clock o ts log rs))|by eapply (p_passed (mkPS clock o ts log rs))].
    + destruct (ph_lock _ _ _) as [[r|] o'] eqn:Hp; simplify_eq;
        [by eapply (p_locked_returns (mkPS clock o ts log rs))|by eapply (p_locked (mkPS clock o ts log rs))].
    + simplify_eq. by eapply (p_returns (mkPS clock o ts log rs)).
Qed.

Lemma pexec_reachable acts t0 o0 s s' :
  preachable t0 o0 s -> pexec acts s = Some s' -> preachable t0 o0 s'.
Proof.
  revert s. induction acts as [|a acts IH]; intros s Hr E; cbn in E; [by simplify_eq|].
  destruct (pexec1 a s) as [s1|] eqn:E1; cbn in E; [|done].
  eapply IH; [|done]. eapply pr_step; [done|]. by eapply pexec1_sound.
Qed.
End Executions.
