(* ===== verification/GoStrings.v ===== *)
(** * Byte strings

    The functions of Go's [strings] package that the sources call, on byte
    strings, with the lemmas the parsers need.  Separators are single bytes, as
    in every call of the package. *)

From Stdlib Require Import Strings.Byte.
From stdpp Require Import base numbers list gmap strings.
From S2P Require Import Prelude.
Open Scope Z_scope.

(** [strings.IndexByte]; [-1] is [None]. *)
Fixpoint IndexByte (s : bytes) (c : byte) : option nat :=
  match s with
  | [] => None
  | b :: s => if bool_decide (b = c) then Some O else S <$> IndexByte s c
  end.

Definition HasPrefix (s p : bytes) : bool := bool_decide (take (length p) s = p).

Definition TrimPrefix (s p : bytes) : bytes :=
  if HasPrefix s p then drop (length p) s else s.

(** [strings.Cut(s, sep)]: before, after, found. *)
Definition Cut (s : bytes) (sep : byte) : bytes * bytes * bool :=
  match IndexByte s sep with
  | Some i => (take i s, drop (S i) s, true)
  | None => (s, [], false)
  end.

(** [strings.Split(s, sep)]: at least one part. *)
Fixpoint Split (s : bytes) (sep : byte) : list bytes :=
  match s with
  | [] => [[]]
  | b :: s =>
      if bool_decide (b = sep) then [] :: Split s sep
      else match Split s sep with
           | p :: ps => (b :: p) :: ps
           | [] => [[b]]
           end
  end.

(** [strings.Join(parts, sep)]. *)
Fixpoint Join (parts : list bytes) (sep : byte) : bytes :=
  match parts with
  | [] => []
  | [p] => p
  | p :: ps => p ++ sep :: Join ps sep
  end.

(** ** Lemmas *)

Lemma IndexByte_Some s c i :
  IndexByte s c = Some i <-> s = take i s ++ c :: drop (S i) s /\ c ∉ take i s.
Proof.
  revert i. induction s as [|b s IH]; intros i; simpl.
  { split; [done|]. intros [H _]. by destruct (take i []). }
  case_bool_decide as Hb.
  - subst b. split.
    + intros ?; simplify_eq. simpl. split; [done|set_solver].
    + intros [_ Hn]. destruct i; [done|]. simpl in Hn. set_solver.
  - split.
    + destruct (IndexByte s c) as [j|] eqn:E; intros ?; simplify_eq/=.
      destruct (proj1 (IH j) eq_refl) as [Hs Hn]. split; [by f_equal|set_solver].
    + intros [Hs Hn]. destruct i as [|i]; simpl in *; simplify_eq.
      rewrite (proj2 (IH i)); [done|]. split; [done|set_solver].
Qed.

Lemma IndexByte_None s c : IndexByte s c = None <-> c ∉ s.
Proof.
  induction s as [|b s IH]; simpl; [set_solver|].
  case_bool_decide as Hb; [set_solver|].
  destruct (IndexByte s c); simpl; set_solver.
Qed.

(** The first separator of [p ++ c :: q] when [p] has none. *)
Lemma IndexByte_app p c q : c ∉ p -> IndexByte (p ++ c :: q) c = Some (length p).
Proof.
  intros. apply IndexByte_Some. rewrite take_app_length.
  split; [|done]. f_equal. f_equal.
  change (S (length p)) with (1 + length p)%nat. rewrite Nat.add_comm, <-drop_drop.
  by rewrite drop_app_length.
Qed.

Lemma IndexByte_split s c i :
  IndexByte s c = Some i ->
  exists p q, s = p ++ c :: q /\ c ∉ p /\ take i s = p /\ drop (S i) s = q.
Proof. intros [H1 H2]%IndexByte_Some. by exists (take i s), (drop (S i) s). Qed.

Lemma HasPrefix_true s p : HasPrefix s p = true <-> exists q, s = p ++ q.
Proof.
  unfold HasPrefix. rewrite bool_decide_eq_true. split.
  - intros <-. exists (drop (length p) s). by rewrite take_drop.
  - intros [q ->]. by rewrite take_app_length.
Qed.

Lemma HasPrefix_app p q : HasPrefix (p ++ q) p = true.
Proof. apply HasPrefix_true. by exists q. Qed.

Lemma TrimPrefix_app p q : TrimPrefix (p ++ q) p = q.
Proof. unfold TrimPrefix. by rewrite HasPrefix_app, drop_app_length. Qed.

Lemma Cut_app p c q : c ∉ p -> Cut (p ++ c :: q) c = (p, q, true).
Proof.
  intros. unfold Cut. rewrite IndexByte_app by done. rewrite take_app_length.
  change (S (length p)) with (1 + length p)%nat.
  by rewrite Nat.add_comm, <-drop_drop, drop_app_length.
Qed.

Lemma Cut_none s c : c ∉ s -> Cut s c = (s, [], false).
Proof. intros H%IndexByte_None. unfold Cut. by rewrite H. Qed.

Lemma Split_nonempty s c : Split s c <> [].
Proof. destruct s as [|b s]; simpl; [done|]. repeat case_match; done. Qed.

Lemma Join_Split s c : Join (Split s c) c = s.
Proof.
  induction s as [|b s IH]; simpl; [done|].
  case_bool_decide as Hb.
  - subst b. pose proof (Split_nonempty s c). simpl. case_match; [done|].
    by rewrite <-IH.
  - pose proof (Split_nonempty s c). destruct (Split s c) as [|p [|p' ps]] eqn:E; [done|..];
      simpl in *; by rewrite <-IH.
Qed.

Lemma Split_parts s c : Forall (fun p => c ∉ p) (Split s c).
Proof.
  induction s as [|b s IH]; simpl; [repeat constructor; set_solver|].
  case_bool_decide as Hb; [constructor; [set_solver|done]|].
  destruct IH; repeat constructor; set_solver.
Qed.

Lemma Split_no_sep p c : c ∉ p -> Split p c = [p].
Proof.
  induction p as [|b p IH]; intros Hp; simpl; [done|].
  rewrite bool_decide_eq_false_2 by set_solver. rewrite IH by set_solver. done.
Qed.

Lemma Split_app p c q : c ∉ p -> Split (p ++ c :: q) c = p :: Split q c.
Proof.
  induction p as [|b p IH]; intros Hp; simpl.
  { by rewrite bool_decide_eq_true_2. }
  rewrite bool_decide_eq_false_2 by set_solver. rewrite IH by set_solver. done.
Qed.

Lemma Split_Join ps c :
  ps <> [] -> Forall (fun p => c ∉ p) ps -> Split (Join ps c) c = ps.
Proof.
  intros Hne H. induction H as [|p ps Hp Hps IH]; [done|].
  destruct ps as [|p' ps]; [by apply Split_no_sep|].
  change (Join (p :: p' :: ps) c) with (p ++ c :: Join (p' :: ps) c).
  rewrite Split_app by done. by rewrite IH.
Qed.
