(* ===== verification/GoText.v ===== *)
(** * Text

    What the demo programs use of Go's [strconv], [unicode/utf8], [unicode] and
    [strings] packages: decimal integers, runes and their UTF-8 encoding, and
    splitting at white space. *)

From Stdlib Require Import Strings.Byte Arith.Wf_nat.
From stdpp Require Import base numbers list gmap strings.
From S2P Require Import Prelude Machine GoStrings.
Open Scope Z_scope.

(** ** Decimal integers *)

Definition digit (d : Z) : byte := to_byte (48 + d).

(** The decimal digits of [n], most significant first; [fuel] digits at most. *)
Fixpoint decimal (fuel : nat) (n : Z) (acc : bytes) : bytes :=
  match fuel with
  | O => acc
  | S fuel =>
      let acc := digit (n mod 10) :: acc in
      if n <? 10 then acc else decimal fuel (n / 10) acc
  end.

(** [strconv.Itoa(n)], and [fmt]'s [%d]: an int has at most 19 digits. *)
Definition Itoa (n : Z) : bytes :=
  if n <? 0 then x2d :: decimal 20 (- n) [] else decimal 20 n [].

Definition syntaxError (s : bytes) : error :=
  Errorf "strconv.Atoi: parsing %q: invalid syntax" None [ArgStr s].
Definition rangeError (s : bytes) : error :=
  Errorf "strconv.Atoi: parsing %q: value out of range" None [ArgStr s].

(** The loop of [ParseUint] in base 10; [s0] is the whole input, for the error
    values. *)
Fixpoint parse_uint (s0 : bytes) (n : Z) (s : bytes) : go Z :=
  match s with
  | [] => Ok n
  | c :: s =>
      let d := bval c - 48 in
      if (d <? 0) || (9 <? d) then Err (syntaxError s0)
      else if 2 ^ 64 / 10 + 1 <=? n then Err (rangeError s0)
      else if 2 ^ 64 - 1 <? n * 10 + d then Err (rangeError s0)
      else parse_uint s0 (n * 10 + d) s
  end.

(** [strconv.Atoi(s)], which is [ParseInt(s, 10, 0)]; its shortcut for inputs
    under 19 bytes computes the same. *)
Definition Atoi (s : bytes) : go Z :=
  match s with
  | [] => Err (syntaxError s)
  | c :: rest =>
      let neg := bool_decide (c = x2d) in
      let digits := if neg || bool_decide (c = x2b) then rest else s in
      if bool_decide (digits = []) then Err (syntaxError s) else
      un ← parse_uint s 0 digits;
      if negb neg && (2 ^ 63 <=? un) then Err (rangeError s)
      else if neg && (2 ^ 63 <? un) then Err (rangeError s)
      else Ok (if neg then - un else un)
  end.

Lemma bval_digit d : 0 <= d < 10 -> bval (digit d) = 48 + d.
Proof. intros. unfold digit. rewrite bval_to_byte_small; lia. Qed.

(** Reading the digits of [n] after [m] gives [m * 10^k + n], [k] being their
    number, as long as it fits 64 bits. *)
Lemma parse_decimal fuel s0 n m acc :
  0 <= n < 10 ^ Z.of_nat fuel -> 0 <= m -> fuel <> O ->
  exists k, 0 < k <= Z.of_nat fuel /\ 10 ^ k <= Z.max 10 (10 * n) /\
    (m * 10 ^ k + n < 2 ^ 64 ->
     parse_uint s0 m (decimal fuel n acc) = parse_uint s0 (m * 10 ^ k + n) acc).
Proof.
  revert n m acc. induction fuel as [|fuel IH]; intros n m acc Hn Hm Hf; [done|].
  cbn [decimal]. pose proof (Z.mod_pos_bound n 10 ltac:(lia)) as Hmod.
  assert (forall m', 0 <= m' -> m' * 10 + n mod 10 < 2 ^ 64 ->
    parse_uint s0 m' (digit (n mod 10) :: acc) = parse_uint s0 (m' * 10 + n mod 10) acc) as Hstep.
  { intros m' Hm' Hlt. cbn [parse_uint]. rewrite bval_digit by lia.
    replace (48 + n mod 10 - 48) with (n mod 10) by lia.
    rewrite (proj2 (Z.ltb_ge _ 0)), (proj2 (Z.ltb_ge 9 _)) by lia. cbn [orb].
    rewrite (proj2 (Z.leb_gt _ _)) by plia. rewrite (proj2 (Z.ltb_ge _ _)) by plia. done. }
  destruct (Z.ltb_spec n 10) as [Hlt|Hge].
  - exists 1. split_and!; [lia..|]. intros Hb. rewrite Z.pow_1_r in *.
    rewrite (Z.mod_small n) in * by lia. by apply Hstep.
  - assert (fuel <> O) as Hf' by (destruct fuel; [cbn in Hn; lia|done]).
    rewrite Nat2Z.inj_succ, Z.pow_succ_r in Hn by lia.
    destruct (IH (n / 10) m (digit (n mod 10) :: acc)) as (k & Hk & Hp & E); [|done|done|].
    { split; [plia|]. apply Z.div_lt_upper_bound; lia. }
    exists (k + 1). rewrite Z.pow_add_r, Z.pow_1_r by lia. split_and!; [lia..| |].
    { pose proof (Z.div_mod n 10 ltac:(lia)). lia. }
    intros Hb. pose proof (Z.div_mod n 10 ltac:(lia)) as Hd.
    assert (m * 10 ^ k + n / 10 < 2 ^ 64) as Hb' by nia.
    rewrite (E Hb'), Hstep; [|nia|nia]. f_equal. nia.
Qed.

Lemma parse_Itoa s0 n : 0 <= n < 2 ^ 64 -> parse_uint s0 0 (decimal 20 n []) = Ok n.
Proof.
  intros Hn. destruct (parse_decimal 20 s0 n 0 []) as (k & _ & _ & E); [|lia|done|].
  - change (Z.of_nat 20) with 20. pow_norm. change (10 ^ 20) with 100000000000000000000. lia.
  - rewrite E by lia. cbn [parse_uint]. done.
Qed.

Lemma decimal_cons fuel n acc :
  exists d ds, decimal (S fuel) n acc = digit d :: ds /\ 0 <= d < 10.
Proof.
  revert n acc. induction fuel as [|fuel IH]; intros n acc; cbn [decimal];
    pose proof (Z.mod_pos_bound n 10 ltac:(lia)) as Hmod.
  - destruct (n <? 10); eauto.
  - destruct (n <? 10); [eauto|]. apply (IH (n / 10) (digit (n mod 10) :: acc)).
Qed.

(** Printing and reading an int. *)
Lemma Atoi_Itoa n : is_i64 n -> Atoi (Itoa n) = Ok n.
Proof.
  unfold is_i64. intros Hn. unfold Itoa, Atoi. destruct (Z.ltb_spec n 0) as [Hlt|Hge].
  - destruct (decimal_cons 19 (- n) []) as (d & ds & E & _). cbv beta iota zeta.
    rewrite (bool_decide_eq_true_2 (x2d = x2d)) by done.
    cbn [orb]. rewrite bool_decide_eq_false_2 by (by rewrite E). rewrite parse_Itoa by plia.
    cbn [mbind go_bind negb andb]. rewrite (proj2 (Z.ltb_ge _ _)) by lia. f_equal. lia.
  - destruct (decimal_cons 19 n []) as (d & ds & E & Hd).
    pose proof (parse_Itoa (decimal 20 n []) n ltac:(lia)) as Hp. rewrite E in *.
    assert (forall x, x = x2d \/ x = x2b -> digit d <> x) as Hne.
    { intros x Hx Heq%(f_equal bval). rewrite bval_digit in Heq by done.
      destruct Hx as [-> | ->]; [change (bval x2d) with 45 in Heq|change (bval x2b) with 43 in Heq]; lia. }
    cbv beta iota zeta. rewrite (bool_decide_eq_false_2 (digit d = x2d)) by auto.
    rewrite (bool_decide_eq_false_2 (digit d = x2b)) by auto. cbn [orb].
    rewrite bool_decide_eq_false_2 by done. rewrite Hp. cbn [mbind go_bind negb andb].
    rewrite (proj2 (Z.leb_gt _ _)) by lia. done.
Qed.

(** A decimal determines its number. *)
Lemma Itoa_inj n m : is_u64 n -> is_u64 m -> Itoa n = Itoa m -> n = m.
Proof.
  unfold is_u64, Itoa. intros Hn Hm. rewrite !(proj2 (Z.ltb_ge _ 0)) by lia. intros E.
  pose proof (parse_Itoa [] n Hn) as P. rewrite E, parse_Itoa in P by done. by simplify_eq.
Qed.

Lemma decimal_digits fuel n acc :
  Forall (fun b => 48 <= bval b <= 57) acc -> Forall (fun b => 48 <= bval b <= 57) (decimal fuel n acc).
Proof.
  revert n acc. induction fuel as [|fuel IH]; intros n acc Ha; cbn; [done|].
  pose proof (Z.mod_pos_bound n 10 ltac:(lia)).
  assert (Forall (fun b => 48 <= bval b <= 57) (digit (n mod 10) :: acc))
    by (constructor; [rewrite bval_digit; lia|done]).
  destruct (n <? 10); [done|]. by apply IH.
Qed.

Lemma Itoa_no_dot n : 0 <= n -> x2e ∉ Itoa n.
Proof.
  unfold Itoa. intros Hn. rewrite (proj2 (Z.ltb_ge _ 0)) by lia. intros Hin.
  pose proof (decimal_digits 20 n [] (List.Forall_nil _)) as Hd. rewrite Forall_forall in Hd.
  apply Hd in Hin. change (bval x2e) with 46 in Hin. lia.
Qed.

(** What Atoi returns fits an int. *)
Lemma parse_uint_range s0 n s r : 0 <= n -> parse_uint s0 n s = Ok r -> 0 <= r.
Proof.
  revert n. induction s as [|c s IH]; intros n Hn E; cbn in E; [by simplify_eq|].
  destruct (_ || _) eqn:Hd; [done|]. zbool. repeat (destruct (_ <=? _); [done|]).
  destruct (_ <? _); [done|]. eapply IH; [|done]. lia.
Qed.

Lemma Atoi_range s n : Atoi s = Ok n -> is_i64 n.
Proof.
  unfold Atoi, is_i64. destruct s as [|c rest]; [done|]. intros E.
  destruct (bool_decide (_ = [])); [done|]. apply bind_Ok in E as (un & Eu & E).
  apply parse_uint_range in Eu; [|lia].
  destruct (bool_decide (c = x2d)); cbn in E.
  - destruct (Z.ltb_spec (2 ^ 63) un); simplify_eq. plia.
  - destruct (Z.leb_spec (2 ^ 63) un); simplify_eq. plia.
Qed.

Lemma parse_uint_never_panics s0 n s p : parse_uint s0 n s <> Panic p.
Proof.
  revert n. induction s as [|c s IH]; intros n; cbn; [done|].
  repeat (case_match; [done|]). apply IH.
Qed.

Lemma Atoi_never_panics s p : Atoi s <> Panic p.
Proof.
  unfold Atoi. destruct s as [|c rest]; [done|]. case_match; [done|].
  intros [E|(un & _ & E)]%bind_Panic; [by apply parse_uint_never_panics in E|].
  by repeat case_match.
Qed.

(** ** Runes *)

Definition RuneError : Z := 0xFFFD.
Definition MaxRune : Z := 0x10FFFF.

(** A Unicode scalar value: in range and not a surrogate. *)
Definition ValidRune (r : Z) : bool :=
  ((0 <=? r) && (r <? 0xD800)) || ((0xDFFF <? r) && (r <=? MaxRune)).

(** [lo <= b <= hi] on bytes. *)
Definition within (lo hi : Z) (b : byte) : bool := (lo <=? bval b) && (bval b <=? hi).

(** [utf8.DecodeRuneInString(s)]: the first rune and its width; an encoding that
    is invalid or cut short is RuneError of width 1. *)
Definition DecodeRune (s : bytes) : Z * nat :=
  match s with
  | [] => (RuneError, 0%nat)
  | b0 :: rest =>
      let v0 := bval b0 in
      if v0 <? 0x80 then (v0, 1%nat)
      else if v0 <? 0xC2 then (RuneError, 1%nat)
      else if v0 <? 0xE0 then
        match rest with
        | b1 :: _ =>
            if within 0x80 0xBF b1 then (v0 mod 32 * 64 + bval b1 mod 64, 2%nat)
            else (RuneError, 1%nat)
        | _ => (RuneError, 1%nat)
        end
      else if v0 <? 0xF0 then
        let lo := if v0 =? 0xE0 then 0xA0 else 0x80 in
        let hi := if v0 =? 0xED then 0x9F else 0xBF in
        match rest with
        | b1 :: b2 :: _ =>
            if within lo hi b1 && within 0x80 0xBF b2 then
              (v0 mod 16 * 4096 + bval b1 mod 64 * 64 + bval b2 mod 64, 3%nat)
            else (RuneError, 1%nat)
        | _ => (RuneError, 1%nat)
        end
      else if v0 <? 0xF5 then
        let lo := if v0 =? 0xF0 then 0x90 else 0x80 in
        let hi := if v0 =? 0xF4 then 0x8F else 0xBF in
        match rest with
        | b1 :: b2 :: b3 :: _ =>
            if within lo hi b1 && within 0x80 0xBF b2 && within 0x80 0xBF b3 then
              (v0 mod 8 * 262144 + bval b1 mod 64 * 4096 + bval b2 mod 64 * 64 + bval b3 mod 64, 4%nat)
            else (RuneError, 1%nat)
        | _ => (RuneError, 1%nat)
        end
      else (RuneError, 1%nat)
  end.

(** [utf8.AppendRune(nil, r)]. *)
Definition EncodeRune (r : Z) : bytes :=
  let r := if ValidRune r then r else RuneError in
  if r <? 0x80 then [to_byte r]
  else if r <? 0x800 then [to_byte (0xC0 + r / 64); to_byte (0x80 + r mod 64)]
  else if r <? 0x10000 then
    [to_byte (0xE0 + r / 4096); to_byte (0x80 + r / 64 mod 64); to_byte (0x80 + r mod 64)]
  else [to_byte (0xF0 + r / 262144); to_byte (0x80 + r / 4096 mod 64);
        to_byte (0x80 + r / 64 mod 64); to_byte (0x80 + r mod 64)].

(** The runes of a string with the bytes each stands for, as [for range] visits
    them; every rune takes at least a byte, so the length is enough fuel. *)
Fixpoint spans_from (fuel : nat) (s : bytes) : list (Z * bytes) :=
  match fuel, s with
  | S fuel, _ :: _ =>
      let '(r, n) := DecodeRune s in (r, take n s) :: spans_from fuel (drop n s)
  | _, _ => []
  end.
Definition spans (s : bytes) : list (Z * bytes) := spans_from (length s) s.

(** The conversions [[]rune(s)] and [string(rs)]. *)
Definition runes (s : bytes) : list Z := (spans s).*1.
Definition string_of_runes (rs : list Z) : bytes := concat (EncodeRune <$> rs).

(** [utf8.ValidString(s)]. *)
Definition ValidString (s : bytes) : bool :=
  forallb (fun '(r, b) => negb (bool_decide (r = RuneError) && bool_decide (length b = 1%nat))) (spans s).

(** [unicode.IsSpace(r)]. *)
Definition IsSpace (r : Z) : bool :=
  ((9 <=? r) && (r <=? 13)) || (r =? 0x20) || (r =? 0x85) || (r =? 0xA0) || (r =? 0x1680) ||
  ((0x2000 <=? r) && (r <=? 0x200a)) || (r =? 0x2028) || (r =? 0x2029) || (r =? 0x202f) ||
  (r =? 0x205f) || (r =? 0x3000).

(** [strings.Fields(s)]: the maximal runs of non-space runes. [cur] is the field
    being read. *)
Fixpoint fields_from (cur : bytes) (sp : list (Z * bytes)) : list bytes :=
  match sp with
  | [] => if bool_decide (cur = []) then [] else [cur]
  | (r, b) :: sp =>
      if IsSpace r then
        (if bool_decide (cur = []) then [] else [cur]) ++ fields_from [] sp
      else fields_from (cur ++ b) sp
  end.
Definition Fields (s : bytes) : list bytes := fields_from [] (spans s).

(** *** Decoding what was encoded *)

Lemma ValidRune_iff r : ValidRune r = true <-> 0 <= r < 0xD800 \/ 0xDFFF < r <= MaxRune.
Proof.
  unfold ValidRune. rewrite orb_true_iff, !andb_true_iff, !Z.leb_le, !Z.ltb_lt. lia.
Qed.

Lemma within_true lo hi b : within lo hi b = true <-> lo <= bval b <= hi.
Proof. unfold within. rewrite andb_true_iff, !Z.leb_le. lia. Qed.

Lemma DecodeRune_width b s : (1 <= (DecodeRune (b :: s)).2 <= 4)%nat.
Proof. unfold DecodeRune. repeat case_match; cbn; lia. Qed.

(** Decide a guard whose sides are quotients and remainders. *)
Ltac pguard :=
  match goal with
  | |- context [?a <? ?b] =>
      first [ rewrite (proj2 (Z.ltb_lt a b)) by plia | rewrite (proj2 (Z.ltb_ge a b)) by plia ]
  | |- context [?a =? ?b] =>
      first [ rewrite (proj2 (Z.eqb_eq a b)) by plia | rewrite (proj2 (Z.eqb_neq a b)) by plia ]
  end.

Lemma DecodeRune_encoded r s :
  ValidRune r = true -> DecodeRune (EncodeRune r ++ s) = (r, length (EncodeRune r)).
Proof.
  intros Hv. unfold EncodeRune. rewrite Hv. apply ValidRune_iff in Hv. unfold MaxRune in Hv.
  destruct (Z.ltb_spec r 0x80) as [H1|H1]; [|destruct (Z.ltb_spec r 0x800) as [H2|H2];
    [|destruct (Z.ltb_spec r 0x10000) as [H3|H3]]]; cbn [app DecodeRune length];
    rewrite !bval_to_byte_small by plia.
  - by pguard.
  - do 3 pguard. rewrite (proj2 (within_true _ _ _)) by (rewrite bval_to_byte_small; plia).
    f_equal. plia.
  - do 4 pguard.
    rewrite (proj2 (within_true _ _ _)).
    + rewrite (proj2 (within_true _ _ _)) by (rewrite bval_to_byte_small; plia). cbn [andb].
      f_equal. plia.
    + rewrite bval_to_byte_small by plia.
      destruct (Z.eqb_spec (224 + r / 4096) 224), (Z.eqb_spec (224 + r / 4096) 237); plia.
  - do 5 pguard.
    rewrite (proj2 (within_true _ _ _)).
    + rewrite !(proj2 (within_true 128 191 _)) by (rewrite bval_to_byte_small; plia). cbn [andb].
      f_equal. plia.
    + rewrite bval_to_byte_small by plia.
      destruct (Z.eqb_spec (240 + r / 262144) 240), (Z.eqb_spec (240 + r / 262144) 244); plia.
Qed.

Lemma to_byte_cons z b l l' : z = bval b -> l = l' -> to_byte z :: l = b :: l'.
Proof. intros -> ->. by rewrite to_byte_bval. Qed.

(** A decoded rune is a scalar value, and its encoding is the bytes it was read
    from unless those were invalid. *)
Lemma DecodeRune_exact b s r n :
  DecodeRune (b :: s) = (r, n) ->
  ValidRune r = true /\ (r = RuneError /\ n = 1%nat \/ EncodeRune r = take n (b :: s)).
Proof.
  unfold DecodeRune. intros E. pose proof (bval_range b) as Hb.
  assert (ValidRune RuneError = true) as He by done.
  repeat match goal with
  | H : (if ?c then _ else _) = (r, n) |- _ => destruct c eqn:?
  | H : match ?l with [] => _ | _ => _ end = (r, n) |- _ => destruct l
  | H : (RuneError, 1%nat) = (r, n) |- _ => injection H as <- <-; by auto
  end; injection E as <- <-; zbool;
  repeat match goal with H : within _ _ _ = true |- _ => apply within_true in H end;
  repeat match goal with H : context [if ?c then _ else _] |- _ => destruct c eqn:?; zbool end;
  try (exfalso; lia);
  match goal with |- ValidRune ?r = true /\ _ =>
    let x := fresh "x" in let Hx := fresh "Hx" in
    remember r as x eqn:Hx;
    assert (ValidRune x = true) as Hv by (apply ValidRune_iff; unfold MaxRune; plia);
    split; [done|right]; unfold EncodeRune; rewrite Hv; clear Hv He
  end;
  repeat pguard; cbn [take firstn]; repeat (apply to_byte_cons; [plia|]); done.
Qed.

(** *** Strings of runes *)

Lemma spans_from_enough fuel s : (length s <= fuel)%nat -> spans_from fuel s = spans s.
Proof.
  unfold spans. remember (length s) as n eqn:Hn. revert fuel s Hn.
  induction (lt_wf n) as [n _ IH]. intros fuel s -> Hle.
  destruct s as [|b s]; [by destruct fuel|]. destruct fuel as [|fuel]; [cbn in Hle; lia|].
  cbn [length] in *. cbn [spans_from]. pose proof (DecodeRune_width b s) as Hw.
  destruct (DecodeRune (b :: s)) as [r n]. cbn [snd] in Hw. f_equal.
  assert (length (drop n (b :: s)) < S (length s))%nat as Hd by (rewrite length_drop; cbn [length]; lia).
  transitivity (spans_from (length (drop n (b :: s))) (drop n (b :: s))); [|symmetry];
    (apply (IH _ Hd); [done|lia]).
Qed.

Lemma spans_cons b s :
  spans (b :: s) =
  let '(r, n) := DecodeRune (b :: s) in (r, take n (b :: s)) :: spans (drop n (b :: s)).
Proof.
  unfold spans at 1. cbn [length spans_from]. pose proof (DecodeRune_width b s) as Hw.
  destruct (DecodeRune (b :: s)) as [r n]. cbn [snd] in Hw. f_equal.
  apply spans_from_enough. rewrite length_drop. cbn [length]. lia.
Qed.

Lemma EncodeRune_cons r : exists b bs, EncodeRune r = b :: bs.
Proof. unfold EncodeRune. repeat case_match; eauto. Qed.

Lemma spans_encoded r s :
  ValidRune r = true -> spans (EncodeRune r ++ s) = (r, EncodeRune r) :: spans s.
Proof.
  intros Hv. pose proof (DecodeRune_encoded r s Hv) as E.
  destruct (EncodeRune_cons r) as (b & bs & Hb). rewrite Hb in *. cbn [app].
  rewrite spans_cons. cbn [app] in E. rewrite E.
  change (b :: bs ++ s) with ((b :: bs) ++ s). by rewrite take_app_length, drop_app_length.
Qed.

Lemma spans_of_runes rs s :
  Forall (fun r => ValidRune r = true) rs ->
  spans (string_of_runes rs ++ s) = ((fun r => (r, EncodeRune r)) <$> rs) ++ spans s.
Proof.
  unfold string_of_runes. induction 1 as [|r rs Hr _ IH]; [done|]. cbn [fmap list_fmap concat app].
  rewrite <-app_assoc, spans_encoded by done. cbn. f_equal. exact IH.
Qed.

(** [[]rune(string(rs)) = rs] on scalar values. *)
Lemma runes_string_of_runes rs :
  Forall (fun r => ValidRune r = true) rs -> runes (string_of_runes rs) = rs.
Proof.
  intros H. unfold runes. rewrite <-(app_nil_r (string_of_runes rs)), spans_of_runes by done.
  cbn. rewrite app_nil_r, <-list_fmap_compose. apply list_fmap_id.
Qed.

(** Induction on the runes of a string. *)
Lemma spans_ind (P : bytes -> list (Z * bytes) -> Prop) :
  P [] [] ->
  (forall b s r n, DecodeRune (b :: s) = (r, n) -> (1 <= n)%nat ->
    P (drop n (b :: s)) (spans (drop n (b :: s))) ->
    P (b :: s) ((r, take n (b :: s)) :: spans (drop n (b :: s)))) ->
  forall s, P s (spans s).
Proof.
  intros H0 Hs s. remember (length s) as k eqn:Hk. revert s Hk.
  induction (lt_wf k) as [k _ IH]. intros s ->. destruct s as [|b s]; [done|].
  pose proof (DecodeRune_width b s) as Hw. rewrite spans_cons.
  destruct (DecodeRune (b :: s)) as [r n] eqn:E. cbn [snd] in Hw. apply Hs; [done|lia|].
  eapply IH; [|done]. rewrite length_drop. cbn [length]. lia.
Qed.

Lemma runes_valid s : Forall (fun r => ValidRune r = true) (runes s).
Proof.
  unfold runes. apply (spans_ind (fun _ sp => Forall (fun r => ValidRune r = true) sp.*1)); [done|].
  intros b s' r n E _ IH. cbn. apply DecodeRune_exact in E as [? _]. by constructor.
Qed.

Lemma spans_concat s : concat (spans s).*2 = s.
Proof.
  apply (spans_ind (fun s sp => concat sp.*2 = s)); [done|].
  intros b s' r n _ _ IH. cbn [fmap list_fmap concat snd]. rewrite IH. apply take_drop.
Qed.

(** The strings that survive the round trip through runes are the valid ones. *)
Lemma ValidString_iff s : ValidString s = true <-> string_of_runes (runes s) = s.
Proof.
  unfold ValidString, runes, string_of_runes. split.
  - apply (spans_ind (fun s sp => forallb _ sp = true -> concat (EncodeRune <$> sp.*1) = s)); [done|].
    intros b s' r n E Hn IH. cbn [forallb]. rewrite andb_true_iff. intros [Hr Hf].
    cbn [fmap list_fmap concat fst]. rewrite (IH Hf). apply DecodeRune_exact in E as [_ [[-> ->]|E]].
    + by cbn in Hr.
    + by rewrite E, take_drop.
  - intros E. rewrite <-E, <-(app_nil_r (concat _)).
    change (concat (EncodeRune <$> (spans s).*1)) with (string_of_runes (runes s)).
    rewrite spans_of_runes by apply runes_valid. cbn. rewrite app_nil_r.
    apply forallb_forall. intros [r b] Hin%in_map_iff. destruct Hin as (r' & Er & _). simplify_eq.
    destruct (bool_decide (r = RuneError)) eqn:Hr; [|done]. zbool. by subst.
Qed.

(** A decoded rune re-encodes to at most three times the bytes it was read from. *)
Lemma runes_growth s : (length (string_of_runes (runes s)) <= 3 * length s)%nat.
Proof.
  unfold runes, string_of_runes.
  apply (spans_ind (fun s sp => (length (concat (EncodeRune <$> sp.*1)) <= 3 * length s)%nat)); [done|].
  intros b s' r n E Hn IH. cbn [fmap list_fmap concat fst]. rewrite length_app.
  pose proof (take_drop n (b :: s')) as Htd. apply (f_equal length) in Htd. rewrite length_app in Htd.
  apply DecodeRune_exact in E as [_ [[-> ->]|E]].
  - change (length (EncodeRune RuneError)) with 3%nat. cbn [take length] in Htd. cbn [length] in *. lia.
  - rewrite E. cbn [length] in *. lia.
Qed.

(** ** Fields *)

(** A word: scalar values none of which is a space. *)
Definition word (rs : list Z) : Prop :=
  rs <> [] /\ Forall (fun r => ValidRune r = true /\ IsSpace r = false) rs.

Lemma fields_word rs cur sp :
  Forall (fun r => ValidRune r = true /\ IsSpace r = false) rs ->
  fields_from cur (((fun r => (r, EncodeRune r)) <$> rs) ++ sp) =
  fields_from (cur ++ string_of_runes rs) sp.
Proof.
  intros H. revert cur. induction H as [|r rs [_ Hr] _ IH]; intros cur; cbn.
  - by rewrite app_nil_r.
  - rewrite Hr, IH. unfold string_of_runes. cbn. by rewrite app_assoc.
Qed.

(** Words separated by single spaces are split at the spaces. *)
Lemma Fields_Join ws :
  Forall word ws -> Fields (Join (string_of_runes <$> ws) x20) = string_of_runes <$> ws.
Proof.
  intros H. unfold Fields. induction H as [|w ws [Hne Hw] Hws IH]; [done|].
  assert (Forall (fun r => ValidRune r = true) w) as Hv by (eapply Forall_impl; [exact Hw|naive_solver]).
  assert (string_of_runes w <> []) as Hs.
  { destruct w as [|r w]; [done|]. unfold string_of_runes. cbn.
    by destruct (EncodeRune_cons r) as (? & ? & ->). }
  destruct ws as [|w' ws]; cbn [fmap list_fmap Join].
  - rewrite <-(app_nil_r (string_of_runes w)) at 1. rewrite spans_of_runes, fields_word by done.
    cbn. by rewrite bool_decide_eq_false_2.
  - rewrite spans_of_runes, fields_word by done. cbn [app].
    change (x20 :: ?l) with (EncodeRune 0x20 ++ l). rewrite spans_encoded by done. cbn [fields_from].
    change (IsSpace 32) with true. cbv iota. rewrite bool_decide_eq_false_2 by done.
    cbn [app]. f_equal. exact IH.
Qed.
