(* ===== verification/GoJson.v ===== *)
(** * JSON

    [encoding/json] (Go 1.24) as far as Unmarshal into plain structs needs it:
    the syntax check and the syntax tree, the unquoting of strings, the matching
    of member names to fields and the decoding of strings, slices and structs into
    values that may already hold something. *)

From Stdlib Require Import Strings.Byte.
From stdpp Require Import base numbers list gmap strings.
From S2P Require Import Prelude Machine GoStrings GoText.
Open Scope Z_scope.

(** A JSON value.  A number keeps its spelling; the members of an object keep
    their order and duplicates; strings are unquoted. *)
Inductive json : Type :=
| JNull
| JBool (b : bool)
| JNum (lit : bytes)
| JStr (s : bytes)
| JArr (items : list json)
| JObj (members : list (bytes * json)).

(** ** Lexical syntax *)

Definition is_ws (c : byte) : bool :=
  bool_decide (c = x20) || bool_decide (c = x09) || bool_decide (c = x0d) || bool_decide (c = x0a).

Fixpoint skip_ws (s : bytes) : bytes :=
  match s with
  | c :: rest => if is_ws c then skip_ws rest else s
  | [] => []
  end.

Definition is_digit (c : byte) : bool := within 48 57 c.

Definition hex_val (c : byte) : option Z :=
  if within 48 57 c then Some (bval c - 48)
  else if within 97 102 c then Some (bval c - 97 + 10)
  else if within 65 70 c then Some (bval c - 65 + 10)
  else None.

(** The byte that a one-letter escape stands for. *)
Definition escape_val (c : byte) : option byte :=
  if bool_decide (c = x22) then Some x22
  else if bool_decide (c = x5c) then Some x5c
  else if bool_decide (c = x2f) then Some x2f
  else if bool_decide (c = x62) then Some x08
  else if bool_decide (c = x66) then Some x0c
  else if bool_decide (c = x6e) then Some x0a
  else if bool_decide (c = x72) then Some x0d
  else if bool_decide (c = x74) then Some x09
  else None.

Definition u4 (a b c d : byte) : option Z :=
  match hex_val a, hex_val b, hex_val c, hex_val d with
  | Some a, Some b, Some c, Some d => Some (a * 4096 + b * 256 + c * 16 + d)
  | _, _, _, _ => None
  end.

(** The scanner's view of a string: its body up to the closing quote, and what
    follows; the opening quote has been read. *)
Fixpoint scan_string (s : bytes) : option (bytes * bytes) :=
  match s with
  | [] => None
  | c :: rest =>
      if bool_decide (c = x22) then Some ([], rest)
      else if bool_decide (c = x5c) then
        match rest with
        | e :: rest1 =>
            if bool_decide (e = x75) then
              match rest1 with
              | h1 :: h2 :: h3 :: h4 :: rest2 =>
                  match u4 h1 h2 h3 h4 with
                  | Some _ => '(body, r) ← scan_string rest2;
                              Some (c :: e :: h1 :: h2 :: h3 :: h4 :: body, r)
                  | None => None
                  end
              | _ => None
              end
            else
              match escape_val e with
              | Some _ => '(body, r) ← scan_string rest1; Some (c :: e :: body, r)
              | None => None
              end
        | [] => None
        end
      else if bval c <? 0x20 then None
      else '(body, r) ← scan_string rest; Some (c :: body, r)
  end.

(** [utf16.DecodeRune] on a pair of surrogates, in this order. *)
Definition utf16_pair (r1 r2 : Z) : option Z :=
  if (0xD800 <=? r1) && (r1 <? 0xDC00) && (0xDC00 <=? r2) && (r2 <? 0xE000)
  then Some ((r1 - 0xD800) * 1024 + (r2 - 0xDC00) + 0x10000) else None.

Definition is_surrogate (r : Z) : bool := (0xD800 <=? r) && (r <? 0xE000).

(** [unquote] on a scanned body; each round consumes a byte at least. *)
Fixpoint unquote (fuel : nat) (s : bytes) : bytes :=
  match fuel with
  | O => []
  | S fuel =>
      match s with
      | [] => []
      | c :: rest =>
          if bool_decide (c = x5c) then
            match rest with
            | [] => []
            | e :: rest1 =>
                if bool_decide (e = x75) then
                  match rest1 with
                  | h1 :: h2 :: h3 :: h4 :: rest2 =>
                      let r := default 0 (u4 h1 h2 h3 h4) in
                      if is_surrogate r then
                        match rest2 with
                        | b :: u :: g1 :: g2 :: g3 :: g4 :: rest3 =>
                            match (if bool_decide (b = x5c) && bool_decide (u = x75)
                                   then u4 g1 g2 g3 g4 else None) ≫= utf16_pair r with
                            | Some r => EncodeRune r ++ unquote fuel rest3
                            | None => EncodeRune RuneError ++ unquote fuel rest2
                            end
                        | _ => EncodeRune RuneError ++ unquote fuel rest2
                        end
                      else EncodeRune r ++ unquote fuel rest2
                  | _ => []
                  end
                else option_list (escape_val e) ++ unquote fuel rest1
            end
          else
            let '(r, n) := DecodeRune s in
            EncodeRune r ++ unquote fuel (drop n s)
      end
  end.

Definition string_body (s : bytes) : option (bytes * bytes) :=
  '(body, rest) ← scan_string s; Some (unquote (length body) body, rest).

Fixpoint scan_digits (s : bytes) : bytes * bytes :=
  match s with
  | c :: rest =>
      if is_digit c then let '(ds, r) := scan_digits rest in (c :: ds, r) else ([], s)
  | [] => ([], [])
  end.

(** One digit or more. *)
Definition scan_digits1 (s : bytes) : option (bytes * bytes) :=
  let '(ds, r) := scan_digits s in
  if bool_decide (ds = []) then None else Some (ds, r).

(** The literal of a number and what follows. *)
Definition scan_number (s : bytes) : option (bytes * bytes) :=
  let '(sign, s) :=
    match s with c :: rest => if bool_decide (c = x2d) then ([c], rest) else ([], s) | [] => ([], s) end in
  '(int, s) ←
    match s with
    | c :: rest => if bool_decide (c = x30) then Some ([c], rest) else scan_digits1 s
    | [] => None
    end;
  '(frac, s) ←
    match s with
    | c :: rest =>
        if bool_decide (c = x2e) then '(ds, r) ← scan_digits1 rest; Some (c :: ds, r)
        else Some ([], s)
    | [] => Some ([], [])
    end;
  '(exp, s) ←
    match s with
    | c :: rest =>
        if bool_decide (c = x65) || bool_decide (c = x45) then
          match rest with
          | g :: rest1 =>
              if bool_decide (g = x2b) || bool_decide (g = x2d)
              then '(ds, r) ← scan_digits1 rest1; Some (c :: g :: ds, r)
              else '(ds, r) ← scan_digits1 rest; Some (c :: ds, r)
          | [] => None
          end
        else Some ([], s)
    | [] => Some ([], [])
    end;
  Some (sign ++ int ++ frac ++ exp, s).

(** A literal name. *)
Definition literal (name : bytes) (v : json) (s : bytes) : option (json * bytes) :=
  if HasPrefix s name then Some (v, drop (length name) s) else None.

(** ** Values *)

Definition maxNestingDepth : nat := 10000.

(** One value at the head of [s], which begins with no white space; [depth] is
    how many brackets may still be opened.  Fuel of twice the length is enough
    (lemma [value_fuel]). *)
Fixpoint value (fuel depth : nat) (s : bytes) : option (json * bytes) :=
  match fuel with
  | O => None
  | S fuel =>
      match s with
      | [] => None
      | c :: rest =>
          if bool_decide (c = x7b) then
            match depth with
            | O => None
            | S depth =>
                let s := skip_ws rest in
                match s with
                | b :: s' => if bool_decide (b = x7d) then Some (JObj [], s') else
                    '(ms, r) ← members fuel depth s; Some (JObj ms, r)
                | [] => None
                end
            end
          else if bool_decide (c = x5b) then
            match depth with
            | O => None
            | S depth =>
                let s := skip_ws rest in
                match s with
                | b :: s' => if bool_decide (b = x5d) then Some (JArr [], s') else
                    '(vs, r) ← items fuel depth s; Some (JArr vs, r)
                | [] => None
                end
            end
          else if bool_decide (c = x22) then '(str, r) ← string_body rest; Some (JStr str, r)
          else if bool_decide (c = x74) then literal (str "true") (JBool true) s
          else if bool_decide (c = x66) then literal (str "false") (JBool false) s
          else if bool_decide (c = x6e) then literal (str "null") JNull s
          else '(lit, r) ← scan_number s; Some (JNum lit, r)
      end
  end
(** The elements of an array, from the first one to the closing bracket. *)
with items (fuel depth : nat) (s : bytes) : option (list json * bytes) :=
  match fuel with
  | O => None
  | S fuel =>
      '(v, r) ← value fuel depth s;
      match skip_ws r with
      | c :: rest =>
          if bool_decide (c = x5d) then Some ([v], rest)
          else if bool_decide (c = x2c) then
            '(vs, r) ← items fuel depth (skip_ws rest); Some (v :: vs, r)
          else None
      | [] => None
      end
  end
(** The members of an object, from the first one to the closing brace. *)
with members (fuel depth : nat) (s : bytes) : option (list (bytes * json) * bytes) :=
  match fuel with
  | O => None
  | S fuel =>
      match s with
      | q :: rest =>
          if negb (bool_decide (q = x22)) then None else
          '(key, r) ← string_body rest;
          match skip_ws r with
          | c :: r =>
              if negb (bool_decide (c = x3a)) then None else
              '(v, r) ← value fuel depth (skip_ws r);
              match skip_ws r with
              | c :: rest =>
                  if bool_decide (c = x7d) then Some ([(key, v)], rest)
                  else if bool_decide (c = x2c) then
                    '(ms, r) ← members fuel depth (skip_ws rest); Some ((key, v) :: ms, r)
                  else None
              | [] => None
              end
          | [] => None
          end
      | [] => None
      end
  end.

(** The whole input: one value between white space. *)
Definition parse_json (s : bytes) : option json :=
  '(v, r) ← value (2 * length s) maxNestingDepth (skip_ws s);
  if bool_decide (skip_ws r = []) then Some v else None.

(** ** Decoding into Go values *)

(** A slice with what its array holds beyond the length. *)
Record slice (A : Type) := mkSlice { sl_array : list A; sl_len : nat }.
Arguments mkSlice {A} sl_array sl_len.
Arguments sl_array {A} s.
Arguments sl_len {A} s.

Definition sl_nil {A} : slice A := mkSlice [] 0.
Definition sl_list {A} (s : slice A) : list A := take (sl_len s) (sl_array s).

(** A slice that fills its array. *)
Definition sl_of {A} (l : list A) : slice A := mkSlice l (length l).

Lemma sl_list_of {A} (l : list A) : sl_list (sl_of l) = l.
Proof. unfold sl_list. cbn. by rewrite firstn_all. Qed.
Arguments sl_list {A} s : simpl never.
Arguments sl_of {A} l : simpl never.

(** A decoder takes the value and what the target holds, and returns the new
    contents and whether all went well; after a type error decoding goes on. *)
Definition decoder (A : Type) : Type := json -> A -> A * bool.

Definition decode_string : decoder bytes := fun j old =>
  match j with
  | JStr s => (s, true)
  | JNull => (old, true)
  | _ => (old, false)
  end.

(** The elements are decoded into those already in the array. *)
Fixpoint decode_items {A} (zero : A) (dec : decoder A) (vs : list json) (array : list A) : list A * bool :=
  match vs with
  | [] => (array, true)
  | v :: vs =>
      let '(a, ok1) := dec v (default zero (head array)) in
      let '(rest, ok2) := decode_items zero dec vs (tail array) in
      (a :: rest, ok1 && ok2)
  end.

Definition decode_slice {A} (zero : A) (dec : decoder A) : decoder (slice A) := fun j old =>
  match j with
  | JNull => (sl_nil, true)
  | JArr [] => (sl_nil, true)
  | JArr vs => let '(array, ok) := decode_items zero dec vs (sl_array old) in
               (mkSlice array (length vs), ok)
  | _ => (old, false)
  end.

(** [foldName]: upper case; of the other runes only two fold to an ASCII letter,
    and the rest cannot make a name equal to that of a field. *)
Definition fold_rune (r : Z) : Z :=
  if (97 <=? r) && (r <=? 122) then r - 32
  else if r =? 0x17F then 83
  else if r =? 0x212A then 75
  else r.
Definition foldName (key : bytes) : bytes := string_of_runes (fold_rune <$> runes key).

(** The field a member name stands for: the one of that very name, or else one
    that differs in case only. *)
Definition field_of (names : list bytes) (key : bytes) : option nat :=
  match list_find (fun n => n = key) names with
  | Some (i, _) => Some i
  | None => fst <$> list_find (fun n => foldName n = foldName key) names
  end.

(** The members of an object in turn; [set i] decodes into the [i]-th field. *)
Fixpoint decode_members {A} (names : list bytes) (set : nat -> decoder A)
    (ms : list (bytes * json)) (a : A) : A * bool :=
  match ms with
  | [] => (a, true)
  | (key, v) :: ms =>
      let '(a, ok1) := match field_of names key with Some i => set i v a | None => (a, true) end in
      let '(a, ok2) := decode_members names set ms a in
      (a, ok1 && ok2)
  end.

Definition decode_struct {A} (names : list bytes) (set : nat -> decoder A) : decoder A := fun j old =>
  match j with
  | JObj ms => decode_members names set ms old
  | JNull => (old, true)
  | _ => (old, false)
  end.

Definition SyntaxError : error := newError "json: syntax error".
Definition UnmarshalTypeError : error := newError "json: cannot unmarshal value into Go struct field".

(** [json.Unmarshal(data, &v)] for a fresh [v] of the decoder's type. *)
Definition Unmarshal {A} (zero : A) (dec : decoder A) (data : bytes) : go A :=
  match parse_json data with
  | None => Err SyntaxError
  | Some j => let '(a, ok) := dec j zero in if ok then Ok a else Err UnmarshalTypeError
  end.

(** ** The parser's fuel *)

Lemma skip_ws_length s : (length (skip_ws s) <= length s)%nat.
Proof. induction s as [|c s IH]; cbn; [done|]. destruct (is_ws c); cbn; lia. Qed.

Lemma scan_string_shorter s body r : scan_string s = Some (body, r) -> (length r < length s)%nat.
Proof.
  revert body r. induction s as [s IH] using (induction_ltof1 _ (@length byte)). unfold ltof in IH.
  intros body r. destruct s as [|c s]; cbn; [done|].
  destruct (bool_decide (c = x22)); [intros; simplify_eq; lia|].
  destruct (bool_decide (c = x5c)).
  - destruct s as [|e s]; [done|]. destruct (bool_decide (e = x75)).
    + destruct s as [|h1 [|h2 [|h3 [|h4 s]]]]; try done. destruct (u4 h1 h2 h3 h4); [|done].
      destruct (scan_string s) as [[b r']|] eqn:E; cbn; intros; simplify_eq.
      apply IH in E; cbn; lia.
    + destruct (escape_val e); [|done].
      destruct (scan_string s) as [[b' r']|] eqn:E; cbn; intros; simplify_eq.
      apply IH in E; cbn; lia.
  - destruct (bval c <? 32); [done|].
    destruct (scan_string s) as [[b' r']|] eqn:E; cbn; intros; simplify_eq.
    apply IH in E; cbn; lia.
Qed.

Lemma string_body_shorter s v r : string_body s = Some (v, r) -> (length r < length s)%nat.
Proof.
  unfold string_body. destruct (scan_string s) as [[b r']|] eqn:E; cbn; intros; simplify_eq.
  by eapply scan_string_shorter.
Qed.

Lemma scan_digits_length s : let '(ds, r) := scan_digits s in (length ds + length r = length s)%nat.
Proof.
  induction s as [|c s IH]; cbn; [done|]. destruct (is_digit c); [|cbn; lia].
  destruct (scan_digits s). cbn. lia.
Qed.

Lemma scan_digits1_shorter s ds r : scan_digits1 s = Some (ds, r) -> (length r < length s)%nat.
Proof.
  unfold scan_digits1. pose proof (scan_digits_length s) as H. destruct (scan_digits s) as [ds' r'].
  case_bool_decide; intros; simplify_eq. destruct ds; [done|cbn in H; lia].
Qed.

Lemma scan_number_shorter s lit r : scan_number s = Some (lit, r) -> (length r < length s)%nat.
Proof.
  unfold scan_number.
  assert (exists sign s1, match s with c :: rest => if bool_decide (c = x2d) then ([c], rest) else ([], s)
    | [] => ([], s) end = (sign, s1) /\ (length s1 <= length s)%nat) as (sign & s1 & -> & H1).
  { destruct s as [|c s]; [eauto|]. destruct (bool_decide (c = x2d)); eexists _, _; split; cbn; done || lia. }
  intros E.
  apply bind_Some in E as ([int s2] & E2 & E). apply bind_Some in E as ([frac s3] & E3 & E).
  apply bind_Some in E as ([ex s4] & E4 & E). simplify_eq.
  assert (length s2 < length s1)%nat.
  { destruct s1 as [|c s1]; [done|]. destruct (bool_decide (c = x30)); simplify_eq; cbn; [lia|].
    by apply scan_digits1_shorter in E2. }
  assert (length s3 <= length s2)%nat.
  { destruct s2 as [|c s2]; simplify_eq; [cbn; lia|]. destruct (bool_decide (c = x2e)); simplify_eq; [|lia].
    apply bind_Some in E3 as ([ds r'] & E3%scan_digits1_shorter & ?). simplify_eq. cbn. lia. }
  assert (length r <= length s3)%nat; [|lia].
  destruct s3 as [|c s3]; simplify_eq; [cbn; lia|].
  destruct (bool_decide (c = x65) || bool_decide (c = x45)); simplify_eq; [|lia].
  destruct s3 as [|g s3]; [done|].
  destruct (bool_decide (g = x2b) || bool_decide (g = x2d));
    apply bind_Some in E4 as ([ds r'] & E4%scan_digits1_shorter & ?); simplify_eq; cbn in *; lia.
Qed.

Lemma literal_shorter name v s j r :
  name <> [] -> s <> [] -> literal name v s = Some (j, r) -> (length r < length s)%nat.
Proof.
  unfold literal. intros Hn Hs. destruct (HasPrefix s name); intros; simplify_eq.
  rewrite length_drop. destruct name, s; cbn in *; done || lia.
Qed.

(** One step of the three parsers. *)
Ltac json_step :=
  match goal with
  | H : None = Some _ |- _ => discriminate H
  | H : Some _ = Some _ |- _ => injection H as H; simplify_eq
  | H : mbind _ _ = Some _ |- _ => apply bind_Some in H as ([? ?] & ? & H)
  | H : context [match skip_ws ?s with _ => _ end] |- _ =>
      let E := fresh "Ews" in destruct (skip_ws s) eqn:E
  | H : (if ?b then _ else _) = Some _ |- _ => destruct b
  | H : match ?x with _ => _ end = Some _ |- _ => destruct x
  end.

(** Every parser consumes something. *)
Lemma parsers_shorter fuel :
  (forall depth s v r, value fuel depth s = Some (v, r) -> (length r < length s)%nat) /\
  (forall depth s v r, items fuel depth s = Some (v, r) -> (length r < length s)%nat) /\
  (forall depth s v r, members fuel depth s = Some (v, r) -> (length r < length s)%nat).
Proof.
  induction fuel as [|fuel (IHv & IHi & IHm)]; [done|].
  split_and!; intros depth s v r E; cbn [value items members] in E.
  - destruct s as [|c s]; [done|]. pose proof (skip_ws_length s) as Hw.
    destruct (bool_decide (c = x7b)); [|destruct (bool_decide (c = x5b));
      [|destruct (bool_decide (c = x22)); [|destruct (bool_decide (c = x74));
      [|destruct (bool_decide (c = x66)); [|destruct (bool_decide (c = x6e))]]]]].
    + repeat json_step; cbn in *; [lia|].
      match goal with H : members _ _ _ = _ |- _ => apply IHm in H end. cbn in *. lia.
    + repeat json_step; cbn in *; [lia|].
      match goal with H : items _ _ _ = _ |- _ => apply IHi in H end. cbn in *. lia.
    + repeat json_step. match goal with H : string_body _ = _ |- _ => apply string_body_shorter in H end.
      cbn. lia.
    + by eapply literal_shorter in E.
    + by eapply literal_shorter in E.
    + by eapply literal_shorter in E.
    + repeat json_step. by eapply scan_number_shorter.
  - repeat json_step;
      match goal with H : value _ _ _ = Some (_, ?r') |- _ =>
        apply IHv in H; pose proof (skip_ws_length r') as Hr end;
      repeat match goal with H : skip_ws _ = _ |- _ => rewrite H in Hr end; cbn in *; [lia|].
    match goal with H : items _ _ (skip_ws ?x) = _ |- _ => apply IHi in H; pose proof (skip_ws_length x) end.
    lia.
  - destruct s as [|q s]; [done|]. destruct (negb _); [done|].
    apply bind_Some in E as ([key r1] & E1%string_body_shorter & E).
    pose proof (skip_ws_length r1) as H1. destruct (skip_ws r1) as [|c r2]; [done|].
    destruct (negb _); [done|]. pose proof (skip_ws_length r2) as H2.
    apply bind_Some in E as ([j r3] & E3%IHv & E).
    pose proof (skip_ws_length r3) as H3. destruct (skip_ws r3) as [|c' r4]; [done|].
    destruct (bool_decide (c' = x7d)); [simplify_eq; cbn in *; lia|].
    destruct (bool_decide (c' = x2c)); [|done]. pose proof (skip_ws_length r4) as H4.
    apply bind_Some in E as ([ms r5] & E5%IHm & E). simplify_eq. cbn in *. lia.
Qed.

(** With fuel of twice the length the parsers never run out of it: more fuel
    changes nothing. *)
Lemma parsers_fuel n :
  (forall m depth s, (2 * length s <= n)%nat -> (n <= m)%nat -> value n depth s = value m depth s) /\
  (forall m depth s, (2 * length s < n)%nat -> (n <= m)%nat -> items n depth s = items m depth s) /\
  (forall m depth s, (2 * length s < n)%nat -> (n <= m)%nat -> members n depth s = members m depth s).
Proof.
  induction n as [|n (IHv & IHi & IHm)].
  { split_and!; intros m depth s H; [|lia..]. destruct s; [|cbn in H; lia]. by destruct m. }
  split_and!; intros m depth s Hn Hm; (destruct m as [|m]; [lia|]); cbn [value items members].
  - destruct s as [|c s]; [done|]. pose proof (skip_ws_length s) as Hw. cbn [length] in Hn.
    repeat (case_bool_decide; [try done|]); [..|done].
    + destruct depth; [done|]. destruct (skip_ws s) as [|b s'] eqn:E; [done|].
      case_bool_decide; [done|]. by rewrite (IHm m) by (cbn [length] in *; lia).
    + destruct depth; [done|]. destruct (skip_ws s) as [|b s'] eqn:E; [done|].
      case_bool_decide; [done|]. by rewrite (IHi m) by (cbn [length] in *; lia).
  - rewrite (IHv m) by lia. destruct (value m depth s) as [[v r]|] eqn:E; [|done]. cbn.
    apply (proj1 (parsers_shorter m)) in E. pose proof (skip_ws_length r) as Hw.
    destruct (skip_ws r) as [|c r2]; [done|]. case_bool_decide; [done|]. case_bool_decide; [|done].
    pose proof (skip_ws_length r2). by rewrite (IHi m) by (cbn [length] in *; lia).
  - destruct s as [|q s]; [done|]. destruct (negb _); [done|].
    destruct (string_body s) as [[key r1]|] eqn:E1; [|done]. cbn. apply string_body_shorter in E1.
    pose proof (skip_ws_length r1) as H1. destruct (skip_ws r1) as [|c r2]; [done|].
    destruct (negb _); [done|]. pose proof (skip_ws_length r2) as H2. cbn [length] in *.
    rewrite (IHv m) by lia. destruct (value m depth (skip_ws r2)) as [[v r3]|] eqn:E3; [|done]. cbn.
    apply (proj1 (parsers_shorter m)) in E3. pose proof (skip_ws_length r3) as H3.
    destruct (skip_ws r3) as [|c' r4]; [done|]. case_bool_decide; [done|]. case_bool_decide; [|done].
    pose proof (skip_ws_length r4). by rewrite (IHm m) by (cbn [length] in *; lia).
Qed.

Lemma value_fuel n m depth s :
  (2 * length s <= n)%nat -> (2 * length s <= m)%nat -> value n depth s = value m depth s.
Proof.
  intros Hn Hm. transitivity (value (n `max` m) depth s);
    [|symmetry]; apply (proj1 (parsers_fuel _)); lia.
Qed.

(** ** Printing, as the reference for what is parsed *)

Definition hex_digit (d : Z) : byte := if d <? 10 then to_byte (48 + d) else to_byte (87 + d).

(** Quotes, backslashes and control characters are escaped. *)
Definition print_byte (c : byte) : bytes :=
  if bool_decide (c = x22) then [x5c; x22]
  else if bool_decide (c = x5c) then [x5c; x5c]
  else if bval c <? 0x20 then
    [x5c; x75; x30; x30; hex_digit (bval c / 16); hex_digit (bval c mod 16)]
  else [c].
Definition print_body (s : bytes) : bytes := concat (print_byte <$> s).
Definition print_string (s : bytes) : bytes := x22 :: print_body s ++ [x22].

Fixpoint print_json (j : json) : bytes :=
  match j with
  | JNull => str "null"
  | JBool true => str "true"
  | JBool false => str "false"
  | JNum lit => lit
  | JStr s => print_string s
  | JArr vs => x5b :: Join (map print_json vs) x2c ++ [x5d]
  | JObj ms =>
      x7b :: Join (map (fun '(k, v) => print_string k ++ x3a :: print_json v) ms) x2c ++ [x7d]
  end.

(** Induction through arrays and objects. *)
Section JsonInd.
Context (P : json -> Prop).
Hypothesis Hnull : P JNull.
Hypothesis Hbool : forall b, P (JBool b).
Hypothesis Hnum : forall l, P (JNum l).
Hypothesis Hstr : forall s, P (JStr s).
Hypothesis Harr : forall vs, Forall P vs -> P (JArr vs).
Hypothesis Hobj : forall ms, Forall (fun m => P m.2) ms -> P (JObj ms).

Fixpoint json_nested_ind (j : json) : P j :=
  match j with
  | JNull => Hnull
  | JBool b => Hbool b
  | JNum l => Hnum l
  | JStr s => Hstr s
  | JArr vs =>
      Harr vs ((fix go (vs : list json) : Forall P vs :=
        match vs with
        | [] => Forall_nil_2 P
        | v :: vs => Forall_cons_2 P v vs (json_nested_ind v) (go vs)
        end) vs)
  | JObj ms =>
      Hobj ms ((fix go (ms : list (bytes * json)) : Forall (fun m => P m.2) ms :=
        match ms with
        | [] => Forall_nil_2 (fun m => P m.2)
        | m :: ms => Forall_cons_2 (fun m => P m.2) m ms (json_nested_ind m.2) (go ms)
        end) ms)
  end.
End JsonInd.

(** *** Strings *)

Lemma hex_val_digit d : 0 <= d < 16 -> hex_val (hex_digit d) = Some d.
Proof.
  intros Hd. unfold hex_digit, hex_val, within. destruct (Z.ltb_spec d 10) as [H|H].
  - rewrite bval_to_byte_small by lia.
    rewrite (proj2 (Z.leb_le 48 _)), (proj2 (Z.leb_le _ 57)) by lia. cbn. f_equal. lia.
  - rewrite bval_to_byte_small by lia. rewrite (proj2 (Z.leb_gt _ 57)) by lia. rewrite andb_false_r.
    rewrite (proj2 (Z.leb_le 97 _)), (proj2 (Z.leb_le _ 102)) by lia. cbn. f_equal. lia.
Qed.

Lemma u4_control c : 0 <= c < 32 -> u4 x30 x30 (hex_digit (c / 16)) (hex_digit (c mod 16)) = Some c.
Proof.
  intros Hc. unfold u4. rewrite !hex_val_digit by plia. cbn [hex_val]. change (hex_val x30) with (Some 0).
  cbn. f_equal. plia.
Qed.

Lemma scan_print_byte c r :
  scan_string (print_byte c ++ r) = ('(b, r') ← scan_string r; Some (print_byte c ++ b, r')).
Proof.
  unfold print_byte. case_bool_decide as H1; [by subst|]. case_bool_decide as H2; [by subst|].
  pose proof (bval_range c) as Hr. destruct (bval c <? 32) eqn:H3.
  - zbool. cbn [app scan_string]. rewrite (bool_decide_eq_false_2 (x5c = x22)) by done.
    rewrite !bool_decide_eq_true_2 by done. by rewrite u4_control by lia.
  - cbn [app scan_string]. by rewrite !bool_decide_eq_false_2, H3 by done.
Qed.

Lemma scan_print s r : scan_string (print_body s ++ x22 :: r) = Some (print_body s, r).
Proof.
  unfold print_body. induction s as [|c s IH]; [done|]. cbn [fmap list_fmap concat].
  by rewrite <-app_assoc, scan_print_byte, IH.
Qed.

(** A rune of two bytes or more is printed as it stands. *)
Lemma print_body_high s : Forall (fun b => 0x80 <= bval b) s -> print_body s = s.
Proof.
  unfold print_body. induction 1 as [|c s Hc _ IH]; [done|]. cbn [fmap list_fmap concat]. rewrite IH.
  unfold print_byte. rewrite !bool_decide_eq_false_2 by (intros ->; by apply Hc).
  by rewrite (proj2 (Z.ltb_ge _ _)) by lia.
Qed.

Lemma EncodeRune_high r :
  ValidRune r = true -> 0x80 <= r -> Forall (fun b => 0x80 <= bval b) (EncodeRune r).
Proof.
  intros Hv Hr. unfold EncodeRune. rewrite Hv. apply ValidRune_iff in Hv. unfold MaxRune in Hv.
  rewrite (proj2 (Z.ltb_ge _ _)) by lia.
  destruct (Z.ltb_spec r 0x800); [|destruct (Z.ltb_spec r 0x10000)];
    repeat (apply Forall_cons_2; [rewrite bval_to_byte_small; plia|]); apply Forall_nil_2.
Qed.

(** A printed rune is unquoted in one round. *)
Lemma unquote_rune fuel r s :
  ValidRune r = true ->
  unquote (S fuel) (print_body (EncodeRune r) ++ s) = EncodeRune r ++ unquote fuel s.
Proof.
  intros Hv. destruct (Z.lt_ge_cases r 0x80) as [Hlt|Hge].
  - assert (0 <= r) as Hr by (apply ValidRune_iff in Hv; unfold MaxRune in Hv; lia).
    assert (EncodeRune r = [to_byte r]) as E
      by (unfold EncodeRune; rewrite Hv; by rewrite (proj2 (Z.ltb_lt _ _)) by lia).
    assert (bval (to_byte r) = r) as Eb by (apply bval_to_byte_small; lia).
    rewrite E. unfold print_body. cbn [fmap list_fmap concat]. rewrite app_nil_r.
    unfold print_byte. case_bool_decide as H1; [by rewrite H1|]. case_bool_decide as H2; [by rewrite H2|].
    rewrite Eb. destruct (Z.ltb_spec r 32) as [H3|H3].
    + cbn [app unquote]. rewrite !bool_decide_eq_true_2 by done.
      rewrite u4_control by lia. change (default 0 (Some r)) with r. unfold is_surrogate.
      rewrite (proj2 (Z.leb_gt 0xD800 r)) by lia. cbn [andb]. by rewrite E.
    + cbn [app unquote]. rewrite (bool_decide_eq_false_2 (to_byte r = x5c)) by done.
      cbn [DecodeRune]. rewrite Eb, (proj2 (Z.ltb_lt _ _)) by lia. cbn [drop]. by rewrite E.
  - rewrite print_body_high by (by apply EncodeRune_high).
    pose proof (DecodeRune_encoded r s Hv) as Hd. pose proof (EncodeRune_high r Hv Hge) as Hh.
    destruct (EncodeRune_cons r) as (b & bs & E). rewrite E in *. cbn [app unquote] in *.
    apply Forall_cons in Hh as [Hb _].
    rewrite (bool_decide_eq_false_2 (b = x5c)) by (intros ->; by apply Hb).
    rewrite Hd. rewrite E. cbn [app length drop]. by rewrite drop_app_length.
Qed.

Lemma print_body_app s1 s2 : print_body (s1 ++ s2) = print_body s1 ++ print_body s2.
Proof. unfold print_body. by rewrite fmap_app, concat_app. Qed.

Lemma unquote_print_runes rs fuel :
  Forall (fun r => ValidRune r = true) rs -> (length rs <= fuel)%nat ->
  unquote fuel (print_body (string_of_runes rs)) = string_of_runes rs.
Proof.
  intros H. revert fuel. induction H as [|r rs Hr _ IH]; intros fuel Hf.
  { by destruct fuel. }
  destruct fuel as [|fuel]; [cbn in Hf; lia|]. cbn [length] in Hf.
  unfold string_of_runes in *. cbn [fmap list_fmap concat].
  rewrite print_body_app, unquote_rune by done. by rewrite IH by lia.
Qed.

Lemma print_body_length s : (length s <= length (print_body s))%nat.
Proof.
  unfold print_body. induction s as [|c s IH]; [done|]. cbn [fmap list_fmap concat length]. rewrite length_app.
  assert (1 <= length (print_byte c))%nat by (unfold print_byte; repeat case_match; cbn; lia). lia.
Qed.

Lemma runes_length rs : (length rs <= length (string_of_runes rs))%nat.
Proof.
  unfold string_of_runes. induction rs as [|r rs IH]; [done|]. cbn [fmap list_fmap concat length].
  rewrite length_app. destruct (EncodeRune_cons r) as (b & bs & ->). cbn. lia.
Qed.

(** A printed string is read back when it is valid UTF-8. *)
Lemma string_body_print s r :
  ValidString s = true -> string_body (print_body s ++ x22 :: r) = Some (s, r).
Proof.
  intros Hv%ValidString_iff. unfold string_body. rewrite scan_print. cbn. do 2 f_equal.
  rewrite <-Hv at 2. rewrite <-Hv at 3.
  apply unquote_print_runes; [apply runes_valid|].
  etransitivity; [apply runes_length|]. rewrite Hv. apply print_body_length.
Qed.

(** *** Values *)

(** Without numbers, and with valid UTF-8 in every string. *)
Fixpoint plain (j : json) : bool :=
  match j with
  | JNum _ => false
  | JStr s => ValidString s
  | JArr vs => forallb plain vs
  | JObj ms => forallb (fun '(k, v) => ValidString k && plain v) ms
  | _ => true
  end.

(** How deep the brackets nest. *)
Fixpoint nest (j : json) : nat :=
  match j with
  | JArr vs => S (foldr max 0%nat (map nest vs))
  | JObj ms => S (foldr max 0%nat (map (fun '(_, v) => nest v) ms))
  | _ => 0
  end.

Definition reads_back (j : json) : Prop :=
  plain j = true -> forall n depth rest, (nest j <= depth)%nat ->
  (2 * length (print_json j ++ rest) <= n)%nat ->
  value n depth (print_json j ++ rest) = Some (j, rest).

Lemma print_json_head j :
  plain j = true -> exists c t, print_json j = c :: t /\ is_ws c = false /\ c <> x5d.
Proof. destruct j as [|[]|l|s|vs|ms]; intros H; try done; eexists _, _; by split_and!. Qed.

Lemma skip_ws_print j r : plain j = true -> skip_ws (print_json j ++ r) = print_json j ++ r.
Proof.
  intros (c & t & -> & Hw & _)%print_json_head. cbn [app skip_ws]. by rewrite Hw.
Qed.

Lemma items_print vs n depth rest :
  vs <> [] -> Forall reads_back vs -> forallb plain vs = true ->
  (foldr max 0 (map nest vs) <= depth)%nat ->
  (2 * length (Join (map print_json vs) x2c ++ x5d :: rest) < n)%nat ->
  items n depth (Join (map print_json vs) x2c ++ x5d :: rest) = Some (vs, rest).
Proof.
  intros Hne H. revert n. induction H as [|v vs Hv Hvs IH]; intros n Hp Hd Hn; [done|].
  cbn [forallb] in Hp. apply andb_true_iff in Hp as [Hp1 Hp2]. cbn [map foldr] in Hd.
  destruct n as [|n]; [lia|]. cbn [items]. destruct vs as [|v' vs].
  - cbn [map Join] in *. rewrite Hv; [|done|lia|lia]. done.
  - set (tail := Join (map print_json (v' :: vs)) x2c) in *.
    assert (Join (map print_json (v :: v' :: vs)) x2c ++ x5d :: rest =
      print_json v ++ x2c :: tail ++ x5d :: rest) as E.
    { unfold tail. cbn [map Join]. by rewrite <-app_assoc. }
    rewrite E in *. rewrite Hv; [|done|lia|lia]. cbn [mbind option_bind skip_ws].
    change (is_ws x2c) with false. cbv iota.
    rewrite (bool_decide_eq_false_2 (x2c = x5d)), (bool_decide_eq_true_2 (x2c = x2c)) by done.
    assert (skip_ws (tail ++ x5d :: rest) = tail ++ x5d :: rest) as Es.
    { unfold tail. cbn [forallb] in Hp2. apply andb_true_iff in Hp2 as [Hp2 _]. cbn [map Join].
      destruct (map print_json vs); [by apply skip_ws_print|]. rewrite <-app_assoc. by apply skip_ws_print. }
    rewrite Es, IH; [done|done|done|cbn [map foldr] in *; lia|].
    rewrite length_app in Hn. cbn [length] in Hn. lia.
Qed.

Definition print_member : bytes * json -> bytes :=
  fun '(k, v) => print_string k ++ x3a :: print_json v.

Lemma members_print ms n depth rest :
  ms <> [] -> Forall (fun m => reads_back m.2) ms ->
  forallb (fun '(k, v) => ValidString k && plain v) ms = true ->
  (foldr max 0 (map (fun '(_, v) => nest v) ms) <= depth)%nat ->
  (2 * length (Join (map print_member ms) x2c ++ x7d :: rest) < n)%nat ->
  members n depth (Join (map print_member ms) x2c ++ x7d :: rest) = Some (ms, rest).
Proof.
  intros Hne H. revert n. induction H as [|[k v] ms Hv Hvs IH]; intros n Hp Hd Hn; [done|].
  cbn [forallb] in Hp. apply andb_true_iff in Hp as [[Hk Hp1]%andb_true_iff Hp2]. cbn [map foldr] in Hd.
  assert (forall tail n, (2 * length (print_member (k, v) ++ tail) < S n)%nat ->
    members (S n) depth (print_member (k, v) ++ tail) =
    match skip_ws tail with
    | c :: rest =>
        if bool_decide (c = x7d) then Some ([(k, v)], rest)
        else if bool_decide (c = x2c) then
          '(ms, r) ← members n depth (skip_ws rest); Some ((k, v) :: ms, r)
        else None
    | [] => None
    end) as Hone.
  { intros tail m Hm. unfold print_member, print_string in *. cbn [fst snd app] in *.
    rewrite <-!app_assoc in *. cbn [app] in *. cbn [members].
    rewrite (bool_decide_eq_true_2 (x22 = x22)) by done. cbn [negb].
    rewrite string_body_print by done. cbn [mbind option_bind skip_ws].
    change (is_ws x3a) with false. cbv iota.
    rewrite (bool_decide_eq_true_2 (x3a = x3a)) by done. cbn [negb].
    rewrite skip_ws_print, Hv; [done|done|cbn [snd]; lia| |done].
    cbn [length] in Hm. rewrite length_app in Hm. cbn [length] in Hm. lia. }
  destruct n as [|n]; [lia|]. destruct ms as [|m' ms].
  - cbn [map Join] in *. rewrite Hone by done. done.
  - set (tail := Join (map print_member (m' :: ms)) x2c) in *.
    assert (Join (map print_member ((k, v) :: m' :: ms)) x2c ++ x7d :: rest =
      print_member (k, v) ++ x2c :: tail ++ x7d :: rest) as E.
    { unfold tail. cbn [map Join]. by rewrite <-app_assoc. }
    rewrite E in *. rewrite Hone by done. cbn [skip_ws]. change (is_ws x2c) with false. cbv iota.
    rewrite (bool_decide_eq_false_2 (x2c = x7d)), (bool_decide_eq_true_2 (x2c = x2c)) by done.
    assert (skip_ws (tail ++ x7d :: rest) = tail ++ x7d :: rest) as Es.
    { unfold tail. cbn [map Join]. destruct m' as [k' v']. by destruct (map print_member ms). }
    rewrite Es, IH; [done|done|done|cbn [map foldr] in *; lia|].
    rewrite length_app in Hn. cbn [length] in Hn. lia.
Qed.

Lemma value_print j : reads_back j.
Proof.
  induction j as [|b|l|s|vs IH|ms IH] using json_nested_ind; intros Hp n depth rest Hd Hn; try done.
  - destruct n; [cbn in Hn; lia|]. done.
  - destruct b, n; try done; cbn in Hn; lia.
  - cbn [print_json] in *. unfold print_string in *. cbn [app] in *.
    rewrite <-app_assoc in *. cbn [app] in *. destruct n; [cbn [length] in Hn; lia|]. cbn [value]. rewrite !bool_decide_eq_false_2 by done.
    rewrite (bool_decide_eq_true_2 (x22 = x22)) by done. by rewrite string_body_print.
  - cbn [print_json] in *. cbn [app] in *. rewrite <-app_assoc in *. cbn [app] in *.
    cbn [nest] in Hd. destruct n as [|n]; [cbn [length] in Hn; lia|]. destruct depth as [|depth]; [lia|].
    cbn [length] in Hn. cbn [value].
    rewrite (bool_decide_eq_false_2 (x5b = x7b)), (bool_decide_eq_true_2 (x5b = x5b)) by done.
    destruct vs as [|v vs]; [done|].
    cbn [plain forallb] in Hp. pose proof Hp as [Hv _]%andb_true_iff.
    destruct (print_json_head v Hv) as (c & t & Ec & Hws & Hne).
    assert (exists t', Join (map print_json (v :: vs)) x2c ++ x5d :: rest = c :: t') as [t' Et].
    { cbn [map Join]. destruct (map print_json vs); rewrite Ec; cbn; eauto. }
    assert (skip_ws (c :: t') = c :: t') as Es by (cbn [skip_ws]; by rewrite Hws).
    rewrite Et, Es, bool_decide_eq_false_2, <-Et by done.
    rewrite items_print; [done|done|done|done|lia|lia].
  - change (print_json (JObj ms)) with (x7b :: Join (map print_member ms) x2c ++ [x7d]) in *.
    cbn [app] in *. rewrite <-app_assoc in *. cbn [app] in *.
    cbn [nest] in Hd. destruct n as [|n]; [cbn [length] in Hn; lia|]. destruct depth as [|depth]; [lia|].
    cbn [length] in Hn. cbn [value]. rewrite (bool_decide_eq_true_2 (x7b = x7b)) by done.
    destruct ms as [|m ms]; [done|].
    assert (exists t', Join (map print_member (m :: ms)) x2c ++ x7d :: rest = x22 :: t') as [t' Et].
    { cbn [map Join]. destruct m as [k v]. destruct (map print_member ms); cbn; eauto. }
    rewrite Et. cbn [skip_ws]. change (is_ws x22) with false. cbv iota.
    rewrite (bool_decide_eq_false_2 (x22 = x7d)) by done. rewrite <-Et.
    rewrite members_print; [done|done|done|done|lia|lia].
Qed.

(** Parsing what was printed. *)
Lemma parse_print j :
  plain j = true -> (nest j <= maxNestingDepth)%nat -> parse_json (print_json j) = Some j.
Proof.
  intros Hp Hd. unfold parse_json. pose proof (skip_ws_print j [] Hp) as Es. rewrite app_nil_r in Es.
  rewrite Es. pose proof (value_print j Hp (2 * length (print_json j))%nat maxNestingDepth []) as E.
  rewrite app_nil_r in E. rewrite E by (done || lia). done.
Qed.

(** ** Decoding into fresh values *)

Lemma decode_items_fresh {A B} (enc : B -> json) (t : B -> A) zero (dec : decoder A) xs :
  (forall x, dec (enc x) zero = (t x, true)) ->
  decode_items zero dec (enc <$> xs) [] = (t <$> xs, true).
Proof. intros H. induction xs as [|x xs IH]; [done|]. cbn. rewrite H. cbn in IH. by rewrite IH. Qed.

Definition json_list {A} (enc : A -> json) (xs : list A) : json := JArr (enc <$> xs).
Arguments json_list {A} enc xs : simpl never.

Lemma decode_slice_fresh {A B} (enc : B -> json) (t : B -> A) zero (dec : decoder A) xs :
  (forall x, dec (enc x) zero = (t x, true)) ->
  decode_slice zero dec (json_list enc xs) sl_nil = (sl_of (t <$> xs), true).
Proof.
  intros H. destruct xs as [|x xs]; [done|].
  pose proof (decode_items_fresh enc t zero dec (x :: xs) H) as E. unfold json_list, decode_slice.
  cbn [fmap list_fmap] in *. cbn [sl_array sl_nil]. rewrite E. unfold sl_of. do 2 f_equal. cbn [length].
  by rewrite !length_fmap.
Qed.

Arguments decode_slice {A} zero dec j old : simpl never.

Section Members.
Context {A : Type} (names : list bytes) (set : nat -> decoder A).

Lemma decode_members_app ms1 ms2 a :
  decode_members names set (ms1 ++ ms2) a =
  let '(a, ok1) := decode_members names set ms1 a in
  let '(a, ok2) := decode_members names set ms2 a in (a, ok1 && ok2).
Proof.
  revert a. induction ms1 as [|[k v] ms1 IH]; intros a; cbn.
  { by destruct (decode_members names set ms2 a). }
  destruct (match field_of names k with Some i => set i v a | None => (a, true) end) as [a1 ok1].
  rewrite IH. destruct (decode_members names set ms1 a1) as [a2 ok2].
  destruct (decode_members names set ms2 a2) as [a3 ok3]. by rewrite andb_assoc.
Qed.

(** Members that name no field are ignored. *)
Definition known (m : bytes * json) : Prop := is_Some (field_of names m.1).

Lemma decode_members_known ms a :
  decode_members names set ms a = decode_members names set (filter known ms) a.
Proof.
  revert a. induction ms as [|[k v] ms IH]; intros a; [done|]. rewrite filter_cons. case_decide as Hk.
  - cbn. destruct (match field_of names k with Some i => set i v a | None => (a, true) end). by rewrite IH.
  - cbn. unfold known in Hk. cbn in Hk. apply eq_None_not_Some in Hk. rewrite Hk. rewrite IH. 
    by destruct (decode_members names set (filter known ms) a).
Qed.

(** The order of the members is immaterial when they name different fields. *)
Context (Hset : forall i j v w a, i <> j -> (i < length names)%nat -> (j < length names)%nat ->
  let '(a1, o1) := set i v a in let '(a2, o2) := set j w a1 in
  let '(b1, p1) := set j w a in let '(b2, p2) := set i v b1 in
  a2 = b2 /\ o1 && o2 = p1 && p2).

Lemma field_of_lt key i : field_of names key = Some i -> (i < length names)%nat.
Proof.
  unfold field_of. destruct (list_find _ names) as [[j x]|] eqn:E.
  - intros [= <-]. apply list_find_Some in E as (E & _). by eapply lookup_lt_Some.
  - destruct (list_find (fun n => foldName n = foldName key) names) as [[j x]|] eqn:E'; [|done].
    intros [= <-]. apply list_find_Some in E' as (E' & _). by eapply lookup_lt_Some.
Qed.

Lemma decode_members_perm ms1 ms2 :
  ms1 ≡ₚ ms2 -> NoDup (field_of names <$> ms1.*1) ->
  Forall known ms1 ->
  forall a, decode_members names set ms1 a = decode_members names set ms2 a.
Proof.
  induction 1 as [|[k v] ms1 ms2 HP IH|[k v] [k' v'] ms|ms1 ms2 ms3 H1 IH1 H2 IH2]; intros Hnd Hk a.
  - done.
  - cbn in Hnd. apply NoDup_cons in Hnd as [_ Hnd]. apply Forall_cons in Hk as [_ Hk]. cbn.
    destruct (match field_of names k with Some i => set i v a | None => (a, true) end) as [a1 o1].
    by rewrite IH.
  - apply Forall_cons in Hk as [[j Hj] Hk]. apply Forall_cons in Hk as [[i Hi] _]. cbn in *.
    rewrite Hj, Hi in *. apply NoDup_cons in Hnd as [Hne _].
    assert (j <> i) as Hji by (intros ->; apply Hne; by left).
    apply field_of_lt in Hi, Hj. specialize (Hset j i v' v a Hji Hj Hi).
    destruct (set j v' a) as [a1 o1]. destruct (set i v a1) as [a2 o2].
    destruct (set i v a) as [b1 p1]. destruct (set j v' b1) as [b2 p2]. destruct Hset as [-> Ho].
    destruct (decode_members names set ms b2) as [c o]. f_equal. by rewrite !andb_assoc, Ho.
  - rewrite IH1, IH2; [done| | |done|done].
    + by rewrite <-H1.
    + by rewrite <-H1.
Qed.
End Members.
