(* ===== verification/Varint.v ===== *)
(** * Varints and length-prefixed strings

    [frame.go] (AppendVarint, ReadVarint) and the string codec of
    [handshake.go] (appendString, readString), with the interface [Codec] that
    every self-delimiting wire format of the package satisfies. *)

From Stdlib Require Import Strings.Byte.
From stdpp Require Import base numbers list gmap strings.
From S2P Require Import Prelude Machine.
Open Scope Z_scope.

(** ** The interface of a self-delimiting codec

    [dec data] returns the value and the number of bytes consumed, as Decode,
    ReadVarint, readString and DecodeSignatureBlock do.  The laws are what a
    client that reads one item after another needs: a valid value encodes, what
    was encoded decodes whatever follows it, a success stays within the buffer
    and makes progress, it depends only on the bytes it consumed, and a
    truncated item is reported as a short buffer, never as another value. *)
Class Codec (A : Type) := {
  enc : A -> go bytes;
  dec : bytes -> go (A * nat);
  valid : A -> Prop;
  codec_enc_ok a : valid a -> exists bs, enc a = Ok bs;
  codec_roundtrip a bs rest :
    valid a -> enc a = Ok bs -> dec (bs ++ rest) = Ok (a, length bs);
  codec_bound data a n : dec data = Ok (a, n) -> (0 < n <= length data)%nat;
  codec_local data a n rest :
    dec data = Ok (a, n) -> dec (take n data ++ rest) = Ok (a, n);
  codec_short data a n k :
    dec data = Ok (a, n) -> (k < n)%nat ->
    exists e, dec (take k data) = Err e /\ errors_Is e ErrShortBuffer = true;
}.

(** ** Varints *)

Definition MaxVarint : Z := (1 ≪ 62) - 1.

(** [data[i]] as an integer; every use is guarded by a length check. *)
Definition idx (data : bytes) (i : nat) : Z := bval (nth i data x00).

Definition varint_bytes (v : Z) : bytes :=
  if v <? 1 ≪ 6 then [to_byte v]
  else if v <? 1 ≪ 14 then [bor (to_byte (v ≫ 8)) x40; to_byte v]
  else if v <? 1 ≪ 30 then
    match be_bytes 4 (u32 v) with
    | b0 :: b => bor b0 x80 :: b
    | [] => []
    end
  else
    match be_bytes 8 v with
    | b0 :: b => bor b0 xc0 :: b
    | [] => []
    end.

Definition AppendVarint (dst : bytes) (v : Z) : go bytes :=
  if MaxVarint <? v then Panic (PanicVarint v)
  else Ok (dst ++ varint_bytes v).

Definition ReadVarint (data : bytes) : go (Z * nat) :=
  if (length data =? 0)%nat then Err ErrShortBuffer else
  match idx data 0 ≫ 6 with
  | 0 => Ok (Z.land (idx data 0) 0x3F, 1%nat)
  | 1 =>
      if (length data <? 2)%nat then Err ErrShortBuffer else
      Ok (Z.lor (Z.land (idx data 0) 0x3F ≪ 8) (idx data 1), 2%nat)
  | 2 =>
      if (length data <? 4)%nat then Err ErrShortBuffer else
      Ok (Z.lor (Z.lor (Z.lor (Z.land (idx data 0) 0x3F ≪ 24)
                              (idx data 1 ≪ 16))
                       (idx data 2 ≪ 8))
                (idx data 3), 4%nat)
  | _ =>
      if (length data <? 8)%nat then Err ErrShortBuffer else
      Ok (Z.lor (Z.lor (Z.lor (Z.lor (Z.lor (Z.lor (Z.lor
            (Z.land (idx data 0) 0x3F ≪ 56)
            (idx data 1 ≪ 48)) (idx data 2 ≪ 40)) (idx data 3 ≪ 32))
            (idx data 4 ≪ 24)) (idx data 5 ≪ 16)) (idx data 6 ≪ 8))
            (idx data 7), 8%nat)
  end.

(** ** Length-prefixed strings *)

Definition appendString (dst : bytes) (s : bytes) : go bytes :=
  dst ← AppendVarint dst (len s);
  Ok (dst ++ s).

Definition readString (data : bytes) : go (bytes * nat) :=
  '(length_, n) ← ReadVarint data;
  if len data - Z.of_nat n <? length_ then Err ErrShortBuffer else
  let end_ := (n + Z.to_nat length_)%nat in
  Ok (take (end_ - n) (drop n data), end_).

(** ** The shape of a read *)

(** The number of bytes the first byte announces. *)
Definition varint_size (b0 : byte) : nat :=
  match bval b0 ≫ 6 with
  | 0 => 1%nat | 1 => 2%nat | 2 => 4%nat | _ => 8%nat
  end.

(** The reference reading: drop the two tag bits, read big-endian. *)
Definition varint_val (bs : bytes) : Z :=
  match bs with
  | [] => 0
  | b0 :: bs => be_val (to_byte (Z.land (bval b0) 0x3F) :: bs)
  end.

Lemma be_val_cons b bs : be_val (b :: bs) = bval b * 256 ^ len bs + be_val bs.
Proof.
  induction bs as [|c bs IH] using rev_ind.
  - change (b :: []) with ([] ++ [b]). rewrite be_val_snoc.
    change (be_val []) with 0. simpl. lia.
  - rewrite app_comm_cons, !be_val_snoc, IH, length_app, Nat2Z.inj_add.
    simpl (len [c]). rewrite Z.pow_add_r by lia. lia.
Qed.

Lemma tag_range b : 0 <= bval b ≫ 6 <= 3.
Proof. rewrite shr_div by lia. pose proof (bval_range b). plia. Qed.

Lemma mask_range b : 0 <= Z.land (bval b) 0x3F < 64.
Proof.
  change 0x3F with (2 ^ 6 - 1). rewrite land_mask by lia.
  apply Z.mod_pos_bound. lia.
Qed.

Lemma lor2_sum a b : 0 <= b < 256 -> Z.lor (a ≪ 8) b = a * 256 + b.
Proof. intros. rewrite (lor_add 8); rewrite ?shl_mul by lia; plia. Qed.

Lemma lor4_sum a b c d :
  0 <= b < 256 -> 0 <= c < 256 -> 0 <= d < 256 ->
  Z.lor (Z.lor (Z.lor (a ≪ 24) (b ≪ 16)) (c ≪ 8)) d =
  a * 2 ^ 24 + b * 2 ^ 16 + c * 2 ^ 8 + d.
Proof.
  intros. rewrite !shl_mul by lia.
  rewrite (lor_add 24 (a * _)) by plia. rewrite (lor_add 16 (_ + _)) by plia.
  rewrite (lor_add 8) by plia. done.
Qed.

Lemma lor8_sum a b c d e f g h :
  0 <= b < 256 -> 0 <= c < 256 -> 0 <= d < 256 -> 0 <= e < 256 ->
  0 <= f < 256 -> 0 <= g < 256 -> 0 <= h < 256 ->
  Z.lor (Z.lor (Z.lor (Z.lor (Z.lor (Z.lor (Z.lor (a ≪ 56) (b ≪ 48)) (c ≪ 40))
    (d ≪ 32)) (e ≪ 24)) (f ≪ 16)) (g ≪ 8)) h =
  a * 2 ^ 56 + b * 2 ^ 48 + c * 2 ^ 40 + d * 2 ^ 32 + e * 2 ^ 24 + f * 2 ^ 16
  + g * 2 ^ 8 + h.
Proof.
  intros. rewrite !shl_mul by lia.
  rewrite (lor_add 56 (a * _)) by plia. rewrite (lor_add 48 (_ + _)) by plia.
  rewrite (lor_add 40 (_ + _)) by plia. rewrite (lor_add 32 (_ + _)) by plia.
  rewrite (lor_add 24 (_ + _)) by plia. rewrite (lor_add 16 (_ + _)) by plia.
  rewrite (lor_add 8) by plia. done.
Qed.

(** A closed list of bytes read big-endian, as a polynomial. *)
Ltac be_explicit :=
  unfold varint_val; rewrite !be_val_cons, bval_to_byte_small by lia;
  simpl length; change (be_val []) with 0;
  cbn -[Z.mul Z.add Z.pow bval Z.land]; do 2 f_equal;
  change 256 with (2 ^ 8); rewrite <-?Z.pow_mul_r by lia; plia.

(** Reading a varint is reading [varint_size] bytes and decoding them
    big-endian without the tag. *)
Lemma ReadVarint_ref data :
  ReadVarint data =
  match data with
  | [] => Err ErrShortBuffer
  | b0 :: _ =>
      if (length data <? varint_size b0)%nat then Err ErrShortBuffer
      else Ok (varint_val (take (varint_size b0) data), varint_size b0)
  end.
Proof.
  destruct data as [|b0 data]; [done|].
  unfold ReadVarint, varint_size. change (idx (b0 :: data) 0) with (bval b0).
  simpl (length (b0 :: data) =? 0)%nat. cbv iota.
  pose proof (tag_range b0) as Ht. pose proof (mask_range b0) as Hm.
  assert (bval b0 ≫ 6 = 0 \/ bval b0 ≫ 6 = 1 \/ bval b0 ≫ 6 = 2 \/ bval b0 ≫ 6 = 3)
    as [E|[E|[E|E]]] by lia; rewrite E.
  - change (take 1 (b0 :: data)) with [b0]. unfold varint_val. simpl length.
    rewrite be_val_cons, bval_to_byte_small by lia.
    change (256 ^ len []) with 1. change (be_val []) with 0. do 2 f_equal. lia.
  - destruct data as [|b1 data]; [done|].
    change (take 2 (b0 :: b1 :: data)) with [b0; b1].
    change (idx (b0 :: b1 :: data) 1) with (bval b1).
    rewrite lor2_sum by apply bval_range. be_explicit.
  - destruct data as [|b1 [|b2 [|b3 data]]]; [done..|].
    change (take 4 (b0 :: b1 :: b2 :: b3 :: data)) with [b0; b1; b2; b3].
    unfold idx. simpl nth. rewrite lor4_sum by apply bval_range. be_explicit.
  - destruct data as [|b1 [|b2 [|b3 [|b4 [|b5 [|b6 [|b7 data]]]]]]]; [done..|].
    change (take 8 (b0 :: b1 :: b2 :: b3 :: b4 :: b5 :: b6 :: b7 :: data))
      with [b0; b1; b2; b3; b4; b5; b6; b7].
    unfold idx. simpl nth. rewrite lor8_sum by apply bval_range. be_explicit.
Qed.

Lemma varint_size_cases b : varint_size b ∈ [1; 2; 4; 8]%nat.
Proof. unfold varint_size. repeat case_match; set_solver. Qed.

Lemma varint_size_pos b : (0 < varint_size b <= 8)%nat.
Proof. pose proof (varint_size_cases b). set_unfold. lia. Qed.

Lemma ReadVarint_bound data v n :
  ReadVarint data = Ok (v, n) -> (0 < n <= length data)%nat.
Proof.
  rewrite ReadVarint_ref. destruct data as [|b0 data]; [done|].
  case_match; intros; simplify_eq. zbool.
  pose proof (varint_size_pos b0). lia.
Qed.

Lemma ReadVarint_cons b0 data :
  ReadVarint (b0 :: data) =
  if (length (b0 :: data) <? varint_size b0)%nat then Err ErrShortBuffer
  else Ok (varint_val (take (varint_size b0) (b0 :: data)), varint_size b0).
Proof. exact (ReadVarint_ref (b0 :: data)). Qed.

Lemma ReadVarint_local data v n rest :
  ReadVarint data = Ok (v, n) -> ReadVarint (take n data ++ rest) = Ok (v, n).
Proof.
  destruct data as [|b0 data]; [done|]. rewrite ReadVarint_cons.
  case_match; intros; simplify_eq. zbool.
  pose proof (varint_size_pos b0). destruct (varint_size b0) as [|m] eqn:Em; [lia|].
  rewrite firstn_cons, <-app_comm_cons, ReadVarint_cons, Em. simpl in H.
  rewrite (proj2 (Nat.ltb_ge _ _)) by (simpl; rewrite length_app, length_take; lia).
  rewrite firstn_cons, take_app_le by (rewrite length_take; lia).
  by rewrite take_take, Nat.min_id.
Qed.

Lemma ReadVarint_err data e : ReadVarint data = Err e -> e = ErrShortBuffer.
Proof. rewrite ReadVarint_ref. repeat case_match; congruence. Qed.

Lemma ReadVarint_never_panics data p : ReadVarint data <> Panic p.
Proof. rewrite ReadVarint_ref. repeat case_match; congruence. Qed.

(** A truncated varint is a short buffer. *)
Lemma ReadVarint_short data v n k :
  ReadVarint data = Ok (v, n) -> (k < n)%nat ->
  ReadVarint (take k data) = Err ErrShortBuffer.
Proof.
  intros H Hk. pose proof (ReadVarint_bound _ _ _ H). revert H.
  destruct data as [|b0 data]; [done|]. rewrite ReadVarint_cons.
  case_match; intros; simplify_eq. destruct k as [|k]; [done|].
  rewrite firstn_cons, ReadVarint_cons.
  rewrite (proj2 (Nat.ltb_lt _ _)); [done|]. simpl. rewrite length_take. lia.
Qed.

(** The value read fits in 62 bits. *)
Lemma ReadVarint_range data v n :
  ReadVarint data = Ok (v, n) -> 0 <= v <= MaxVarint.
Proof.
  rewrite ReadVarint_ref. destruct data as [|b0 data]; [done|].
  case_match; intros; simplify_eq. zbool.
  pose proof (varint_size_pos b0) as Hp. pose proof (mask_range b0).
  destruct (varint_size b0) as [|m] eqn:Em; [lia|]. simpl take. unfold varint_val.
  rewrite be_val_cons, bval_to_byte_small by lia.
  pose proof (be_val_bound (take m data)) as B.
  assert (len (take m data) <= 7) by (rewrite length_take; lia).
  pose proof (Z.pow_le_mono_r 256 (len (take m data)) 7 ltac:(lia) ltac:(lia)) as P.
  change (256 ^ 7) with 72057594037927936 in P.
  unfold MaxVarint. rewrite shl_mul by lia. pow_norm. nia.
Qed.

(** ** Encoding

    All four encodings are the big-endian bytes of the value with the tag
    [t] (0 to 3) or-ed into the two top bits of the first byte. *)
Lemma bval_bor_tag m tb :
  0 <= m < 64 -> bval tb mod 64 = 0 -> bval (bor (to_byte m) tb) = m + bval tb.
Proof.
  intros Hm Ht. pose proof (bval_range tb). unfold bor.
  rewrite (bval_to_byte_small m) by lia. rewrite Z.lor_comm, (lor_add 6) by (done || lia).
  rewrite bval_to_byte_small; [lia|]. plia.
Qed.

Lemma tagged_be t tb n v :
  bval tb = 64 * t -> 0 <= t <= 3 -> 0 <= v < 64 * 256 ^ Z.of_nat n ->
  bval (bor (to_byte (v ≫ (8 * Z.of_nat n))) tb) ≫ 6 = t /\
  varint_val (bor (to_byte (v ≫ (8 * Z.of_nat n))) tb :: be_bytes n v) = v.
Proof.
  intros Htb Ht Hv.
  assert (v ≫ (8 * Z.of_nat n) = v / 256 ^ Z.of_nat n) as Hs.
  { rewrite shr_div by lia. by rewrite Z.pow_mul_r by lia. }
  set (m := v ≫ (8 * Z.of_nat n)) in *.
  pose proof (Z.pow_pos_nonneg 256 (Z.of_nat n) ltac:(lia) ltac:(lia)).
  assert (0 <= m < 64) as Hm.
  { rewrite Hs. split; [apply Z.div_pos; lia|apply Z.div_lt_upper_bound; lia]. }
  assert (bval (bor (to_byte m) tb) = m + 64 * t) as Hb.
  { rewrite bval_bor_tag, Htb; [done|done|]. rewrite Htb. plia. }
  unfold varint_val. rewrite Hb. split; [rewrite shr_div by lia; plia|].
  replace (Z.land (m + 64 * t) 0x3F) with m.
  - change (to_byte m :: be_bytes n v) with (be_bytes (S n) v).
    rewrite be_val_bytes. apply Z.mod_small.
    rewrite Nat2Z.inj_succ, Z.pow_succ_r by lia. lia.
  - change 0x3F with (2 ^ 6 - 1). rewrite land_mask by lia. plia.
Qed.

Lemma MaxVarint_val : MaxVarint = 2 ^ 62 - 1.
Proof. reflexivity. Qed.

Lemma bor_0 b : bor b x00 = b.
Proof. unfold bor. change (bval x00) with 0. by rewrite Z.lor_0_r, to_byte_bval. Qed.

Lemma varint_bytes_tagged v :
  0 <= v <= MaxVarint ->
  exists t tb n,
    varint_bytes v = bor (to_byte (v ≫ (8 * Z.of_nat n))) tb :: be_bytes n v /\
    bval tb = 64 * t /\ 0 <= t <= 3 /\ 0 <= v < 64 * 256 ^ Z.of_nat n /\
    S n = (2 ^ Z.to_nat t)%nat.
Proof.
  rewrite MaxVarint_val. intros Hv. unfold varint_bytes. rewrite !shl_mul by lia.
  repeat case_match; zbool; pow_norm.
  - exists 0, x00, 0%nat. simpl. rewrite bor_0, Z.shiftr_0_r. repeat split; lia.
  - exists 1, x40, 1%nat. simpl. rewrite Z.shiftr_0_r. repeat split; lia.
  - discriminate.
  - exists 2, x80, 3%nat. simpl in *. simplify_eq.
    unfold u32. rewrite !Z.mod_small by lia. repeat split; lia.
  - discriminate.
  - exists 3, xc0, 7%nat. simpl in *. simplify_eq. repeat split; lia.
Qed.

Lemma varint_bytes_cons v :
  0 <= v <= MaxVarint ->
  exists b0 bs, varint_bytes v = b0 :: bs /\
    varint_size b0 = length (varint_bytes v) /\ varint_val (varint_bytes v) = v.
Proof.
  intros Hv. destruct (varint_bytes_tagged v Hv) as (t & tb & n & E & Htb & Ht & Hn & Hl).
  destruct (tagged_be t tb n v Htb Ht Hn) as [H1 H2]. rewrite E.
  eexists _, _. split; [done|]. split; [|done].
  unfold varint_size. rewrite H1. simpl. rewrite be_bytes_length, Hl.
  assert (t = 0 \/ t = 1 \/ t = 2 \/ t = 3) as [->|[->|[->| ->]]] by lia; done.
Qed.

Lemma varint_roundtrip v rest :
  0 <= v <= MaxVarint ->
  ReadVarint (varint_bytes v ++ rest) = Ok (v, length (varint_bytes v)).
Proof.
  intros Hv. destruct (varint_bytes_cons v Hv) as (b0 & bs & E & Hs & Hval).
  rewrite E in *. rewrite <-app_comm_cons, ReadVarint_cons, Hs.
  rewrite (proj2 (Nat.ltb_ge _ _)) by (simpl; rewrite length_app; lia).
  rewrite app_comm_cons, take_app_length. by rewrite Hval.
Qed.

Lemma varint_bytes_length v :
  0 <= v <= MaxVarint ->
  length (varint_bytes v) =
    if v <? 2 ^ 6 then 1%nat else if v <? 2 ^ 14 then 2%nat
    else if v <? 2 ^ 30 then 4%nat else 8%nat.
Proof.
  intros. unfold varint_bytes. rewrite !shl_mul by lia. rewrite !Z.mul_1_l.
  repeat case_match; try done; simplify_eq/=; simplify_eq/=; done.
Qed.

(** No accepted encoding of [v] is shorter than the one AppendVarint emits. *)
Lemma ReadVarint_minimal data v n :
  ReadVarint data = Ok (v, n) -> (length (varint_bytes v) <= n)%nat.
Proof.
  intros H. apply ReadVarint_range in H as Hr. rewrite varint_bytes_length by done.
  apply ReadVarint_bound in H as Hb. revert H. rewrite ReadVarint_ref.
  destruct data as [|b0 data]; [done|]. case_match; intros; simplify_eq.
  pose proof (varint_size_cases b0) as Hs. pose proof (mask_range b0).
  destruct (varint_size b0) as [|m] eqn:Em; [lia|].
  rewrite firstn_cons. unfold varint_val.
  rewrite be_val_cons, bval_to_byte_small by lia.
  pose proof (be_val_bound (take m data)) as B. simpl in *. zbool.
  rewrite length_take, Nat.min_l in * by lia.
  assert (m = 0 \/ m = 1 \/ m = 3 \/ m = 7)%nat as [->|[->|[->| ->]]]
    by (set_unfold; lia);
    repeat case_match; zbool; pow_norm; lia.
Qed.

Lemma varint_bytes_nonempty v : (0 < length (varint_bytes v) <= 8)%nat.
Proof. unfold varint_bytes. repeat case_match; simpl in *; simplify_eq/=; lia. Qed.

Lemma AppendVarint_ok dst v :
  0 <= v <= MaxVarint -> AppendVarint dst v = Ok (dst ++ varint_bytes v).
Proof. intros. unfold AppendVarint. by zguard. Qed.

Lemma AppendVarint_Ok_inv dst v out :
  AppendVarint dst v = Ok out -> v <= MaxVarint /\ out = dst ++ varint_bytes v.
Proof. unfold AppendVarint. case_match; intros; simplify_eq. zbool. done. Qed.

Lemma AppendVarint_never_err dst v e : AppendVarint dst v <> Err e.
Proof. unfold AppendVarint. by case_match. Qed.

Global Program Instance varint_codec : Codec Z := {|
  enc := AppendVarint [];
  dec := ReadVarint;
  valid v := 0 <= v <= MaxVarint;
|}.
Next Obligation. simpl. intros v Hv. eexists. by apply AppendVarint_ok. Qed.
Next Obligation.
  simpl. intros v bs rest Hv [_ ->]%AppendVarint_Ok_inv. by apply varint_roundtrip.
Qed.
Next Obligation. simpl. apply ReadVarint_bound. Qed.
Next Obligation. simpl. intros. by apply ReadVarint_local. Qed.
Next Obligation.
  simpl. intros. eexists. split; [by eapply ReadVarint_short|done].
Qed.

(** ** Strings *)

Definition string_bytes (s : bytes) : bytes := varint_bytes (len s) ++ s.

Lemma appendString_ok dst s :
  len s <= MaxVarint -> appendString dst s = Ok (dst ++ string_bytes s).
Proof.
  intros. unfold appendString, string_bytes.
  rewrite AppendVarint_ok by lia. simpl. by rewrite app_assoc.
Qed.

Lemma appendString_Ok_inv dst s out :
  appendString dst s = Ok out -> len s <= MaxVarint /\ out = dst ++ string_bytes s.
Proof.
  unfold appendString, string_bytes. intros H. go_inv.
  apply AppendVarint_Ok_inv in E as [? ->]. by rewrite app_assoc.
Qed.

Lemma readString_Ok_inv data s n :
  readString data = Ok (s, n) ->
  exists m, ReadVarint data = Ok (len s, m) /\ n = (m + length s)%nat /\
    (n <= length data)%nat /\ s = take (length s) (drop m data).
Proof.
  unfold readString. intros H. go_inv. zbool. exists n0.
  apply ReadVarint_bound in E as Hb. apply ReadVarint_range in E as Hr.
  destruct (Z_of_nat_complete z) as [k ->]; [lia|].
  rewrite Nat2Z.id, Nat.add_comm, Nat.add_sub, length_take, length_drop.
  rewrite Nat.min_l by lia. repeat split; [done|lia|lia].
Qed.

Lemma readString_intro data s m :
  ReadVarint data = Ok (len s, m) -> (m + length s <= length data)%nat ->
  take (length s) (drop m data) = s ->
  readString data = Ok (s, (m + length s)%nat).
Proof.
  intros E Hl Ht. unfold readString. rewrite E. simpl.
  zguard. rewrite Nat2Z.id, Nat.add_comm, Nat.add_sub. by rewrite Ht.
Qed.

Lemma string_roundtrip s rest :
  len s <= MaxVarint ->
  readString (string_bytes s ++ rest) = Ok (s, length (string_bytes s)).
Proof.
  intros Hl. unfold string_bytes. rewrite length_app, <-app_assoc.
  apply readString_intro.
  - apply varint_roundtrip. lia.
  - rewrite !length_app. lia.
  - rewrite drop_app_length. apply take_app_length.
Qed.

Lemma readString_bound data s n :
  readString data = Ok (s, n) -> (0 < n <= length data)%nat.
Proof.
  intros (m & E & -> & ? & _)%readString_Ok_inv. apply ReadVarint_bound in E. lia.
Qed.

Lemma readString_local data s n rest :
  readString data = Ok (s, n) -> readString (take n data ++ rest) = Ok (s, n).
Proof.
  intros (m & E & -> & Hn & Hs)%readString_Ok_inv.
  apply ReadVarint_bound in E as Hb. apply readString_intro.
  - rewrite <-(take_drop m (take (m + length s) data)).
    rewrite take_take, Nat.min_l by lia. rewrite <-app_assoc.
    by apply ReadVarint_local.
  - rewrite length_app, length_take. lia.
  - rewrite drop_app_le by (rewrite length_take; lia).
    rewrite take_app_le by (rewrite length_drop, length_take; lia).
    rewrite skipn_firstn_comm, Nat.add_comm, Nat.add_sub, take_take, Nat.min_id.
    done.
Qed.

Lemma readString_short data s n k :
  readString data = Ok (s, n) -> (k < n)%nat ->
  readString (take k data) = Err ErrShortBuffer.
Proof.
  intros (m & E & -> & Hn & Hs)%readString_Ok_inv Hk.
  apply ReadVarint_bound in E as Hb. unfold readString.
  destruct (decide (k < m)%nat).
  { by rewrite (ReadVarint_short _ _ _ _ E). }
  rewrite <-(take_drop m (take k data)), take_take, Nat.min_l by lia.
  rewrite (ReadVarint_local _ _ _ _ E). simpl.
  rewrite (proj2 (Z.ltb_lt _ _)); [done|].
  rewrite length_app, length_drop, !length_take. lia.
Qed.

(** A buffer cut behind the item still holds it. *)
Lemma ReadVarint_take data v n k :
  ReadVarint data = Ok (v, n) -> (n <= k)%nat -> ReadVarint (take k data) = Ok (v, n).
Proof.
  intros H Hk. rewrite <-(take_drop n (take k data)), take_take, Nat.min_l by lia.
  by apply ReadVarint_local.
Qed.

Lemma readString_take data s n k :
  readString data = Ok (s, n) -> (n <= k)%nat -> readString (take k data) = Ok (s, n).
Proof.
  intros H Hk. rewrite <-(take_drop n (take k data)), take_take, Nat.min_l by lia.
  by apply readString_local.
Qed.

Lemma readString_err data e : readString data = Err e -> e = ErrShortBuffer.
Proof.
  unfold readString. destruct (ReadVarint data) as [[? ?]|?|?] eqn:E; simpl;
    [case_match|apply ReadVarint_err in E|]; naive_solver.
Qed.

Lemma readString_never_panics data p : readString data <> Panic p.
Proof.
  unfold readString. intros [E|([? ?] & _ & E)]%bind_Panic; [|by case_match].
  by apply ReadVarint_never_panics in E.
Qed.

Lemma readString_len data s n : readString data = Ok (s, n) -> len s <= MaxVarint.
Proof. intros (m & E & _)%readString_Ok_inv. apply ReadVarint_range in E. lia. Qed.

Lemma string_bytes_nonempty s : (0 < length (string_bytes s))%nat.
Proof.
  unfold string_bytes. rewrite length_app. pose proof (varint_bytes_nonempty (len s)). lia.
Qed.

Global Program Instance string_codec : Codec bytes := {|
  enc := appendString [];
  dec := readString;
  valid s := len s <= MaxVarint;
|}.
Next Obligation. simpl. intros s Hs. eexists. by apply appendString_ok. Qed.
Next Obligation.
  simpl. intros s bs rest Hs [_ ->]%appendString_Ok_inv. by apply string_roundtrip.
Qed.
Next Obligation. simpl. apply readString_bound. Qed.
Next Obligation. simpl. intros. by apply readString_local. Qed.
Next Obligation.
  simpl. intros. eexists. split; [by eapply readString_short|done].
Qed.

(** ** Sequences of items

    A client that appends items one after another and reads them back at
    [data[n:]], proved against the interface alone. *)
Section Sequences.
Context `{Codec A}.

Fixpoint enc_all (xs : list A) : go bytes :=
  match xs with
  | [] => Ok []
  | x :: xs => b ← enc x; bs ← enc_all xs; Ok (b ++ bs)
  end.

(** [fuel] bounds the number of items; the length of the buffer is enough
    because every item takes at least one byte. *)
Fixpoint dec_all (fuel : nat) (data : bytes) : go (list A) :=
  match data, fuel with
  | [], _ => Ok []
  | _, O => Err (newError "out of fuel")
  | _, S fuel =>
      '(x, n) ← dec data;
      xs ← dec_all fuel (drop n data);
      Ok (x :: xs)
  end.

Lemma enc_all_ok xs : Forall valid xs -> exists bs, enc_all xs = Ok bs.
Proof.
  induction 1 as [|x xs Hx _ [bs IH]]; [by eexists|].
  destruct (codec_enc_ok x Hx) as [b Hb]. simpl. rewrite Hb, IH. by eexists.
Qed.

Lemma dec_all_enc_all xs bs fuel :
  Forall valid xs -> enc_all xs = Ok bs -> (length bs <= fuel)%nat ->
  dec_all fuel bs = Ok xs.
Proof.
  intros Hv. revert bs fuel. induction Hv as [|x xs Hx _ IH]; simpl; intros bs fuel E Hf.
  { simplify_eq. by destruct fuel. }
  go_inv. pose proof (codec_roundtrip x v v0 Hx E0) as Hr.
  pose proof (codec_bound _ _ _ Hr) as [Hpos _].
  rewrite length_app in Hf. destruct v as [|c v]; [simpl in Hpos; lia|].
  destruct fuel as [|fuel]; [simpl in Hf; lia|].
  change (dec_all (S fuel) ((c :: v) ++ v0)) with
    ('(x, n) ← dec ((c :: v) ++ v0);
     xs ← dec_all fuel (drop n ((c :: v) ++ v0)); Ok (x :: xs)).
  rewrite Hr. simpl mbind. rewrite drop_app_length.
  rewrite (IH v0 fuel); [done|done|]. simpl in Hf. lia.
Qed.
End Sequences.

(** ** Spelling

    [spells bs a]: the bytes [bs] are an encoding of [a] (not always the one
    [enc] produces: varints have non-minimal forms) that is read back whatever
    follows. *)
Section Spelling.
Context `{Codec A}.

Definition spells (bs : bytes) (a : A) : Prop :=
  forall rest, dec (bs ++ rest) = Ok (a, length bs).

Lemma dec_spells data a n :
  dec data = Ok (a, n) <->
  exists bs rest, data = bs ++ rest /\ n = length bs /\ spells bs a.
Proof.
  split.
  - intros E. apply codec_bound in E as Hb. exists (take n data), (drop n data).
    rewrite take_drop, length_take. split_and!; [done|lia|]. intros rest.
    rewrite length_take, Nat.min_l by lia. by apply codec_local.
  - intros (bs & rest & -> & -> & Hs). apply Hs.
Qed.

Lemma spells_enc a bs : valid a -> enc a = Ok bs -> spells bs a.
Proof. intros Hv E rest. by apply codec_roundtrip. Qed.
End Spelling.

(** The later files reason with the lemmas above, not with the definitions. *)
Arguments ReadVarint : simpl never.
Arguments AppendVarint : simpl never.
Arguments readString : simpl never.
Arguments appendString : simpl never.
Arguments varint_bytes : simpl never.
Arguments string_bytes : simpl never.
Arguments be_bytes : simpl never.
Arguments be_val : simpl never.

Create HintDb wire.
#[export] Hint Resolve ReadVarint_bound ReadVarint_range readString_bound readString_len
  varint_roundtrip string_roundtrip : wire.
