(* ===== verification/Frame.v ===== *)
(** * Frames

    [frame.go]: the on-wire envelope of every AIRE message, its encoder and its
    buffer decoder.  The frame codec is an instance of [Codec]; the stream of
    frames a caller builds with AppendEncode is read back frame by frame. *)

From Stdlib Require Import Strings.Byte.
From stdpp Require Import base numbers list gmap strings.
From S2P Require Import Prelude Machine Varint.
Open Scope Z_scope.

(** FrameType is a [uint8]; the constants of the spec. *)
Abbreviation FrameType := byte.
Definition FrameHello : FrameType := x01.
Definition FrameInvoke : FrameType := x03.
Definition FrameStream : FrameType := x04.
Definition FrameCancel : FrameType := x05.
Definition FrameBudget : FrameType := x06.
Definition FrameDelegate : FrameType := x07.
Definition FrameError : FrameType := x08.
Definition FrameGoodbye : FrameType := x09.

Definition MaxFrameSize : Z := 1 ≪ 20.

Record Frame := mkFrame {
  Type_ : FrameType;
  Flags : byte;
  OpID : Z;
  Payload : bytes;
}.

Global Instance Frame_eq_decision : EqDecision Frame.
Proof. solve_decision. Defined.

Definition AppendEncode (dst : bytes) (f : Frame) : go bytes :=
  let dst := dst ++ [Type_ f; Flags f] in
  dst ← AppendVarint dst (OpID f);
  dst ← AppendVarint dst (len (Payload f));
  Ok (dst ++ Payload f).

Definition Encode (f : Frame) : go bytes := AppendEncode [] f.

Definition Decode (data : bytes) : go (Frame * nat) :=
  match data with
  | type_ :: flags :: _ =>
      let pos := 2%nat in
      '(opid, n) ← ReadVarint (drop pos data);
      let pos := (pos + n)%nat in
      '(plen, n) ← ReadVarint (drop pos data);
      let pos := (pos + n)%nat in
      if MaxFrameSize <? plen then Err ErrFrameTooLarge else
      if len data - Z.of_nat pos <? plen then Err ErrShortBuffer else
      let payload :=
        if 0 <? plen then take (Z.to_nat plen) (drop pos data) else [] in
      let pos := (pos + Z.to_nat plen)%nat in
      Ok (mkFrame type_ flags opid payload, pos)
  | _ => Err ErrShortBuffer
  end.

(** What a sender may put in a frame so that the peer accepts it. *)
Definition frame_valid (f : Frame) : Prop :=
  0 <= OpID f <= MaxVarint /\ len (Payload f) <= MaxFrameSize.

Definition frame_bytes (f : Frame) : bytes :=
  [Type_ f; Flags f] ++ varint_bytes (OpID f) ++
  varint_bytes (len (Payload f)) ++ Payload f.

Lemma MaxFrameSize_lt : MaxFrameSize = 2 ^ 20.
Proof. reflexivity. Qed.

Lemma MaxFrameSize_varint n : n <= MaxFrameSize -> n <= MaxVarint.
Proof. rewrite MaxFrameSize_lt, MaxVarint_val. pow_norm. lia. Qed.

Lemma AppendEncode_ok dst f :
  0 <= OpID f <= MaxVarint -> len (Payload f) <= MaxVarint ->
  AppendEncode dst f = Ok (dst ++ frame_bytes f).
Proof.
  intros. unfold AppendEncode, frame_bytes.
  rewrite AppendVarint_ok by done. simpl. rewrite AppendVarint_ok by lia. simpl.
  by rewrite <-!app_assoc.
Qed.

Lemma AppendEncode_Ok_inv dst f out :
  AppendEncode dst f = Ok out ->
  OpID f <= MaxVarint /\ len (Payload f) <= MaxVarint /\ out = dst ++ frame_bytes f.
Proof.
  unfold AppendEncode, frame_bytes. intros H. go_inv.
  apply AppendVarint_Ok_inv in E as [? ->].
  apply AppendVarint_Ok_inv in E0 as [? ->]. by rewrite <-!app_assoc.
Qed.

(** Inversion of a successful Decode: the layout of the bytes it consumed. *)
Lemma Decode_Ok_inv data f n :
  Decode data = Ok (f, n) ->
  exists rest m1 m2,
    data = Type_ f :: Flags f :: rest /\
    ReadVarint rest = Ok (OpID f, m1) /\
    ReadVarint (drop m1 rest) = Ok (len (Payload f), m2) /\
    len (Payload f) <= MaxFrameSize /\
    n = (2 + m1 + m2 + length (Payload f))%nat /\ (n <= length data)%nat /\
    Payload f = take (length (Payload f)) (drop (m1 + m2) rest).
Proof.
  intros H. destruct data as [|t [|fl rest]]; [done..|]. simpl in H. go_inv. zbool.
  simpl drop in *. exists rest, n0, n1.
  apply ReadVarint_bound in E as Hb1. apply ReadVarint_bound in E0 as Hb2.
  apply ReadVarint_range in E0 as Hr. rewrite length_drop in Hb2.
  destruct (Z_of_nat_complete z0) as [k ->]; [lia|]. rewrite Nat2Z.id in *.
  simpl length in *.
  assert ((if 0 <? Z.of_nat k then take k (drop (n0 + n1) rest) else [])
          = take k (drop (n0 + n1) rest)) as ->.
  { case_match; [done|]. zbool. by replace k with O by lia. }
  simpl. rewrite length_take, length_drop, Nat.min_l by lia.
  repeat split; done || lia.
Qed.

Lemma Decode_intro t fl rest opid m1 m2 payload :
  ReadVarint rest = Ok (opid, m1) ->
  ReadVarint (drop m1 rest) = Ok (len payload, m2) ->
  len payload <= MaxFrameSize ->
  (m1 + m2 + length payload <= length rest)%nat ->
  payload = take (length payload) (drop (m1 + m2) rest) ->
  Decode (t :: fl :: rest) =
    Ok (mkFrame t fl opid payload, (2 + m1 + m2 + length payload)%nat).
Proof.
  intros E1 E2 Hm Hl Hp. simpl. rewrite drop_0, E1. simpl. rewrite E2. simpl.
  zguard. zguard. rewrite Nat2Z.id. do 3 f_equal.
  case_match; [by symmetry|]. zbool. by destruct payload.
Qed.

Arguments Decode : simpl never.

Lemma frame_roundtrip f rest :
  frame_valid f -> Decode (frame_bytes f ++ rest) = Ok (f, length (frame_bytes f)).
Proof.
  intros [Ho Hp]. apply MaxFrameSize_varint in Hp as Hp'.
  destruct f as [t fl opid payload]. unfold frame_bytes. simpl in *.
  rewrite <-!app_assoc.
  rewrite Decode_intro with (opid := opid) (payload := payload)
    (m1 := length (varint_bytes opid)) (m2 := length (varint_bytes (len payload))).
  - simpl. rewrite !length_app. do 2 f_equal. lia.
  - by apply varint_roundtrip.
  - rewrite drop_app_length. apply varint_roundtrip. lia.
  - done.
  - rewrite !length_app. lia.
  - rewrite drop_app, drop_ge by lia. simpl.
    rewrite Nat.add_comm, Nat.add_sub, drop_app_length. by rewrite take_app_length.
Qed.

(** Decode looks only at the frame it returns, ... *)
Lemma Decode_local data f n rest :
  Decode data = Ok (f, n) -> Decode (take n data ++ rest) = Ok (f, n).
Proof.
  intros (r & m1 & m2 & -> & E1 & E2 & Hm & -> & Hn & Hp)%Decode_Ok_inv.
  apply ReadVarint_bound in E1 as B1. apply ReadVarint_bound in E2 as B2.
  rewrite length_drop in B2. simpl length in Hn.
  change (take _ (?a :: ?b :: r)) with
    (a :: b :: take (m1 + m2 + length (Payload f)) r).
  rewrite <-!app_comm_cons. destruct f as [t fl opid payload]. simpl in *.
  set (k := (m1 + m2 + length payload)%nat) in *.
  apply Decode_intro; try done.
  - rewrite <-(take_drop m1 (take k r)), take_take, Nat.min_l, <-app_assoc by lia.
    by apply ReadVarint_local.
  - rewrite drop_app_le by (rewrite length_take; lia).
    rewrite <-(take_drop m2 (drop m1 (take k r))), <-app_assoc.
    rewrite skipn_firstn_comm, take_take, Nat.min_l by lia.
    by apply ReadVarint_local.
  - rewrite length_app, length_take. lia.
  - rewrite drop_app_le by (rewrite length_take; lia).
    rewrite take_app_le by (rewrite length_drop, length_take; lia).
    rewrite skipn_firstn_comm, take_take, Nat.min_l by lia. done.
Qed.

(** ... and a strict prefix of it is a short buffer, at every cut point. *)
Lemma Decode_short data f n k :
  Decode data = Ok (f, n) -> (k < n)%nat -> Decode (take k data) = Err ErrShortBuffer.
Proof.
  intros (r & m1 & m2 & -> & E1 & E2 & Hm & -> & Hn & Hp)%Decode_Ok_inv Hk.
  apply ReadVarint_bound in E1 as B1. apply ReadVarint_bound in E2 as B2.
  rewrite length_drop in B2. simpl length in Hn.
  destruct k as [|[|k]]; [done..|]. unfold Decode. simpl.
  rewrite drop_0.
  destruct (decide (k < m1)%nat); [by rewrite (ReadVarint_short _ _ _ _ E1)|].
  rewrite (ReadVarint_take _ _ _ _ E1) by lia. simpl. rewrite skipn_firstn_comm.
  destruct (decide (k - m1 < m2)%nat); [by rewrite (ReadVarint_short _ _ _ _ E2)|].
  rewrite (ReadVarint_take _ _ _ _ E2) by lia. simpl. zguard.
  rewrite (proj2 (Z.ltb_lt _ _)); [done|]. rewrite length_take. lia.
Qed.

Lemma Decode_bound data f n : Decode data = Ok (f, n) -> (0 < n <= length data)%nat.
Proof. intros (? & ? & ? & _ & _ & _ & _ & -> & ? & _)%Decode_Ok_inv. lia. Qed.

Lemma Decode_valid data f n : Decode data = Ok (f, n) -> frame_valid f.
Proof.
  intros (? & ? & ? & _ & E & _ & ? & _)%Decode_Ok_inv.
  split; [by apply ReadVarint_range in E|done].
Qed.

Global Program Instance frame_codec : Codec Frame := {|
  enc := Encode; dec := Decode; valid := frame_valid;
|}.
Next Obligation.
  simpl. intros f [? Hp]. eexists. apply AppendEncode_ok; [done|].
  by apply MaxFrameSize_varint.
Qed.
Next Obligation.
  simpl. intros f bs rest Hf (_ & _ & ->)%AppendEncode_Ok_inv. by apply frame_roundtrip.
Qed.
Next Obligation. simpl. apply Decode_bound. Qed.
Next Obligation. simpl. intros. by apply Decode_local. Qed.
Next Obligation. simpl. intros. eexists. split; [by eapply Decode_short|done]. Qed.

(** ** A stream of frames *)

Fixpoint append_frames (dst : bytes) (fs : list Frame) : go bytes :=
  match fs with
  | [] => Ok dst
  | f :: fs => dst ← AppendEncode dst f; append_frames dst fs
  end.

Lemma AppendEncode_app dst f :
  AppendEncode dst f = (bs ← Encode f; Ok (dst ++ bs)).
Proof.
  unfold Encode, AppendEncode, AppendVarint.
  destruct (MaxVarint <? OpID f); [done|]. simpl.
  destruct (MaxVarint <? len (Payload f)); [done|]. simpl. by rewrite <-!app_assoc.
Qed.

Lemma append_frames_enc dst fs :
  append_frames dst fs = (bs ← enc_all fs; Ok (dst ++ bs)).
Proof.
  revert dst. induction fs as [|f fs IH]; intros dst; simpl.
  { by rewrite app_nil_r. }
  rewrite AppendEncode_app. destruct (Encode f); simpl; [|done|done].
  rewrite IH. destruct (enc_all fs); simpl; [|done|done]. by rewrite <-app_assoc.
Qed.

(** C14: frames appended one after another with AppendEncode are read back
    exactly, in order and with nothing left over, by decoding at [data[n:]]
    until the buffer is empty.  The frames are those a receiver accepts: OpIDs
    within 62 bits and payloads within MaxFrameSize. *)
Theorem frame_stream_roundtrip fs :
  Forall frame_valid fs ->
  exists bs, append_frames [] fs = Ok bs /\ dec_all (length bs) bs = Ok fs.
Proof.
  intros Hv. destruct (enc_all_ok (H := frame_codec) fs Hv) as [bs Hb]. exists bs.
  rewrite append_frames_enc, Hb. split; [done|].
  by eapply dec_all_enc_all.
Qed.

Lemma frame_stream_roundtrip_witness :
  let fs := [mkFrame x01 x00 0 []; mkFrame x03 x00 42 (str "hi");
             mkFrame x04 x00 16384 (repeat xab 100)] in
  exists bs, append_frames [] fs = Ok bs /\ dec_all (length bs) bs = Ok fs.
Proof.
  apply (frame_stream_roundtrip
    [mkFrame x01 x00 0 []; mkFrame x03 x00 42 (str "hi");
     mkFrame x04 x00 16384 (repeat xab 100)]).
  repeat constructor; vm_compute; congruence.
Defined.

(** A frame cut anywhere before its last byte decodes to ErrShortBuffer:
    never to another frame, another error or a panic. *)
Lemma frame_truncation f bs k :
  frame_valid f -> Encode f = Ok bs -> (k < length bs)%nat ->
  Decode (take k bs) = Err ErrShortBuffer.
Proof.
  intros Hf E Hk. pose proof (codec_roundtrip (Codec := frame_codec) f bs [] Hf E) as R.
  rewrite app_nil_r in R. by eapply Decode_short.
Qed.

Lemma frame_truncation_witness :
  Decode (take 5 [x03; x00; x2a; x02; x68; x69]) = Err ErrShortBuffer.
Proof.
  apply (frame_truncation (mkFrame x03 x00 42 (str "hi"))).
  - split; vm_compute; intuition congruence.
  - reflexivity.
  - vm_compute. lia.
Defined.

(** The outcomes of Decode: a frame or one of two errors. *)
Lemma Decode_outcome data :
  (exists f n, Decode data = Ok (f, n)) \/
  Decode data = Err ErrShortBuffer \/ Decode data = Err ErrFrameTooLarge.
Proof.
  unfold Decode. destruct data as [|t [|fl r]]; [by auto..|]. simpl.
  destruct (ReadVarint _) as [[opid m1]|e|p] eqn:E1; simpl;
    [|apply ReadVarint_err in E1; naive_solver|by apply ReadVarint_never_panics in E1].
  destruct (ReadVarint (drop m1 r)) as [[plen m2]|e|p] eqn:E2; simpl;
    [|apply ReadVarint_err in E2; naive_solver|by apply ReadVarint_never_panics in E2].
  repeat case_match; eauto.
Qed.

(** C40: bounds of the decoder on arbitrary input.  Decode never panics; on
    success it has consumed a non-empty prefix of the buffer that re-encoding
    cannot make longer, and the frame it returns satisfies the sender's bounds;
    on failure the error is ErrShortBuffer or ErrFrameTooLarge. *)
Theorem Decode_total data :
  match Decode data with
  | Ok (f, n) =>
      (0 < n <= length data)%nat /\ frame_valid f /\
      exists bs, Encode f = Ok bs /\ (length bs <= n)%nat
  | Err e => e = ErrShortBuffer \/ e = ErrFrameTooLarge
  | Panic _ => False
  end.
Proof.
  destruct (Decode_outcome data) as [(f & n & E)|[E|E]]; rewrite E; [|naive_solver..].
  pose proof (Decode_valid _ _ _ E) as Hv. split; [by eapply Decode_bound|]. split; [done|].
  destruct (codec_enc_ok (Codec := frame_codec) f Hv) as [bs Hbs]. exists bs. split; [done|].
  apply AppendEncode_Ok_inv in Hbs as (_ & _ & ->).
  apply Decode_Ok_inv in E as (r & m1 & m2 & _ & E1 & E2 & _ & -> & _).
  apply ReadVarint_minimal in E1, E2. unfold frame_bytes. simpl.
  rewrite !length_app. lia.
Qed.

(** A declared payload above MaxFrameSize is refused before any payload
    byte is looked at, whatever the buffer holds, and such a frame is one that
    Encode does emit: the bound is enforced by the receiver only. *)
Lemma frame_too_large f rest :
  0 <= OpID f <= MaxVarint -> MaxFrameSize < len (Payload f) <= MaxVarint ->
  Encode f = Ok (frame_bytes f) /\
  forall k, (2 + length (varint_bytes (OpID f)) + length (varint_bytes (len (Payload f)))
             <= k)%nat ->
    Decode (take k (frame_bytes f ++ rest)) = Err ErrFrameTooLarge.
Proof.
  intros Ho Hp. split; [apply AppendEncode_ok; lia|]. intros k Hk.
  destruct f as [t fl opid payload]. unfold frame_bytes. simpl in *.
  destruct k as [|[|k]]; [lia..|]. unfold Decode. simpl. rewrite drop_0.
  rewrite <-!app_assoc, take_app_ge by lia. rewrite varint_roundtrip by done. simpl.
  rewrite drop_app_length, take_app_ge by lia. rewrite varint_roundtrip by lia. simpl.
  by zguard.
Qed.

Lemma frame_too_large_witness :
  let f := mkFrame x04 x00 1 (repeat xab (Z.to_nat (MaxFrameSize + 1))) in
  Encode f = Ok (frame_bytes f) /\
  forall k, (2 + length (varint_bytes (OpID f)) + length (varint_bytes (len (Payload f)))
             <= k)%nat ->
    Decode (take k (frame_bytes f ++ [])) = Err ErrFrameTooLarge.
Proof.
  apply (frame_too_large (mkFrame x04 x00 1 (repeat xab (Z.to_nat (MaxFrameSize + 1)))));
    cbn [OpID Payload]; rewrite ?repeat_length, ?Z2Nat.id;
    rewrite ?MaxVarint_val, ?MaxFrameSize_lt; pow_norm; lia.
Defined.
