(* ===== verification/Stream.v ===== *)
(** * Reading frames from a stream

    [conn.go], readFrame and readVarintFrom: the incremental decoder that
    Stream.RecvFrame runs on a QUIC stream, and its equivalence with the buffer
    decoder of [Frame]. *)

From Stdlib Require Import Strings.Byte.
From stdpp Require Import base numbers list gmap strings.
From S2P Require Import Prelude Machine Varint Frame.
Open Scope Z_scope.

(** An [io.Reader] as its consumer sees it: the bytes it will still deliver and
    the error it reports after them ([io.EOF] once the peer has sent FIN). *)
Record reader := mkReader {
  r_data : bytes;
  r_end : error;
}.

(** Calls on a reader: an outcome and the reader afterwards. *)
Definition rd (A : Type) : Type := reader -> go A * reader.

Global Instance rd_ret : MRet rd := fun A a r => (Ok a, r).
Global Instance rd_bind : MBind rd := fun A B f m r =>
  match m r with
  | (Ok a, r) => f a r
  | (Err e, r) => (Err e, r)
  | (Panic p, r) => (Panic p, r)
  end.
Definition rd_err {A} (e : error) : rd A := fun r => (Err e, r).

(** What a cut in the middle of an item reports. *)
Definition unexpected (e : error) : error :=
  match e with Sentinel EOF => Sentinel ErrUnexpectedEOF | e => e end.

(** [io.ReadFull(r, buf)] with [len(buf) = n]: exactly [n] bytes, or the end
    error if there was no byte at all, or ErrUnexpectedEOF in place of EOF if
    there were some but too few. *)
Definition ReadFull (n : nat) : rd bytes := fun r =>
  if (n <=? length (r_data r))%nat then
    (Ok (take n (r_data r)), mkReader (drop n (r_data r)) (r_end r))
  else
    let e :=
      match r_data r with
      | [] => r_end r
      | _ => unexpected (r_end r)
      end in
    (Err e, mkReader [] (r_end r)).

Definition rd_lift {A} (m : go A) : rd A := fun r => (m, r).

Definition readVarintFrom : rd Z :=
  first ← ReadFull 1;
  let more (size : nat) : rd Z :=
    buf ← ReadFull (size - 1);
    '(v, _) ← rd_lift (ReadVarint (first ++ buf));
    mret v in
  match idx first 0 ≫ 6 with
  | 0 => mret (Z.land (idx first 0) 0x3F)
  | 1 => more 2%nat
  | 2 => more 4%nat
  | _ => more 8%nat
  end.

Definition readFrame : rd Frame :=
  header ← ReadFull 2;
  opid ← readVarintFrom;
  plen ← readVarintFrom;
  if MaxFrameSize <? plen then rd_err ErrFrameTooLarge else
  payload ← (if 0 <? plen then ReadFull (Z.to_nat plen) else mret []);
  mret (mkFrame (nth 0 header x00) (nth 1 header x00) opid payload).

Section ReaderMonad.
Context {A B : Type} (m : rd A) (f : A -> rd B) (r r' : reader).

Lemma rd_bind_Ok a : m r = (Ok a, r') -> (m ≫= f) r = f a r'.
Proof. intros H. unfold mbind, rd_bind. by rewrite H. Qed.

Lemma rd_bind_Err e : m r = (Err e, r') -> (m ≫= f) r = (Err e, r').
Proof. intros H. unfold mbind, rd_bind. by rewrite H. Qed.
End ReaderMonad.

Lemma ReadFull_ok n data e :
  (n <= length data)%nat ->
  ReadFull n (mkReader data e) = (Ok (take n data), mkReader (drop n data) e).
Proof. intros. unfold ReadFull. simpl. by rewrite (proj2 (Nat.leb_le _ _)). Qed.

Lemma ReadFull_short n data e :
  (length data < n)%nat ->
  ReadFull n (mkReader data e) =
    (Err (if (length data =? 0)%nat then e else unexpected e), mkReader [] e).
Proof.
  intros. unfold ReadFull. simpl. rewrite (proj2 (Nat.leb_gt _ _)) by done.
  by destruct data.
Qed.

(** After its first byte, readVarintFrom reads the announced size. *)
Lemma readVarintFrom_cons b0 data e :
  readVarintFrom (mkReader (b0 :: data) e) =
  match varint_size b0 with
  | 1%nat => (Ok (Z.land (bval b0) 0x3F), mkReader data e)
  | size =>
      (buf ← ReadFull (size - 1);
       '(v, _) ← rd_lift (ReadVarint (b0 :: buf));
       mret v) (mkReader data e)
  end.
Proof.
  unfold readVarintFrom.
  rewrite (rd_bind_Ok _ _ _ (mkReader data e) [b0]) by done.
  unfold varint_size. change (idx [b0] 0) with (bval b0).
  pose proof (tag_range b0).
  assert (bval b0 ≫ 6 = 0 \/ bval b0 ≫ 6 = 1 \/ bval b0 ≫ 6 = 2 \/ bval b0 ≫ 6 = 3)
    as [E|[E|[E|E]]] by lia; by rewrite E.
Qed.

Lemma readVarintFrom_ok data e v n :
  ReadVarint data = Ok (v, n) ->
  readVarintFrom (mkReader data e) = (Ok v, mkReader (drop n data) e).
Proof.
  destruct data as [|b0 data]; [done|]. intros H.
  pose proof (ReadVarint_local _ _ _ [] H) as Hl. rewrite app_nil_r in Hl.
  rewrite readVarintFrom_cons. rewrite ReadVarint_cons in H.
  case_match eqn:Hc; simplify_eq. zbool. simpl in Hc.
  pose proof (varint_size_cases b0) as Hs.
  destruct (varint_size b0) as [|[|m]] eqn:Em; [set_unfold; lia| |].
  - change (varint_val (take 1 (b0 :: data)))
      with (be_val [to_byte (Z.land (bval b0) 63)]).
    rewrite be_val_cons, bval_to_byte_small by (pose proof (mask_range b0); lia).
    change (be_val []) with 0. change (256 ^ len []) with 1.
    rewrite Z.mul_1_r, Z.add_0_r. done.
  - rewrite (rd_bind_Ok _ _ _ (mkReader (drop (S m) data) e) (take (S m) data));
      [|simpl; rewrite ReadFull_ok by lia; done].
    rewrite firstn_cons in Hl.
    unfold mbind, rd_bind, rd_lift. by rewrite Hl.
Qed.

Lemma readVarintFrom_short data e :
  ReadVarint data = Err ErrShortBuffer ->
  readVarintFrom (mkReader data e) =
    (Err (if (length data <=? 1)%nat then e else unexpected e), mkReader [] e).
Proof.
  destruct data as [|b0 data]; [done|]. rewrite readVarintFrom_cons, ReadVarint_cons.
  case_match eqn:Hc; [|done]. intros _. zbool. simpl in Hc.
  destruct (varint_size b0) as [|[|m]] eqn:Em; [lia..|].
  eapply rd_bind_Err. simpl. rewrite ReadFull_short by lia.
  by destruct data.
Qed.

Lemma readFrame_ok data e f n :
  Decode data = Ok (f, n) ->
  readFrame (mkReader data e) = (Ok f, mkReader (drop n data) e).
Proof.
  intros (r & m1 & m2 & -> & E1 & E2 & Hm & -> & Hn & Hp)%Decode_Ok_inv.
  simpl length in Hn. apply ReadVarint_bound in E1 as B1. apply ReadVarint_bound in E2 as B2.
  rewrite length_drop in B2. unfold readFrame.
  erewrite rd_bind_Ok by (apply ReadFull_ok; simpl; lia). simpl. rewrite drop_0.
  erewrite rd_bind_Ok by (by apply readVarintFrom_ok).
  erewrite rd_bind_Ok by (by apply readVarintFrom_ok). simpl.
  zguard. rewrite drop_drop.
  set (k := length (Payload f)) in *.
  rewrite (rd_bind_Ok _ _ _ (mkReader (drop (m1 + m2 + k) r) e) (Payload f)).
  - by destruct f.
  - case_match; zbool.
    + rewrite Nat2Z.id, ReadFull_ok by (rewrite length_drop; lia).
      rewrite drop_drop. by rewrite <-Hp.
    + assert (k = 0)%nat as -> by lia. rewrite Nat.add_0_r, Hp. done.
Qed.

(** The error of a frame cut short by the end of the stream: the end error
    itself, or ErrUnexpectedEOF when the cut is inside a field. *)
Lemma readFrame_short data e :
  Decode data = Err ErrShortBuffer ->
  exists e', readFrame (mkReader data e) = (Err e', mkReader [] e) /\
    (e' = e \/ e' = unexpected e).
Proof.
  intros H. unfold readFrame.
  destruct (decide (length data < 2)%nat) as [Hl|Hl].
  { eexists. split; [apply rd_bind_Err; by apply ReadFull_short|]. case_match; naive_solver. }
  destruct data as [|t [|fl r]]; [simpl in Hl; lia..|].
  unfold Decode in H. simpl in H. rewrite drop_0 in H.
  erewrite rd_bind_Ok by (apply ReadFull_ok; simpl; lia). simpl. rewrite drop_0.
  destruct (ReadVarint r) as [[opid m1]|e1|] eqn:E1; simplify_eq/=.
  2: { apply readVarintFrom_short with (e := e) in E1.
       eexists. split; [by apply rd_bind_Err|]. case_match; naive_solver. }
  apply ReadVarint_bound in E1 as B1.
  erewrite rd_bind_Ok by (by apply readVarintFrom_ok).
  destruct (ReadVarint (drop m1 r)) as [[plen m2]|e2|] eqn:E2; simplify_eq/=.
  2: { apply readVarintFrom_short with (e := e) in E2.
       eexists. split; [by apply rd_bind_Err|]. case_match; naive_solver. }
  apply ReadVarint_bound in E2 as B2. rewrite length_drop in B2.
  erewrite rd_bind_Ok by (by apply readVarintFrom_ok). simpl.
  repeat case_match; simplify_eq; zbool; [|lia].
  rewrite drop_drop.
  eexists. split; [apply rd_bind_Err, ReadFull_short|case_match; naive_solver].
  rewrite length_drop. lia.
Qed.

Lemma readFrame_too_large data e :
  Decode data = Err ErrFrameTooLarge ->
  fst (readFrame (mkReader data e)) = Err ErrFrameTooLarge.
Proof.
  intros H. unfold Decode in H.
  destruct data as [|t [|fl r]]; simplify_eq/=. rewrite drop_0 in H. unfold readFrame.
  erewrite rd_bind_Ok by (apply ReadFull_ok; simpl; lia). simpl. rewrite drop_0.
  destruct (ReadVarint r) as [[opid m1]|e1|] eqn:E1; simplify_eq/=.
  2: by apply ReadVarint_err in E1.
  erewrite rd_bind_Ok by (by apply readVarintFrom_ok).
  destruct (ReadVarint (drop m1 r)) as [[plen m2]|e2|] eqn:E2; simplify_eq/=.
  2: by apply ReadVarint_err in E2.
  erewrite rd_bind_Ok by (by apply readVarintFrom_ok). simpl.
  by repeat case_match; simplify_eq.
Qed.

(** C13: the incremental reader refines the buffer decoder.  On every stream
    contents [data] followed by the end error [e]: a frame Decode finds is the
    frame returned, with exactly its bytes consumed; an oversized frame is
    refused the same way; an incomplete frame exhausts the stream and reports
    [e], or ErrUnexpectedEOF in place of EOF.  It never panics. *)
Theorem readFrame_refines_Decode data e :
  match Decode data with
  | Ok (f, n) => readFrame (mkReader data e) = (Ok f, mkReader (drop n data) e)
  | Err d =>
      (d = ErrFrameTooLarge /\ fst (readFrame (mkReader data e)) = Err ErrFrameTooLarge) \/
      (d = ErrShortBuffer /\ exists e', readFrame (mkReader data e) = (Err e', mkReader [] e)
         /\ (e' = e \/ e' = unexpected e))
  | Panic _ => False
  end.
Proof.
  destruct (Decode_outcome data) as [(f & n & E)|[E|E]]; rewrite E.
  - by apply readFrame_ok.
  - right. split; [done|]. by apply readFrame_short.
  - left. split; [done|]. by apply readFrame_too_large.
Qed.

(** Receiving frame after frame until an error, as the callers of RecvFrame do;
    [fuel] bounds the number of frames. *)
Fixpoint recv_all (fuel : nat) (r : reader) : list Frame * go Frame :=
  match fuel with
  | O => ([], Err (newError "out of fuel"))
  | S fuel =>
      match readFrame r with
      | (Ok f, r) => let '(fs, end_) := recv_all fuel r in (f :: fs, end_)
      | (x, _) => ([], x)
      end
  end.

(** A sender that writes the frames [fs] one after another and then closes
    its side is received as exactly [fs], in order, followed by io.EOF. *)
Lemma stream_delivery fs bs :
  Forall frame_valid fs -> append_frames [] fs = Ok bs ->
  recv_all (S (length fs)) (mkReader bs EOF) = (fs, Err EOF).
Proof.
  intros Hv E. assert (enc_all fs = Ok bs) as E'.
  { rewrite append_frames_enc in E. by destruct (enc_all fs). }
  clear E. rename E' into E. revert bs E.
  induction Hv as [|f fs Hf Hv IH]; intros bs E; simplify_eq/=; [done|]. go_inv.
  pose proof (codec_roundtrip (Codec := frame_codec) f v v0 Hf E0) as R.
  rewrite (readFrame_ok _ _ _ _ R), drop_app_length.
  specialize (IH _ E1). simpl in IH. by rewrite IH.
Qed.

Lemma stream_delivery_witness :
  recv_all 3 (mkReader [x01; x00; x00; x00; x03; x00; x2a; x02; x68; x69] EOF) =
    ([mkFrame x01 x00 0 []; mkFrame x03 x00 42 (str "hi")], Err EOF).
Proof.
  apply (stream_delivery [mkFrame x01 x00 0 []; mkFrame x03 x00 42 (str "hi")]).
  - repeat constructor; vm_compute; congruence.
  - vm_compute. reflexivity.
Defined.

(** io.EOF does not imply a clean end.  A stream that the peer closes right
    after the two header bytes of a frame reports io.EOF, the same error as a
    stream closed between frames, although the frame was cut. *)
Lemma header_cut_reports_EOF f :
  readFrame (mkReader (take 2 (frame_bytes f)) EOF) = (Err EOF, mkReader [] EOF) /\
  Decode (take 2 (frame_bytes f)) = Err ErrShortBuffer /\
  readFrame (mkReader [] EOF) = (Err EOF, mkReader [] EOF).
Proof. destruct f as [t fl opid payload]. repeat split; reflexivity. Qed.

Lemma readFrame_never_panics r p : (readFrame r).1 <> Panic p.
Proof.
  destruct r as [data e]. destruct (Decode_outcome data) as [(f & n & E)|[E|E]].
  - by rewrite (readFrame_ok _ _ _ _ E).
  - by destruct (readFrame_short data e E) as (e' & -> & _).
  - by rewrite (readFrame_too_large data e E).
Qed.
