(* ===== verification/Cancel.v ===== *)
(** * CANCEL frames

    [cancel.go]: reason codes, the CANCEL payload codec and its v0.1
    compatibility form. *)

From Stdlib Require Import Strings.Byte.
From stdpp Require Import base numbers list gmap strings.
From S2P Require Import Prelude Machine Varint.
Open Scope Z_scope.

(** CancelReason is a [uint64]. *)
Definition ReasonUserCancelled : Z := 0x00.
Definition ReasonDeadlineExceeded : Z := 0x01.
Definition ReasonBudgetExceeded : Z := 0x02.
Definition ReasonUpstreamCancelled : Z := 0x03.
Definition ReasonResourceExhausted : Z := 0x04.
Definition ReasonInternal : Z := 0x05.

(** [fmt.Sprintf("%02x", v)]: lower-case hexadecimal, at least two digits. *)
Definition hex_digit (d : Z) : byte :=
  nth (Z.to_nat d) (str "0123456789abcdef") x30.

Fixpoint hex_digits (fuel : nat) (v : Z) (acc : bytes) : bytes :=
  match fuel with
  | O => acc
  | S fuel =>
      if v <? 16 then hex_digit v :: acc
      else hex_digits fuel (v / 16) (hex_digit (v mod 16) :: acc)
  end.

(** A [uint64] has at most sixteen hexadecimal digits. *)
Definition fmt_02x (v : Z) : bytes :=
  let ds := hex_digits 16 v [] in
  if (length ds <? 2)%nat then x30 :: ds else ds.

Definition CancelReason_String (r : Z) : bytes :=
  if r =? ReasonUserCancelled then str "USER_CANCELLED"
  else if r =? ReasonDeadlineExceeded then str "DEADLINE_EXCEEDED"
  else if r =? ReasonBudgetExceeded then str "BUDGET_EXCEEDED"
  else if r =? ReasonUpstreamCancelled then str "UPSTREAM_CANCELLED"
  else if r =? ReasonResourceExhausted then str "RESOURCE_EXHAUSTED"
  else if r =? ReasonInternal then str "INTERNAL"
  else if 0x40 <=? r then str "vendor(0x" ++ fmt_02x r ++ str ")"
  else str "reserved(0x" ++ fmt_02x r ++ str ")".

Record Cancel := mkCancel {
  Reason : Z;
  Detail : bytes;
}.

Definition Cancel_Encode (c : Cancel) : go bytes :=
  out ← AppendVarint [] (Reason c);
  appendString out (Detail c).

Definition DecodeCancel (payload : bytes) : go Cancel :=
  if (length payload =? 0)%nat then Ok (mkCancel ReasonUserCancelled []) else
  '(reason, n) ← on_err (fun e => Errorf "aire: CANCEL Reason: %w" (Some e) [])
                   (ReadVarint payload);
  '(detail, m) ← on_err (fun e => Errorf "aire: CANCEL Detail: %w" (Some e) [])
                   (readString (drop n payload));
  if negb (n + m =? length payload)%nat then
    Err (Errorf "aire: CANCEL: %d trailing bytes after Detail" None
           [ArgInt (len payload - Z.of_nat (n + m))])
  else Ok (mkCancel reason detail).

(** Operation error codes, shared with the ERROR-frame registry. *)
Definition ErrCodeCancelled : Z := 0x0A.
Definition ErrCodeBudgetExceeded : Z := 0x0B.
Definition ErrCodeDeadlineExceeded : Z := 0x0C.
Definition ErrCodeDelegateFailed : Z := 0x0D.

Definition cancel_valid (c : Cancel) : Prop :=
  0 <= Reason c <= MaxVarint /\ len (Detail c) <= MaxVarint.

Definition cancel_bytes (c : Cancel) : bytes :=
  varint_bytes (Reason c) ++ string_bytes (Detail c).

Lemma Cancel_Encode_ok c : cancel_valid c -> Cancel_Encode c = Ok (cancel_bytes c).
Proof.
  intros [? ?]. unfold Cancel_Encode. rewrite AppendVarint_ok by done. simpl.
  by rewrite appendString_ok.
Qed.

Lemma cancel_bytes_length c : (2 <= length (cancel_bytes c))%nat.
Proof.
  unfold cancel_bytes. rewrite length_app.
  pose proof (varint_bytes_nonempty (Reason c)).
  pose proof (string_bytes_nonempty (Detail c)). lia.
Qed.

(** Decoding bytes that start with an encoded CANCEL: complete iff nothing
    follows. *)
Lemma DecodeCancel_bytes c extra :
  cancel_valid c ->
  DecodeCancel (cancel_bytes c ++ extra) =
    match extra with
    | [] => Ok c
    | _ => Err (Errorf "aire: CANCEL: %d trailing bytes after Detail" None
                  [ArgInt (len extra)])
    end.
Proof.
  intros [Hr Hd]. pose proof (cancel_bytes_length c) as Hl. unfold DecodeCancel.
  rewrite (proj2 (Nat.eqb_neq _ _)) by (rewrite length_app; lia).
  unfold cancel_bytes in *. rewrite <-!app_assoc, varint_roundtrip by done. simpl.
  rewrite drop_app_length, string_roundtrip by done. simpl. rewrite !length_app.
  destruct extra as [|b extra].
  - rewrite Nat.add_0_r, Nat.eqb_refl. simpl. by destruct c.
  - rewrite (proj2 (Nat.eqb_neq _ _)) by (simpl; lia). simpl. do 4 f_equal. lia.
Qed.

Lemma DecodeCancel_Ok_inv payload c :
  DecodeCancel payload = Ok c ->
  (payload = [] /\ c = mkCancel ReasonUserCancelled []) \/
  exists n m, ReadVarint payload = Ok (Reason c, n) /\
    readString (drop n payload) = Ok (Detail c, m) /\ (n + m)%nat = length payload.
Proof.
  unfold DecodeCancel. intros H. destruct payload as [|b payload]; [left; naive_solver|right].
  simpl (_ =? 0)%nat in H. cbv iota in H. go_inv. zbool. by exists n, n0.
Qed.

(** Every CANCEL a sender can express survives the wire, and any byte after
    it is rejected with the number of trailing bytes. *)
Lemma cancel_roundtrip c extra :
  cancel_valid c ->
  exists bs, Cancel_Encode c = Ok bs /\
    DecodeCancel bs = Ok c /\
    (extra <> [] -> exists e, DecodeCancel (bs ++ extra) = Err e /\
       e = Errorf "aire: CANCEL: %d trailing bytes after Detail" None [ArgInt (len extra)]).
Proof.
  intros Hc. exists (cancel_bytes c). split; [by apply Cancel_Encode_ok|]. split.
  - rewrite <-(app_nil_r (cancel_bytes c)). by apply (DecodeCancel_bytes c []).
  - intros He. eexists. split; [|done]. rewrite DecodeCancel_bytes by done.
    by destruct extra.
Qed.

Lemma cancel_roundtrip_witness :
  exists bs, Cancel_Encode (mkCancel 3 (str "parent: ABORT")) = Ok bs /\
    DecodeCancel bs = Ok (mkCancel 3 (str "parent: ABORT")) /\
    ([xff] <> [] -> exists e, DecodeCancel (bs ++ [xff]) = Err e /\
       e = Errorf "aire: CANCEL: %d trailing bytes after Detail" None [ArgInt (len [xff])]).
Proof.
  apply (cancel_roundtrip (mkCancel 3 (str "parent: ABORT")) [xff]).
  split; vm_compute; intuition congruence.
Defined.

(** DecodeCancel is exact on arbitrary payloads.  The empty payload is the
    v0.1 form; every other accepted payload is used up by one varint and one
    string, holds an encodable CANCEL, and is at least as long as the canonical
    encoding of it; a payload cut short is never accepted as something else
    except at length zero; there is no panic. *)
Lemma DecodeCancel_exact payload :
  match DecodeCancel payload with
  | Ok c =>
      cancel_valid c /\
      (payload = [] /\ c = mkCancel ReasonUserCancelled [] \/
       (exists bs, Cancel_Encode c = Ok bs /\ (length bs <= length payload)%nat) /\
       forall k, (0 < k < length payload)%nat ->
         exists e, DecodeCancel (take k payload) = Err e /\ errors_Is e ErrShortBuffer = true)
  | Err _ => payload <> []
  | Panic _ => False
  end.
Proof.
  destruct (DecodeCancel payload) as [c|e|p] eqn:E.
  - apply DecodeCancel_Ok_inv in E as [[-> ->]|(n & m & E1 & E2 & Hl)].
    { split; [|by left]. split; simpl; [|done]. split; [done|by vm_compute]. }
    assert (cancel_valid c) as Hv.
    { split; [by eapply ReadVarint_range|by eapply readString_len]. }
    split; [done|]. right. split.
    + exists (cancel_bytes c). split; [by apply Cancel_Encode_ok|].
      apply ReadVarint_minimal in E1.
      apply readString_Ok_inv in E2 as (m' & E2 & -> & _).
      apply ReadVarint_minimal in E2.
      unfold cancel_bytes, string_bytes. rewrite !length_app. lia.
    + intros k Hk. unfold DecodeCancel.
      rewrite (proj2 (Nat.eqb_neq _ _)) by (rewrite length_take; lia).
      destruct (decide (k < n)%nat).
      { rewrite (ReadVarint_short _ _ _ _ E1) by done. by eexists. }
      rewrite (ReadVarint_take _ _ _ _ E1) by lia. simpl.
      rewrite skipn_firstn_comm, (readString_short _ _ _ _ E2) by lia. by eexists.
  - by intros ->.
  - unfold DecodeCancel in E. case_match; [done|].
    apply bind_Panic in E as [E%on_err_Panic%ReadVarint_never_panics|([? ?] & _ & E)]; [done|].
    apply bind_Panic in E as [E%on_err_Panic%readString_never_panics|([? ?] & _ & E)]; [done|].
    by case_match.
Qed.
