(* ===== verification/Budget.v ===== *)
(** * BUDGET frames

    [budget.go]: the TLV payload codec for token, cost, currency and deadline
    budgets. *)

From Stdlib Require Import Strings.Byte.
From stdpp Require Import base numbers list gmap strings.
From S2P Require Import Prelude Machine Varint.
Open Scope Z_scope.

Definition BudgetFieldTokensRemaining : byte := x01.
Definition BudgetFieldCostMicrounitsRemaining : byte := x02.
Definition BudgetFieldCurrency : byte := x03.
Definition BudgetFieldDeadlineMS : byte := x04.

(** A nil pointer field is [None]; Currency is empty when absent. *)
Record Budget := mkBudget {
  Tokens : option Z;
  CostMicrounits : option Z;
  Currency : bytes;
  DeadlineMS : option Z;
}.

(** The zero value [Budget{}]. *)
Definition Budget_zero : Budget := mkBudget None None [] None.

Definition entry : Type := byte * bytes.

(** The entries of [Encode], in canonical FieldID order. *)
Definition budget_entries (b : Budget) : go (list entry) :=
  entries ← match Tokens b with
            | Some t => v ← AppendVarint [] t; Ok [(BudgetFieldTokensRemaining, v)]
            | None => Ok []
            end;
  entries ← match CostMicrounits b with
            | Some c => v ← AppendVarint [] c;
                        Ok (entries ++ [(BudgetFieldCostMicrounitsRemaining, v)])
            | None => Ok entries
            end;
  let entries :=
    if bool_decide (Currency b = []) then entries
    else entries ++ [(BudgetFieldCurrency, Currency b)] in
  let entries :=
    match DeadlineMS b with
    | Some d => entries ++ [(BudgetFieldDeadlineMS, be_bytes 8 (u64 d))]
    | None => entries
    end in
  Ok entries.

Fixpoint append_entries (out : bytes) (entries : list entry) : go bytes :=
  match entries with
  | [] => Ok out
  | (fid, value) :: entries =>
      let out := out ++ [fid] in
      out ← AppendVarint out (len value);
      append_entries (out ++ value) entries
  end.

Definition Budget_Encode (b : Budget) : go bytes :=
  entries ← budget_entries b;
  out ← AppendVarint [] (len entries);
  append_entries out entries.

(** The switch on the FieldID of one entry. *)
Definition set_field (fid : byte) (value : bytes) (b : Budget) : go Budget :=
  if bool_decide (fid = BudgetFieldTokensRemaining) then
    '(v, _) ← on_err (fun e => Errorf "aire: BUDGET TOKENS_REMAINING value: %w" (Some e) [])
                (ReadVarint value);
    Ok (mkBudget (Some v) (CostMicrounits b) (Currency b) (DeadlineMS b))
  else if bool_decide (fid = BudgetFieldCostMicrounitsRemaining) then
    '(v, _) ← on_err (fun e => Errorf "aire: BUDGET COST_MICROUNITS value: %w" (Some e) [])
                (ReadVarint value);
    Ok (mkBudget (Tokens b) (Some v) (Currency b) (DeadlineMS b))
  else if bool_decide (fid = BudgetFieldCurrency) then
    if negb (length value =? 3)%nat then
      Err (Errorf "aire: BUDGET CURRENCY value length %d, want 3 (ISO 4217)" None
             [ArgInt (len value)])
    else Ok (mkBudget (Tokens b) (CostMicrounits b) value (DeadlineMS b))
  else if bool_decide (fid = BudgetFieldDeadlineMS) then
    if negb (length value =? 8)%nat then
      Err (Errorf "aire: BUDGET DEADLINE_MS value length %d, want 8" None
             [ArgInt (len value)])
    else Ok (mkBudget (Tokens b) (CostMicrounits b) (Currency b) (Some (i64 (be_val value))))
  else Ok b.

(** The variables of DecodeBudget's loop. *)
Record dstate := mkD {
  d_i : Z;
  d_pos : nat;
  d_seen : gset byte;
  d_b : Budget;
}.

Definition decode_entry (payload : bytes) (s : dstate) : go dstate :=
  let i := d_i s in
  let pos := d_pos s in
  if (length payload <=? pos)%nat then
    Err (Errorf "aire: BUDGET entry %d: missing FieldID" None [ArgInt i])
  else
  let fid := nth pos payload x00 in
  let pos := S pos in
  '(length_, m) ← on_err (fun e => Errorf "aire: BUDGET entry %d Length: %w" (Some e) [ArgInt i])
                    (ReadVarint (drop pos payload));
  let pos := (pos + m)%nat in
  if len payload - Z.of_nat pos <? length_ then
    Err (Errorf "aire: BUDGET entry %d Value: short" None [ArgInt i])
  else
  let value := take (Z.to_nat length_) (drop pos payload) in
  let pos := (pos + Z.to_nat length_)%nat in
  if bool_decide (fid ∈ d_seen s) then
    Err (Errorf "aire: BUDGET entry %d: duplicate FieldID 0x%02x" None
           [ArgInt i; ArgInt (bval fid)])
  else
  b ← set_field fid value (d_b s);
  Ok (mkD (i + 1) pos ({[fid]} ∪ d_seen s) b).

Definition DecodeBudget (payload : bytes) : go Budget :=
  '(num, n) ← on_err (fun e => Errorf "aire: BUDGET NumEntry: %w" (Some e) [])
                (ReadVarint payload);
  if num =? 0 then Err (newError "aire: BUDGET payload has zero entries") else
  s ← for_n num (decode_entry payload) (mkD 0 n ∅ Budget_zero);
  if negb (d_pos s =? length payload)%nat then
    Err (Errorf "aire: BUDGET: %d trailing bytes after entries" None
           [ArgInt (len payload - Z.of_nat (d_pos s))])
  else Ok (d_b s).

(** ** The layout of a payload

    [layout es data rest]: [data] is the entries [es] one after another,
    followed by [rest].  Length varints may be non-minimal. *)
Inductive layout : list entry -> bytes -> bytes -> Prop :=
| layout_nil rest : layout [] rest rest
| layout_cons fid value es data m rest :
    ReadVarint data = Ok (len value, m) ->
    (m + length value <= length data)%nat ->
    value = take (length value) (drop m data) ->
    layout es (drop (m + length value) data) rest ->
    layout ((fid, value) :: es) (fid :: data) rest.
#[export] Hint Constructors layout : wire.

Fixpoint apply_entries (es : list entry) (b : Budget) : go Budget :=
  match es with
  | [] => Ok b
  | (fid, value) :: es => b ← set_field fid value b; apply_entries es b
  end.

Lemma drop_cons_nth {A} (l : list A) n d :
  (n < length l)%nat -> drop n l = nth n l d :: drop (S n) l.
Proof.
  revert n. induction l as [|x l IH]; intros [|n] H; simpl in *; try lia; [done|].
  apply IH. lia.
Qed.

Lemma decode_entry_Ok payload s s' :
  decode_entry payload s = Ok s' <->
  exists fid value data m,
    drop (d_pos s) payload = fid :: data /\ ReadVarint data = Ok (len value, m) /\
    (m + length value <= length data)%nat /\ value = take (length value) (drop m data) /\
    fid ∉ d_seen s /\ set_field fid value (d_b s) = Ok (d_b s') /\
    s' = mkD (d_i s + 1) (d_pos s + (1 + m + length value)) ({[fid]} ∪ d_seen s) (d_b s').
Proof.
  unfold decode_entry. split.
  - intros H. go_inv. zbool. apply ReadVarint_range in E as Hr.
    destruct (Z_of_nat_complete z) as [k ->]; [lia|]. rewrite Nat2Z.id in *.
    apply ReadVarint_bound in E as Hb. rewrite length_drop in Hb.
    assert (length (take k (drop (S (d_pos s) + n) payload)) = k) as Hk.
    { rewrite length_take, length_drop. lia. }
    eexists _, (take k (drop (S (d_pos s) + n) payload)), (drop (S (d_pos s)) payload), n.
    split; [by apply drop_cons_nth|]. rewrite Hk, length_drop, drop_drop.
    repeat split; try done; simpl; [lia|]. f_equal; lia.
  - intros (fid & value & data & m & Hd & E & Hl & Hv & Hs & Hf & ->).
    assert (d_pos s < length payload)%nat as Hp.
    { apply (f_equal length) in Hd. rewrite length_drop in Hd. simpl in Hd. lia. }
    rewrite (proj2 (Nat.leb_gt _ _)) by lia.
    rewrite (drop_cons_nth payload (d_pos s) x00 Hp) in Hd. injection Hd as Hd1 Hd2.
    rewrite Hd1, Hd2, E. simpl.
    assert (length payload = S (d_pos s) + length data)%nat as Hpl.
    { rewrite <-Hd2, length_drop. lia. }
    zguard. rewrite Nat2Z.id. rewrite (bool_decide_eq_false_2 _ Hs).
    change (S (d_pos s + m)) with (S (d_pos s) + m)%nat. rewrite <-drop_drop, Hd2.
    rewrite <-Hv, Hf. simpl. f_equal. f_equal. lia.
Qed.

Lemma layout_nil_inv data rest : layout [] data rest -> data = rest.
Proof. by inversion 1. Qed.

Lemma decode_entries_Ok payload k s s' :
  (d_pos s <= length payload)%nat ->
  for_nat k (decode_entry payload) s = Ok s' <->
  exists es rest,
    length es = k /\ layout es (drop (d_pos s) payload) rest /\
    NoDup es.*1 /\ (forall fid, fid ∈ es.*1 -> fid ∉ d_seen s) /\
    apply_entries es (d_b s) = Ok (d_b s') /\
    d_i s' = d_i s + Z.of_nat k /\ (d_pos s' <= length payload)%nat /\
    rest = drop (d_pos s') payload /\ d_seen s' = list_to_set es.*1 ∪ d_seen s.
Proof.
  revert s. induction k as [|k IH]; intros s Hpos; simpl.
  { split.
    - intros. simplify_eq. exists [], (drop (d_pos s') payload).
      repeat split; try constructor; try done; [set_solver|lia|set_solver].
    - intros (es & rest & Hl & Hlay & _ & _ & Ha & Hi & Hp & -> & Hs).
      destruct es; [|done]. simpl in *. apply layout_nil_inv in Hlay as E.
      apply (f_equal length) in E. rewrite !length_drop in E.
      destruct s, s'; simpl in *. simplify_eq. f_equal. f_equal; [lia|lia|set_solver]. }
  rewrite bind_Ok. split.
  - intros (s1 & H1 & H2).
    apply decode_entry_Ok in H1 as (fid & value & data & m & Hd & E & Hl & Hv & Hs & Hf & Hs1).
    assert (d_pos s1 <= length payload)%nat as Hp1.
    { rewrite Hs1. simpl. apply (f_equal length) in Hd. rewrite length_drop in Hd. simpl in Hd. lia. }
    apply IH in H2 as (es & rest & <- & Hlay & Hnd & Hseen & Ha & Hi & Hp & -> & Hs'); [|done].
    exists ((fid, value) :: es), (drop (d_pos s') payload). rewrite Hs1 in *. simpl in *.
    split; [done|]. rewrite Hd. rewrite <-drop_drop, Hd in Hlay. simpl in Hlay.
    repeat split; try done; [by econstructor|constructor; [|done]|..|lia|set_solver].
    + intros Hin. apply (Hseen fid Hin). set_solver.
    + set_solver.
    + by rewrite Hf.
  - intros (es & rest & Hl & Hlay & Hnd & Hseen & Ha & Hi & Hp & -> & Hs').
    destruct es as [|[fid value] es]; [done|]. simpl in *. go_inv.
    inversion Hlay as [|? ? ? data m ? HE HL HV HLay Heq1 Heq2]. subst.
    exists (mkD (d_i s + 1) (d_pos s + (1 + m + length value)) ({[fid]} ∪ d_seen s) v).
    assert (d_pos s + (1 + m + length value) <= length payload)%nat as Hp1.
    { apply (f_equal length) in Heq2. rewrite length_drop in Heq2. simpl in Heq2. lia. }
    apply NoDup_cons in Hnd as [Hn1 Hn2]. split.
    + apply decode_entry_Ok. exists fid, value, data, m. repeat split; try done; set_solver.
    + apply IH; [done|]. exists es, (drop (d_pos s') payload). simpl.
      rewrite <-drop_drop, <-Heq2. simpl.
      repeat split; try done; [lia|set_solver|lia|set_solver].
Qed.

(** What DecodeBudget accepts, and with which result. *)
Lemma DecodeBudget_Ok payload b :
  DecodeBudget payload = Ok b <->
  exists n es, ReadVarint payload = Ok (len es, n) /\ es <> [] /\
    layout es (drop n payload) [] /\ NoDup es.*1 /\ apply_entries es Budget_zero = Ok b.
Proof.
  unfold DecodeBudget. split.
  - intros H. go_inv. zbool. apply ReadVarint_range in E as Hr.
    apply ReadVarint_bound in E as Hb.
    rewrite for_n_to_nat in E0 by lia.
    apply decode_entries_Ok in E0 as (es & rest & Hl & Hlay & Hnd & _ & Ha & _ & _ & -> & _);
      [|simpl; lia].
    exists n, es. rewrite Hc0, drop_all in Hlay. simpl in *.
    repeat split; try done; [|by intros ->; simpl in *; lia].
    rewrite E. do 2 f_equal. lia.
  - intros (n & es & E & Hne & Hlay & Hnd & Ha). rewrite E. cbn [mbind go_bind on_err].
    apply ReadVarint_bound in E as Hb. destruct es as [|e es]; [done|].
    rewrite (proj2 (Z.eqb_neq _ _)), for_n_nat by (simpl; lia).
    assert (for_nat (length (e :: es)) (decode_entry payload) (mkD 0 n ∅ Budget_zero)
      = Ok (mkD (len (e :: es)) (length payload) (list_to_set (e :: es).*1) b)) as ->.
    { apply decode_entries_Ok; [simpl; lia|]. exists (e :: es), []. cbn [d_pos d_b d_i d_seen].
      repeat split; try done; [by rewrite drop_all|by rewrite union_empty_r_L]. }
    simpl. by rewrite Nat.eqb_refl.
Qed.

(** ** Canonical encoding of a list of entries *)

Fixpoint entries_bytes (es : list entry) : bytes :=
  match es with
  | [] => []
  | (fid, value) :: es => fid :: string_bytes value ++ entries_bytes es
  end.

Definition entries_payload (es : list entry) : bytes :=
  varint_bytes (len es) ++ entries_bytes es.

Definition entries_fit (es : list entry) : Prop :=
  len es <= MaxVarint /\ Forall (fun e => len e.2 <= MaxVarint) es.

Lemma append_entries_ok out es :
  Forall (fun e : entry => len e.2 <= MaxVarint) es ->
  append_entries out es = Ok (out ++ entries_bytes es).
Proof.
  intros H. revert out. induction H as [|[fid value] es Hv _ IH]; intros out; simpl.
  { by rewrite app_nil_r. }
  rewrite AppendVarint_ok by (simpl in Hv; lia). simpl. rewrite IH.
  unfold string_bytes. by rewrite <-!app_assoc.
Qed.

Lemma entries_bytes_layout es :
  Forall (fun e : entry => len e.2 <= MaxVarint) es -> layout es (entries_bytes es) [].
Proof.
  induction 1 as [|[fid value] es Hv _ IH]; simpl; [constructor|].
  unfold string_bytes. rewrite <-app_assoc. simpl in Hv.
  apply layout_cons with (m := length (varint_bytes (len value))).
  - apply varint_roundtrip. lia.
  - rewrite !length_app. lia.
  - by rewrite drop_app_length, take_app_length.
  - by rewrite <-drop_drop, !drop_app_length.
Qed.

(** The decoder on a canonical payload, as the fold of the switch. *)
Lemma DecodeBudget_payload es b :
  entries_fit es -> es <> [] -> NoDup es.*1 -> apply_entries es Budget_zero = Ok b ->
  DecodeBudget (entries_payload es) = Ok b.
Proof.
  intros [Hl Hf] Hne Hnd Ha. apply DecodeBudget_Ok.
  exists (length (varint_bytes (len es))), es. unfold entries_payload.
  rewrite drop_app_length. repeat split; try done.
  - apply varint_roundtrip. lia.
  - by apply entries_bytes_layout.
Qed.

Lemma layout_functional es1 data rest1 :
  layout es1 data rest1 -> forall es2 rest2, layout es2 data rest2 ->
  length es1 = length es2 -> es1 = es2 /\ rest1 = rest2.
Proof.
  induction 1 as [|fid value es data m rest E Hl Hv _ IH]; intros es2 rest2 H2 Hlen.
  - destruct es2; [|done]. by apply layout_nil_inv in H2.
  - inversion H2 as [|? value2 es2' ? m2 ? E2 Hl2 Hv2 H2']; subst; [done|].
    rewrite E in E2. simplify_eq. assert (length value = length value2) as Hvl by lia.
    rewrite Hvl in *. rewrite <-Hv in Hv2. subst value2.
    destruct (IH _ _ H2') as [-> ->]; [simpl in Hlen; lia|done].
Qed.

Lemma DecodeBudget_payload_inv es b :
  entries_fit es -> DecodeBudget (entries_payload es) = Ok b ->
  es <> [] /\ NoDup es.*1 /\ apply_entries es Budget_zero = Ok b.
Proof.
  intros [Hl Hf] (n & es' & E & Hne & Hlay & Hnd & Ha)%DecodeBudget_Ok.
  unfold entries_payload in *. rewrite varint_roundtrip in E by lia. simplify_eq.
  rewrite drop_app_length in Hlay.
  destruct (layout_functional _ _ _ (entries_bytes_layout es Hf) _ _ Hlay) as [-> _]; [lia|done].
Qed.

(** ** The switch commutes on distinct fields *)

Ltac set_field_cases :=
  unfold set_field in *; repeat case_bool_decide; simplify_eq; go_inv; zbool; simplify_eq/=.

Lemma set_field_comm f1 v1 f2 v2 b b1 b2 :
  f1 <> f2 -> set_field f1 v1 b = Ok b1 -> set_field f2 v2 b1 = Ok b2 ->
  exists b1', set_field f2 v2 b = Ok b1' /\ set_field f1 v1 b1' = Ok b2.
Proof.
  intros Hne H1 H2.
  set_field_cases; eexists; (split; [try rewrite E; try rewrite E0; try done|]);
    repeat case_bool_decide; simplify_eq; try rewrite E; try rewrite E0;
    repeat (rewrite (proj2 (Nat.eqb_eq _ _)) by done); done.
Qed.

Lemma apply_entries_perm es es' b r :
  es ≡ₚ es' -> NoDup es.*1 -> apply_entries es b = Ok r -> apply_entries es' b = Ok r.
Proof.
  intros Hp. revert b. induction Hp as [|[f v] es es' _ IH|[f1 v1] [f2 v2] es|es1 es2 es3 Hp IH1 _ IH2];
    intros b Hnd H; simpl in *.
  - done.
  - apply NoDup_cons in Hnd as [_ Hnd]. go_inv. rewrite E. simpl. eauto.
  - go_inv. apply NoDup_cons in Hnd as [Hn _].
    destruct (set_field_comm f2 v2 f1 v1 b v v0) as (b1 & -> & H1);
      [set_solver|done|done|]. simpl. by rewrite H1.
  - apply IH2; [|by apply IH1]. by rewrite <-Hp.
Qed.

(** Unknown FieldIDs leave the budget alone. *)
Definition known (fid : byte) : bool :=
  bool_decide (fid ∈ [BudgetFieldTokensRemaining; BudgetFieldCostMicrounitsRemaining;
                      BudgetFieldCurrency; BudgetFieldDeadlineMS]).

Lemma set_field_unknown fid v b : known fid = false -> set_field fid v b = Ok b.
Proof.
  unfold known, set_field. intros H. zbool.
  rewrite !bool_decide_eq_false_2 by set_solver. done.
Qed.

Lemma apply_entries_known es b :
  apply_entries es b = apply_entries (filter (fun e => known e.1 = true) es) b.
Proof.
  revert b. induction es as [|[fid v] es IH]; intros b; [done|]. rewrite filter_cons. simpl.
  case_decide as Hk; simpl in Hk |- *.
  - destruct (set_field fid v b); simpl; auto.
  - apply not_true_is_false in Hk. rewrite set_field_unknown by done. simpl. auto.
Qed.

(** Every decoded field is within the bounds of its wire type. *)
Definition budget_fields_ok (b : Budget) : Prop :=
  (forall t, Tokens b = Some t -> 0 <= t <= MaxVarint) /\
  (forall c, CostMicrounits b = Some c -> 0 <= c <= MaxVarint) /\
  (Currency b = [] \/ length (Currency b) = 3%nat) /\
  (forall d, DeadlineMS b = Some d -> is_i64 d).

Lemma set_field_ok fid v b b' :
  budget_fields_ok b -> set_field fid v b = Ok b' -> budget_fields_ok b'.
Proof.
  intros (H1 & H2 & H3 & H4) H. set_field_cases;
    try apply ReadVarint_range in E; unfold budget_fields_ok; simpl;
    split_and!; intros; simplify_eq; eauto using i64_range.
Qed.

Lemma apply_entries_ok es b b' :
  budget_fields_ok b -> apply_entries es b = Ok b' -> budget_fields_ok b'.
Proof.
  revert b. induction es as [|[fid v] es IH]; intros b Hb H; simpl in *; go_inv; [done|].
  eapply IH; [|done]. by eapply set_field_ok.
Qed.

Lemma Budget_zero_ok : budget_fields_ok Budget_zero.
Proof. unfold budget_fields_ok. simpl. split_and!; naive_solver. Qed.

(** A receiver accepts the entries of a BUDGET in any order: two payloads
    that carry the same distinct entries in different orders decode to the same
    budget (or neither decodes), and entries with unknown FieldIDs can be
    removed without changing it, as long as one entry remains. *)
Lemma budget_any_order es es' b :
  entries_fit es -> entries_fit es' -> es' <> [] ->
  es ≡ₚ es' \/ es' = filter (fun e => known e.1 = true) es ->
  DecodeBudget (entries_payload es) = Ok b ->
  DecodeBudget (entries_payload es') = Ok b.
Proof.
  intros Hf Hf' Hne Hes (_ & Hnd & Ha)%DecodeBudget_payload_inv; [|done].
  apply DecodeBudget_payload; [done|done|..]; destruct Hes as [Hp| ->].
  - by rewrite <-Hp.
  - eapply sublist_NoDup; [done|]. apply fmap_sublist, sublist_filter.
  - by eapply apply_entries_perm.
  - by rewrite <-apply_entries_known.
Qed.

Lemma budget_any_order_witness :
  DecodeBudget (entries_payload
    [(x03, str "USD"); (x7f, [x01; x02]); (x01, [x43; xe8])]) =
    Ok (mkBudget (Some 1000) None (str "USD") None).
Proof.
  apply (budget_any_order [(x01, [x43; xe8]); (x03, str "USD"); (x7f, [x01; x02])]).
  - split; [vm_compute; congruence|repeat constructor; vm_compute; congruence].
  - split; [vm_compute; congruence|repeat constructor; vm_compute; congruence].
  - done.
  - left. etransitivity; [apply perm_swap|]. apply perm_skip, perm_swap.
  - vm_compute. reflexivity.
Defined.

(** The entries [Encode] builds, without the panics. *)
Definition budget_es (b : Budget) : list entry :=
  match Tokens b with Some t => [(BudgetFieldTokensRemaining, varint_bytes t)] | None => [] end ++
  match CostMicrounits b with
  | Some c => [(BudgetFieldCostMicrounitsRemaining, varint_bytes c)] | None => [] end ++
  (if bool_decide (Currency b = []) then [] else [(BudgetFieldCurrency, Currency b)]) ++
  match DeadlineMS b with
  | Some d => [(BudgetFieldDeadlineMS, be_bytes 8 (u64 d))] | None => [] end.

(** The integers of the budget fit their wire encodings. *)
Definition budget_ints_ok (b : Budget) : Prop :=
  (forall t, Tokens b = Some t -> 0 <= t <= MaxVarint) /\
  (forall c, CostMicrounits b = Some c -> 0 <= c <= MaxVarint) /\
  len (Currency b) <= MaxVarint /\
  (forall d, DeadlineMS b = Some d -> is_i64 d).

Lemma budget_entries_ok b : budget_ints_ok b -> budget_entries b = Ok (budget_es b).
Proof.
  intros (Ht & Hc & _ & _). unfold budget_entries, budget_es.
  destruct b as [[t|] [c|] cur [d|]]; simpl in *;
    rewrite ?AppendVarint_ok by auto; simpl; rewrite ?AppendVarint_ok by auto; simpl;
    by case_bool_decide.
Qed.

Lemma ReadVarint_exact v :
  0 <= v <= MaxVarint -> ReadVarint (varint_bytes v) = Ok (v, length (varint_bytes v)).
Proof. intros. rewrite <-(app_nil_r (varint_bytes v)) at 1. by apply varint_roundtrip. Qed.

(** The switch on each canonical entry. *)
Section CanonicalFields.
Context (b : Budget).

Lemma set_field_tokens t :
  0 <= t <= MaxVarint ->
  set_field BudgetFieldTokensRemaining (varint_bytes t) b =
    Ok (mkBudget (Some t) (CostMicrounits b) (Currency b) (DeadlineMS b)).
Proof. intros. unfold set_field. simpl. by rewrite ReadVarint_exact. Qed.

Lemma set_field_cost c :
  0 <= c <= MaxVarint ->
  set_field BudgetFieldCostMicrounitsRemaining (varint_bytes c) b =
    Ok (mkBudget (Tokens b) (Some c) (Currency b) (DeadlineMS b)).
Proof. intros. unfold set_field. simpl. by rewrite ReadVarint_exact. Qed.

Lemma set_field_currency cur :
  length cur = 3%nat ->
  set_field BudgetFieldCurrency cur b =
    Ok (mkBudget (Tokens b) (CostMicrounits b) cur (DeadlineMS b)).
Proof. intros H. unfold set_field. simpl. by rewrite H. Qed.

Lemma set_field_deadline d :
  is_i64 d ->
  set_field BudgetFieldDeadlineMS (be_bytes 8 (u64 d)) b =
    Ok (mkBudget (Tokens b) (CostMicrounits b) (Currency b) (Some d)).
Proof.
  intros H. unfold set_field. rewrite be_bytes_length. simpl.
  by rewrite i64_be_roundtrip.
Qed.
End CanonicalFields.
Arguments set_field : simpl never.

Lemma budget_es_apply b :
  budget_ints_ok b -> (Currency b = [] \/ length (Currency b) = 3%nat) ->
  apply_entries (budget_es b) Budget_zero = Ok b.
Proof.
  intros (Ht & Hc & _ & Hd) Hcur. unfold budget_es.
  assert (Currency b <> [] -> length (Currency b) = 3%nat) as Rcur by naive_solver.
  destruct b as [[t|] [c|] cur [d|]]; simpl in *; case_bool_decide; simplify_eq/=;
    repeat (first [rewrite set_field_tokens by auto | rewrite set_field_cost by auto
                  | rewrite set_field_currency by auto | rewrite set_field_deadline by auto];
            simpl); by rewrite ?i64_be_roundtrip by auto.
Qed.

Lemma budget_es_fit b : budget_ints_ok b -> entries_fit (budget_es b) /\ NoDup (budget_es b).*1.
Proof.
  intros (_ & _ & Hl & _). unfold budget_es, entries_fit.
  assert (forall v, len (varint_bytes v) <= MaxVarint) as Hv.
  { intros v. pose proof (varint_bytes_nonempty v). rewrite MaxVarint_val. pow_norm. lia. }
  assert (forall v, len (be_bytes 8 v) <= MaxVarint) as Hb.
  { intros v. rewrite be_bytes_length. by vm_compute. }
  destruct b as [[t|] [c|] cur [d|]]; simpl in *; case_bool_decide; simpl;
    (split; [split; [by vm_compute|repeat constructor; simpl; auto]|]);
    (apply (bool_decide_unpack _); by vm_compute).
Qed.

(** Encode is defined on every budget whose integers fit their wire
    encoding, and the payload decodes to that same budget exactly when the
    budget has at least one field and its currency is absent or three bytes:
    the two cases Encode does not check and DecodeBudget refuses. *)
Lemma budget_roundtrip b :
  budget_ints_ok b ->
  exists bs, Budget_Encode b = Ok bs /\
    (DecodeBudget bs = Ok b <->
     b <> Budget_zero /\ (Currency b = [] \/ length (Currency b) = 3%nat)).
Proof.
  intros Hi. exists (entries_payload (budget_es b)).
  destruct (budget_es_fit b Hi) as [[Hl Hf] Hnd]. split.
  { unfold Budget_Encode. rewrite budget_entries_ok by done. simpl.
    rewrite AppendVarint_ok by lia. simpl. by apply append_entries_ok. }
  split.
  - intros H. apply DecodeBudget_payload_inv in H as (Hne & _ & Ha); [|done]. split.
    + by intros ->.
    + by apply apply_entries_ok in Ha as (_ & _ & ? & _); [|apply Budget_zero_ok].
  - intros [Hz Hc]. apply DecodeBudget_payload; [done| |done|by apply budget_es_apply].
    unfold budget_es. destruct b as [[t|] [c|] cur [d|]]; simpl in *;
      case_bool_decide; naive_solver.
Qed.

Lemma budget_roundtrip_witness :
  exists bs, Budget_Encode (mkBudget (Some 1000) (Some 5000) (str "USD") (Some (-1))) = Ok bs /\
    (DecodeBudget bs = Ok (mkBudget (Some 1000) (Some 5000) (str "USD") (Some (-1))) <->
     mkBudget (Some 1000) (Some 5000) (str "USD") (Some (-1)) <> Budget_zero /\
     (str "USD" = [] \/ length (str "USD") = 3%nat)).
Proof.
  apply (budget_roundtrip (mkBudget (Some 1000) (Some 5000) (str "USD") (Some (-1)))).
  unfold budget_ints_ok. simpl. split_and!; intros; simplify_eq; vm_compute;
    intuition congruence.
Defined.

Lemma set_field_never_panics fid v b p : set_field fid v b <> Panic p.
Proof.
  unfold set_field. intros H.
  repeat case_bool_decide; repeat case_match; try done;
    apply bind_Panic in H as [H%on_err_Panic|([? ?] & _ & H)]; try done;
    by apply ReadVarint_never_panics in H.
Qed.

Lemma decode_entry_never_panics payload s p : decode_entry payload s <> Panic p.
Proof.
  unfold decode_entry. intros H. case_match; [done|].
  apply bind_Panic in H as [H%on_err_Panic%ReadVarint_never_panics|([? ?] & _ & H)]; [done|].
  repeat case_match; try done.
  apply bind_Panic in H as [H%set_field_never_panics|(? & _ & H)]; done.
Qed.

Lemma for_nat_never_panics {S} (body : S -> go S) n s p :
  (forall s p, body s <> Panic p) -> for_nat n body s <> Panic p.
Proof.
  intros Hb. revert s. induction n as [|n IH]; intros s; simpl; [done|].
  intros [H|(s1 & _ & H)]%bind_Panic; [by eapply Hb|by eapply IH].
Qed.

(** ** What the entries mean

    Independently of the decoder's switch: which field a wire entry carries, and
    which budget a list of entries describes. *)
Inductive field : Type :=
| FTokens (t : Z)
| FCost (c : Z)
| FCurrency (code : bytes)
| FDeadline (ms : Z).

(** [value] begins with a varint for [v].  (What follows it is not looked at.) *)
Definition varint_of (value : bytes) (v : Z) : Prop :=
  exists b0 bs rest, value = (b0 :: bs) ++ rest /\ length (b0 :: bs) = varint_size b0 /\
    v = varint_val (b0 :: bs).

(** The four kinds of entry: a varint, a varint, exactly three bytes, and exactly
    the eight big-endian bytes of a signed 64-bit integer. *)
Inductive carries : entry -> field -> Prop :=
| carries_tokens value t : varint_of value t -> carries (x01, value) (FTokens t)
| carries_cost value c : varint_of value c -> carries (x02, value) (FCost c)
| carries_currency b1 b2 b3 : carries (x03, [b1; b2; b3]) (FCurrency [b1; b2; b3])
| carries_deadline d : is_i64 d -> carries (x04, be_bytes 8 (u64 d)) (FDeadline d).

Definition FieldID (fd : field) : byte :=
  match fd with FTokens _ => x01 | FCost _ => x02 | FCurrency _ => x03 | FDeadline _ => x04 end.

Definition has_field (b : Budget) (fd : field) : Prop :=
  match fd with
  | FTokens t => Tokens b = Some t
  | FCost c => CostMicrounits b = Some c
  | FCurrency code => Currency b = code /\ code <> []
  | FDeadline d => DeadlineMS b = Some d
  end.

(** Every entry with a known FieldID is of its kind, and the budget has exactly
    the fields that the entries carry. *)
Definition describes (es : list entry) (b : Budget) : Prop :=
  (forall e, e ∈ es -> known e.1 = true -> exists fd, carries e fd) /\
  (forall fd, has_field b fd <-> exists e, e ∈ es /\ carries e fd).

Lemma carries_FieldID e fd : carries e fd -> FieldID fd = e.1 /\ known e.1 = true.
Proof. by destruct 1. Qed.

Lemma ReadVarint_varint_of value v : varint_of value v <-> exists m, ReadVarint value = Ok (v, m).
Proof.
  split.
  - intros (b0 & bs & rest & -> & Hl & ->). exists (varint_size b0). change ((b0 :: bs) ++ rest) with (b0 :: bs ++ rest).
    rewrite ReadVarint_cons, (proj2 (Nat.ltb_ge _ _)) by (rewrite <-Hl; simpl; rewrite length_app; lia).
    rewrite <-Hl. change (b0 :: bs ++ rest) with ((b0 :: bs) ++ rest). by rewrite take_app_length.
  - intros [m E]. destruct value as [|b0 data]; [done|]. rewrite ReadVarint_cons in E.
    case_match eqn:Hs; [done|]. zbool. injection E as <- <-. pose proof (varint_size_pos b0) as Hp.
    destruct (varint_size b0) as [|k] eqn:Ek; [lia|].
    exists b0, (take k data), (drop k data). simpl in Hs |- *. rewrite Ek, take_drop, length_take.
    split_and!; [done|lia|done].
Qed.

Lemma deadline_bytes value : length value = 8%nat -> value = be_bytes 8 (u64 (i64 (be_val value))).
Proof. intros H. by rewrite u64_i64, be_bytes_8_val by auto using be_val_8_u64. Qed.

(** Storing a field. *)
Definition put (fd : field) (b : Budget) : Budget :=
  match fd with
  | FTokens t => mkBudget (Some t) (CostMicrounits b) (Currency b) (DeadlineMS b)
  | FCost c => mkBudget (Tokens b) (Some c) (Currency b) (DeadlineMS b)
  | FCurrency code => mkBudget (Tokens b) (CostMicrounits b) code (DeadlineMS b)
  | FDeadline d => mkBudget (Tokens b) (CostMicrounits b) (Currency b) (Some d)
  end.

(** The switch accepts an entry of a known kind and stores what it carries. *)
Lemma set_field_carries fid value b b' :
  known fid = true ->
  set_field fid value b = Ok b' <-> exists fd, carries (fid, value) fd /\ b' = put fd b.
Proof.
  intros Hk. split.
  - unfold set_field. repeat case_bool_decide; subst.
    + intros ([t m] & E%on_err_Ok & [= <-])%bind_Ok. exists (FTokens t).
      split; [|done]. constructor. apply ReadVarint_varint_of. eauto.
    + intros ([c m] & E%on_err_Ok & [= <-])%bind_Ok. exists (FCost c).
      split; [|done]. constructor. apply ReadVarint_varint_of. eauto.
    + case_match eqn:Hl; [done|]. zbool. intros [= <-]. exists (FCurrency value). split; [|done].
      destruct value as [|b1 [|b2 [|b3 [|]]]]; try done. constructor.
    + case_match eqn:Hl; [done|]. zbool. intros [= <-]. exists (FDeadline (i64 (be_val value))).
      split; [|done]. rewrite (deadline_bytes value) at 1 by done. constructor. apply i64_range.
    + unfold known in Hk. zbool. set_unfold. naive_solver.
  - intros (fd & Hc & ->). inversion Hc as [? t Hv|? c Hv| |d Hd]; subst.
    1,2: apply ReadVarint_varint_of in Hv as [m E]; unfold set_field; by rewrite E.
    + by apply set_field_currency.
    + by apply set_field_deadline.
Qed.

Lemma carries_functional e fd fd' : carries e fd -> carries e fd' -> fd = fd'.
Proof.
  intros H1 H2. destruct (carries_FieldID _ _ H1) as [E1 Hk]. destruct (carries_FieldID _ _ H2) as [E2 _].
  destruct e as [fid value].
  assert (forall fd, carries (fid, value) fd -> set_field fid value Budget_zero = Ok (put fd Budget_zero)) as Hs.
  { intros x Hx. apply set_field_carries; eauto. }
  pose proof (Hs _ H1) as S1. rewrite (Hs _ H2) in S1.
  destruct fd, fd'; cbn in *; congruence.
Qed.

Lemma put_has e fd b fd' :
  carries e fd -> has_field (put fd b) fd' <-> carries e fd' \/ (has_field b fd' /\ FieldID fd' <> e.1).
Proof.
  intros Hc. destruct (carries_FieldID _ _ Hc) as [<- _].
  assert (carries e fd' <-> fd' = fd) as -> by (split; [by intros ?%(carries_functional _ _ _ Hc)|by intros ->]).
  assert (fd <> FCurrency []) as Hne by (by inversion Hc).
  destruct fd, fd'; cbn; naive_solver.
Qed.

Lemma has_field_ext b b' : (forall fd, has_field b fd <-> has_field b' fd) -> b = b'.
Proof.
  intros H. destruct b as [t c cur d], b' as [t' c' cur' d'].
  assert (forall x, t = Some x <-> t' = Some x) as Ht by (intros x; apply (H (FTokens x))).
  assert (forall x, c = Some x <-> c' = Some x) as Hc by (intros x; apply (H (FCost x))).
  assert (forall x, d = Some x <-> d' = Some x) as Hd by (intros x; apply (H (FDeadline x))).
  pose proof (H (FCurrency cur)) as Hcur. pose proof (H (FCurrency cur')) as Hcur'. simpl in Hcur, Hcur'.
  assert (cur = cur') as -> by (destruct cur, cur'; naive_solver).
  f_equal; apply option_eq; auto.
Qed.

(** What [es] make of [b0]: every known entry is of its kind, and the fields are
    those that the entries carry and those of [b0] that they do not replace. *)
Definition updates (es : list entry) (b0 b : Budget) : Prop :=
  (forall e, e ∈ es -> known e.1 = true -> exists fd, carries e fd) /\
  (forall fd, has_field b fd <->
     (exists e, e ∈ es /\ carries e fd) \/ (has_field b0 fd /\ FieldID fd ∉ es.*1)).

Lemma updates_nil b0 b : updates [] b0 b <-> b0 = b.
Proof.
  split.
  - intros [_ H]. apply has_field_ext. intros fd. rewrite H. set_solver.
  - intros ->. split; set_solver.
Qed.

Lemma updates_known e fd es b0 b :
  carries e fd -> e.1 ∉ es.*1 -> updates (e :: es) b0 b <-> updates es (put fd b0) b.
Proof.
  intros Hc Hn.
  assert (forall fd', ((exists e', e' ∈ e :: es /\ carries e' fd') \/ (has_field b0 fd' /\ FieldID fd' ∉ (e :: es).*1)) <->
    (exists e', e' ∈ es /\ carries e' fd') \/ (has_field (put fd b0) fd' /\ FieldID fd' ∉ es.*1)) as Hf.
  { intros fd'. rewrite (put_has e fd b0) by done. cbn. rewrite not_elem_of_cons. split.
    - intros [(e' & [->|?]%elem_of_cons & Hc')|(? & ? & ?)]; [right|left; eauto|right; auto].
      split; [by left|]. by destruct (carries_FieldID _ _ Hc') as [-> _].
    - intros [(e' & ? & ?)|[[?|[? ?]] ?]]; [left; exists e'; split; [by right|done]| |right; auto].
      left. exists e. split; [by left|done]. }
  unfold updates. split; (intros [H1 H2]; split; [|intros fd'; specialize (H2 fd'); by rewrite H2, Hf]).
  - intros e' Hin. apply H1. by right.
  - intros e' [->|Hin]%elem_of_cons ?; [by exists fd|auto].
Qed.

Lemma updates_unknown e es b0 b :
  known e.1 = false -> updates (e :: es) b0 b <-> updates es b0 b.
Proof.
  intros Hk. assert (forall fd, ~ carries e fd) as Hno by (intros fd [_ ?]%carries_FieldID; congruence).
  assert (forall fd, FieldID fd <> e.1) as Hid by (intros [] E; by rewrite <-E in Hk).
  assert (forall fd, (exists e', e' ∈ e :: es /\ carries e' fd) <-> exists e', e' ∈ es /\ carries e' fd) as He.
  { intros fd. split; intros (e' & Hin & Hc); exists e'; [|split; [by right|done]].
    apply elem_of_cons in Hin as [->|?]; [by destruct (Hno fd)|done]. }
  assert (forall fd, FieldID fd ∉ (e :: es).*1 <-> FieldID fd ∉ es.*1) as Hn.
  { intros fd. cbn. rewrite not_elem_of_cons. split; [by intros [_ ?]|done]. }
  unfold updates. split; (intros [H1 H2]; split; [|intros fd; specialize (H2 fd); by rewrite H2, He, Hn]).
  - intros e' Hin. apply H1. by right.
  - intros e' [->|Hin]%elem_of_cons ?; [congruence|auto].
Qed.

(** The fold of the switch. *)
Lemma apply_entries_updates es b0 b : NoDup es.*1 -> apply_entries es b0 = Ok b <-> updates es b0 b.
Proof.
  revert b0. induction es as [|[fid value] es IH]; intros b0 Hnd.
  { rewrite updates_nil. cbn. split; congruence. }
  cbn [apply_entries]. apply NoDup_cons in Hnd as [Hn Hnd]. cbn [fmap list_fmap fst] in Hn.
  rewrite bind_Ok. destruct (known fid) eqn:Hk.
  - split.
    + intros (b1 & (fd1 & Hc & ->)%set_field_carries & H%IH); [|done..]. by apply (updates_known _ fd1).
    + intros H. destruct (proj1 H (fid, value)) as [fd1 Hc]; [by left|done|]. exists (put fd1 b0).
      split; [apply set_field_carries; eauto|]. by apply IH, (updates_known (fid, value)).
  - rewrite updates_unknown, <-(IH b0 Hnd) by done. split.
    + intros (b1 & E & H). rewrite set_field_unknown in E by done. congruence.
    + intros H. exists b0. by rewrite set_field_unknown.
Qed.

Lemma apply_entries_describes es b : NoDup es.*1 -> apply_entries es Budget_zero = Ok b <-> describes es b.
Proof.
  intros Hnd. rewrite apply_entries_updates by done. unfold updates, describes.
  assert (forall fd, ~ has_field Budget_zero fd) as Hz by (intros []; cbn; naive_solver).
  split; intros [H1 H2]; (split; [done|]); intros fd; rewrite H2; naive_solver.
Qed.

(** C29: DecodeBudget decides exactly the BUDGET grammar: a payload is accepted
    iff it is a non-zero entry count followed by that many entries with distinct
    FieldIDs and nothing else, in which the value of a known field is of its kind
    (a varint for tokens and cost, three bytes of currency, eight bytes of
    deadline); the result has exactly the fields that the entries carry, in
    whatever order they come, every one in range.  It terminates
    without a panic on every input, whatever entry count (up to 2^62) it
    announces. *)
Theorem DecodeBudget_exact payload :
  (forall b, DecodeBudget payload = Ok b <->
    exists n es, ReadVarint payload = Ok (len es, n) /\ es <> [] /\
      layout es (drop n payload) [] /\ NoDup es.*1 /\ describes es b) /\
  (forall b, DecodeBudget payload = Ok b -> budget_fields_ok b) /\
  panics (DecodeBudget payload) = false.
Proof.
  split_and!.
  - intros b. rewrite DecodeBudget_Ok.
    split; intros (n & es & ? & ? & ? & ? & ?); exists n, es; (split_and!; try done); by apply apply_entries_describes.
  - intros b (n & es & _ & _ & _ & _ & Ha)%DecodeBudget_Ok.
    eapply apply_entries_ok; [apply Budget_zero_ok|done].
  - destruct (DecodeBudget payload) as [|?|p] eqn:E; try done. unfold DecodeBudget in E.
    apply bind_Panic in E as [E%on_err_Panic%ReadVarint_never_panics|([num n] & En & E)]; [done|].
    apply (on_err_Ok _ _ (num, n)), ReadVarint_range in En. case_match; [done|].
    rewrite for_n_to_nat in E by lia.
    apply bind_Panic in E as [E|(s & _ & E)]; [|by case_match].
    exfalso. eapply for_nat_never_panics; [|done]. apply decode_entry_never_panics.
Qed.
