(* ===== verification/Capability.v ===== *)
(** * Capabilities

    [capability.go]: the capability-name grammar and the negotiation of the
    active set. *)

From Stdlib Require Import Strings.Byte.
From stdpp Require Import base numbers list gmap strings.
From S2P Require Import Prelude GoStrings.
Open Scope Z_scope.

Record Capability := mkCap {
  Name : bytes;
  Version_ : Z;
  Required : bool;
}.

Global Instance Capability_eq_decision : EqDecision Capability.
Proof. solve_decision. Defined.

Definition CapDIDMethodWeb : bytes := str "aire.did-method.web/1".
Definition CapDIDMethodKey : bytes := str "aire.did-method.key/1".

Definition MaxCapabilityNameBytes : nat := 255.

(** ** Names *)

Definition isAlpha (b : byte) : bool :=
  ((bval x61 <=? bval b) && (bval b <=? bval x7a)) ||
  ((bval x41 <=? bval b) && (bval b <=? bval x5a)).
Definition isDigit (b : byte) : bool :=
  (bval x30 <=? bval b) && (bval b <=? bval x39).

(** The byte loop over [label[1:]]. *)
Fixpoint label_bytes (label rest : bytes) : go unit :=
  match rest with
  | [] => Ok tt
  | b :: rest =>
      if negb (isAlpha b) && negb (isDigit b) && negb (bool_decide (b = x2d)) then
        Err (Errorf "namespace label %q has invalid byte 0x%02x" None
               [ArgStr label; ArgInt (bval b)])
      else label_bytes label rest
  end.

(** The loop over the labels, with its position [i]. *)
Fixpoint validate_labels (i : Z) (labels : list bytes) : go unit :=
  match labels with
  | [] => Ok tt
  | label :: labels =>
      match label with
      | [] => Err (Errorf "namespace has empty label at position %d" None [ArgInt i])
      | b0 :: rest =>
          if negb (isAlpha b0) then
            Err (Errorf "namespace label %q must begin with ALPHA" None [ArgStr label])
          else
            label_bytes label rest;;
            validate_labels (i + 1) labels
      end
  end.

Definition validateNamespace (ns : bytes) : go unit :=
  if bool_decide (ns = []) then Err (newError "empty namespace") else
  validate_labels 0 (Split ns x2e).

Fixpoint major_bytes (s rest : bytes) : go unit :=
  match rest with
  | [] => Ok tt
  | b :: rest =>
      if negb (isDigit b) then
        Err (Errorf "major %q has non-digit byte 0x%02x" None [ArgStr s; ArgInt (bval b)])
      else major_bytes s rest
  end.

Definition validateMajor (s : bytes) : go unit :=
  match s with
  | [] => Err (newError "empty major")
  | b0 :: _ =>
      if (1 <? length s)%nat && bool_decide (b0 = x30) then
        Err (Errorf "major %q has leading zero" None [ArgStr s])
      else major_bytes s s
  end.

Definition ValidateCapabilityName (name : bytes) : go unit :=
  if bool_decide (name = []) then Err (newError "aire: capability name is empty") else
  if (MaxCapabilityNameBytes <? length name)%nat then
    Err (Errorf "aire: capability name %q exceeds %d bytes" None
           [ArgStr name; ArgInt (Z.of_nat MaxCapabilityNameBytes)])
  else
  match IndexByte name x2f with
  | None => Err (Errorf "aire: capability name %q missing '/<major>' suffix" None [ArgStr name])
  | Some slash =>
      let namespace := take slash name in
      let major := drop (S slash) name in
      if bool_decide (namespace = []) then
        Err (Errorf "aire: capability name %q has empty namespace" None [ArgStr name])
      else if bool_decide (major = []) then
        Err (Errorf "aire: capability name %q has empty major" None [ArgStr name])
      else
      match IndexByte major x2f with
      | Some _ => Err (Errorf "aire: capability name %q contains multiple '/' separators" None
                         [ArgStr name])
      | None =>
          on_err (fun e => Errorf "aire: capability name %q: %w" (Some e) [ArgStr name])
            (validateNamespace namespace);;
          on_err (fun e => Errorf "aire: capability name %q: %w" (Some e) [ArgStr name])
            (validateMajor major);;
          Ok tt
      end
  end.

Definition IsReservedNamespace (name : bytes) : bool :=
  let ns := match IndexByte name x2f with Some slash => take slash name | None => name end in
  let first := match IndexByte ns x2e with Some dot => take dot ns | None => ns end in
  bool_decide (first = str "aire").

(** ** Negotiation *)

Fixpoint index_from (caps : list Capability) (side : bytes) (idx : gmap bytes Capability)
    : go (gmap bytes Capability) :=
  match caps with
  | [] => Ok idx
  | c :: caps =>
      match idx !! Name c with
      | Some _ => Err (Errorf "%w: %s side has duplicate capability name %q"
                         (Some (Sentinel ErrMalformedHello)) [ArgStr side; ArgStr (Name c)])
      | None => index_from caps side (<[Name c := c]> idx)
      end
  end.

Definition indexCapabilities (caps : list Capability) (side : bytes)
    : go (gmap bytes Capability) :=
  index_from caps side ∅.

(** The first loop: the active set in local order. *)
Fixpoint active_set (local : list Capability) (peerByName : gmap bytes Capability)
    : list Capability :=
  match local with
  | [] => []
  | lc :: local =>
      match peerByName !! Name lc with
      | None => active_set local peerByName
      | Some pc =>
          let minor := Version_ lc in
          let minor := if Version_ pc <? minor then Version_ pc else minor in
          mkCap (Name lc) minor false :: active_set local peerByName
      end
  end.

(** The second and third loops: required names of one side must be on the other. *)
Fixpoint check_required (caps : list Capability) (other : gmap bytes Capability)
    (fmt : string) : go unit :=
  match caps with
  | [] => Ok tt
  | c :: caps =>
      if negb (Required c) then check_required caps other fmt else
      match other !! Name c with
      | None => Err (Errorf fmt (Some (Sentinel ErrMissingRequiredCapability)) [ArgStr (Name c)])
      | Some _ => check_required caps other fmt
      end
  end.

Definition NegotiateCapabilities (local peer : list Capability) : go (list Capability) :=
  localByName ← indexCapabilities local (str "local");
  peerByName ← indexCapabilities peer (str "peer");
  let active := active_set local peerByName in
  check_required local peerByName "%w: local requires %q";;
  check_required peer localByName "%w: peer requires %q";;
  Ok active.

(** ** The name grammar, declaratively

    capability-name = label *("." label) "/" major, at most 255 bytes;
    label = ALPHA *(ALPHA / DIGIT / "-"); major = decimal without leading zero. *)

Definition label_char (b : byte) : bool := isAlpha b || isDigit b || bool_decide (b = x2d).

Definition label_ok (l : bytes) : Prop :=
  match l with
  | [] => False
  | b0 :: rest => isAlpha b0 = true /\ Forall (fun b => label_char b = true) rest
  end.

Definition major_ok (s : bytes) : Prop :=
  s <> [] /\ Forall (fun b => isDigit b = true) s /\ (s = [x30] \/ head s <> Some x30).

Definition name_of (labels : list bytes) (major : bytes) : bytes :=
  Join labels x2e ++ x2f :: major.

Definition conforming (name : bytes) (labels : list bytes) (major : bytes) : Prop :=
  name = name_of labels major /\ labels <> [] /\ Forall label_ok labels /\ major_ok major /\
  (length name <= MaxCapabilityNameBytes)%nat.

Lemma label_bytes_Ok label rest :
  label_bytes label rest = Ok tt <-> Forall (fun b => label_char b = true) rest.
Proof.
  induction rest as [|b rest IH]; simpl; [split; [by constructor|done]|].
  rewrite Forall_cons, <-IH. unfold label_char.
  destruct (isAlpha b), (isDigit b), (bool_decide (b = x2d)); simpl; naive_solver.
Qed.

Lemma validate_labels_Ok i labels :
  validate_labels i labels = Ok tt <-> Forall label_ok labels.
Proof.
  revert i. induction labels as [|[|b0 rest] labels IH]; intros i; simpl.
  - split; [by constructor|done].
  - rewrite Forall_cons. split; [done|]. by intros [[] _].
  - rewrite Forall_cons. simpl. rewrite <-(IH (i + 1)), <-(label_bytes_Ok (b0 :: rest)).
    destruct (isAlpha b0); simpl; [|naive_solver].
    destruct (label_bytes (b0 :: rest) rest) as [[]|?|?]; simpl; naive_solver.
Qed.

Lemma major_bytes_Ok s rest :
  major_bytes s rest = Ok tt <-> Forall (fun b => isDigit b = true) rest.
Proof.
  induction rest as [|b rest IH]; simpl; [split; [by constructor|done]|].
  rewrite Forall_cons, <-IH. destruct (isDigit b); simpl; naive_solver.
Qed.

Lemma validateMajor_Ok s : validateMajor s = Ok tt <-> major_ok s.
Proof.
  unfold validateMajor, major_ok. destruct s as [|b0 s]; [naive_solver|].
  destruct ((1 <? length (b0 :: s))%nat && bool_decide (b0 = x30)) eqn:E.
  - split; [done|]. apply andb_true_iff in E as [E1 E2]. zbool. subst.
    intros (_ & _ & [?|?]); destruct s; simplify_eq/=; lia.
  - rewrite major_bytes_Ok. apply andb_false_iff in E. split; [|naive_solver].
    intros Hd. split_and!; [done|done|]. destruct E as [E|E]; zbool.
    + destruct s; [|simpl in *; lia].
      destruct (decide (b0 = x30)); [left; congruence|right; simpl; congruence].
    + right. simpl. congruence.
Qed.

Lemma label_char_excludes b c :
  label_char c = false -> label_char b = true -> b <> c.
Proof. congruence. Qed.

Lemma label_ok_excludes l c : label_char c = false -> label_ok l -> c ∉ l.
Proof.
  intros Hc Hl Hin. destruct l as [|b0 rest]; [done|]. destruct Hl as [Ha Hr].
  apply elem_of_cons in Hin as [->|Hin].
  - unfold label_char in Hc. by rewrite Ha in Hc.
  - rewrite Forall_forall in Hr. specialize (Hr c Hin). congruence.
Qed.

Lemma Join_excludes ps sep c :
  c <> sep -> Forall (fun p => c ∉ p) ps -> c ∉ Join ps sep.
Proof.
  intros Hc H. induction H as [|p ps Hp Hps IH]; simpl; [set_solver|].
  destruct ps; [done|]. set_solver.
Qed.

Lemma conforming_slash labels major :
  Forall label_ok labels -> IndexByte (name_of labels major) x2f = Some (length (Join labels x2e)).
Proof.
  intros Hl. apply IndexByte_app, Join_excludes; [done|].
  eapply Forall_impl; [done|]. intros l. by apply label_ok_excludes.
Qed.

Lemma major_ok_excludes s : major_ok s -> x2f ∉ s.
Proof. intros (_ & Hd & _) Hin. rewrite Forall_forall in Hd. by specialize (Hd _ Hin). Qed.

Lemma drop_S_app {A} (p : list A) c q : drop (S (length p)) (p ++ c :: q) = q.
Proof.
  change (S (length p)) with (1 + length p)%nat.
  by rewrite Nat.add_comm, <-drop_drop, drop_app_length.
Qed.

Lemma Join_nonempty labels : labels <> [] -> Forall label_ok labels -> Join labels x2e <> [].
Proof.
  intros Hne H. destruct H as [|[|b l] ps Hp Hps]; [done|by destruct Hp|]. by destruct ps.
Qed.

(** ValidateCapabilityName accepts exactly the names of the grammar: dotted
    labels that start with a letter and continue with letters, digits and
    dashes, one slash, a decimal major without leading zero, 255 bytes at
    most. *)
Lemma ValidateCapabilityName_grammar name :
  ValidateCapabilityName name = Ok tt <-> exists labels major, conforming name labels major.
Proof.
  unfold ValidateCapabilityName. split.
  - intros H. case_bool_decide; [done|]. case_match eqn:Hlen; [done|]. zbool.
    destruct (IndexByte name x2f) as [slash|] eqn:Hi; [|done].
    apply IndexByte_split in Hi as (ns & major & -> & Hns & E1 & E2). rewrite E1, E2 in H.
    case_bool_decide; [done|]. case_bool_decide; [done|]. case_match; [done|].
    go_inv. destruct v, v0. unfold validateNamespace in E. case_bool_decide; [done|].
    apply validate_labels_Ok in E. apply validateMajor_Ok in E0.
    exists (Split ns x2e), major. unfold conforming, name_of. rewrite Join_Split.
    split_and!; auto using Split_nonempty.
  - intros (labels & major & -> & Hne & Hl & Hm & Hlen).
    rewrite bool_decide_eq_false_2 by (unfold name_of; by destruct (Join labels x2e)).
    rewrite (proj2 (Nat.ltb_ge _ _)) by done. rewrite conforming_slash by done.
    unfold name_of. rewrite take_app_length, drop_S_app.
    rewrite !bool_decide_eq_false_2 by (by apply Join_nonempty || by destruct Hm).
    rewrite (proj2 (IndexByte_None _ _)) by (by apply major_ok_excludes).
    unfold validateNamespace. rewrite bool_decide_eq_false_2 by (by apply Join_nonempty).
    rewrite Split_Join; [|done|].
    + rewrite (proj2 (validate_labels_Ok 0 labels) Hl). simpl.
      by rewrite (proj2 (validateMajor_Ok major) Hm).
    + eapply Forall_impl; [done|]. intros l. by apply label_ok_excludes.
Qed.

(** On a conforming name, IsReservedNamespace holds exactly when the first
    label is "aire"; a longer label that merely starts with it is not
    reserved. *)
Lemma IsReservedNamespace_first_label name labels major :
  conforming name labels major ->
  IsReservedNamespace name = true <-> head labels = Some (str "aire").
Proof.
  intros (-> & Hne & Hl & _ & _). unfold IsReservedNamespace.
  rewrite conforming_slash by done. unfold name_of. rewrite take_app_length.
  destruct labels as [|l labels]; [done|]. rewrite bool_decide_eq_true. simpl head.
  apply Forall_cons in Hl as [Hl1 _].
  assert (x2e ∉ l) as Hdot by (by apply label_ok_excludes).
  destruct labels as [|l' labels].
  - simpl. rewrite (proj2 (IndexByte_None l x2e)) by done. naive_solver.
  - change (Join (l :: l' :: labels) x2e) with (l ++ x2e :: Join (l' :: labels) x2e).
    rewrite IndexByte_app, take_app_length by done. naive_solver.
Qed.

Lemma IsReservedNamespace_first_label_witness :
  IsReservedNamespace (str "aire.did-method.web/1") = true <->
  head [str "aire"; str "did-method"; str "web"] = Some (str "aire").
Proof.
  apply (IsReservedNamespace_first_label _ _ (str "1")).
  split; [reflexivity|]. split; [done|]. split.
  - repeat constructor.
  - split; [|vm_compute; lia]. split; [done|]. split; [repeat constructor|right; done].
Defined.

(** ** Negotiation, declaratively *)

Definition by_name (caps : list Capability) : gmap bytes Capability :=
  list_to_map ((fun c => (Name c, c)) <$> caps).

Abbreviation names caps := (Name <$> caps).

Lemma by_name_lookup caps n c :
  NoDup (names caps) -> by_name caps !! n = Some c <-> c ∈ caps /\ Name c = n.
Proof.
  intros Hnd. unfold by_name. rewrite <-elem_of_list_to_map.
  - rewrite list_elem_of_fmap. naive_solver.
  - rewrite <-list_fmap_compose. exact Hnd.
Qed.

Lemma by_name_None caps n : by_name caps !! n = None <-> n ∉ names caps.
Proof.
  unfold by_name. rewrite <-not_elem_of_list_to_map, <-list_fmap_compose. done.
Qed.

Lemma index_from_spec caps side idx :
  (NoDup (names caps) /\ (forall c, c ∈ caps -> idx !! Name c = None) /\
   index_from caps side idx = Ok (by_name caps ∪ idx)) \/
  (~ (NoDup (names caps) /\ forall c, c ∈ caps -> idx !! Name c = None) /\
   exists e, index_from caps side idx = Err e /\ errors_Is e ErrMalformedHello = true).
Proof.
  revert idx. induction caps as [|c caps IH]; intros idx; simpl.
  { left. split_and!; [constructor|set_solver|]. unfold by_name. simpl. by rewrite (left_id_L ∅ (∪)). }
  destruct (idx !! Name c) as [c'|] eqn:Hc.
  { right. split; [|by eexists]. intros [_ H]. specialize (H c). set_solver. }
  destruct (IH (<[Name c := c]> idx)) as [(Hnd & Hd & ->)|(Hn & e & -> & He)].
  - left. assert (Name c ∉ names caps) as Hnc.
    { intros (c' & Hc' & Hin)%list_elem_of_fmap. specialize (Hd c' Hin).
      rewrite <-Hc', lookup_insert_eq in Hd. done. }
    split_and!.
    + by constructor.
    + intros c' [->|Hin]%elem_of_cons; [done|]. specialize (Hd c' Hin).
      apply lookup_insert_None in Hd. naive_solver.
    + f_equal. unfold by_name. simpl. rewrite <-insert_union_l, insert_union_r; [done|].
      by apply (by_name_None caps).
  - right. split; [|by eexists]. intros [[Hnc Hnd]%NoDup_cons Hd]. apply Hn. split; [done|].
    intros c' Hin. rewrite lookup_insert_ne; [apply Hd; set_solver|].
    intros E. apply Hnc. rewrite E. by apply list_elem_of_fmap_2.
Qed.

Lemma indexCapabilities_spec caps side :
  (NoDup (names caps) /\ indexCapabilities caps side = Ok (by_name caps)) \/
  (~ NoDup (names caps) /\
   exists e, indexCapabilities caps side = Err e /\ errors_Is e ErrMalformedHello = true).
Proof.
  unfold indexCapabilities.
  destruct (index_from_spec caps side ∅) as [(H1 & _ & ->)|[H1 H2]].
  - left. by rewrite (right_id_L ∅ (∪)).
  - right. split; [|done]. intros H. apply H1. split; [done|]. intros. apply lookup_empty.
Qed.

(** The required names of [caps] are all among those of [other]. *)
Definition requires_met (caps other : list Capability) : Prop :=
  forall c, c ∈ caps -> Required c = true -> Name c ∈ names other.

Lemma check_required_spec caps other fmt :
  (requires_met caps other /\ check_required caps (by_name other) fmt = Ok tt) \/
  (~ requires_met caps other /\ exists e,
     check_required caps (by_name other) fmt = Err e /\
     errors_Is e ErrMissingRequiredCapability = true).
Proof.
  induction caps as [|c caps IH]; simpl; [left; split; [|done]; unfold requires_met; set_solver|].
  destruct (Required c) eqn:Hr; simpl.
  - destruct (by_name other !! Name c) as [oc|] eqn:Ho.
    + assert (Name c ∈ names other) as Hin.
      { destruct (decide (Name c ∈ names other)) as [|Hn]; [done|].
        apply by_name_None in Hn. congruence. }
      unfold requires_met in *.
      destruct IH as [[H ->]|[H He]]; [left|right]; (split; [|done]); set_solver.
    + right. split; [|by eexists]. apply by_name_None in Ho. intros H. apply Ho, H; set_solver.
  - unfold requires_met in *.
    destruct IH as [[H ->]|[H He]]; [left|right]; (split; [|done]); [|set_solver].
    intros c' [->|Hin]%elem_of_cons Hr'; [congruence|by apply H].
Qed.

(** The four conditions under which a negotiation succeeds, symmetric in the
    two sides. *)
Definition compatible (local peer : list Capability) : Prop :=
  NoDup (names local) /\ NoDup (names peer) /\
  requires_met local peer /\ requires_met peer local.

Lemma Negotiate_outcome local peer :
  (compatible local peer /\
   NegotiateCapabilities local peer = Ok (active_set local (by_name peer))) \/
  (~ (NoDup (names local) /\ NoDup (names peer)) /\
   exists e, NegotiateCapabilities local peer = Err e /\ errors_Is e ErrMalformedHello = true) \/
  (NoDup (names local) /\ NoDup (names peer) /\ ~ compatible local peer /\
   exists e, NegotiateCapabilities local peer = Err e /\
     errors_Is e ErrMissingRequiredCapability = true).
Proof.
  unfold NegotiateCapabilities, compatible.
  destruct (indexCapabilities_spec local (str "local")) as [[Hl ->]|(Hl & e & -> & He)];
    simpl; [|right; left; split; [tauto|by eexists]].
  destruct (indexCapabilities_spec peer (str "peer")) as [[Hp ->]|(Hp & e & -> & He)];
    simpl; [|right; left; split; [tauto|by eexists]].
  destruct (check_required_spec local peer "%w: local requires %q") as [[H1 ->]|(H1 & e & -> & He)];
    simpl; [|right; right; split_and!; [done|done|tauto|by eexists]].
  destruct (check_required_spec peer local "%w: peer requires %q") as [[H2 ->]|(H2 & e & -> & He)];
    simpl; [by left|right; right; split_and!; [done|done|tauto|by eexists]].
Qed.

Lemma active_set_elem local peer c :
  NoDup (names peer) ->
  c ∈ active_set local (by_name peer) <->
  exists lc pc, lc ∈ local /\ pc ∈ peer /\ Name lc = Name pc /\
    c = mkCap (Name lc) (Z.min (Version_ lc) (Version_ pc)) false.
Proof.
  intros Hp. induction local as [|lc local IH]; simpl; [set_solver|].
  destruct (by_name peer !! Name lc) as [pc|] eqn:E.
  - apply by_name_lookup in E as [Hin Hn]; [|done]. rewrite elem_of_cons, IH.
    assert ((if Version_ pc <? Version_ lc then Version_ pc else Version_ lc) =
            Z.min (Version_ lc) (Version_ pc)) as -> by (case_match; zbool; lia).
    split.
    + intros [->|(lc' & pc' & ? & ? & ? & ->)]; [exists lc, pc|exists lc', pc'];
        split_and!; done || set_solver.
    + intros (lc' & pc' & [->|Hl]%elem_of_cons & Hp' & Hn' & ->); [left|right; eauto 10].
      assert (pc = pc') as ->; [|done].
      assert (by_name peer !! Name lc = Some pc) by (by apply by_name_lookup).
      assert (by_name peer !! Name lc = Some pc') by (by apply by_name_lookup).
      congruence.
  - rewrite IH. apply by_name_None in E. split; [intros (l & p & ? & ?); exists l, p; set_solver|].
    intros (l & p & [->|Hl]%elem_of_cons & Hp' & Hn & ->); [|exists l, p; done].
    exfalso. apply E. rewrite Hn. by apply list_elem_of_fmap_2.
Qed.

Lemma active_set_names local m :
  names (active_set local m) `sublist_of` names local.
Proof.
  induction local as [|lc local IH]; simpl; [done|].
  case_match; simpl; by constructor.
Qed.

(** C28: the functional behaviour of NegotiateCapabilities on every branch.  It
    succeeds exactly when neither list repeats a name and every required name
    is advertised by the other side; the active set is then, in local order,
    one entry per name advertised by both, at the smaller minor and with
    Required cleared.  A repeated name gives ErrMalformedHello, a missing
    required capability ErrMissingRequiredCapability. *)
Theorem NegotiateCapabilities_spec local peer :
  match NegotiateCapabilities local peer with
  | Ok active =>
      compatible local peer /\
      names active `sublist_of` names local /\ NoDup (names active) /\
      forall c, c ∈ active <->
        exists lc pc, lc ∈ local /\ pc ∈ peer /\ Name lc = Name pc /\
          c = mkCap (Name lc) (Z.min (Version_ lc) (Version_ pc)) false
  | Err e =>
      if decide (NoDup (names local) /\ NoDup (names peer))
      then ~ (requires_met local peer /\ requires_met peer local) /\
           errors_Is e ErrMissingRequiredCapability = true
      else errors_Is e ErrMalformedHello = true
  | Panic _ => False
  end.
Proof.
  destruct (Negotiate_outcome local peer) as [[Hc ->]|[(Hd & e & -> & He)|(Hl & Hp & Hc & e & -> & He)]].
  - split_and!; [done|apply active_set_names|..].
    + destruct Hc as (Hl & _). eapply sublist_NoDup; [exact Hl|apply active_set_names].
    + intros c. apply active_set_elem. by destruct Hc as (_ & ? & _).
  - by rewrite decide_False.
  - rewrite decide_True by done. split; [|done]. unfold compatible in Hc. tauto.
Qed.

(** The two peers agree.  Run on the two lists from the two sides, the
    negotiation succeeds on both or fails on both with the same error class,
    and the two active sets have the same members (each side in its own
    order). *)
Lemma negotiation_agreement a b :
  match NegotiateCapabilities a b, NegotiateCapabilities b a with
  | Ok x, Ok y => x ≡ₚ y
  | Err e1, Err e2 =>
      (errors_Is e1 ErrMalformedHello = true /\ errors_Is e2 ErrMalformedHello = true) \/
      (errors_Is e1 ErrMissingRequiredCapability = true /\
       errors_Is e2 ErrMissingRequiredCapability = true)
  | _, _ => False
  end.
Proof.
  destruct (Negotiate_outcome a b) as [[Hc ->]|[(Hd & e & -> & He)|(Hl & Hp & Hc & e & -> & He)]];
    destruct (Negotiate_outcome b a) as
      [[Hc' ->]|[(Hd' & e' & -> & He')|(Hl' & Hp' & Hc' & e' & -> & He')]];
    unfold compatible in *; try tauto.
  destruct Hc as (Ha & Hb & _).
  apply NoDup_Permutation.
  - eapply NoDup_fmap_1, sublist_NoDup; [exact Ha|apply active_set_names].
  - eapply NoDup_fmap_1, sublist_NoDup; [exact Hb|apply active_set_names].
  - intros c. rewrite !active_set_elem by done.
    split; intros (x & y & ? & ? & E & ->); exists y, x; split_and!; try done; rewrite E; f_equal; lia.
Qed.
