(* ===== verification/Base58.v ===== *)
(** * base58btc

    [identity.go], base58btcEncode and base58btcDecode: the multibase encoding of
    Ed25519 multikeys, as two mutually inverse functions. *)

From Stdlib Require Import Strings.Byte.
From stdpp Require Import base numbers list gmap strings.
From S2P Require Import Prelude Machine GoStrings Varint.
Open Scope Z_scope.

Definition b58Alphabet : bytes :=
  str "123456789ABCDEFGHJKLMNPQRSTUVWXYZabcdefghijkmnopqrstuvwxyz".

(** [b58Alphabet[d]]. *)
Definition b58_char (d : Z) : byte := nth (Z.to_nat d) b58Alphabet x00.

Arguments b58_char : simpl never.

(** [for n.Sign() > 0 { n.QuoRem(n, base, rem); out = append(out, ...) }]: the
    digits, least significant first.  [fuel] bounds the number of digits. *)
Fixpoint b58_digits (fuel : nat) (n : Z) : list Z :=
  match fuel with
  | O => []
  | S fuel => if 0 <? n then n mod 58 :: b58_digits fuel (n / 58) else []
  end.

(** [for _, b := range data { if b == 0 {...} else { break } }]. *)
Fixpoint lead_run (c : byte) (data : bytes) : nat :=
  match data with
  | b :: data => if bool_decide (b = c) then S (lead_run c data) else O
  | [] => O
  end.

(** Two digits per byte are enough fuel: 256 < 58 * 58. *)
Definition base58btcEncode (data : bytes) : bytes :=
  let n := be_val data in
  let out := b58_char <$> b58_digits (2 * length data) n in
  let out := out ++ replicate (lead_run x00 data) x31 in
  reverse out.

(** [Bytes] of a [big.Int]: big-endian without leading zeros. *)
Definition big_Bytes (n : Z) : bytes :=
  be_bytes (Z.to_nat (if n =? 0 then 0 else Z.log2 n / 8 + 1)) n.

(** The accumulation loop over the characters. *)
Fixpoint b58_value (n : Z) (s : bytes) : go Z :=
  match s with
  | [] => Ok n
  | c :: s =>
      match IndexByte b58Alphabet c with
      | None => Err (Errorf "base58btc: invalid character %q" None [ArgInt (bval c)])
      | Some idx => b58_value (n * 58 + Z.of_nat idx) s
      end
  end.

Definition base58btcDecode (s : bytes) : go bytes :=
  n ← b58_value 0 s;
  let out := big_Bytes n in
  let lead := lead_run x31 s in
  Ok (if (0 <? lead)%nat then replicate lead x00 ++ out else out).

(** ** The alphabet *)

Definition is_digit58 (d : Z) : Prop := 0 <= d < 58.

Lemma b58_char_index d : is_digit58 d -> IndexByte b58Alphabet (b58_char d) = Some (Z.to_nat d).
Proof.
  unfold is_digit58. intros H.
  assert (forallb (fun i => bool_decide (IndexByte b58Alphabet (b58_char (Z.of_nat i)) = Some i))
            (seq 0 58) = true) as Hall by (vm_compute; reflexivity).
  rewrite forallb_forall in Hall. specialize (Hall (Z.to_nat d)).
  rewrite bool_decide_eq_true, Z2Nat.id in Hall by lia. apply Hall, in_seq. lia.
Qed.

Lemma b58_index_char c i :
  IndexByte b58Alphabet c = Some i -> is_digit58 (Z.of_nat i) /\ b58_char (Z.of_nat i) = c.
Proof.
  intros H. apply IndexByte_Some in H as [H _]. unfold b58_char. rewrite Nat2Z.id.
  assert (i < 58)%nat as Hi.
  { apply (f_equal length) in H. rewrite length_app, length_take in H.
    change (length b58Alphabet) with 58%nat in H.
    simpl in H. lia. }
  split; [unfold is_digit58; lia|]. rewrite H, app_nth2; rewrite length_take;
    change (length b58Alphabet) with 58%nat; rewrite Nat.min_l by lia; [|lia].
  by rewrite Nat.sub_diag.
Qed.

Lemma b58_char_zero d : is_digit58 d -> b58_char d = x31 <-> d = 0.
Proof.
  intros Hd. split; [|by intros ->].
  intros H. apply (f_equal (IndexByte b58Alphabet)) in H.
  rewrite b58_char_index in H by done. change (IndexByte b58Alphabet x31) with (Some O) in H.
  unfold is_digit58 in Hd. simplify_eq. lia.
Qed.

(** ** Digits, least significant first *)

Fixpoint digits_val (ds : list Z) : Z :=
  match ds with
  | [] => 0
  | d :: ds => d + 58 * digits_val ds
  end.

(** Digits in range with a non-zero most significant one. *)
Definition canonical (ds : list Z) : Prop :=
  Forall is_digit58 ds /\ last ds <> Some 0.

Lemma digits_val_nonneg ds : Forall is_digit58 ds -> 0 <= digits_val ds.
Proof. unfold is_digit58. induction 1; simpl; lia. Qed.

Lemma b58_digits_val fuel n : 0 <= n < 58 ^ Z.of_nat fuel -> digits_val (b58_digits fuel n) = n.
Proof.
  revert n. induction fuel as [|fuel IH]; intros n Hn; simpl; [lia|].
  case_match; zbool; simpl; [|lia].
  rewrite Nat2Z.inj_succ, Z.pow_succ_r in Hn by lia.
  rewrite IH; [plia|]. split; [apply Z.div_pos; lia|apply Z.div_lt_upper_bound; lia].
Qed.

Lemma b58_digits_range fuel n : Forall is_digit58 (b58_digits fuel n).
Proof.
  revert n. induction fuel as [|fuel IH]; intros n; simpl; [constructor|].
  case_match; constructor; [|done]. unfold is_digit58. apply Z.mod_pos_bound. lia.
Qed.

Lemma b58_digits_canonical fuel n :
  0 <= n < 58 ^ Z.of_nat fuel -> canonical (b58_digits fuel n).
Proof.
  intros Hn. split; [apply b58_digits_range|]. revert n Hn.
  induction fuel as [|fuel IH]; intros n Hn; simpl; [done|].
  case_match; zbool; [|done].
  rewrite Nat2Z.inj_succ, Z.pow_succ_r in Hn by lia.
  assert (0 <= n / 58 < 58 ^ Z.of_nat fuel) as Hd.
  { split; [apply Z.div_pos; lia|apply Z.div_lt_upper_bound; lia]. }
  specialize (IH _ Hd). pose proof (b58_digits_val fuel _ Hd) as Hv.
  destruct (b58_digits fuel (n / 58)) as [|d ds]; simpl in *; [|done].
  intros ?; simplify_eq. plia.
Qed.

Lemma canonical_tail d ds : ds <> [] -> canonical (d :: ds) -> canonical ds.
Proof. intros Hne [Hf Hl]. apply Forall_cons in Hf as [_ Hf]. split; [done|]. by destruct ds. Qed.

Lemma canonical_pos ds : canonical ds -> ds <> [] -> 0 < digits_val ds.
Proof.
  induction ds as [|d ds IH]; intros Hc Hne; [done|]. destruct Hc as [Hf Hl].
  apply Forall_cons in Hf as [Hd Hf]. unfold is_digit58 in Hd. simpl.
  destruct ds as [|d' ds]; simpl in *; [assert (d <> 0) by congruence; lia|].
  specialize (IH ltac:(by split) ltac:(done)). simpl in IH. lia.
Qed.

(** The canonical digits of a value are unique. *)
Lemma b58_digits_unique ds fuel :
  canonical ds -> (length ds <= fuel)%nat -> b58_digits fuel (digits_val ds) = ds.
Proof.
  revert fuel. induction ds as [|d ds IH]; intros fuel Hc Hf; [by destruct fuel|].
  destruct fuel as [|fuel]; [simpl in Hf; lia|].
  pose proof (canonical_pos _ Hc ltac:(done)) as Hp. simpl.
  simpl in Hp. rewrite (proj2 (Z.ltb_lt _ _)) by done.
  destruct Hc as [Hfa Hl]. apply Forall_cons in Hfa as [Hd Hfa]. unfold is_digit58 in Hd.
  f_equal; [plia|].
  replace ((d + 58 * digits_val ds) / 58) with (digits_val ds) by plia.
  apply IH; [|simpl in Hf; lia]. split; [done|]. by destruct ds.
Qed.

Lemma canonical_inj a b : canonical a -> canonical b -> digits_val a = digits_val b -> a = b.
Proof.
  intros Ha Hb E. rewrite <-(b58_digits_unique a (length a + length b)) by (done || lia).
  rewrite E. apply b58_digits_unique; [done|lia].
Qed.

(** ** Leading runs *)

Lemma lead_run_split c data :
  exists rest, data = replicate (lead_run c data) c ++ rest /\ head rest <> Some c.
Proof.
  induction data as [|b data (rest & IH & Hh)]; simpl; [by exists []|].
  case_bool_decide as Hb; [|exists (b :: data); simpl; naive_solver].
  exists rest. split; [|done]. simpl. by subst b; rewrite <-IH.
Qed.

Lemma lead_run_app c k rest :
  head rest <> Some c -> lead_run c (replicate k c ++ rest) = k.
Proof.
  intros Hh. induction k as [|k IH]; simpl.
  - destruct rest as [|b rest]; simpl; [done|]. rewrite bool_decide_eq_false_2; [done|].
    simpl in Hh. congruence.
  - rewrite bool_decide_eq_true_2 by done. by rewrite IH.
Qed.

Lemma be_val_zeros k rest : be_val (replicate k x00 ++ rest) = be_val rest.
Proof.
  induction k as [|k IH]; [done|]. rewrite replicate_S, <-app_comm_cons, be_val_cons, IH.
  change (bval x00) with 0. lia.
Qed.

(** ** The value of a string *)

Lemma b58_value_app n s1 s2 :
  b58_value n (s1 ++ s2) = (m ← b58_value n s1; b58_value m s2).
Proof.
  revert n. induction s1 as [|c s1 IH]; intros n; simpl; [done|].
  case_match; [apply IH|done].
Qed.

Lemma b58_value_digits ds :
  Forall is_digit58 ds -> b58_value 0 (reverse (b58_char <$> ds)) = Ok (digits_val ds).
Proof.
  induction 1 as [|d ds Hd _ IH]; [done|].
  rewrite fmap_cons, reverse_cons, b58_value_app, IH. cbn [mbind go_bind b58_value].
  rewrite b58_char_index by done. unfold is_digit58 in Hd. rewrite Z2Nat.id by lia.
  f_equal. simpl. lia.
Qed.

Lemma b58_value_ones k s : b58_value 0 (replicate k x31 ++ s) = b58_value 0 s.
Proof. induction k as [|k IH]; [done|]. simpl. exact IH. Qed.

(** A decodable string is the image of a list of digits. *)
Lemma b58_value_inv n s m :
  b58_value n s = Ok m -> exists ds, Forall is_digit58 ds /\ s = reverse (b58_char <$> ds).
Proof.
  revert n. induction s as [|c s IH]; intros n H; cbn [b58_value] in H.
  { exists []. by split. }
  destruct (IndexByte b58Alphabet c) as [i|] eqn:E; [|done].
  apply b58_index_char in E as [Hi Hc]. apply IH in H as (ds & Hds & ->).
  exists (ds ++ [Z.of_nat i]). split; [by apply Forall_app; auto|].
  by rewrite fmap_app, reverse_app, <-Hc.
Qed.

(** ** Minimal big-endian bytes *)

Lemma pow256_log2 n k :
  0 < k -> 256 ^ (k - 1) <= n < 256 ^ k -> Z.log2 n / 8 + 1 = k.
Proof.
  intros Hk Hn. change 256 with (2 ^ 8) in Hn. rewrite <-!Z.pow_mul_r in Hn by lia.
  assert (0 < n) by (pose proof (Z.pow_pos_nonneg 2 (8 * (k - 1))); lia).
  assert (8 * (k - 1) <= Z.log2 n) by (apply Z.log2_le_pow2; lia).
  assert (Z.log2 n < 8 * k) by (apply Z.log2_lt_pow2; lia).
  plia.
Qed.

Lemma be_val_lower b bs : b <> x00 -> 256 ^ len bs <= be_val (b :: bs).
Proof.
  intros Hb. rewrite be_val_cons. pose proof (bval_range b). pose proof (be_val_bound bs).
  assert (bval b <> 0) by (intros E; apply Hb, bval_inj; by rewrite E).
  pose proof (Z.pow_pos_nonneg 256 (len bs)). nia.
Qed.

Lemma big_Bytes_be_val bs : head bs <> Some x00 -> big_Bytes (be_val bs) = bs.
Proof.
  intros Hh. unfold big_Bytes. destruct bs as [|b bs]; [done|].
  assert (b <> x00) as Hb by (simpl in Hh; congruence).
  pose proof (be_val_lower b bs Hb). pose proof (be_val_bound (b :: bs)) as B.
  pose proof (Z.pow_pos_nonneg 256 (len bs)).
  zguard. rewrite (pow256_log2 _ (len (b :: bs))) by (simpl length in *;
    rewrite ?Nat2Z.inj_succ in *; rewrite ?Z.sub_1_r, ?Z.pred_succ in *; lia).
  rewrite Nat2Z.id. apply be_bytes_val.
Qed.

Lemma big_Bytes_length n : 0 <= n -> n < 256 ^ len (big_Bytes n).
Proof.
  intros Hn. unfold big_Bytes. rewrite be_bytes_length.
  case_match; zbool; [subst; by vm_compute|].
  rewrite Z2Nat.id by (pose proof (Z.log2_nonneg n); plia).
  change 256 with (2 ^ 8). rewrite <-Z.pow_mul_r by (pose proof (Z.log2_nonneg n); plia).
  apply Z.log2_lt_pow2; [lia|]. plia.
Qed.

Lemma be_val_big_Bytes n : 0 <= n -> be_val (big_Bytes n) = n.
Proof.
  intros Hn. pose proof (big_Bytes_length n Hn) as Hl. unfold big_Bytes in *.
  rewrite be_bytes_length in Hl. rewrite be_val_bytes. apply Z.mod_small. lia.
Qed.

Lemma big_Bytes_head n : 0 <= n -> head (big_Bytes n) <> Some x00.
Proof.
  intros Hn Hh. pose proof (be_val_big_Bytes n Hn) as Hv.
  destruct (big_Bytes n) as [|b bs] eqn:E; [done|]. injection Hh as ->.
  rewrite be_val_cons in Hv. change (bval x00) with 0 in Hv.
  pose proof (be_val_bound bs) as B. apply (f_equal length) in E.
  unfold big_Bytes in E. rewrite be_bytes_length in E. simpl in E.
  case_match; zbool; [simpl in E; lia|].
  pose proof (Z.log2_nonneg n). pose proof (Z.log2_spec n ltac:(lia)) as [L _].
  assert (len bs = Z.log2 n / 8) as Hbs by plia. rewrite Hbs in B.
  assert (256 ^ (Z.log2 n / 8) <= 2 ^ Z.log2 n); [|lia].
  change 256 with (2 ^ 8). rewrite <-Z.pow_mul_r by plia.
  apply Z.pow_le_mono_r; plia.
Qed.

(** ** The two round trips *)

Lemma pow58_enough k n : 0 <= n < 256 ^ Z.of_nat k -> 0 <= n < 58 ^ Z.of_nat (2 * k).
Proof.
  intros Hn. rewrite Nat2Z.inj_mul. change (Z.of_nat 2) with 2.
  rewrite Z.pow_mul_r by lia. change (58 ^ 2) with 3364.
  pose proof (Z.pow_le_mono_l 256 3364 (Z.of_nat k)). lia.
Qed.

Lemma head_digits ds :
  canonical ds -> head (reverse (b58_char <$> ds)) <> Some x31.
Proof.
  intros [Hf Hl] Hh. destruct ds as [|d ds _] using rev_ind; [done|].
  rewrite fmap_app, reverse_app in Hh. simpl in Hh. simplify_eq.
  apply Forall_app in Hf as [_ Hf]. apply Forall_cons in Hf as [Hf _].
  rewrite last_snoc in Hl. apply (b58_char_zero d Hf) in Hh. congruence.
Qed.

Lemma base58btcEncode_shape data :
  base58btcEncode data =
  replicate (lead_run x00 data) x31 ++
  reverse (b58_char <$> b58_digits (2 * length data) (be_val data)).
Proof. unfold base58btcEncode. by rewrite reverse_app, reverse_replicate. Qed.

Lemma base58_decode_encode data : base58btcDecode (base58btcEncode data) = Ok data.
Proof.
  rewrite base58btcEncode_shape. unfold base58btcDecode.
  pose proof (pow58_enough _ _ (be_val_bound data)) as Hb.
  rewrite b58_value_ones, b58_value_digits by apply b58_digits_range.
  rewrite b58_digits_val by done. cbn [mbind go_bind].
  rewrite lead_run_app by (by apply head_digits, b58_digits_canonical).
  destruct (lead_run_split x00 data) as (rest & Hd & Hh).
  set (z := lead_run x00 data) in *. f_equal.
  assert (big_Bytes (be_val data) = rest) as ->.
  { rewrite Hd, be_val_zeros. by apply big_Bytes_be_val. }
  case_match; zbool; [by symmetry|]. by assert (z = O) as E by lia; rewrite E in Hd.
Qed.

Lemma base58_encode_decode s data : base58btcDecode s = Ok data -> base58btcEncode data = s.
Proof.
  unfold base58btcDecode. intros H. go_inv.
  apply b58_value_inv in E as Hi. destruct Hi as (ds & Hds & Hs).
  destruct (lead_run_split x31 s) as (rest & Hr & Hh).
  set (z := lead_run x31 s) in *.
  assert ((if (0 <? z)%nat then replicate z x00 ++ big_Bytes v else big_Bytes v)
          = replicate z x00 ++ big_Bytes v) as ->.
  { case_match; [done|]. zbool. by replace z with O by lia. }
  rewrite Hr, b58_value_ones in E.
  apply b58_value_inv in E as Hi. destruct Hi as (rs & Hrs & Hrest).
  rewrite Hrest, b58_value_digits in E by done. injection E as E.
  assert (canonical rs) as Hc.
  { split; [done|]. intros Hl. apply Hh. rewrite Hrest.
    destruct rs as [|r rs _] using rev_ind; [done|]. rewrite last_snoc in Hl.
    injection Hl as ->. by rewrite fmap_app, reverse_app. }
  pose proof (digits_val_nonneg rs Hrs) as Hv. rewrite E in Hv.
  rewrite base58btcEncode_shape, lead_run_app by (by apply big_Bytes_head).
  rewrite Hr at 1. f_equal. rewrite Hrest. do 2 f_equal.
  rewrite be_val_zeros, be_val_big_Bytes by done.
  assert (0 <= v < 58 ^ Z.of_nat (2 * length (replicate z x00 ++ big_Bytes v))) as Hb.
  { apply pow58_enough. rewrite <-(be_val_big_Bytes v) at 1 2 by done.
    rewrite <-(be_val_zeros z). apply be_val_bound. }
  apply canonical_inj; [by apply b58_digits_canonical|done|].
  by rewrite b58_digits_val.
Qed.

Lemma base58_decode_ok s :
  is_ok (base58btcDecode s) = true <-> Forall (fun c => c ∈ b58Alphabet) s.
Proof.
  unfold base58btcDecode.
  assert (forall n, is_ok (b58_value n s) = true <-> Forall (fun c => c ∈ b58Alphabet) s) as Hs.
  { induction s as [|c s IH]; intros n; cbn [b58_value]; [split; [by constructor|done]|].
    rewrite Forall_cons. destruct (IndexByte b58Alphabet c) as [i|] eqn:E.
    - rewrite IH. assert (c ∈ b58Alphabet); [|tauto].
      apply IndexByte_Some in E as [E _]. rewrite E. set_solver.
    - apply IndexByte_None in E. simpl. split; [done|tauto]. }
  rewrite <-(Hs 0). by destruct (b58_value 0 s).
Qed.

(** Base58btc is a bijection between byte strings and the strings over its
    alphabet: decoding inverts encoding on every input, encoding inverts every
    successful decoding, and decoding fails exactly on a string with a
    character outside the alphabet. *)
Lemma base58_bijective :
  (forall data, base58btcDecode (base58btcEncode data) = Ok data) /\
  (forall s data, base58btcDecode s = Ok data -> base58btcEncode data = s) /\
  (forall s, is_ok (base58btcDecode s) = true <-> Forall (fun c => c ∈ b58Alphabet) s).
Proof.
  split_and!;
    [apply base58_decode_encode|apply base58_encode_decode|apply base58_decode_ok].
Qed.

Lemma b58_digits_length fuel n : (length (b58_digits fuel n) <= fuel)%nat.
Proof.
  revert n. induction fuel as [|fuel IH]; intros n; simpl; [lia|].
  case_match; simpl; [specialize (IH (n / 58))|]; lia.
Qed.

Lemma lead_run_length c data : (lead_run c data <= length data)%nat.
Proof. induction data; simpl; [lia|]. case_match; lia. Qed.

Lemma base58btcEncode_length data : (length (base58btcEncode data) <= 3 * length data)%nat.
Proof.
  unfold base58btcEncode. rewrite length_reverse, length_app, length_fmap, length_replicate.
  pose proof (b58_digits_length (2 * length data) (be_val data)).
  pose proof (lead_run_length x00 data). lia.
Qed.

Lemma b58_value_never_panics n s p : b58_value n s <> Panic p.
Proof.
  revert n. induction s as [|c s IH]; intros n; [done|]. cbn [b58_value].
  destruct (IndexByte b58Alphabet c); [apply IH|done].
Qed.

Lemma base58btcDecode_never_panics s p : base58btcDecode s <> Panic p.
Proof. intros [E|(? & _ & ?)]%bind_Panic; [by apply b58_value_never_panics in E|done]. Qed.
Arguments base58btcDecode : simpl never.
