(* ===== verification/Identity.v ===== *)
(** * Identity: signature blocks and did:key

    [identity.go] without the Verifier: the signature-block codec, the bytes a
    signature covers, the multibase form of an Ed25519 key and the did:key
    method, and the Signer interface with its did:key implementation. *)

From Stdlib Require Import Strings.Byte.
From stdpp Require Import base numbers list gmap strings.
From S2P Require Import Prelude Machine GoStrings Varint Frame Base58.
Open Scope Z_scope.

Definition SigAlgEd25519 : byte := x01.

(** ["AIRE-SIG-v1\x00"]. *)
Definition DomainSeparator : bytes := str "AIRE-SIG-v1" ++ [x00].

Definition ed25519PubMulticodec : bytes := [xed; x01].
Definition PublicKeySize : nat := 32.

(** The error codes of the identity layer. *)
Definition ErrCodeBadSignature : Z := 0x05.
Definition ErrCodeStaleTimestamp : Z := 0x06.
Definition ErrCodeReplayedNonce : Z := 0x07.
Definition ErrCodeUnresolvableDID : Z := 0x08.
Definition ErrCodeKeyMismatch : Z := 0x09.

(** ** Signature blocks *)

Record SignatureBlock := mkBlock {
  Algorithm : byte;
  VMID : bytes;
  Nonce : bytes;        (* [16]byte *)
  TimestampMS : Z;      (* int64 *)
  Signature : bytes;
}.

Definition metaBytes (sb : SignatureBlock) : go bytes :=
  let out := [Algorithm sb] in
  out ← appendString out (VMID sb);
  let out := out ++ Nonce sb in
  Ok (out ++ be_bytes 8 (u64 (TimestampMS sb))).

Definition SignatureBlock_Encode (sb : SignatureBlock) : go bytes :=
  out ← metaBytes sb;
  out ← AppendVarint out (len (Signature sb));
  Ok (out ++ Signature sb).

Definition DecodeSignatureBlock (data : bytes) : go (SignatureBlock * nat) :=
  match data with
  | [] => Err ErrShortBuffer
  | alg :: _ =>
      let pos := 1%nat in
      '(vmid, n) ← on_err (fun e => Errorf "sig block VMID: %w" (Some e) [])
                     (readString (drop pos data));
      let pos := (pos + n)%nat in
      if len data - Z.of_nat pos <? 16 then
        Err (Errorf "sig block Nonce: %w" (Some (Sentinel ErrShortBuffer)) [])
      else
      let nonce := take 16 (drop pos data) in
      let pos := (pos + 16)%nat in
      if len data - Z.of_nat pos <? 8 then
        Err (Errorf "sig block Timestamp: %w" (Some (Sentinel ErrShortBuffer)) [])
      else
      let ts := i64 (be_val (take 8 (drop pos data))) in
      let pos := (pos + 8)%nat in
      '(sigLen, n) ← on_err (fun e => Errorf "sig block SigLen: %w" (Some e) [])
                       (ReadVarint (drop pos data));
      let pos := (pos + n)%nat in
      if len data - Z.of_nat pos <? sigLen then
        Err (Errorf "sig block SigBytes: %w" (Some (Sentinel ErrShortBuffer)) [])
      else
      let sig := take (Z.to_nat sigLen) (drop pos data) in
      let pos := (pos + Z.to_nat sigLen)%nat in
      Ok (mkBlock alg vmid nonce ts sig, pos)
  end.

(** The bytes the signature of a frame of type [ft] is computed over. *)
Definition signedMessageBytes (ft : FrameType) (inner : bytes) (block : SignatureBlock)
    : go bytes :=
  let sep := DomainSeparator ++ [ft] in
  meta ← metaBytes block;
  Ok (sep ++ inner ++ meta).

(** ** Multibase and did:key *)

Definition encodeMultibaseEd25519 (pub : bytes) : bytes :=
  x7a :: base58btcEncode (ed25519PubMulticodec ++ pub).

Definition decodeMultibaseEd25519 (s : bytes) : go bytes :=
  match s with
  | c :: ((_ :: _) as rest) =>
      if negb (bool_decide (c = x7a)) then
        Err (Errorf "multibase must start with 'z': %q" None [ArgStr s])
      else
      raw ← base58btcDecode rest;
      match raw with
      | r0 :: r1 :: key =>
          if negb (bool_decide (r0 = xed)) || negb (bool_decide (r1 = x01)) then
            Err (newError "not an Ed25519 multikey")
          else if negb (length key =? PublicKeySize)%nat then
            Err (Errorf "Ed25519 pubkey length %d, want %d" None
                   [ArgInt (len key); ArgInt (Z.of_nat PublicKeySize)])
          else Ok key
      | _ => Err (newError "not an Ed25519 multikey")
      end
  | _ => Err (Errorf "multibase must start with 'z': %q" None [ArgStr s])
  end.

Definition didKeyPrefix : bytes := str "did:key:".

Definition MakeDIDKey (pub : bytes) : bytes := didKeyPrefix ++ encodeMultibaseEd25519 pub.

Definition ParseDIDKey (did : bytes) : go bytes :=
  if negb (HasPrefix did didKeyPrefix) then
    Err (Errorf "not a did:key: %q" None [ArgStr did])
  else decodeMultibaseEd25519 (drop (length didKeyPrefix) did).

(** [did[len(didKeyPrefix):]] panics on a shorter string. *)
Definition DIDKeyVMID (did : bytes) : go bytes :=
  if (length did <? length didKeyPrefix)%nat then Panic PanicSlice else
  Ok (did ++ [x23] ++ drop (length didKeyPrefix) did).

(** ** Ed25519

    [crypto/ed25519] is a parameter: key derivation, signing and verification,
    with the facts of its documentation the package relies on.  Public keys are
    32 bytes, and Verify accepts what Sign produced. *)
Class Ed25519 := {
  ed_Public : bytes -> bytes;
  ed_Sign : bytes -> bytes -> bytes;
  ed_Verify : bytes -> bytes -> bytes -> bool;
}.

Class Ed25519Laws `{Ed25519} := {
  ed_Public_size priv : length (ed_Public priv) = PublicKeySize;
  ed_Sign_fits priv msg : len (ed_Sign priv msg) <= MaxVarint;
  ed_Verify_Sign priv msg : ed_Verify (ed_Public priv) msg (ed_Sign priv msg) = true;
}.

(** The Signer interface. *)
Record Signer := mkSigner {
  s_DID : bytes;
  s_VMID : bytes;
  s_Sign : bytes -> bytes;
}.

Section WithEd25519.
Context `{Ed25519}.

(** The runtime check of ed25519.Verify on the key length. *)
Definition VerifyEd25519 (pub msg sig : bytes) : go bool :=
  if negb (length pub =? PublicKeySize)%nat then Panic (PanicKeyLength (len pub))
  else Ok (ed_Verify pub msg sig).

Definition NewEd25519DIDKeySigner (priv : bytes) : go Signer :=
  let pub := ed_Public priv in
  let did := MakeDIDKey pub in
  vmid ← DIDKeyVMID did;
  Ok (mkSigner did vmid (ed_Sign priv)).

(** [s.PublicKey()] of the Signer made from [priv]. *)
Definition Signer_PublicKey (priv : bytes) : bytes := ed_Public priv.

(** It is the key that the Signer's DID spells. *)
Lemma Signer_PublicKey_DID priv s :
  NewEd25519DIDKeySigner priv = Ok s -> s_DID s = MakeDIDKey (Signer_PublicKey priv).
Proof. unfold NewEd25519DIDKeySigner. intros (vmid & _ & E)%bind_Ok. by simplify_eq. Qed.
End WithEd25519.

(** A concrete scheme that satisfies the laws, for evaluating the model: the
    signature is the key followed by the last 32 bytes of the message. *)
Definition toy_public (priv : bytes) : bytes := take PublicKeySize (priv ++ repeat x00 PublicKeySize).
Definition toy_tag (pub msg : bytes) : bytes := take 32 pub ++ be_bytes 32 (be_val msg).
Definition toy_ed25519 : Ed25519 := {|
  ed_Public := toy_public;
  ed_Sign priv msg := toy_tag (toy_public priv) msg;
  ed_Verify pub msg sig := bool_decide (sig = toy_tag pub msg);
|}.

Lemma toy_ed25519_laws : Ed25519Laws (H := toy_ed25519).
Proof.
  split; simpl; intros.
  - unfold toy_public. rewrite length_take, length_app, repeat_length. lia.
  - unfold toy_tag. rewrite length_app, length_take, be_bytes_length.
    rewrite MaxVarint_val. pow_norm. lia.
  - by apply bool_decide_eq_true.
Qed.

(** ** The signature-block codec *)

Definition meta_bytes (sb : SignatureBlock) : bytes :=
  Algorithm sb :: string_bytes (VMID sb) ++ Nonce sb ++ be_bytes 8 (u64 (TimestampMS sb)).

Definition block_bytes (sb : SignatureBlock) : bytes :=
  meta_bytes sb ++ string_bytes (Signature sb).

(** The Go types of the fields, and lengths that a varint can announce. *)
Definition block_valid (sb : SignatureBlock) : Prop :=
  len (VMID sb) <= MaxVarint /\ length (Nonce sb) = 16%nat /\
  is_i64 (TimestampMS sb) /\ len (Signature sb) <= MaxVarint.

Lemma metaBytes_ok sb : len (VMID sb) <= MaxVarint -> metaBytes sb = Ok (meta_bytes sb).
Proof.
  intros. unfold metaBytes, meta_bytes. rewrite appendString_ok by done. simpl.
  by rewrite <-!app_assoc.
Qed.

Lemma metaBytes_Ok_inv sb bs :
  metaBytes sb = Ok bs -> len (VMID sb) <= MaxVarint /\ bs = meta_bytes sb.
Proof.
  intros H. unfold metaBytes in H. go_inv. apply appendString_Ok_inv in E as [Hl ->].
  split; [done|]. unfold meta_bytes. simpl. by rewrite <-!app_assoc.
Qed.

Lemma SignatureBlock_Encode_ok sb :
  block_valid sb -> SignatureBlock_Encode sb = Ok (block_bytes sb).
Proof.
  intros (Hv & _ & _ & Hs). unfold SignatureBlock_Encode, block_bytes, string_bytes at 1.
  rewrite metaBytes_ok by done. cbn [mbind go_bind]. rewrite AppendVarint_ok by lia. simpl.
  by rewrite <-!app_assoc.
Qed.

Lemma DecodeSignatureBlock_Ok_inv data sb n :
  DecodeSignatureBlock data = Ok (sb, n) ->
  exists rest m1 m2,
    data = Algorithm sb :: rest /\ readString rest = Ok (VMID sb, m1) /\
    (m1 + 24 <= length rest)%nat /\
    Nonce sb = take 16 (drop m1 rest) /\
    TimestampMS sb = i64 (be_val (take 8 (drop (m1 + 16) rest))) /\
    ReadVarint (drop (m1 + 24) rest) = Ok (len (Signature sb), m2) /\
    Signature sb = take (length (Signature sb)) (drop (m1 + 24 + m2) rest) /\
    n = (1 + (m1 + 24 + m2 + length (Signature sb)))%nat /\ (n <= length data)%nat.
Proof.
  intros H. destruct data as [|alg rest]; [done|]. simpl in H. rewrite drop_0 in H.
  go_inv. zbool. rename n0 into m1, n1 into m2.
  apply readString_bound in E as B1. apply ReadVarint_bound in E0 as B2.
  apply ReadVarint_range in E0 as R2.
  replace (m1 + 16 + 8)%nat with (m1 + 24)%nat in * by lia. rewrite length_drop in B2.
  destruct (Z_of_nat_complete z) as [k ->]; [lia|]. rewrite Nat2Z.id in *.
  exists rest, m1, m2. simpl.
  rewrite length_take, length_drop, Nat.min_l by lia.
  split_and!; try done; lia.
Qed.

Lemma DecodeSignatureBlock_intro alg rest vmid m1 m2 sig :
  readString rest = Ok (vmid, m1) -> (m1 + 24 <= length rest)%nat ->
  ReadVarint (drop (m1 + 24) rest) = Ok (len sig, m2) ->
  sig = take (length sig) (drop (m1 + 24 + m2) rest) ->
  (m1 + 24 + m2 + length sig <= length rest)%nat ->
  DecodeSignatureBlock (alg :: rest) =
    Ok (mkBlock alg vmid (take 16 (drop m1 rest))
          (i64 (be_val (take 8 (drop (m1 + 16) rest)))) sig,
        (1 + (m1 + 24 + m2 + length sig))%nat).
Proof.
  intros E1 Hl E2 Hs Hn. unfold DecodeSignatureBlock. simpl. rewrite drop_0, E1. simpl.
  zguard. zguard. replace (m1 + 16 + 8)%nat with (m1 + 24)%nat by lia.
  rewrite E2. simpl. zguard. rewrite Nat2Z.id, <-Hs. done.
Qed.
Arguments DecodeSignatureBlock : simpl never.

Lemma block_roundtrip sb rest :
  block_valid sb ->
  DecodeSignatureBlock (block_bytes sb ++ rest) = Ok (sb, length (block_bytes sb)).
Proof.
  intros (Hv & Hn & Ht & Hs). destruct sb as [alg vmid nonce ts sig].
  unfold block_bytes, meta_bytes. simpl in *.
  set (vb := string_bytes vmid). set (tb := be_bytes 8 (u64 ts)).
  assert (length tb = 8%nat) as Htb by apply be_bytes_length.
  set (sl := varint_bytes (len sig)).
  change (string_bytes sig) with (sl ++ sig). rewrite <-!app_assoc.
  set (R := vb ++ nonce ++ tb ++ sl ++ sig ++ rest).
  assert (drop (length vb) R = nonce ++ tb ++ sl ++ sig ++ rest) as D1
    by apply drop_app_length.
  assert (drop (length vb + 16) R = tb ++ sl ++ sig ++ rest) as D2
    by (rewrite <-drop_drop, D1; by apply drop_app_length').
  assert (drop (length vb + 24) R = sl ++ sig ++ rest) as D3
    by (replace (length vb + 24)%nat with (length vb + 16 + 8)%nat by lia;
        rewrite <-drop_drop, D2; by apply drop_app_length').
  rewrite DecodeSignatureBlock_intro with (vmid := vmid) (m1 := length vb)
    (m2 := length sl) (sig := sig).
  - rewrite D1, D2, !take_app_length' by done.
    unfold tb. rewrite i64_be_roundtrip by done. do 2 f_equal.
    cbn [length]. rewrite !length_app, be_bytes_length. lia.
  - by apply string_roundtrip.
  - unfold R. rewrite !length_app. lia.
  - rewrite D3. apply varint_roundtrip. lia.
  - by rewrite <-drop_drop, D3, drop_app_length, take_app_length.
  - unfold R. rewrite !length_app. lia.
Qed.

Lemma DecodeSignatureBlock_bound data sb n :
  DecodeSignatureBlock data = Ok (sb, n) -> (0 < n <= length data)%nat.
Proof. intros (? & ? & ? & _ & _ & _ & _ & _ & _ & _ & -> & ?)%DecodeSignatureBlock_Ok_inv. lia. Qed.

Lemma DecodeSignatureBlock_valid data sb n :
  DecodeSignatureBlock data = Ok (sb, n) -> block_valid sb.
Proof.
  intros (rest & m1 & m2 & _ & E1 & Hl & Hn & Ht & E2 & _)%DecodeSignatureBlock_Ok_inv.
  split_and!.
  - by eapply readString_len.
  - rewrite Hn, length_take, length_drop. lia.
  - rewrite Ht. apply i64_range.
  - apply ReadVarint_range in E2. lia.
Qed.

Lemma DecodeSignatureBlock_local data sb n rest :
  DecodeSignatureBlock data = Ok (sb, n) ->
  DecodeSignatureBlock (take n data ++ rest) = Ok (sb, n).
Proof.
  intros (r & m1 & m2 & -> & E1 & Hl & Hn & Ht & E2 & Hs & -> & Hlen)%DecodeSignatureBlock_Ok_inv.
  apply readString_bound in E1 as B1. apply ReadVarint_bound in E2 as B2.
  rewrite length_drop in B2. cbn [length] in Hlen.
  destruct sb as [alg vmid nonce ts sig]. simpl in *.
  set (k := (m1 + 24 + m2 + length sig)%nat) in *.
  rewrite DecodeSignatureBlock_intro with (vmid := vmid) (m1 := m1) (m2 := m2) (sig := sig).
  - rewrite !drop_app_le by (rewrite length_take; lia).
    rewrite !take_app_le by (rewrite length_drop, length_take; lia).
    rewrite !skipn_firstn_comm, !take_take, !Nat.min_l by lia. by rewrite <-Hn, <-Ht.
  - rewrite <-(take_drop m1 (take k r)), take_take, Nat.min_l, <-app_assoc by lia.
    by apply readString_local.
  - rewrite length_app, length_take. lia.
  - rewrite drop_app_le by (rewrite length_take; lia). rewrite skipn_firstn_comm.
    rewrite <-(take_drop m2 (take (k - (m1 + 24)) (drop (m1 + 24) r))).
    rewrite take_take, Nat.min_l, <-app_assoc by lia. by apply ReadVarint_local.
  - rewrite drop_app_le by (rewrite length_take; lia).
    rewrite take_app_le by (rewrite length_drop, length_take; lia).
    by rewrite skipn_firstn_comm, take_take, Nat.min_l by lia.
  - rewrite length_app, length_take. lia.
Qed.

Lemma DecodeSignatureBlock_short data sb n k :
  DecodeSignatureBlock data = Ok (sb, n) -> (k < n)%nat ->
  exists e, DecodeSignatureBlock (take k data) = Err e /\ errors_Is e ErrShortBuffer = true.
Proof.
  intros (r & m1 & m2 & -> & E1 & Hl & Hn & Ht & E2 & Hs & -> & Hlen)%DecodeSignatureBlock_Ok_inv Hk.
  apply readString_bound in E1 as B1. apply ReadVarint_bound in E2 as B2.
  rewrite length_drop in B2. cbn [length] in Hlen.
  destruct k as [|k]; [by eexists|]. unfold DecodeSignatureBlock. simpl. rewrite drop_0.
  destruct (decide (k < m1)%nat); [rewrite (readString_short _ _ _ _ E1) by done; by eexists|].
  rewrite (readString_take _ _ _ _ E1) by lia. simpl. rewrite length_take.
  repeat (case_match; [by eexists|]). zbool.
  replace (m1 + 16 + 8)%nat with (m1 + 24)%nat by lia. rewrite !skipn_firstn_comm.
  destruct (decide (k - (m1 + 24) < m2)%nat) as [Hj|Hj].
  { rewrite (ReadVarint_short _ _ _ _ E2) by done. by eexists. }
  rewrite (ReadVarint_take _ _ _ _ E2) by lia. simpl.
  rewrite (proj2 (Z.ltb_lt _ _)) by lia. by eexists.
Qed.

Global Program Instance block_codec : Codec SignatureBlock := {|
  enc := SignatureBlock_Encode; dec := DecodeSignatureBlock; valid := block_valid;
|}.
Next Obligation. simpl. intros sb Hv. eexists. by apply SignatureBlock_Encode_ok. Qed.
Next Obligation.
  simpl. intros sb bs rest Hv E. rewrite SignatureBlock_Encode_ok in E by done.
  simplify_eq. by apply block_roundtrip.
Qed.
Next Obligation. simpl. apply DecodeSignatureBlock_bound. Qed.
Next Obligation. simpl. intros. by apply DecodeSignatureBlock_local. Qed.
Next Obligation. simpl. intros. by eapply DecodeSignatureBlock_short. Qed.

(** ** did:key *)

Lemma base58btcEncode_nonempty data : data <> [] -> base58btcEncode data <> [].
Proof.
  intros Hne H. pose proof (base58_decode_encode data) as D. rewrite H in D.
  vm_compute in D. simplify_eq.
Qed.

Lemma decodeMultibase_iff s pub :
  decodeMultibaseEd25519 s = Ok pub <->
  s = encodeMultibaseEd25519 pub /\ length pub = PublicKeySize.
Proof.
  unfold decodeMultibaseEd25519, encodeMultibaseEd25519. split.
  - intros H. destruct s as [|c [|c' rest]]; [done..|].
    case_match eqn:Hz; [done|]. zbool. subst c.
    destruct (base58btcDecode (c' :: rest)) as [raw|?|?] eqn:E; [|done..].
    cbn [mbind go_bind] in H. destruct raw as [|r0 [|r1 key]]; [done..|].
    case_match eqn:Hc; [done|]. zbool. case_match eqn:Hl; [done|]. zbool. subst. simplify_eq.
    apply base58_encode_decode in E. by rewrite <-E.
  - intros [-> Hl]. pose proof (base58btcEncode_nonempty (ed25519PubMulticodec ++ pub) ltac:(done)).
    pose proof (base58_decode_encode (ed25519PubMulticodec ++ pub)) as D.
    destruct (base58btcEncode (ed25519PubMulticodec ++ pub)) as [|c rest]; [done|].
    change (negb (bool_decide (x7a = x7a))) with false. cbv iota. rewrite D.
    cbn [mbind go_bind]. simpl. by rewrite Hl.
Qed.

Lemma ParseDIDKey_iff did pub :
  ParseDIDKey did = Ok pub <-> did = MakeDIDKey pub /\ length pub = PublicKeySize.
Proof.
  unfold ParseDIDKey, MakeDIDKey. destruct (HasPrefix did didKeyPrefix) eqn:E.
  - apply HasPrefix_true in E as [q ->]. simpl negb. cbv iota.
    rewrite drop_app_length, decodeMultibase_iff. split; [by intros [-> ?]|].
    by intros [->%app_inv_head ?].
  - split; [done|]. intros [-> _]. by rewrite HasPrefix_app in E.
Qed.

(** The characters of a did:key: no ['#'], so the DID part of its VMID is the
    DID itself. *)
Lemma MakeDIDKey_no_hash pub : x23 ∉ MakeDIDKey pub.
Proof.
  unfold MakeDIDKey, encodeMultibaseEd25519. rewrite not_elem_of_app. split.
  { apply (bool_decide_unpack _). by vm_compute. }
  rewrite not_elem_of_cons. split; [done|]. intros Hin.
  assert (is_ok (base58btcDecode (base58btcEncode (ed25519PubMulticodec ++ pub))) = true) as Hok
    by (by rewrite base58_decode_encode).
  apply base58_decode_ok in Hok. rewrite Forall_forall in Hok. apply Hok in Hin.
  revert Hin. apply (bool_decide_unpack _). by vm_compute.
Qed.

Lemma DIDKeyVMID_MakeDIDKey pub :
  DIDKeyVMID (MakeDIDKey pub) = Ok (MakeDIDKey pub ++ x23 :: encodeMultibaseEd25519 pub).
Proof.
  unfold DIDKeyVMID, MakeDIDKey. rewrite (proj2 (Nat.ltb_ge _ _)) by (rewrite length_app; lia).
  by rewrite drop_app_length.
Qed.

Lemma encodeMultibase_length pub :
  (length (encodeMultibaseEd25519 pub) <= 7 + 3 * length pub)%nat.
Proof.
  unfold encodeMultibaseEd25519. pose proof (base58btcEncode_length (ed25519PubMulticodec ++ pub)) as Hl.
  rewrite length_app in Hl. change (length ed25519PubMulticodec) with 2%nat in Hl.
  cbn [length]. lia.
Qed.

Lemma MakeDIDKey_length pub : (length (MakeDIDKey pub) <= 15 + 3 * length pub)%nat.
Proof.
  unfold MakeDIDKey. rewrite length_app. pose proof (encodeMultibase_length pub).
  change (length didKeyPrefix) with 8%nat. lia.
Qed.

Lemma MakeDIDKey_inj p1 p2 : MakeDIDKey p1 = MakeDIDKey p2 -> p1 = p2.
Proof.
  unfold MakeDIDKey, encodeMultibaseEd25519. intros H%app_inv_head. simplify_eq.
  pose proof (base58_decode_encode (ed25519PubMulticodec ++ p1)) as D.
  rewrite H, base58_decode_encode in D. by simplify_eq.
Qed.

(** Every signature block within the Go types survives the wire whatever
    follows it, and any strict prefix of it is reported as a short buffer. *)
Lemma signature_block_roundtrip sb rest k :
  block_valid sb ->
  exists bs, SignatureBlock_Encode sb = Ok bs /\
    DecodeSignatureBlock (bs ++ rest) = Ok (sb, length bs) /\
    ((k < length bs)%nat -> exists e,
       DecodeSignatureBlock (take k bs) = Err e /\ errors_Is e ErrShortBuffer = true).
Proof.
  intros Hv. destruct (codec_enc_ok (Codec := block_codec) sb Hv) as [bs E]. exists bs.
  split; [done|]. split; [by apply (codec_roundtrip (Codec := block_codec))|]. intros Hk.
  eapply (codec_short (Codec := block_codec)); [|done].
  pose proof (codec_roundtrip (Codec := block_codec) sb bs [] Hv E) as R.
  rewrite app_nil_r in R. exact R.
Qed.

Lemma signature_block_roundtrip_witness :
  let sb := mkBlock x01 (str "did:key:z6Mkfoo#z6Mkfoo") (repeat xaa 16) 1781568000000
              (repeat x42 64) in
  exists bs, SignatureBlock_Encode sb = Ok bs /\
    DecodeSignatureBlock (bs ++ [xff]) = Ok (sb, length bs) /\
    ((10 < length bs)%nat -> exists e,
       DecodeSignatureBlock (take 10 bs) = Err e /\ errors_Is e ErrShortBuffer = true).
Proof.
  apply (signature_block_roundtrip
    (mkBlock x01 (str "did:key:z6Mkfoo#z6Mkfoo") (repeat xaa 16) 1781568000000
       (repeat x42 64)) [xff] 10).
  split_and!; vm_compute; intuition congruence.
Defined.

(** C30: did:key identifiers and Ed25519 public keys are in bijection:
    ParseDIDKey inverts MakeDIDKey on 32-byte keys, and a DID that parses is the
    canonical one of the key it yields, so no two DIDs name the same key and no
    two keys share a DID. *)
Theorem didkey_bijection :
  (forall pub, length pub = PublicKeySize -> ParseDIDKey (MakeDIDKey pub) = Ok pub) /\
  (forall did pub, ParseDIDKey did = Ok pub -> did = MakeDIDKey pub /\ length pub = PublicKeySize) /\
  (forall p1 p2, MakeDIDKey p1 = MakeDIDKey p2 -> p1 = p2).
Proof.
  split_and!.
  - intros pub Hl. by apply ParseDIDKey_iff.
  - intros did pub. apply ParseDIDKey_iff.
  - apply MakeDIDKey_inj.
Qed.

Arguments MakeDIDKey : simpl never.
Arguments encodeMultibaseEd25519 : simpl never.
Arguments DIDKeyVMID : simpl never.
Arguments ParseDIDKey : simpl never.
Arguments metaBytes : simpl never.
Arguments signedMessageBytes : simpl never.
Arguments SignatureBlock_Encode : simpl never.

Lemma decodeMultibase_never_panics s p : decodeMultibaseEd25519 s <> Panic p.
Proof.
  unfold decodeMultibaseEd25519. destruct s as [|c [|c' rest]]; [done..|].
  case_match; [done|].
  intros [E|(raw & _ & E)]%bind_Panic; [by apply base58btcDecode_never_panics in E|].
  by repeat case_match.
Qed.
