(* ===== verification/DidWeb.v ===== *)
(** * DID Documents and did:web

    The part of [addressing.go] that the Verifier also uses: the DID Document,
    the mapping of a did:web identifier to the URL of its document, and fetching
    the document. *)

From Stdlib Require Import Strings.Byte.
From stdpp Require Import base numbers list gmap strings.
From S2P Require Import Prelude Machine GoStrings GoText GoJson Varint Frame Stream.
Open Scope Z_scope.

Record verificationMethod := mkVM {
  vm_ID : bytes;
  vm_Type : bytes;
  vm_Controller : bytes;
  vm_PublicKeyMultibase : bytes;
}.

Record serviceEndpoint := mkEndpoint {
  ep_URI : bytes;
  ep_Accept : list bytes;
  ep_AgentID : bytes;
}.

Record serviceEntry := mkService {
  svc_ID : bytes;
  svc_Type : bytes;
  svc_ServiceEndpoint : list serviceEndpoint;
}.

Record didDocument := mkDoc {
  doc_ID : bytes;
  doc_AlsoKnownAs : list bytes;
  doc_Service : list serviceEntry;
  doc_VerificationMethod : list verificationMethod;
}.

(** ** Decoding a document

    While a document is decoded its slices keep what their arrays hold beyond
    their length, because a repeated member decodes into the same array. *)

Record endpoint_target := mkET { et_URI : bytes; et_Accept : slice bytes; et_AgentID : bytes }.
Record service_target := mkST { st_ID : bytes; st_Type : bytes; st_Endpoint : slice endpoint_target }.
Record doc_target := mkDT {
  dt_ID : bytes;
  dt_AlsoKnownAs : slice bytes;
  dt_Service : slice service_target;
  dt_VerificationMethod : slice verificationMethod;
}.

Definition zero_endpoint : endpoint_target := mkET [] sl_nil [].
Definition zero_service : service_target := mkST [] [] sl_nil.
Definition zero_vm : verificationMethod := mkVM [] [] [] [].
Definition zero_doc : doc_target := mkDT [] sl_nil sl_nil sl_nil.

(** The decoders, from the json tags of the structs. *)
Definition doc_fields : list bytes :=
  [str "id"; str "alsoKnownAs"; str "service"; str "verificationMethod"].

Definition endpoint_decoder : decoder endpoint_target :=
  decode_struct [str "uri"; str "accept"; str "agentId"] (fun i j e =>
    match i with
    | 0%nat => let '(x, ok) := decode_string j (et_URI e) in (mkET x (et_Accept e) (et_AgentID e), ok)
    | 1%nat => let '(x, ok) := decode_slice [] decode_string j (et_Accept e) in
               (mkET (et_URI e) x (et_AgentID e), ok)
    | _ => let '(x, ok) := decode_string j (et_AgentID e) in (mkET (et_URI e) (et_Accept e) x, ok)
    end).

Definition service_decoder : decoder service_target :=
  decode_struct [str "id"; str "type"; str "serviceEndpoint"] (fun i j s =>
    match i with
    | 0%nat => let '(x, ok) := decode_string j (st_ID s) in (mkST x (st_Type s) (st_Endpoint s), ok)
    | 1%nat => let '(x, ok) := decode_string j (st_Type s) in (mkST (st_ID s) x (st_Endpoint s), ok)
    | _ => let '(x, ok) := decode_slice zero_endpoint endpoint_decoder j (st_Endpoint s) in
           (mkST (st_ID s) (st_Type s) x, ok)
    end).

Definition vm_decoder : decoder verificationMethod :=
  decode_struct [str "id"; str "type"; str "controller"; str "publicKeyMultibase"] (fun i j m =>
    match i with
    | 0%nat => let '(x, ok) := decode_string j (vm_ID m) in
               (mkVM x (vm_Type m) (vm_Controller m) (vm_PublicKeyMultibase m), ok)
    | 1%nat => let '(x, ok) := decode_string j (vm_Type m) in
               (mkVM (vm_ID m) x (vm_Controller m) (vm_PublicKeyMultibase m), ok)
    | 2%nat => let '(x, ok) := decode_string j (vm_Controller m) in
               (mkVM (vm_ID m) (vm_Type m) x (vm_PublicKeyMultibase m), ok)
    | _ => let '(x, ok) := decode_string j (vm_PublicKeyMultibase m) in
           (mkVM (vm_ID m) (vm_Type m) (vm_Controller m) x, ok)
    end).

Definition doc_set (i : nat) : decoder doc_target := fun j d =>
  match i with
  | 0%nat => let '(x, ok) := decode_string j (dt_ID d) in
             (mkDT x (dt_AlsoKnownAs d) (dt_Service d) (dt_VerificationMethod d), ok)
  | 1%nat => let '(x, ok) := decode_slice [] decode_string j (dt_AlsoKnownAs d) in
             (mkDT (dt_ID d) x (dt_Service d) (dt_VerificationMethod d), ok)
  | 2%nat => let '(x, ok) := decode_slice zero_service service_decoder j (dt_Service d) in
             (mkDT (dt_ID d) (dt_AlsoKnownAs d) x (dt_VerificationMethod d), ok)
  | _ => let '(x, ok) := decode_slice zero_vm vm_decoder j (dt_VerificationMethod d) in
         (mkDT (dt_ID d) (dt_AlsoKnownAs d) (dt_Service d) x, ok)
  end.

Definition doc_decoder : decoder doc_target := decode_struct doc_fields doc_set.

(** What the decoded structs hold. *)
Definition endpoint_of (e : endpoint_target) : serviceEndpoint :=
  mkEndpoint (et_URI e) (sl_list (et_Accept e)) (et_AgentID e).
Definition service_of (s : service_target) : serviceEntry :=
  mkService (st_ID s) (st_Type s) (endpoint_of <$> sl_list (st_Endpoint s)).
Definition doc_of (d : doc_target) : didDocument :=
  mkDoc (dt_ID d) (sl_list (dt_AlsoKnownAs d)) (service_of <$> sl_list (dt_Service d))
    (sl_list (dt_VerificationMethod d)).

(** [var doc didDocument; json.Unmarshal(body, &doc)]. *)
Definition json_Unmarshal (body : bytes) : go didDocument :=
  d ← Unmarshal zero_doc doc_decoder body; Ok (doc_of d).

Lemma json_Unmarshal_never_panics body p : json_Unmarshal body <> Panic p.
Proof.
  unfold json_Unmarshal, Unmarshal. intros [E|(d & _ & E)]%bind_Panic; [|done].
  destruct (parse_json body) as [j|]; [|done]. by destruct (doc_decoder j zero_doc) as [d []].
Qed.

(** *** What a publisher writes

    A document as its JSON value; [agentId] is left out when it is empty. *)

Definition endpoint_json (e : serviceEndpoint) : json :=
  JObj ([(str "uri", JStr (ep_URI e)); (str "accept", json_list JStr (ep_Accept e))] ++
        (if bool_decide (ep_AgentID e = []) then [] else [(str "agentId", JStr (ep_AgentID e))])).

Definition service_json (s : serviceEntry) : json :=
  JObj [(str "id", JStr (svc_ID s)); (str "type", JStr (svc_Type s));
        (str "serviceEndpoint", json_list endpoint_json (svc_ServiceEndpoint s))].

Definition vm_json (m : verificationMethod) : json :=
  JObj [(str "id", JStr (vm_ID m)); (str "type", JStr (vm_Type m));
        (str "controller", JStr (vm_Controller m));
        (str "publicKeyMultibase", JStr (vm_PublicKeyMultibase m))].

Definition doc_members (d : didDocument) : list (bytes * json) :=
  [(str "id", JStr (doc_ID d)); (str "alsoKnownAs", json_list JStr (doc_AlsoKnownAs d));
   (str "service", json_list service_json (doc_Service d));
   (str "verificationMethod", json_list vm_json (doc_VerificationMethod d))].

(** What decoding into fresh structs leaves in them. *)
Definition endpoint_fresh (e : serviceEndpoint) : endpoint_target :=
  mkET (ep_URI e) (sl_of (ep_Accept e)) (ep_AgentID e).
Definition service_fresh (s : serviceEntry) : service_target :=
  mkST (svc_ID s) (svc_Type s) (sl_of (endpoint_fresh <$> svc_ServiceEndpoint s)).
Definition doc_fresh (d : didDocument) : doc_target :=
  mkDT (doc_ID d) (sl_of (doc_AlsoKnownAs d)) (sl_of (service_fresh <$> doc_Service d))
    (sl_of (doc_VerificationMethod d)).

Lemma fmap_cancel {A B} (f : A -> B) (g : B -> A) (l : list A) :
  (forall x, g (f x) = x) -> g <$> (f <$> l) = l.
Proof. intros H. induction l as [|x l IH]; [done|]. cbn. by rewrite H, IH. Qed.

Lemma endpoint_of_fresh e : endpoint_of (endpoint_fresh e) = e.
Proof. destruct e. unfold endpoint_of. cbn. by rewrite sl_list_of. Qed.

Lemma service_of_fresh s : service_of (service_fresh s) = s.
Proof.
  destruct s. unfold service_of. cbn. rewrite sl_list_of. by rewrite fmap_cancel by apply endpoint_of_fresh.
Qed.

Lemma doc_of_fresh d : doc_of (doc_fresh d) = d.
Proof.
  destruct d. unfold doc_of. cbn. rewrite !sl_list_of. by rewrite fmap_cancel by apply service_of_fresh.
Qed.

Lemma strings_decode xs : decode_slice [] decode_string (json_list JStr xs) sl_nil = (sl_of xs, true).
Proof.
  rewrite <-(list_fmap_id xs) at 2. by apply (decode_slice_fresh JStr id).
Qed.

Lemma endpoint_decode e : endpoint_decoder (endpoint_json e) zero_endpoint = (endpoint_fresh e, true).
Proof.
  destruct e as [uri acc agent]. unfold endpoint_json. cbn [ep_URI ep_Accept ep_AgentID].
  unfold endpoint_decoder, decode_struct. cbn [app decode_members].
  change (field_of _ (str "uri")) with (Some 0%nat). change (field_of _ (str "accept")) with (Some 1%nat).
  cbn. rewrite strings_decode. case_bool_decide; subst; reflexivity.
Qed.

Lemma service_decode s : service_decoder (service_json s) zero_service = (service_fresh s, true).
Proof.
  unfold service_json, service_decoder, decode_struct. cbn [decode_members].
  change (field_of _ (str "id")) with (Some 0%nat). change (field_of _ (str "type")) with (Some 1%nat).
  change (field_of _ (str "serviceEndpoint")) with (Some 2%nat). cbn.
  by rewrite (decode_slice_fresh endpoint_json endpoint_fresh) by apply endpoint_decode.
Qed.

Lemma vm_decode m : vm_decoder (vm_json m) zero_vm = (m, true).
Proof. by destruct m. Qed.

Lemma doc_members_decode d : decode_members doc_fields doc_set (doc_members d) zero_doc = (doc_fresh d, true).
Proof.
  unfold doc_members. cbn [decode_members].
  change (field_of _ (str "id")) with (Some 0%nat).
  change (field_of _ (str "alsoKnownAs")) with (Some 1%nat).
  change (field_of _ (str "service")) with (Some 2%nat).
  change (field_of _ (str "verificationMethod")) with (Some 3%nat). cbn. rewrite strings_decode.
  rewrite (decode_slice_fresh service_json service_fresh) by apply service_decode.
  rewrite (decode_slice_fresh vm_json id) by apply vm_decode. by rewrite list_fmap_id.
Qed.

(** Setting different fields commutes. *)
Lemma doc_set_comm i j v w a :
  i <> j -> (i < length doc_fields)%nat -> (j < length doc_fields)%nat ->
  let '(a1, o1) := doc_set i v a in let '(a2, o2) := doc_set j w a1 in
  let '(b1, p1) := doc_set j w a in let '(b2, p2) := doc_set i v b1 in
  a2 = b2 /\ o1 && o2 = p1 && p2.
Proof.
  intros Hne Hi Hj. cbn in Hi, Hj.
  destruct i as [|[|[|[|i]]]], j as [|[|[|[|j]]]]; try lia; cbn -[decode_string decode_slice];
    repeat (case_match; cbn -[decode_string decode_slice] in *; simplify_eq); by rewrite andb_comm.
Qed.

(** A body whose JSON is an object with the members of [doc], in any order and
    among members that name no field, decodes to [doc]. *)
Lemma json_Unmarshal_members body ms doc :
  parse_json body = Some (JObj ms) -> filter (known doc_fields) ms ≡ₚ doc_members doc ->
  json_Unmarshal body = Ok doc.
Proof.
  intros Hp Hms. unfold json_Unmarshal, Unmarshal, doc_decoder, decode_struct. rewrite Hp.
  rewrite decode_members_known, <-(decode_members_perm doc_fields doc_set doc_set_comm (doc_members doc)).
  - rewrite doc_members_decode. cbn. by rewrite doc_of_fresh.
  - done.
  - vm_compute. by apply (bool_decide_unpack _).
  - repeat (apply Forall_cons_2; [by eexists|]). apply Forall_nil_2.
Qed.

(** Member names match whatever their case, a repeated member decodes into what
    the earlier one left, and null leaves a string alone. *)
Example json_quirks :
  json_Unmarshal (print_json (JObj
    [(str "ID", JStr (str "did:web:a")); (str "id", JNull);
     (str "service", JArr [JObj [(str "type", JStr (str "AIREv1"))]; JNull]);
     (str "SERVICE", JArr [JObj [(str "id", JStr (str "#s"))]])])) =
  Ok (mkDoc (str "did:web:a") [] [mkService (str "#s") (str "AIREv1") []] []).
Proof. vm_compute. reflexivity. Qed.

(** An ill-typed member fails the whole document, as does text after it. *)
Example json_rejects :
  (fun body => is_ok (json_Unmarshal body)) <$>
    [print_json (JObj [(str "id", JBool true)]); print_json (JArr []); print_json (JObj []) ++ str " x";
     str " null "; []] = [false; false; false; true; false].
Proof. vm_compute. reflexivity. Qed.

(** ** Percent decoding

    [net/url]'s PathUnescape: [%XX] with two hexadecimal digits stands for a
    byte, any other use of ['%'] is an EscapeError that shows the three bytes
    at fault. *)

Definition ishex (c : byte) : bool :=
  ((bval x30 <=? bval c) && (bval c <=? bval x39)) ||
  ((bval x61 <=? bval c) && (bval c <=? bval x66)) ||
  ((bval x41 <=? bval c) && (bval c <=? bval x46)).

Definition unhex (c : byte) : Z :=
  if (bval x30 <=? bval c) && (bval c <=? bval x39) then bval c - bval x30
  else if (bval x61 <=? bval c) && (bval c <=? bval x66) then bval c - bval x61 + 10
  else if (bval x41 <=? bval c) && (bval c <=? bval x46) then bval c - bval x41 + 10
  else 0.

Definition EscapeError (s : bytes) : error :=
  Errorf "invalid URL escape %q" None [ArgStr (take 3 s)].

Fixpoint PathUnescape (s : bytes) : go bytes :=
  match s with
  | [] => Ok []
  | c :: s' =>
      if bool_decide (c = x25) then
        match s' with
        | h :: l :: rest =>
            if ishex h && ishex l then
              r ← PathUnescape rest;
              Ok (to_byte (Z.lor (unhex h ≪ 4) (unhex l)) :: r)
            else Err (EscapeError s)
        | _ => Err (EscapeError s)
        end
      else
        r ← PathUnescape s';
        Ok (c :: r)
  end.

(** ** did:web *)

Definition didWebPrefix : bytes := str "did:web:".

(** The loop over [parts[1:]]. *)
Fixpoint unescape_parts (parts : list bytes) : go (list bytes) :=
  match parts with
  | [] => Ok []
  | p :: parts =>
      decoded ← on_err (fun e => Errorf "%w: path segment: %v"
                           (Some (Sentinel ErrMalformedDIDWeb)) [ArgErr e])
                  (PathUnescape p);
      rest ← unescape_parts parts;
      Ok (decoded :: rest)
  end.

Definition didWebToURL (did : bytes) : go bytes :=
  if negb (HasPrefix did didWebPrefix) then
    Err (Errorf "%w: not a did:web" (Some (Sentinel ErrMalformedDIDWeb)) [])
  else
  let rest := TrimPrefix did didWebPrefix in
  if bool_decide (rest = []) then
    Err (Errorf "%w: empty identifier" (Some (Sentinel ErrMalformedDIDWeb)) [])
  else
  match Split rest x3a with
  | [] => Panic PanicIndex
  | part0 :: parts =>
      host ← on_err (fun e => Errorf "%w: host: %v"
                       (Some (Sentinel ErrMalformedDIDWeb)) [ArgErr e])
               (PathUnescape part0);
      if bool_decide (host = []) then
        Err (Errorf "%w: empty host" (Some (Sentinel ErrMalformedDIDWeb)) [])
      else
      match parts with
      | [] => Ok (str "https://" ++ host ++ str "/.well-known/did.json")
      | _ =>
          pathParts ← unescape_parts parts;
          Ok (str "https://" ++ host ++ str "/" ++ Join pathParts x2f ++ str "/did.json")
      end
  end.

(** ** Fetching

    The outside world of the Resolver: building a GET request for a URL
    (http.NewRequestWithContext), performing it with the default client, and DNS
    TXT lookups. *)

Record response := mkResponse {
  StatusCode : Z;
  Body : reader;
}.

Class NetEnv := {
  http_NewRequest : bytes -> go unit;
  http_DefaultDo : bytes -> go response;
  net_LookupTXT : bytes -> go (list bytes);
}.

(** Nil fields are [None]. *)
Record Resolver := mkResolver {
  HTTPClient : option (bytes -> go response);
  LookupTXT : option (bytes -> go (list bytes));
}.

(** [io.ReadAll(r)]: everything up to EOF, or the read error. *)
Definition ReadAll (r : reader) : go bytes :=
  match r_end r with
  | Sentinel EOF => Ok (r_data r)
  | e => Err e
  end.

(** [io.LimitReader(r, n)]: EOF after [n] bytes. *)
Definition LimitReader (r : reader) (n : nat) : reader :=
  if (n <=? length (r_data r))%nat then mkReader (take n (r_data r)) EOF else r.

Section Fetch.
Context `{HN : NetEnv}.

Definition httpClient (r : Resolver) : bytes -> go response :=
  match HTTPClient r with Some c => c | None => http_DefaultDo end.

Definition lookupTXT (r : Resolver) : bytes -> go (list bytes) :=
  match LookupTXT r with Some l => l | None => net_LookupTXT end.

Definition fetchDIDDocument (r : Resolver) (docURL : bytes) : go didDocument :=
  http_NewRequest docURL;;
  resp ← on_err (fun e => Errorf "aire: fetch %s: %w" (Some e) [ArgStr docURL])
           (httpClient r docURL);
  if negb (StatusCode resp =? 200) then
    Err (Errorf "aire: fetch %s: status %d" None [ArgStr docURL; ArgInt (StatusCode resp)])
  else
  body ← on_err (fun e => Errorf "aire: read %s: %w" (Some e) [ArgStr docURL])
           (ReadAll (Body resp));
  on_err (fun e => Errorf "aire: parse DID Document: %w" (Some e) []) (json_Unmarshal body).
End Fetch.

(** A world without network, for evaluating the model. *)
Definition offline : NetEnv := {|
  http_NewRequest _ := Ok tt;
  http_DefaultDo _ := Err (External 0);
  net_LookupTXT _ := Err (External 0);
|}.

(** The network code returns: it does not panic. *)
Class NetTotal `{HN : NetEnv} := {
  NewRequest_total u p : http_NewRequest u <> Panic p;
  DefaultDo_total u p : http_DefaultDo u <> Panic p;
}.

Global Instance offline_total : NetTotal (HN := offline).
Proof. by split. Qed.

Lemma PathUnescape_never_panics s p : PathUnescape s <> Panic p.
Proof.
  induction s as [s IH] using (induction_ltof1 _ (@length byte)).
  destruct s as [|c s]; simpl; [done|]. case_bool_decide.
  - destruct s as [|h [|l rest]]; [done..|]. case_match; [|done].
    intros [E|(? & _ & E)]%bind_Panic; [|done]. revert E. apply IH. unfold ltof. simpl. lia.
  - intros [E|(? & _ & E)]%bind_Panic; [|done]. revert E. apply IH. unfold ltof. simpl. lia.
Qed.

Lemma unescape_parts_never_panics ps p : unescape_parts ps <> Panic p.
Proof.
  induction ps as [|q ps IH]; simpl; [done|].
  intros [E%on_err_Panic|(d & _ & [E|(? & _ & E)]%bind_Panic)]%bind_Panic; [|done|done].
  by apply PathUnescape_never_panics in E.
Qed.

Lemma didWebToURL_never_panics did p : didWebToURL did <> Panic p.
Proof.
  unfold didWebToURL. case_match; [done|]. case_bool_decide; [done|].
  destruct (Split _ x3a) as [|part0 parts] eqn:E; [by apply Split_nonempty in E|].
  intros [E'%on_err_Panic|(host & _ & E')]%bind_Panic;
    [by apply PathUnescape_never_panics in E'|].
  case_bool_decide; [done|]. destruct parts; [done|].
  apply bind_Panic in E' as [E'|(? & _ & ?)]; [|done].
  by apply unescape_parts_never_panics in E'.
Qed.
Arguments didWebToURL : simpl never.

(** ** What is published is fetched *)

(** The document at the URL of [did] is the JSON text of an object with the
    members of [doc], in any order and among members of other names. *)
Definition published `{HN : NetEnv} (r : Resolver) (did : bytes) (doc : didDocument) : Prop :=
  exists url ms, didWebToURL did = Ok url /\ http_NewRequest url = Ok tt /\
    httpClient r url = Ok (mkResponse 200 (mkReader (print_json (JObj ms)) EOF)) /\
    plain (JObj ms) = true /\ (nest (JObj ms) <= maxNestingDepth)%nat /\
    filter (known doc_fields) ms ≡ₚ doc_members doc.

Lemma fetch_document `{HN : NetEnv} r url ms doc :
  http_NewRequest url = Ok tt ->
  httpClient r url = Ok (mkResponse 200 (mkReader (print_json (JObj ms)) EOF)) ->
  plain (JObj ms) = true -> (nest (JObj ms) <= maxNestingDepth)%nat ->
  filter (known doc_fields) ms ≡ₚ doc_members doc ->
  fetchDIDDocument r url = Ok doc.
Proof.
  intros Hreq Hget Hpl Hnest Hms. unfold fetchDIDDocument. rewrite Hreq. cbn [mbind go_bind].
  rewrite Hget. cbn -[json_Unmarshal print_json]. rewrite (json_Unmarshal_members _ ms doc); [done| |done].
  by apply parse_print.
Qed.

Lemma didWebToURL_prefix did url : didWebToURL did = Ok url -> exists id, did = str "did:web:" ++ id.
Proof.
  unfold didWebToURL. destruct (HasPrefix did didWebPrefix) eqn:E; [|done]. intros _.
  by apply HasPrefix_true in E.
Qed.

Lemma fetch_published `{HN : NetEnv} r did doc :
  published r did doc -> exists url, didWebToURL did = Ok url /\ fetchDIDDocument r url = Ok doc.
Proof. intros (url & ms & Hurl & ? & ? & ? & ? & ?). exists url. split; [done|]. by apply (fetch_document r url ms). Qed.
