(* ===== verification/GoUrl.v ===== *)
(** * The parts of net/url and strings that address resolution uses

    Go 1.24: percent escapes with their modes, QueryEscape, Parse as far as the
    scheme, the host and the errors go, URL.Port, and strings.TrimSpace. *)

From Stdlib Require Import Strings.Byte.
From stdpp Require Import base numbers list gmap strings.
From S2P Require Import Prelude Machine GoStrings Varint Frame Stream DidWeb.
Open Scope Z_scope.

Definition in_range (lo hi c : byte) : bool := (bval lo <=? bval c) && (bval c <=? bval hi).
Definition is_lower (c : byte) : bool := in_range x61 x7a c.
Definition is_upper (c : byte) : bool := in_range x41 x5a c.
Definition is_number (c : byte) : bool := in_range x30 x39 c.
Definition one_of (c : byte) (set : bytes) : bool := bool_decide (c ∈ set).

(** [strings.LastIndexByte(s, c)]. *)
Fixpoint LastIndexByte (s : bytes) (c : byte) : option nat :=
  match s with
  | [] => None
  | b :: s =>
      match LastIndexByte s c with
      | Some i => Some (S i)
      | None => if bool_decide (b = c) then Some 0%nat else None
      end
  end.

Definition HasSuffix (s p : bytes) : bool := HasPrefix (reverse s) (reverse p).

(** [strings.Index(s, sub)]. *)
Fixpoint Index (s sub : bytes) : option nat :=
  if HasPrefix s sub then Some 0%nat else
  match s with
  | [] => None
  | _ :: s => S <$> Index s sub
  end.

(** ** Escaping *)

Inductive encoding :=
| encodePath | encodePathSegment | encodeHost | encodeZone | encodeUserPassword
| encodeQueryComponent | encodeFragment.

Global Instance encoding_eq_decision : EqDecision encoding.
Proof. solve_decision. Defined.

Definition host_mode (mode : encoding) : bool :=
  match mode with encodeHost | encodeZone => true | _ => false end.

(** The double quote is byte 0x22. *)
Definition shouldEscape (c : byte) (mode : encoding) : bool :=
  if is_lower c || is_upper c || is_number c then false
  else if host_mode mode && one_of c (str "!$&'()*+,;=:[]<>" ++ [x22]) then false
  else if one_of c (str "-_.~") then false
  else
    let rest :=
      match mode with
      | encodeFragment => negb (one_of c (str "!()*"))
      | _ => true
      end in
    if one_of c (str "$&+,/:;=?@") then
      match mode with
      | encodePath => bool_decide (c = x3f)
      | encodePathSegment => one_of c (str "/;,?")
      | encodeUserPassword => one_of c (str "@/?:")
      | encodeQueryComponent => true
      | encodeFragment => false
      | encodeHost | encodeZone => rest
      end
    else rest.

Definition InvalidHostError (s : bytes) : error :=
  Errorf "invalid character %q in host name" None [ArgStr s].

(** Both passes of [unescape]: the check and the decoding. *)
Fixpoint unescape (s : bytes) (mode : encoding) : go bytes :=
  match s with
  | [] => Ok []
  | c :: s' =>
      if bool_decide (c = x25) then
        match s' with
        | h :: l :: rest =>
            let v := to_byte (Z.lor (unhex h ≪ 4) (unhex l)) in
            let is25 := bool_decide ([h; l] = [x32; x35]) in
            if negb (ishex h && ishex l) then Err (EscapeError s)
            else if bool_decide (mode = encodeHost) && (unhex h <? 8) && negb is25 then
              Err (EscapeError s)
            else if bool_decide (mode = encodeZone) && negb is25 &&
                    negb (bool_decide (v = x20)) && shouldEscape v encodeHost then
              Err (EscapeError s)
            else
              r ← unescape rest mode;
              Ok (v :: r)
        | _ => Err (EscapeError s)
        end
      else if bool_decide (c = x2b) then
        r ← unescape s' mode;
        Ok ((if bool_decide (mode = encodeQueryComponent) then x20 else x2b) :: r)
      else if host_mode mode && (bval c <? 0x80) && shouldEscape c mode then
        Err (InvalidHostError [c])
      else
        r ← unescape s' mode;
        Ok (c :: r)
  end.

Definition upperhex (d : Z) : byte := nth (Z.to_nat d) (str "0123456789ABCDEF") x30.

Definition QueryEscape (s : bytes) : bytes :=
  concat ((fun c =>
    if bool_decide (c = x20) then [x2b]
    else if shouldEscape c encodeQueryComponent then
      [x25; upperhex (bval c ≫ 4); upperhex (Z.land (bval c) 15)]
    else [c]) <$> s).

(** ** Parse *)

(** The fields of a URL that the resolver reads. *)
Record URL := mkURL { u_Scheme : bytes; u_Host : bytes }.

Definition ToLower_byte (c : byte) : byte := if is_upper c then to_byte (bval c + 32) else c.

(** The loop of [getScheme] from index [i]: [seen] is the reverse of what was
    read. *)
Fixpoint getScheme_from (raw seen rest : bytes) : go (bytes * bytes) :=
  match rest with
  | [] => Ok ([], raw)
  | c :: rest =>
      if is_lower c || is_upper c then getScheme_from raw (c :: seen) rest
      else if is_number c || one_of c (str "+-.") then
        match seen with
        | [] => Ok ([], raw)
        | _ => getScheme_from raw (c :: seen) rest
        end
      else if bool_decide (c = x3a) then
        match seen with
        | [] => Err (newError "missing protocol scheme")
        | _ => Ok (reverse seen, rest)
        end
      else Ok ([], raw)
  end.

Definition getScheme (raw : bytes) : go (bytes * bytes) := getScheme_from raw [] raw.

Definition validOptionalPort (port : bytes) : bool :=
  match port with
  | [] => true
  | c :: digits => bool_decide (c = x3a) && forallb is_number digits
  end.

Definition validUserinfo (s : bytes) : bool :=
  forallb (fun c => is_lower c || is_upper c || is_number c ||
                    one_of c (str "-._:~!$&'()*+,;=%@")) s.

Definition parseHost (host : bytes) : go bytes :=
  if HasPrefix host (str "[") then
    match LastIndexByte host x5d with
    | None => Err (newError "missing ']' in host")
    | Some i =>
        let colonPort := drop (i + 1) host in
        if negb (validOptionalPort colonPort) then
          Err (Errorf "invalid port %q after host" None [ArgStr colonPort])
        else
        match Index (take i host) (str "%25") with
        | Some zone =>
            host1 ← unescape (take zone host) encodeHost;
            host2 ← unescape (drop zone (take i host)) encodeZone;
            host3 ← unescape (drop i host) encodeHost;
            Ok (host1 ++ host2 ++ host3)
        | None => unescape host encodeHost
        end
    end
  else
    match LastIndexByte host x3a with
    | Some i =>
        let colonPort := drop i host in
        if negb (validOptionalPort colonPort) then
          Err (Errorf "invalid port %q after host" None [ArgStr colonPort])
        else unescape host encodeHost
    | None => unescape host encodeHost
    end.

(** The host; the user information only decides whether there is an error. *)
Definition parseAuthority (authority : bytes) : go bytes :=
  match LastIndexByte authority x40 with
  | None => parseHost authority
  | Some i =>
      host ← parseHost (drop (i + 1) authority);
      let userinfo := take i authority in
      if negb (validUserinfo userinfo) then Err (newError "net/url: invalid userinfo") else
      (if bool_decide (x3a ∈ userinfo) then
         let '(username, password, _) := Cut userinfo x3a in
         unescape username encodeUserPassword;;
         unescape password encodeUserPassword;;
         Ok tt
       else unescape userinfo encodeUserPassword;; Ok tt);;
      Ok host
  end.

Definition is_ctl (c : byte) : bool := (bval c <? 0x20) || bool_decide (c = x7f).

(** [parse(rawURL, false)]. *)
Definition parse (rawURL : bytes) : go URL :=
  if existsb is_ctl rawURL then Err (newError "net/url: invalid control character in URL")
  else if bool_decide (rawURL = str "*") then Ok (mkURL [] [])
  else
  '(scheme, rest) ← getScheme rawURL;
  let scheme := ToLower_byte <$> scheme in
  let rest := (Cut rest x3f).1.1 in
  if negb (HasPrefix rest (str "/")) && negb (bool_decide (scheme = [])) then Ok (mkURL scheme [])
  else if negb (HasPrefix rest (str "/")) && bool_decide (x3a ∈ (Cut rest x2f).1.1) then
    Err (newError "first path segment in URL cannot contain colon")
  else
  '(host, rest) ←
    (if (negb (bool_decide (scheme = [])) || negb (HasPrefix rest (str "///"))) &&
        HasPrefix rest (str "//") then
       let authority := drop 2 rest in
       let '(authority, rest) :=
         match IndexByte authority x2f with
         | Some i => (take i authority, drop i authority)
         | None => (authority, [])
         end in
       host ← parseAuthority authority;
       Ok (host, rest)
     else Ok ([], rest));
  unescape rest encodePath;;
  Ok (mkURL scheme host).

(** [url.Parse]: the fragment is cut off and checked last. *)
Definition url_Parse (rawURL : bytes) : go URL :=
  let '(u, frag, _) := Cut rawURL x23 in
  url ← on_err (fun e => Errorf "parse %q: %w" (Some e) [ArgStr u]) (parse u);
  if bool_decide (frag = []) then Ok url
  else
    on_err (fun e => Errorf "parse %q: %w" (Some e) [ArgStr rawURL]) (unescape frag encodeFragment);;
    Ok url.

(** [u.Port()]. *)
Definition Port (u : URL) : bytes :=
  match LastIndexByte (u_Host u) x3a with
  | Some colon =>
      if validOptionalPort (drop colon (u_Host u)) then drop (colon + 1) (u_Host u) else []
  | None => []
  end.

(** ** TrimSpace *)

(** The UTF-8 encodings of the runes for which unicode.IsSpace holds. *)
Definition space_runes : list bytes :=
  [[x09]; [x0a]; [x0b]; [x0c]; [x0d]; [x20]; [xc2; x85]; [xc2; xa0]; [xe1; x9a; x80];
   [xe2; x80; x80]; [xe2; x80; x81]; [xe2; x80; x82]; [xe2; x80; x83]; [xe2; x80; x84];
   [xe2; x80; x85]; [xe2; x80; x86]; [xe2; x80; x87]; [xe2; x80; x88]; [xe2; x80; x89];
   [xe2; x80; x8a]; [xe2; x80; xa8]; [xe2; x80; xa9]; [xe2; x80; xaf]; [xe2; x81; x9f];
   [xe3; x80; x80]].

(** Drop leading members of [runes]; the length of [s] is enough fuel because
    each round drops a byte. *)
Fixpoint trim_left (fuel : nat) (runes : list bytes) (s : bytes) : bytes :=
  match fuel with
  | O => s
  | S fuel =>
      match list_find (fun r => HasPrefix s r = true) runes with
      | Some (_, r) => trim_left fuel runes (drop (length r) s)
      | None => s
      end
  end.

Definition TrimSpace (s : bytes) : bytes :=
  let s := trim_left (length s) space_runes s in
  reverse (trim_left (length s) (reverse <$> space_runes) (reverse s)).

(** [strings.TrimRight(s, "\n")]. *)
Definition TrimRight_newline (s : bytes) : bytes :=
  reverse (trim_left (length s) [[x0a]] (reverse s)).
