(* ===== verification/Verifier.v ===== *)
(** * The Verifier

    [identity.go], Verifier: timestamp window, replay cache, key resolution and
    the signature check of a signed frame. *)

From Stdlib Require Import Strings.Byte.
From stdpp Require Import base numbers list gmap strings.
From S2P Require Import Prelude Machine GoTime GoStrings Varint Frame Stream Base58.
From S2P Require Import Identity DidWeb.
Open Scope Z_scope.

Definition ReplayWindow : Duration := 300 * Second.

(** signing DID to nonce to timestamp in milliseconds. *)
Abbreviation replay_cache := (gmap bytes (gmap bytes Z)).

(** The Clock is read by the caller of the model: [Verify] takes the instant
    that [v.Clock()] returned. *)
Record Verifier := mkVerifier {
  v_Resolver : option Resolver;
  v_Window : Duration;
  v_cache : replay_cache;
}.

Definition NewVerifier : Verifier := mkVerifier None ReplayWindow ∅.

Definition set_cache (v : Verifier) (c : replay_cache) : Verifier :=
  mkVerifier (v_Resolver v) (v_Window v) c.

(** [skew] after the sign is dropped. *)
Definition abs_skew (now : Time) (ts : Z) : Duration :=
  let sigTime := UnixMilli ts in
  let skew := Time_Sub now sigTime in
  if skew <? 0 then Duration_neg skew else skew.

(** The critical section under [v.mu]: the nonce map of the DID is created if
    missing, a nonce already in it is a replay, expired entries are dropped and
    the nonce is recorded.  The map is shared with the cache, so every update
    is an update of the cache. *)
Definition check_and_record (now : Time) (did nonce : bytes) (ts : Z) (v : Verifier)
    : go unit * Verifier :=
  let cache := v_cache v in
  let nonces := default ∅ (cache !! did) in
  let cache := <[did := nonces]> cache in
  match nonces !! nonce with
  | Some _ =>
      (Err (Errorf "%w: did=%s" (Some (Sentinel ErrReplayedNonce)) [ArgStr did]),
       set_cache v cache)
  | None =>
      let cutoff := Time_UnixMilli (Time_Add now (Duration_neg (v_Window v))) in
      let nonces := filter (fun '(_, ts') => ~ ts' < cutoff) nonces in
      let nonces := <[nonce := ts]> nonces in
      (Ok tt, set_cache v (<[did := nonces]> cache))
  end.

(** The first verificationMethod with the wanted ID and type. *)
Fixpoint find_method (vms : list verificationMethod) (want : bytes) : option verificationMethod :=
  match vms with
  | [] => None
  | vm :: vms =>
      if bool_decide (vm_ID vm = want) &&
         bool_decide (vm_Type vm = str "Ed25519VerificationKey2020") then Some vm
      else find_method vms want
  end.

Section WithEnv.
Context `{HE : Ed25519} `{HN : NetEnv}.

Definition ResolveKey (v : Verifier) (vmid : bytes) : go bytes :=
  let '(did, fragment, _) := Cut vmid x23 in
  if HasPrefix did (str "did:key:") then ParseDIDKey did
  else if HasPrefix did (str "did:web:") then
    if bool_decide (fragment = []) then
      Err (Errorf "did:web VMID missing fragment: %q" None [ArgStr vmid])
    else
    match v_Resolver v with
    | None => Err (newError "did:web resolution requires a Resolver")
    | Some r =>
        docURL ← didWebToURL did;
        doc ← fetchDIDDocument r docURL;
        let want := did ++ [x23] ++ fragment in
        match find_method (doc_VerificationMethod doc) want with
        | Some vm => decodeMultibaseEd25519 (vm_PublicKeyMultibase vm)
        | None => Err (Errorf "verification method %s not found in document" None
                         [ArgStr want])
        end
    end
  else Err (Errorf "unsupported DID method: %q" None [ArgStr did]).

(** What follows the critical section. *)
Definition check_signature (v : Verifier) (block : SignatureBlock) (signedMessage : bytes)
    : go unit :=
  let '(did, _, _) := Cut (VMID block) x23 in
  pub ← on_err (fun e => Errorf "%w: %v" (Some (Sentinel ErrUnresolvableDID)) [ArgErr e])
          (ResolveKey v (VMID block));
  ok ← VerifyEd25519 pub signedMessage (Signature block);
  if negb ok then Err (Errorf "%w: did=%s" (Some (Sentinel ErrBadSignature)) [ArgStr did])
  else Ok tt.

Definition Verify (now : Time) (block : SignatureBlock) (signedMessage : bytes)
    (v : Verifier) : go unit * Verifier :=
  if negb (bool_decide (Algorithm block = SigAlgEd25519)) then
    (Err (Errorf "%w: unknown algorithm 0x%02x" (Some (Sentinel ErrBadSignature))
            [ArgInt (bval (Algorithm block))]), v)
  else
  let skew := abs_skew now (TimestampMS block) in
  if v_Window v <? skew then
    (Err (Errorf "%w: skew=%s" (Some (Sentinel ErrStaleTimestamp)) [ArgInt skew]), v)
  else
  let '(did, _, _) := Cut (VMID block) x23 in
  if bool_decide (did = []) then
    (Err (Errorf "%w: VMID missing DID portion: %q" (Some (Sentinel ErrUnresolvableDID))
            [ArgStr (VMID block)]), v)
  else
  match check_and_record now did (Nonce block) (TimestampMS block) v with
  | (Ok _, v) => (check_signature v block signedMessage, v)
  | (Err e, v) => (Err e, v)
  | (Panic p, v) => (Panic p, v)
  end.
End WithEnv.

(** ** The timestamp check *)

(** The check passes within the window, and also when the signature time is
    more than 2^63 ns ahead of the clock: there Sub saturates at minDuration,
    whose negation is itself and so is not above the window. *)
Lemma abs_skew_passes w now ts :
  0 <= w < maxDuration ->
  abs_skew now ts <= w <->
  Z.abs (now - ts * 1000000) <= w \/ now - ts * 1000000 <= minDuration.
Proof.
  intros Hw. unfold abs_skew, UnixMilli. rewrite Time_Sub_clamp.
  set (d := now - ts * 1000000). destruct (Z.le_gt_cases d minDuration) as [Hd|Hd].
  - replace (Z.max _ _) with minDuration by (unfold minDuration, maxDuration in *; lia).
    change (minDuration <? 0) with true. cbv iota. rewrite Duration_neg_min.
    unfold minDuration, maxDuration in *. pow_norm. lia.
  - replace (Z.max _ _) with (Z.min maxDuration d) by (unfold minDuration, maxDuration in *; lia).
    case_match; zbool; [rewrite Duration_neg_id|];
      unfold minDuration, maxDuration in *; pow_norm; lia.
Qed.

(** Too old is always stale. *)
Lemma abs_skew_expired w now ts :
  0 <= w < maxDuration -> w < now - ts * 1000000 -> w < abs_skew now ts.
Proof.
  intros Hw Hd. destruct (Z.lt_ge_cases w (abs_skew now ts)) as [|Hge]; [done|].
  apply abs_skew_passes in Hge; [|done]. unfold minDuration in Hge. pow_norm. lia.
Qed.

(** ** The replay cache *)

Definition recorded (v : Verifier) (did nonce : bytes) : option Z :=
  v_cache v !! did ≫= (.!! nonce).

(** The instants at which the millisecond cutoff is exact. *)
Definition clock_ok (w : Duration) (now : Time) : Prop :=
  0 <= w < maxDuration /\ is_i64 ((now - w) / 1000000).

Lemma cutoff_exact w now ts :
  clock_ok w now ->
  ts < Time_UnixMilli (Time_Add now (Duration_neg w)) -> w < now - ts * 1000000.
Proof.
  intros [Hw Hi] H. unfold Time_UnixMilli, Time_Add in H.
  rewrite Duration_neg_id in H by (unfold minDuration; pow_norm; lia).
  rewrite i64_id in H by done. plia.
Qed.

Lemma check_and_record_Ok now did nonce ts v v' :
  check_and_record now did nonce ts v = (Ok tt, v') ->
  recorded v did nonce = None /\ recorded v' did nonce = Some ts /\
  v_Window v' = v_Window v /\ v_Resolver v' = v_Resolver v.
Proof.
  unfold check_and_record, recorded. intros H. case_match eqn:E; simplify_eq. simpl.
  rewrite lookup_insert_eq. simpl. rewrite lookup_insert_eq. split_and!; try done.
  destruct (v_cache v !! did); simpl in *; [done|done].
Qed.

Lemma check_and_record_Err now did nonce ts v e v' :
  check_and_record now did nonce ts v = (Err e, v') ->
  errors_Is e ErrReplayedNonce = true /\ is_Some (recorded v did nonce) /\
  forall d n, recorded v' d n = recorded v d n.
Proof.
  unfold check_and_record, recorded. intros H. case_match eqn:E; simplify_eq. simpl.
  split_and!; [done|..].
  - destruct (v_cache v !! did); simpl in *; [by eexists|done].
  - intros d n. rewrite lookup_insert. case_decide; [subst|done].
    destruct (v_cache v !! d); simpl in *; [done|]. by rewrite lookup_empty in E.
Qed.

Lemma check_and_record_Panic now did nonce ts v p v' :
  check_and_record now did nonce ts v <> (Panic p, v').
Proof. unfold check_and_record. intros ?. case_match; simplify_eq. Qed.

(** An entry of the cache survives a call unless it has expired, and is never
    overwritten. *)
Lemma check_and_record_keeps now did nonce ts v did' nonce' ts' :
  clock_ok (v_Window v) now ->
  recorded v did' nonce' = Some ts' ->
  recorded (check_and_record now did nonce ts v).2 did' nonce' = Some ts' \/
  v_Window v < now - ts' * 1000000.
Proof.
  intros Hc Hr. unfold check_and_record, recorded in *. case_match eqn:E; simpl.
  { left. rewrite lookup_insert. case_decide; [subst|done].
    by destruct (v_cache v !! did'). }
  rewrite insert_insert_eq, lookup_insert. case_decide as Hd; [subst did'|by left]. simpl.
  destruct (v_cache v !! did) as [nonces|]; [|done]. simpl in *.
  rewrite lookup_insert_ne by congruence.
  destruct (decide (ts' < Time_UnixMilli (Time_Add now (Duration_neg (v_Window v))))).
  - right. by apply cutoff_exact.
  - left. by apply map_lookup_filter_Some.
Qed.

Section VerifyFacts.
Context `{HE : Ed25519} `{HN : NetEnv}.

Definition did_of (block : SignatureBlock) : bytes := (Cut (VMID block) x23).1.1.

(** The four phases of Verify. *)
Lemma Verify_unfold now block msg v :
  Verify now block msg v =
  if negb (bool_decide (Algorithm block = SigAlgEd25519)) then
    (Err (Errorf "%w: unknown algorithm 0x%02x" (Some (Sentinel ErrBadSignature))
            [ArgInt (bval (Algorithm block))]), v)
  else if v_Window v <? abs_skew now (TimestampMS block) then
    (Err (Errorf "%w: skew=%s" (Some (Sentinel ErrStaleTimestamp))
            [ArgInt (abs_skew now (TimestampMS block))]), v)
  else if bool_decide (did_of block = []) then
    (Err (Errorf "%w: VMID missing DID portion: %q" (Some (Sentinel ErrUnresolvableDID))
            [ArgStr (VMID block)]), v)
  else
    match check_and_record now (did_of block) (Nonce block) (TimestampMS block) v with
    | (Ok _, v) => (check_signature v block msg, v)
    | (Err e, v) => (Err e, v)
    | (Panic p, v) => (Panic p, v)
    end.
Proof. unfold Verify, did_of. by destruct (Cut (VMID block) x23) as [[did frag] found]. Qed.

Lemma Verify_Ok_inv now block msg v v' :
  Verify now block msg v = (Ok tt, v') ->
  Algorithm block = SigAlgEd25519 /\ abs_skew now (TimestampMS block) <= v_Window v /\
  did_of block <> [] /\
  check_and_record now (did_of block) (Nonce block) (TimestampMS block) v = (Ok tt, v') /\
  check_signature v' block msg = Ok tt.
Proof.
  rewrite Verify_unfold. intros Hv. repeat case_match; simplify_eq; zbool.
  destruct a. done.
Qed.

Lemma Verify_Window now block msg v : v_Window (Verify now block msg v).2 = v_Window v.
Proof.
  rewrite Verify_unfold. repeat case_match; simplify_eq; try done;
    unfold check_and_record in *; repeat case_match; by simplify_eq.
Qed.

Lemma Verify_Resolver now block msg v : v_Resolver (Verify now block msg v).2 = v_Resolver v.
Proof.
  rewrite Verify_unfold. repeat case_match; simplify_eq; try done;
    unfold check_and_record in *; repeat case_match; by simplify_eq.
Qed.

Lemma Verify_keeps now block msg v did nonce ts :
  clock_ok (v_Window v) now -> recorded v did nonce = Some ts ->
  recorded (Verify now block msg v).2 did nonce = Some ts \/
  v_Window v < now - ts * 1000000.
Proof.
  intros Hc Hr. rewrite Verify_unfold. repeat (case_match; [by left|]).
  pose proof (check_and_record_keeps now (did_of block) (Nonce block) (TimestampMS block)
    v did nonce ts Hc Hr) as Hk.
  by destruct (check_and_record _ _ _ _ _) as [[?|?|?] ?].
Qed.
End VerifyFacts.

(** ** Sequences of calls

    The calls on one Verifier in the order of their critical sections; each
    carries the instant its Clock returned. *)
Section Runs.
Context `{HE : Ed25519} `{HN : NetEnv}.

Record call := mkCall { c_now : Time; c_block : SignatureBlock; c_msg : bytes }.

Fixpoint verify_all (calls : list call) (v : Verifier) : list (go unit) :=
  match calls with
  | [] => []
  | c :: calls =>
      let '(r, v) := Verify (c_now c) (c_block c) (c_msg c) v in
      r :: verify_all calls v
  end.

(** Two blocks that a replay cannot tell apart. *)
Definition same_id (b1 b2 : SignatureBlock) : Prop :=
  did_of b1 = did_of b2 /\ Nonce b1 = Nonce b2 /\ TimestampMS b1 = TimestampMS b2.

(** Once accepted, a nonce is in the cache or its timestamp has expired. *)
Definition spent (v : Verifier) (now : Time) (block : SignatureBlock) : Prop :=
  recorded v (did_of block) (Nonce block) = Some (TimestampMS block) \/
  v_Window v < now - TimestampMS block * 1000000.

Lemma Verify_spends now block msg v v' :
  Verify now block msg v = (Ok tt, v') -> spent v' now block.
Proof.
  intros (_ & _ & _ & Hr & _)%Verify_Ok_inv. left.
  by apply check_and_record_Ok in Hr as (_ & ? & _).
Qed.

Lemma spent_step v now now' b block msg :
  clock_ok (v_Window v) now' -> now <= now' -> spent v now b ->
  spent (Verify now' block msg v).2 now' b.
Proof.
  intros Hc Hle [Hr|He]; unfold spent; rewrite Verify_Window; [|right; lia].
  by apply Verify_keeps.
Qed.

Lemma spent_rejects v now b block msg :
  clock_ok (v_Window v) now -> spent v now b -> same_id b block ->
  exists e, (Verify now block msg v).1 = Err e /\
    (errors_Is e ErrReplayedNonce = true \/ errors_Is e ErrStaleTimestamp = true \/
     errors_Is e ErrBadSignature = true /\ Algorithm block <> SigAlgEd25519 \/
     errors_Is e ErrUnresolvableDID = true /\ did_of block = []).
Proof.
  intros [Hw _] Hs (Hd & Hn & Ht). rewrite Verify_unfold.
  case_match eqn:Ha; [zbool; eexists; split; [done|naive_solver]|].
  case_match eqn:Hk; [eexists; split; [done|naive_solver]|].
  case_match eqn:He; [zbool; eexists; split; [done|naive_solver]|]. zbool.
  destruct Hs as [Hr|Hx].
  - rewrite Hd, Hn in Hr.
    destruct (check_and_record _ _ _ _ _) as [[[]|e|p] v'] eqn:E.
    + apply check_and_record_Ok in E as (E & _). congruence.
    + apply check_and_record_Err in E as (E & _). eexists; split; [done|naive_solver].
    + by apply check_and_record_Panic in E.
  - rewrite Ht in Hx. apply abs_skew_expired in Hx; [lia|done].
Qed.

(** The clock does not run backwards and stays in range. *)
Fixpoint monotone (w : Duration) (last : Time) (calls : list call) : Prop :=
  match calls with
  | [] => True
  | c :: calls => last <= c_now c /\ clock_ok w (c_now c) /\ monotone w (c_now c) calls
  end.

Lemma spent_run calls v now b j c :
  monotone (v_Window v) now calls -> spent v now b ->
  calls !! j = Some c -> same_id b (c_block c) ->
  exists e, verify_all calls v !! j = Some (Err e) /\
    (errors_Is e ErrReplayedNonce = true \/ errors_Is e ErrStaleTimestamp = true \/
     errors_Is e ErrBadSignature = true /\ Algorithm (c_block c) <> SigAlgEd25519 \/
     errors_Is e ErrUnresolvableDID = true /\ did_of (c_block c) = []).
Proof.
  revert v now j. induction calls as [|c0 calls IH]; intros v now j Hm Hs Hj Hid; [done|].
  destruct Hm as (Hle & Hc & Hm). simpl.
  pose proof (spent_step v now (c_now c0) b (c_block c0) (c_msg c0) Hc Hle Hs) as Hs'.
  assert (spent v (c_now c0) b) as Hs0 by (destruct Hs; [by left|right; lia]).
  pose proof (Verify_Window (c_now c0) (c_block c0) (c_msg c0) v) as Hw.
  destruct (Verify (c_now c0) (c_block c0) (c_msg c0) v) as [r v'] eqn:E. simpl in *.
  destruct j as [|j]; simpl in *; simplify_eq.
  - destruct (spent_rejects v (c_now c) b (c_block c) (c_msg c) Hc Hs0 Hid) as (e & He & ?).
    rewrite E in He. simpl in He. subst r. eauto.
  - eapply IH; [by rewrite Hw|done|done|done].
Qed.
End Runs.

(** C8: replay protection.  On one Verifier, over any sequence of Verify calls
    with a clock that does not run backwards, a signature block that was
    accepted is never accepted again: any later call with the same DID, nonce
    and timestamp (whatever the rest of it and however often other entries were
    evicted in between) fails, as a replayed nonce or a stale timestamp when
    the algorithm is Ed25519. *)
Theorem no_replay `{HE : Ed25519} `{HN : NetEnv} calls v now0 i j c1 c2 :
  monotone (v_Window v) now0 calls ->
  (i < j)%nat -> calls !! i = Some c1 -> calls !! j = Some c2 ->
  same_id (c_block c1) (c_block c2) -> Algorithm (c_block c2) = SigAlgEd25519 ->
  verify_all calls v !! i = Some (Ok tt) ->
  exists e, verify_all calls v !! j = Some (Err e) /\
    (errors_Is e ErrReplayedNonce = true \/ errors_Is e ErrStaleTimestamp = true).
Proof.
  intros Hm Hij H1 H2 Hid Halg Hok.
  revert v now0 i j Hm Hij H1 H2 Hok.
  induction calls as [|c calls IH]; intros v now0 i j Hm Hij H1 H2 Hok; [done|].
  destruct Hm as (Hle & Hc & Hm). simpl in *.
  destruct j as [|j]; [lia|]. simpl in H2.
  pose proof (Verify_Window (c_now c) (c_block c) (c_msg c) v) as Hw.
  destruct (Verify (c_now c) (c_block c) (c_msg c) v) as [r v'] eqn:E. simpl in *.
  rewrite <-Hw in Hm. destruct i as [|i]; simpl in *.
  - simplify_eq. apply Verify_Ok_inv in E as Hi. destruct Hi as (_ & _ & Hd & _).
    apply Verify_spends in E.
    destruct (spent_run calls v' _ _ j c2 Hm E H2 Hid) as (e & He & Hcls). exists e.
    split; [done|]. destruct Hid as (Hdid & _). destruct Hcls as [?|[?|[[_ ?]|[_ ?]]]]; auto;
      congruence.
  - eapply IH; eauto. lia.
Qed.

(** ** Key resolution *)

Section Resolution.
Context `{HE : Ed25519} `{HN : NetEnv}.

(** A key that resolves has the size ed25519.Verify demands. *)
Lemma ResolveKey_size v vmid pub : ResolveKey v vmid = Ok pub -> length pub = PublicKeySize.
Proof.
  unfold ResolveKey. destruct (Cut vmid x23) as [[did frag] found]. intros E.
  case_match; [by apply ParseDIDKey_iff in E as [_ ?]|].
  repeat case_match; try done. go_inv. case_match; [|done].
  by apply decodeMultibase_iff in E as [_ ?].
Qed.

(** The key of a did:key block is the one its DID spells. *)
Lemma ResolveKey_didkey v vmid pub :
  HasPrefix (Cut vmid x23).1.1 (str "did:key:") = true ->
  ResolveKey v vmid = Ok pub -> (Cut vmid x23).1.1 = MakeDIDKey pub.
Proof.
  unfold ResolveKey. destruct (Cut vmid x23) as [[did frag] found]. simpl. intros ->.
  by intros [? _]%ParseDIDKey_iff.
Qed.

Lemma check_signature_Ok_inv v block msg :
  check_signature v block msg = Ok tt ->
  exists pub, ResolveKey v (VMID block) = Ok pub /\ length pub = PublicKeySize /\
    ed_Verify pub msg (Signature block) = true.
Proof.
  unfold check_signature. destruct (Cut (VMID block) x23) as [[did frag] found].
  intros E. go_inv. apply ResolveKey_size in E0 as Hs. unfold VerifyEd25519 in E1.
  case_match eqn:Hl; [done|]. go_inv. zbool. eauto.
Qed.

Lemma check_signature_ok v block msg pub :
  ResolveKey v (VMID block) = Ok pub -> ed_Verify pub msg (Signature block) = true ->
  check_signature v block msg = Ok tt.
Proof.
  intros E Hv. apply ResolveKey_size in E as Hs. unfold check_signature.
  destruct (Cut (VMID block) x23) as [[did frag] found]. rewrite E. simpl.
  unfold VerifyEd25519. by rewrite Hs, Hv.
Qed.
End Resolution.

(** C10: what an accepted signature means.  Verify succeeds only if the
    algorithm is Ed25519, the timestamp check passed, the (DID, nonce) pair was
    not in the cache before and is recorded after, and the signature verifies
    over exactly the given message under a 32-byte key that the VMID resolves
    to; for a did:key signer that key is the one encoded in the DID, so the DID
    is authenticated. *)
Theorem Verify_authenticates `{HE : Ed25519} `{HN : NetEnv} now block msg v v' :
  Verify now block msg v = (Ok tt, v') ->
  Algorithm block = SigAlgEd25519 /\
  abs_skew now (TimestampMS block) <= v_Window v /\
  recorded v (did_of block) (Nonce block) = None /\
  recorded v' (did_of block) (Nonce block) = Some (TimestampMS block) /\
  exists pub, ResolveKey v' (VMID block) = Ok pub /\ length pub = PublicKeySize /\
    ed_Verify pub msg (Signature block) = true /\
    (HasPrefix (did_of block) (str "did:key:") = true -> did_of block = MakeDIDKey pub).
Proof.
  intros (Ha & Hs & _ & Hr & Hc)%Verify_Ok_inv.
  apply check_and_record_Ok in Hr as (Hr1 & Hr2 & _).
  apply check_signature_Ok_inv in Hc as (pub & Hk & Hl & Hv).
  split_and!; try done. exists pub. split_and!; try done.
  intros Hp. by apply (ResolveKey_didkey v').
Qed.

(** The VMID of a did:key signer names its DID, which resolves to its key. *)
Lemma Cut_didkey_VMID pub frag :
  Cut (MakeDIDKey pub ++ x23 :: frag) x23 = (MakeDIDKey pub, frag, true).
Proof. apply Cut_app, MakeDIDKey_no_hash. Qed.

Lemma MakeDIDKey_prefix pub : HasPrefix (MakeDIDKey pub) (str "did:key:") = true.
Proof. unfold MakeDIDKey, didKeyPrefix. apply HasPrefix_app. Qed.

Lemma MakeDIDKey_nonempty pub : MakeDIDKey pub <> [].
Proof. done. Qed.

Lemma ResolveKey_own `{HN : NetEnv} v pub frag :
  length pub = PublicKeySize -> ResolveKey v (MakeDIDKey pub ++ x23 :: frag) = Ok pub.
Proof.
  intros Hl. unfold ResolveKey. rewrite Cut_didkey_VMID, MakeDIDKey_prefix.
  by apply ParseDIDKey_iff.
Qed.

(** ** Signers

    What the two ends of a connection rely on in a Signer: that its HELLO fits the
    wire and names its DID, and that the peer's Verifier finds the key that its
    signatures verify under. *)

Class WireSigner (s : Signer) : Prop := {
  ws_did : (Cut (s_VMID s) x23).1.1 = s_DID s;
  ws_is_did : HasPrefix (s_DID s) (str "did:") = true;
  ws_VMID_fits : len (s_VMID s) <= MaxVarint;
  ws_Sign_fits msg : len (s_Sign s msg) <= MaxVarint;
}.

Class Verifiable `{HE : Ed25519} `{HN : NetEnv} (v : Verifier) (s : Signer) : Prop :=
  verifiable : exists pub, ResolveKey v (s_VMID s) = Ok pub /\
    forall msg, ed_Verify pub msg (s_Sign s msg) = true.

Lemma ws_DID_nonempty s : WireSigner s -> s_DID s <> [].
Proof. intros [_ H _ _] E. by rewrite E in H. Qed.

Lemma Cut_length b sep : (length (Cut b sep).1.1 <= length b)%nat.
Proof.
  unfold Cut. destruct (IndexByte b sep); cbn; [|done]. rewrite length_take. lia.
Qed.

Lemma ws_DID_fits s : WireSigner s -> len (s_DID s) <= MaxVarint.
Proof. intros Hs. rewrite <-ws_did. pose proof (Cut_length (s_VMID s) x23). pose proof ws_VMID_fits. lia. Qed.

(** The signer of NewEd25519DIDKeySigner. *)
Definition didkey_signer `{HE : Ed25519} (priv : bytes) : Signer :=
  mkSigner (MakeDIDKey (ed_Public priv))
    (MakeDIDKey (ed_Public priv) ++ x23 :: encodeMultibaseEd25519 (ed_Public priv))
    (ed_Sign priv).

Lemma NewSigner_eq `{HE : Ed25519} priv : NewEd25519DIDKeySigner priv = Ok (didkey_signer priv).
Proof. unfold NewEd25519DIDKeySigner. by rewrite DIDKeyVMID_MakeDIDKey. Qed.

Lemma NewSigner_Ok_inv `{HE : Ed25519} priv s :
  NewEd25519DIDKeySigner priv = Ok s -> s = didkey_signer priv.
Proof. rewrite NewSigner_eq. congruence. Qed.

Lemma VMID_fits pub :
  length pub = PublicKeySize ->
  len (MakeDIDKey pub ++ x23 :: encodeMultibaseEd25519 pub) <= MaxVarint.
Proof.
  intros Hl. pose proof (MakeDIDKey_length pub). pose proof (encodeMultibase_length pub).
  rewrite MaxVarint_val, length_app. cbn [length]. pow_norm. unfold PublicKeySize in *. lia.
Qed.

Lemma MakeDIDKey_is_did pub : HasPrefix (MakeDIDKey pub) (str "did:") = true.
Proof.
  unfold MakeDIDKey, didKeyPrefix. change (str "did:key:") with (str "did:" ++ str "key:").
  rewrite <-app_assoc. apply HasPrefix_app.
Qed.

Global Instance didkey_wire `{HE : Ed25519} `{HL : !Ed25519Laws} priv : WireSigner (didkey_signer priv).
Proof.
  split; cbn [s_DID s_VMID s_Sign didkey_signer].
  - by rewrite Cut_didkey_VMID.
  - apply MakeDIDKey_is_did.
  - apply VMID_fits, ed_Public_size.
  - intros msg. apply ed_Sign_fits.
Qed.

(** A did:key signature verifies everywhere: no resolution is needed. *)
Global Instance didkey_verifiable `{HE : Ed25519} `{HL : !Ed25519Laws} `{HN : NetEnv} v priv :
  Verifiable v (didkey_signer priv).
Proof.
  exists (ed_Public priv). split; [apply ResolveKey_own, ed_Public_size|]. intros msg. apply ed_Verify_Sign.
Qed.

Lemma ResolveKey_const `{HN : NetEnv} v v' vmid :
  v_Resolver v' = v_Resolver v -> ResolveKey v' vmid = ResolveKey v vmid.
Proof. intros H. unfold ResolveKey. by rewrite H. Qed.

(** ** Edges of the replay protection *)

Section Edges.
Context `{HE : Ed25519} `{HN : NetEnv}.

Lemma check_signature_err v block msg e :
  check_signature v block msg = Err e ->
  errors_Is e ErrUnresolvableDID = true \/ errors_Is e ErrBadSignature = true.
Proof.
  unfold check_signature. destruct (Cut (VMID block) x23) as [[did frag] found].
  destruct (ResolveKey v (VMID block)) as [pub|e'|p]; simpl; [|intros [= <-]; by left|done].
  unfold VerifyEd25519. case_match; simpl; [done|]. case_match; [|done].
  intros [= <-]. by right.
Qed.

(** Past the first three checks, the nonce is recorded whatever comes next. *)
Lemma Verify_records now block msg v :
  Algorithm block = SigAlgEd25519 -> abs_skew now (TimestampMS block) <= v_Window v ->
  did_of block <> [] -> recorded v (did_of block) (Nonce block) = None ->
  exists v', Verify now block msg v = (check_signature v' block msg, v') /\
    recorded v' (did_of block) (Nonce block) = Some (TimestampMS block) /\
    v_Window v' = v_Window v /\ v_Resolver v' = v_Resolver v.
Proof.
  intros Ha Hs Hd Hr. rewrite Verify_unfold.
  rewrite bool_decide_eq_true_2 by done. cbn [negb].
  rewrite (proj2 (Z.ltb_ge _ _)) by done. rewrite bool_decide_eq_false_2 by done.
  destruct (check_and_record _ _ _ _ v) as [[[]|e|p] v'] eqn:E.
  - apply check_and_record_Ok in E as (_ & ? & ? & ?). eauto.
  - apply check_and_record_Err in E as (_ & [? Hx] & _). congruence.
  - by apply check_and_record_Panic in E.
Qed.

Lemma Verify_recorded_rejects now block msg v ts :
  Algorithm block = SigAlgEd25519 -> abs_skew now (TimestampMS block) <= v_Window v ->
  did_of block <> [] -> recorded v (did_of block) (Nonce block) = Some ts ->
  exists e, (Verify now block msg v).1 = Err e /\ errors_Is e ErrReplayedNonce = true.
Proof.
  intros Ha Hs Hd Hr. rewrite Verify_unfold.
  rewrite bool_decide_eq_true_2 by done. cbn [negb].
  rewrite (proj2 (Z.ltb_ge _ _)) by done. rewrite bool_decide_eq_false_2 by done.
  destruct (check_and_record _ _ _ _ v) as [[[]|e|p] v'] eqn:E.
  - apply check_and_record_Ok in E as (? & _). congruence.
  - apply check_and_record_Err in E as (? & _). eauto.
  - by apply check_and_record_Panic in E.
Qed.
Lemma Verify_err now block msg v e :
  (Verify now block msg v).1 = Err e ->
  exists s, s ∈ [ErrBadSignature; ErrStaleTimestamp; ErrReplayedNonce; ErrUnresolvableDID] /\
    errors_Is e s = true.
Proof.
  rewrite Verify_unfold. case_match; [intros [= <-]; exists ErrBadSignature; set_solver|].
  case_match; [intros [= <-]; exists ErrStaleTimestamp; set_solver|].
  case_match; [intros [= <-]; exists ErrUnresolvableDID; set_solver|].
  destruct (check_and_record _ _ _ _ v) as [[[]|e'|p] v'] eqn:E; simpl.
  - intros [He|He]%check_signature_err; eexists; (split; [|done]); set_solver.
  - intros [= <-]. apply check_and_record_Err in E as (He & _).
    exists ErrReplayedNonce. set_solver.
  - done.
Qed.
End Edges.

(** Verify accepts the block of a signer that it can check. *)
Lemma Verify_genuine `{HE : Ed25519} `{HN : NetEnv} now s nonce ts msg v :
  WireSigner s -> Verifiable v s ->
  0 <= v_Window v < maxDuration -> Z.abs (now - ts * 1000000) <= v_Window v ->
  recorded v (s_DID s) nonce = None ->
  exists v', Verify now (mkBlock SigAlgEd25519 (s_VMID s) nonce ts (s_Sign s msg)) msg v = (Ok tt, v') /\
    recorded v' (s_DID s) nonce = Some ts.
Proof.
  intros Hs (pub & Hk & Hv) Hw Hskew Hn. set (block := mkBlock _ _ _ _ _).
  assert (did_of block = s_DID s) as Hd by apply ws_did.
  destruct (Verify_records now block msg v) as (v' & -> & Hr & _ & Hres);
    [done|apply abs_skew_passes; auto|rewrite Hd; by apply ws_DID_nonempty|by rewrite Hd|].
  exists v'. rewrite Hd in Hr. split; [|done]. f_equal.
  apply check_signature_ok with pub; [|done]. by rewrite (ResolveKey_const v).
Qed.

(** A genuine signature is accepted exactly once.  If the timestamp is within
    the window, the block of a signer whose key the Verifier resolves (a did:key
    signer always, [didkey_verifiable]) verifies if and only if its nonce is not
    in the cache for that DID; the nonce is then recorded, and otherwise the
    error is ErrReplayedNonce. *)
Lemma Verify_accepts_genuine `{HE : Ed25519} `{HN : NetEnv} now s nonce ts msg v :
  WireSigner s -> Verifiable v s ->
  0 <= v_Window v < maxDuration -> Z.abs (now - ts * 1000000) <= v_Window v ->
  let '(r, v') := Verify now (mkBlock SigAlgEd25519 (s_VMID s) nonce ts (s_Sign s msg)) msg v in
  match recorded v (s_DID s) nonce with
  | None => r = Ok tt /\ recorded v' (s_DID s) nonce = Some ts
  | Some _ => exists e, r = Err e /\ errors_Is e ErrReplayedNonce = true
  end.
Proof.
  intros Hs Hv Hw Hskew. destruct (recorded v (s_DID s) nonce) as [ts'|] eqn:Hr.
  - set (block := mkBlock _ _ _ _ _).
    assert (did_of block = s_DID s) as Hd by apply ws_did.
    destruct (Verify_recorded_rejects now block msg v ts') as (e & He & Hi);
      [done|apply abs_skew_passes; auto|rewrite Hd; by apply ws_DID_nonempty|by rewrite Hd|].
    destruct (Verify now block msg v) as [r v']. cbn [fst] in He. eauto.
  - destruct (Verify_genuine now s nonce ts msg v) as (v' & -> & ?); done.
Qed.

(** ** Witnesses on a concrete signer *)

Definition demo_priv : bytes := repeat x07 32.
Definition demo_did : bytes := MakeDIDKey (toy_public demo_priv).
Definition demo_vmid : bytes := demo_did ++ x23 :: encodeMultibaseEd25519 (toy_public demo_priv).
Definition demo_nonce : bytes := repeat xaa 16.
Definition demo_now : Time := 1781568000000 * 1000000.
Definition demo_block (nonce : bytes) (ts : Z) (msg : bytes) : SignatureBlock :=
  mkBlock SigAlgEd25519 demo_vmid nonce ts (toy_tag (toy_public demo_priv) msg).

Lemma Verify_accepts_genuine_witness :
  let '(r, v') := Verify (HE := toy_ed25519) (HN := offline) demo_now
      (demo_block demo_nonce 1781568000123 (str "hi")) (str "hi") NewVerifier in
  match recorded NewVerifier demo_did demo_nonce with
  | None => r = Ok tt /\ recorded v' demo_did demo_nonce = Some 1781568000123
  | Some _ => exists e, r = Err e /\ errors_Is e ErrReplayedNonce = true
  end.
Proof.
  apply (Verify_accepts_genuine (HE := toy_ed25519)
    (HN := offline) demo_now (didkey_signer (HE := toy_ed25519) demo_priv)
    demo_nonce 1781568000123 (str "hi") NewVerifier).
  - exact (didkey_wire (HE := toy_ed25519) (HL := toy_ed25519_laws) demo_priv).
  - exact (didkey_verifiable (HE := toy_ed25519) (HL := toy_ed25519_laws) (HN := offline) NewVerifier demo_priv).
  - vm_compute. intuition congruence.
  - vm_compute. congruence.
Defined.

Lemma Verify_authenticates_witness :
  let block := demo_block demo_nonce 1781568000123 (str "hi") in
  exists pub, ResolveKey (HN := offline) NewVerifier (VMID block) = Ok pub /\
    ed_Verify (Ed25519 := toy_ed25519) pub (str "hi") (Signature block) = true /\
    did_of block = MakeDIDKey pub.
Proof.
  destruct (Verify_authenticates (HE := toy_ed25519) (HN := offline) demo_now
    (demo_block demo_nonce 1781568000123 (str "hi")) (str "hi") NewVerifier
    (Verify (HE := toy_ed25519) (HN := offline) demo_now
       (demo_block demo_nonce 1781568000123 (str "hi")) (str "hi") NewVerifier).2)
    as (_ & _ & _ & _ & pub & H1 & _ & H2 & H3); [vm_compute; reflexivity|].
  exists pub. split; [exact H1|]. split; [exact H2|]. apply H3. vm_compute. reflexivity.
Defined.

Lemma no_replay_witness :
  let calls := [mkCall demo_now (demo_block demo_nonce 1781568000123 (str "hi")) (str "hi");
                mkCall (demo_now + 5) (demo_block demo_nonce 1781568000123 (str "hi")) (str "hi")] in
  exists e, verify_all (HE := toy_ed25519) (HN := offline) calls NewVerifier !! 1%nat = Some (Err e) /\
    (errors_Is e ErrReplayedNonce = true \/ errors_Is e ErrStaleTimestamp = true).
Proof.
  apply (no_replay (HE := toy_ed25519) (HN := offline)
    [mkCall demo_now (demo_block demo_nonce 1781568000123 (str "hi")) (str "hi");
     mkCall (demo_now + 5) (demo_block demo_nonce 1781568000123 (str "hi")) (str "hi")]
    NewVerifier demo_now 0 1
    (mkCall demo_now (demo_block demo_nonce 1781568000123 (str "hi")) (str "hi"))
    (mkCall (demo_now + 5) (demo_block demo_nonce 1781568000123 (str "hi")) (str "hi"))).
  - vm_compute. intuition congruence.
  - lia.
  - reflexivity.
  - reflexivity.
  - vm_compute. intuition reflexivity.
  - reflexivity.
  - vm_compute. reflexivity.
Defined.

(** C35: a block that fails verification burns its nonce.  When a fresh nonce
    comes with a signature that does not verify, the (DID, nonce) pair is
    recorded all the same, and the block that the DID really signed with that
    nonce is then refused as a replay: the cache is written before the
    signature is checked, where the documentation of Verify says the pair is
    recorded on a successful verification. *)
Theorem forged_block_burns_nonce `{HE : Ed25519} `{HN : NetEnv} now now' forged genuine msg msg' v :
  Algorithm forged = SigAlgEd25519 -> Algorithm genuine = SigAlgEd25519 ->
  did_of forged <> [] -> did_of genuine = did_of forged -> Nonce genuine = Nonce forged ->
  abs_skew now (TimestampMS forged) <= v_Window v ->
  abs_skew now' (TimestampMS genuine) <= v_Window v ->
  recorded v (did_of forged) (Nonce forged) = None ->
  (Verify now forged msg v).1 <> Ok tt ->
  let v' := (Verify now forged msg v).2 in
  recorded v' (did_of forged) (Nonce forged) = Some (TimestampMS forged) /\
  exists e, (Verify now' genuine msg' v').1 = Err e /\ errors_Is e ErrReplayedNonce = true.
Proof.
  intros Ha Ha' Hne Hd Hn Hs Hs' Hr Hbad. cbv zeta.
  destruct (Verify_records now forged msg v) as (v' & -> & Hr' & Hw & _); [done..|]. simpl.
  split; [done|]. eapply Verify_recorded_rejects; rewrite ?Hd, ?Hn, ?Hw; done.
Qed.

Lemma forged_block_burns_nonce_witness :
  let forged := mkBlock SigAlgEd25519 demo_vmid demo_nonce 1781568000123 [x00] in
  let genuine := demo_block demo_nonce 1781568000123 (str "hi") in
  let v' := (Verify (HE := toy_ed25519) (HN := offline) demo_now forged (str "hi") NewVerifier).2 in
  recorded v' (did_of forged) (Nonce forged) = Some 1781568000123 /\
  exists e, (Verify (HE := toy_ed25519) (HN := offline) demo_now genuine (str "hi") v').1 = Err e /\
    errors_Is e ErrReplayedNonce = true.
Proof.
  apply (forged_block_burns_nonce (HE := toy_ed25519) (HN := offline) demo_now demo_now
    (mkBlock SigAlgEd25519 demo_vmid demo_nonce 1781568000123 [x00])
    (demo_block demo_nonce 1781568000123 (str "hi"))).
  all: vm_compute; congruence.
Defined.

(** C34: exactly which timestamps are stale.  With a window below the largest
    Duration, an Ed25519 block is refused as stale if and only if its timestamp
    is further than the window from the clock, unless it is 2^63 ns or more in
    the future: there the subtraction saturates, its negation overflows, and
    the block passes the check. *)
Theorem stale_timestamp_exact `{HE : Ed25519} `{HN : NetEnv} now block msg v :
  0 <= v_Window v < maxDuration -> Algorithm block = SigAlgEd25519 ->
  (exists e, (Verify now block msg v).1 = Err e /\ errors_Is e ErrStaleTimestamp = true) <->
  v_Window v < Z.abs (now - TimestampMS block * 1000000) /\
  - 2 ^ 63 < now - TimestampMS block * 1000000.
Proof.
  intros Hw Ha. pose proof (abs_skew_passes _ now (TimestampMS block) Hw) as Hp.
  change (- 2 ^ 63) with minDuration. rewrite Verify_unfold, Ha.
  rewrite bool_decide_eq_true_2 by done. cbn [negb].
  destruct (v_Window v <? abs_skew now (TimestampMS block)) eqn:Hs; zbool.
  { split; [intros _; lia|]. intros _. by eexists. }
  split; [|lia]. intros (e & He & Hi). exfalso.
  case_bool_decide; [by simplify_eq/=|].
  destruct (check_and_record _ _ _ _ v) as [[[]|e'|p] v'] eqn:E; simplify_eq/=.
  - apply check_signature_err in He as [He|He]; by pose proof (errors_Is_unique _ _ _ He Hi).
  - apply check_and_record_Err in E as (He & _). by pose proof (errors_Is_unique _ _ _ He Hi).
Qed.

Lemma stale_timestamp_exact_witness :
  let block := demo_block demo_nonce (1781568000000 + 300001) (str "hi") in
  (exists e, (Verify (HE := toy_ed25519) (HN := offline) demo_now block (str "hi") NewVerifier).1 = Err e /\
     errors_Is e ErrStaleTimestamp = true) <->
  ReplayWindow < Z.abs (demo_now - TimestampMS block * 1000000) /\
  - 2 ^ 63 < demo_now - TimestampMS block * 1000000.
Proof.
  apply (stale_timestamp_exact (HE := toy_ed25519) (HN := offline) demo_now
    (demo_block demo_nonce (1781568000000 + 300001) (str "hi")) (str "hi") NewVerifier).
  - vm_compute. intuition congruence.
  - reflexivity.
Defined.

(** The far-future case on a concrete block: a timestamp three centuries ahead
    is accepted. *)
Example far_future_accepted :
  (Verify (HE := toy_ed25519) (HN := offline) demo_now
     (demo_block demo_nonce (1781568000000 + 2 ^ 54) (str "hi")) (str "hi") NewVerifier).1 = Ok tt.
Proof. vm_compute. reflexivity. Qed.

(** Verify reads the clock before it takes the lock, so two concurrent calls may
    enter the critical section in the opposite order of their clock readings.
    The hypothesis [monotone] of [no_replay] is then false, and the block
    accepted first is accepted again: the later reading evicts its entry, the
    earlier reading still finds its timestamp within the window. *)
Example clock_race_admits_replay :
  let calls := [mkCall 0 (demo_block demo_nonce 0 (str "hi")) (str "hi");
                mkCall (300001 * 1000000) (demo_block (repeat xbb 16) 300001 (str "yo")) (str "yo");
                mkCall (300000 * 1000000) (demo_block demo_nonce 0 (str "hi")) (str "hi")] in
  verify_all (HE := toy_ed25519) (HN := offline) calls NewVerifier = [Ok tt; Ok tt; Ok tt].
Proof. vm_compute. reflexivity. Qed.

(** ** Absence of panics *)

Definition client_total (v : Verifier) : Prop :=
  forall r f u p, v_Resolver v = Some r -> HTTPClient r = Some f -> f u <> Panic p.

Section NoPanic.
Context `{HE : Ed25519} `{HN : NetEnv} `{HT : !NetTotal}.

Lemma fetchDIDDocument_never_panics v r u p :
  client_total v -> v_Resolver v = Some r -> fetchDIDDocument r u <> Panic p.
Proof.
  intros Hc Hr. unfold fetchDIDDocument.
  intros [E|(_ & _ & [E%on_err_Panic|(resp & _ & E)]%bind_Panic)]%bind_Panic.
  - by apply NewRequest_total in E.
  - unfold httpClient in E. case_match eqn:Ec; [by eapply Hc|by apply DefaultDo_total in E].
  - case_match; [done|].
    apply bind_Panic in E as [E%on_err_Panic|(body & _ & E%on_err_Panic)].
    + unfold ReadAll in E. by repeat case_match.
    + by apply json_Unmarshal_never_panics in E.
Qed.

Lemma ResolveKey_never_panics v vmid p : client_total v -> ResolveKey v vmid <> Panic p.
Proof.
  intros Hc. unfold ResolveKey. destruct (Cut vmid x23) as [[did frag] found].
  case_match.
  { unfold ParseDIDKey. case_match; [done|]. apply decodeMultibase_never_panics. }
  case_match; [|done]. case_bool_decide; [done|].
  destruct (v_Resolver v) as [r|] eqn:Hr; [|done].
  intros [E|(u & _ & [E|(doc & _ & E)]%bind_Panic)]%bind_Panic.
  - by apply didWebToURL_never_panics in E.
  - by eapply fetchDIDDocument_never_panics in E.
  - case_match; [|done]. by apply decodeMultibase_never_panics in E.
Qed.

(** No signature block, however malformed, makes Verify panic, as long as the
    HTTP client and the JSON decoder do not: in particular ed25519.Verify, which
    panics on a key of the wrong length, is only called with a 32-byte key. *)
Lemma Verify_total now block msg v p :
  client_total v -> (Verify now block msg v).1 <> Panic p.
Proof.
  intros Hc. rewrite Verify_unfold. repeat (case_match; [done|]).
  destruct (check_and_record _ _ _ _ v) as [[[]|e|p'] v'] eqn:E; simpl; [|done|].
  2: by apply check_and_record_Panic in E.
  apply check_and_record_Ok in E as (_ & _ & _ & Hres).
  unfold check_signature. destruct (Cut (VMID block) x23) as [[did frag] found].
  intros [E%on_err_Panic|(pub & E%on_err_Ok & Hv)]%bind_Panic.
  - revert E. apply ResolveKey_never_panics. unfold client_total. by rewrite Hres.
  - apply ResolveKey_size in E. unfold VerifyEd25519 in Hv. rewrite E in Hv. simpl in Hv.
    by case_match.
Qed.
End NoPanic.
