(* ===== verification/VerifierConc.v ===== *)
(** * Concurrent Verify calls

    Verify of [identity.go] as its goroutines run it on a shared Verifier: the
    clock is read before the mutex is taken, the replay cache is used under the
    mutex, the key is resolved and the signature checked after it is released.
    Calls interleave between these phases. *)

From Stdlib Require Import Strings.Byte.
From stdpp Require Import base numbers list gmap strings.
From S2P Require Import Prelude Machine GoTime Phases GoStrings Varint Frame Stream Base58.
From S2P Require Import Identity DidWeb Verifier.
Open Scope Z_scope.

(** ** The phases of Verify *)

(** What is decided before the mutex: the error returned, if any. *)
Definition prechecks (now : Time) (block : SignatureBlock) (w : Duration) : option error :=
  if negb (bool_decide (Algorithm block = SigAlgEd25519)) then
    Some (Errorf "%w: unknown algorithm 0x%02x" (Some (Sentinel ErrBadSignature))
            [ArgInt (bval (Algorithm block))])
  else if w <? abs_skew now (TimestampMS block) then
    Some (Errorf "%w: skew=%s" (Some (Sentinel ErrStaleTimestamp))
            [ArgInt (abs_skew now (TimestampMS block))])
  else if bool_decide (did_of block = []) then
    Some (Errorf "%w: VMID missing DID portion: %q" (Some (Sentinel ErrUnresolvableDID))
            [ArgStr (VMID block)])
  else None.

Section Phases.
Context `{HE : Ed25519} `{HN : NetEnv}.

(** Run without interruption, the phases are Verify. *)
Lemma Verify_phases now block msg v :
  Verify now block msg v =
  match prechecks now block (v_Window v) with
  | Some e => (Err e, v)
  | None =>
      match check_and_record now (did_of block) (Nonce block) (TimestampMS block) v with
      | (Ok _, v) => (check_signature v block msg, v)
      | (Err e, v) => (Err e, v)
      | (Panic p, v) => (Panic p, v)
      end
  end.
Proof. rewrite Verify_unfold. unfold prechecks. by repeat case_match. Qed.

Lemma check_and_record_const now did nonce ts v :
  v_Window (check_and_record now did nonce ts v).2 = v_Window v /\
  v_Resolver (check_and_record now did nonce ts v).2 = v_Resolver v.
Proof. unfold check_and_record. by case_match. Qed.

(** The signature check reads nothing of the Verifier but its Resolver. *)
Lemma check_signature_const v v' block msg :
  v_Resolver v' = v_Resolver v -> check_signature v' block msg = check_signature v block msg.
Proof.
  intros H. unfold check_signature, ResolveKey. rewrite H. done.
Qed.

(** ** Sequential runs *)

Definition verify_run (calls : list call) (v : Verifier) : Verifier :=
  foldl (fun v c => (Verify (c_now c) (c_block c) (c_msg c) v).2) v calls.

Lemma verify_run_snoc calls c v :
  verify_run (calls ++ [c]) v = (Verify (c_now c) (c_block c) (c_msg c) (verify_run calls v)).2.
Proof. unfold verify_run. by rewrite foldl_app. Qed.

Lemma verify_run_Window calls v : v_Window (verify_run calls v) = v_Window v.
Proof.
  induction calls as [|c calls IH] using rev_ind; [done|].
  by rewrite verify_run_snoc, Verify_Window.
Qed.

Lemma verify_run_Resolver calls v : v_Resolver (verify_run calls v) = v_Resolver v.
Proof.
  induction calls as [|c calls IH] using rev_ind; [done|].
  by rewrite verify_run_snoc, Verify_Resolver.
Qed.

Lemma verify_all_length calls v : length (verify_all calls v) = length calls.
Proof.
  revert v. induction calls as [|c calls IH]; intros v; cbn; [done|].
  destruct (Verify _ _ _ v) as [r v']. cbn. by rewrite IH.
Qed.

Lemma verify_all_snoc calls c v :
  verify_all (calls ++ [c]) v =
  verify_all calls v ++ [(Verify (c_now c) (c_block c) (c_msg c) (verify_run calls v)).1].
Proof.
  revert v. induction calls as [|c0 calls IH]; intros v; cbn.
  - by destruct (Verify _ _ _ v).
  - destruct (Verify (c_now c0) (c_block c0) (c_msg c0) v) as [r v'] eqn:E. cbn. by rewrite IH.
Qed.
End Phases.

(** ** Interleavings *)

(** Where a call of Verify stands.  [k] is its place in [vs_log]. *)
Inductive vthread : Type :=
| VCalled (b : SignatureBlock) (m : bytes)              (* before v.Clock() *)
| VChecked (now : Time) (b : SignatureBlock) (m : bytes) (* before v.mu.Lock() *)
| VRecorded (k : nat) (b : SignatureBlock) (m : bytes). (* after v.mu.Unlock() *)

(** The clock, the shared Verifier, the calls in progress, and two records of
    what happened: [vs_log], the calls in the order in which they took effect,
    each with its clock reading and the time at which it took effect, and
    [vs_results], what the calls returned. *)
Record vstate := mkVS {
  vs_clock : Time;
  vs_ver : Verifier;
  vs_threads : list vthread;
  vs_log : list (call * Time);
  vs_results : list (nat * go unit);
}.

Section Interleavings.
Context `{HE : Ed25519} `{HN : NetEnv}.

(** One phase of one call, an invocation, or the passing of time. *)
Inductive vstep (s : vstate) : vstate -> Prop :=
| v_tick t : vs_clock s <= t ->
    vstep s (mkVS t (vs_ver s) (vs_threads s) (vs_log s) (vs_results s))
| v_call b m :
    vstep s (mkVS (vs_clock s) (vs_ver s) (VCalled b m :: vs_threads s) (vs_log s) (vs_results s))
| v_refused pre post b m e :
    vs_threads s = pre ++ VCalled b m :: post ->
    prechecks (vs_clock s) b (v_Window (vs_ver s)) = Some e ->
    vstep s (mkVS (vs_clock s) (vs_ver s) (pre ++ post)
      (vs_log s ++ [(mkCall (vs_clock s) b m, vs_clock s)])
      ((length (vs_log s), Err e) :: vs_results s))
| v_passed pre post b m :
    vs_threads s = pre ++ VCalled b m :: post ->
    prechecks (vs_clock s) b (v_Window (vs_ver s)) = None ->
    vstep s (mkVS (vs_clock s) (vs_ver s) (pre ++ VChecked (vs_clock s) b m :: post)
      (vs_log s) (vs_results s))
| v_replayed pre post now b m e v' :
    vs_threads s = pre ++ VChecked now b m :: post ->
    check_and_record now (did_of b) (Nonce b) (TimestampMS b) (vs_ver s) = (Err e, v') ->
    vstep s (mkVS (vs_clock s) v' (pre ++ post)
      (vs_log s ++ [(mkCall now b m, vs_clock s)])
      ((length (vs_log s), Err e) :: vs_results s))
| v_recorded pre post now b m v' :
    vs_threads s = pre ++ VChecked now b m :: post ->
    check_and_record now (did_of b) (Nonce b) (TimestampMS b) (vs_ver s) = (Ok tt, v') ->
    vstep s (mkVS (vs_clock s) v' (pre ++ VRecorded (length (vs_log s)) b m :: post)
      (vs_log s ++ [(mkCall now b m, vs_clock s)]) (vs_results s))
| v_returns pre post k b m :
    vs_threads s = pre ++ VRecorded k b m :: post ->
    vstep s (mkVS (vs_clock s) (vs_ver s) (pre ++ post) (vs_log s)
      ((k, check_signature (vs_ver s) b m) :: vs_results s)).

Definition vs_init (t : Time) (v : Verifier) : vstate := mkVS t v [] [] [].

Inductive vreachable (t0 : Time) (v0 : Verifier) : vstate -> Prop :=
| vr_init : vreachable t0 v0 (vs_init t0 v0)
| vr_step s s' : vreachable t0 v0 s -> vstep s s' -> vreachable t0 v0 s'.

(** The calls that took effect, in that order. *)
Definition linear (s : vstate) : list call := (vs_log s).*1.

(** ** Linearizability

    Verify is an operation in phases: its outer phases read the Window and the
    Resolver, which never change. *)

#[export] Instance verify_phased : Phased (SignatureBlock * bytes) Verifier (go unit) := {|
  ph_pre now '(b, _) v := Err <$> prechecks now b (v_Window v);
  ph_lock now '(b, _) v :=
    match check_and_record now (did_of b) (Nonce b) (TimestampMS b) v with
    | (Ok _, v) => (None, v)
    | (Err e, v) => (Some (Err e), v)
    | (Panic p, v) => (Some (Panic p), v)
    end;
  ph_post '(b, m) v := check_signature v b m;
|}.

#[export] Instance verify_phased_laws : PhasedLaws (SignatureBlock * bytes) Verifier (go unit).
Proof.
  split; cbn.
  - intros now [b m] now' [b' m'] v.
    pose proof (check_and_record_const now' (did_of b') (Nonce b') (TimestampMS b') v) as [H _].
    destruct (check_and_record _ _ _ _ _) as [[?|?|?] v']; cbn in *; by rewrite H.
  - intros [b m] now' [b' m'] v.
    pose proof (check_and_record_const now' (did_of b') (Nonce b') (TimestampMS b') v) as [_ H].
    destruct (check_and_record _ _ _ _ _) as [[?|?|?] v']; cbn in *; by apply check_signature_const.
Qed.

Lemma verify_op now b m v : ph_op now (b, m) v = Verify now b m v.
Proof.
  rewrite Verify_phases. unfold ph_op. cbn. destruct (prechecks _ _ _); [done|]. cbn.
  by destruct (check_and_record _ _ _ _ _) as [[?|?|?] v'].
Qed.

Definition to_thread (t : vthread) : pthread (SignatureBlock * bytes) :=
  match t with
  | VCalled b m => PCalled (b, m)
  | VChecked now b m => PChecked now (b, m)
  | VRecorded k b m => PLocked k (b, m)
  end.
Definition to_call (c : call) : Time * (SignatureBlock * bytes) := (c_now c, (c_block c, c_msg c)).
Definition to_ps (s : vstate) : pstate (SignatureBlock * bytes) Verifier (go unit) :=
  mkPS (vs_clock s) (vs_ver s) (to_thread <$> vs_threads s)
    ((fun '(c, t) => (to_call c, t)) <$> vs_log s) (vs_results s).

Lemma to_ps_linear s : plinear (to_ps s) = to_call <$> linear s.
Proof.
  unfold plinear, linear. cbn. rewrite <-!list_fmap_compose. apply list_fmap_ext. by intros i [c t].
Qed.

Lemma prun_verify calls v : prun (to_call <$> calls) v = verify_run calls v.
Proof.
  revert v. induction calls as [|c calls IH]; intros v; [done|].
  cbn [fmap list_fmap]. change (prun (to_call <$> calls) (ph_op (c_now c) (c_block c, c_msg c) v).2 = verify_run (c :: calls) v).
  by rewrite verify_op, IH.
Qed.

Lemma pall_verify calls v : pall (to_call <$> calls) v = verify_all calls v.
Proof.
  revert v. induction calls as [|c calls IH]; intros v; [done|]. cbn -[ph_op]. rewrite verify_op.
  destruct (Verify _ _ _ v) as [r v']. by rewrite IH.
Qed.

Lemma vstep_pstep s s' : vstep s s' -> pstep (to_ps s) (to_ps s').
Proof.
  intros Hst. unfold to_ps.
  destruct Hst as [t Ht|b m|pre post b m e Hts Hp|pre post b m Hts Hp
    |pre post now b m e v' Hts Hp|pre post now b m v' Hts Hp|pre post k b m Hts];
    cbn [vs_clock vs_ver vs_threads vs_log vs_results]; rewrite ?Hts; repeat rewrite fmap_app;
    rewrite <-?(length_fmap (fun '(c, t) => (to_call c, t)) (vs_log s)).
  - by apply (p_tick (to_ps s)).
  - apply (p_call (to_ps s)).
  - eapply (p_refused (mkPS _ _ _ _ _)); [done|]. cbn. by rewrite Hp.
  - eapply (p_passed (mkPS _ _ _ _ _)); [done|]. cbn. by rewrite Hp.
  - eapply (p_locked_returns (mkPS _ _ _ _ _)); [done|]. cbn. by rewrite Hp.
  - eapply (p_locked (mkPS _ _ _ _ _)); [done|]. cbn. by rewrite Hp.
  - change (check_signature (vs_ver s) b m) with (ph_post (b, m) (vs_ver s)).
    by eapply (p_returns (mkPS _ _ _ _ _)).
Qed.

Lemma vreachable_pinv t0 v0 s : vreachable t0 v0 s -> pinv v0 (to_ps s).
Proof.
  intros H. apply (preachable_pinv t0). induction H as [|s s' _ IH Hst]; [apply pr_init|].
  eapply pr_step; [exact IH|]. by apply vstep_pstep.
Qed.

Record vinv (v0 : Verifier) (s : vstate) : Prop := {
  vi_ver : vs_ver s = verify_run (linear s) v0;
  vi_results k r : (k, r) ∈ vs_results s -> verify_all (linear s) v0 !! k = Some r;
  vi_nodup : NoDup (vs_results s).*1;
  vi_returned : vs_threads s = [] -> (vs_results s).*1 ≡ₚ seq 0 (length (vs_log s));
  vi_times c t : (c, t) ∈ vs_log s -> c_now c <= t <= vs_clock s;
  vi_sorted i j ci ti cj tj : (i <= j)%nat ->
    vs_log s !! i = Some (ci, ti) -> vs_log s !! j = Some (cj, tj) -> ti <= tj;
}.

Lemma vreachable_vinv t0 v0 s : vreachable t0 v0 s -> vinv v0 s.
Proof.
  intros H%vreachable_pinv. split.
  - by rewrite <-prun_verify, <-to_ps_linear, <-(pi_obj _ _ H).
  - intros k r Hr%(pi_results _ _ H). by rewrite to_ps_linear, pall_verify in Hr.
  - exact (pinv_results_nodup _ _ H).
  - intros Ht. pose proof (pinv_all_returned _ _ H) as Hp. cbn in Hp. rewrite Ht, length_fmap in Hp. by apply Hp.
  - intros c t Hc. apply (pi_times _ _ H (c_now c) (c_block c, c_msg c)). cbn.
    apply list_elem_of_fmap. by exists (c, t).
  - intros i j ci ti cj tj Hij Hi Hj. apply (pi_sorted _ _ H i j (to_call ci) ti (to_call cj) tj Hij);
      cbn; rewrite list_lookup_fmap; [by rewrite Hi|by rewrite Hj].
Qed.
End Interleavings.

(** C9: concurrent Verify calls are linearizable.  In every interleaving of calls
    on a shared Verifier there is one order of the calls (that in which they take
    effect, each between its invocation and its return and at or after its clock
    reading) such that the Verifier's contents are those of running Verify on
    them one after the other, every call returned exactly what Verify returns at
    its place, and none returned twice; when no call is in progress all have
    returned. *)
Theorem verify_linearizable `{HE : Ed25519} `{HN : NetEnv} t0 v0 s :
  vreachable t0 v0 s ->
  vs_ver s = verify_run (linear s) v0 /\
  (forall k r, (k, r) ∈ vs_results s -> verify_all (linear s) v0 !! k = Some r) /\
  NoDup (vs_results s).*1 /\
  (forall c t, (c, t) ∈ vs_log s -> c_now c <= t <= vs_clock s) /\
  (vs_threads s = [] -> (vs_results s).*1 ≡ₚ seq 0 (length (vs_log s))).
Proof.
  intros H%vreachable_vinv. split_and!.
  - apply (vi_ver _ _ H).
  - apply (vi_results _ _ H).
  - apply (vi_nodup _ _ H).
  - apply (vi_times _ _ H).
  - apply (vi_returned _ _ H).
Qed.

(** ** The race on the clock *)

Section Race.
Context `{HE : Ed25519} `{HN : NetEnv}.

(** An accepted block stays recorded until a call whose reading is past its
    window. *)
Lemma accepted_spent calls v i c T :
  Forall (fun c => c_now c <= T /\ clock_ok (v_Window v) (c_now c)) calls ->
  calls !! i = Some c -> verify_all calls v !! i = Some (Ok tt) ->
  spent (verify_run calls v) T (c_block c).
Proof.
  induction calls as [|c0 calls IH] using rev_ind; intros Hf Hi Hok; [done|].
  apply Forall_app in Hf as [Hf [[Hn Hc] _]%Forall_cons].
  rewrite verify_run_snoc. rewrite verify_all_snoc in Hok.
  apply lookup_snoc_Some in Hi as [[Hlt Hi]|[-> <-]].
  - rewrite lookup_app_l in Hok by (by rewrite verify_all_length).
    destruct (IH Hf Hi Hok) as [Hr|He]; unfold spent; rewrite Verify_Window; [|by right].
    destruct (Verify_keeps (c_now c0) (c_block c0) (c_msg c0) (verify_run calls v)
      (did_of (c_block c)) (Nonce (c_block c)) (TimestampMS (c_block c))) as [?|He];
      [by rewrite verify_run_Window|done|by left|right; lia].
  - rewrite lookup_app_r in Hok by (by rewrite verify_all_length).
    rewrite verify_all_length, Nat.sub_diag in Hok. cbn in Hok.
    destruct (Verify _ _ _ _) as [r v'] eqn:E. cbn in *. simplify_eq.
    destruct (Verify_spends _ _ _ _ _ E) as [?|?]; [by left|right; lia].
Qed.

(** The call at place [j] runs on what the earlier ones left. *)
Lemma verify_all_at calls v j c :
  calls !! j = Some c ->
  verify_all calls v !! j =
  Some (Verify (c_now c) (c_block c) (c_msg c) (verify_run (take j calls) v)).1.
Proof.
  intros Hj. rewrite <-pall_verify, (pall_at _ _ j (c_now c) (c_block c, c_msg c)).
  - by rewrite verify_op, <-fmap_take, prun_verify.
  - by rewrite list_lookup_fmap, Hj.
Qed.

Lemma verify_all_take calls v i j :
  (i < j)%nat -> verify_all (take j calls) v !! i = verify_all calls v !! i.
Proof.
  intros Hij. rewrite <-!pall_verify, fmap_take. by apply pall_take.
Qed.
End Race.

(** How far the race on the clock reaches.  If no call takes longer than
    [delta] between reading the clock and taking effect, then in any
    interleaving two accepted calls with the same DID, nonce and timestamp are
    only possible when the second read a clock within [delta] of the end of the
    window: the replay of a block that is younger than Window - delta is
    refused. *)
Lemma replay_needs_race `{HE : Ed25519} `{HN : NetEnv} t0 v0 s delta i j ci ti cj tj :
  vreachable t0 v0 s ->
  Forall (fun '(c, t) => t <= c_now c + delta /\ clock_ok (v_Window v0) (c_now c)) (vs_log s) ->
  (i < j)%nat -> vs_log s !! i = Some (ci, ti) -> vs_log s !! j = Some (cj, tj) ->
  same_id (c_block ci) (c_block cj) ->
  (i, Ok tt) ∈ vs_results s -> (j, Ok tt) ∈ vs_results s ->
  v_Window v0 - delta < c_now cj - TimestampMS (c_block cj) * 1000000 <= v_Window v0.
Proof.
  intros H%vreachable_vinv Hf Hij Hi Hj (Hd & Hn & Ht) Hri Hrj.
  apply (vi_results _ _ H) in Hri, Hrj.
  assert (linear s !! i = Some ci) as Li by (unfold linear; by rewrite list_lookup_fmap, Hi).
  assert (linear s !! j = Some cj) as Lj by (unfold linear; by rewrite list_lookup_fmap, Hj).
  rewrite Forall_forall in Hf.
  destruct (Hf (cj, tj) (list_elem_of_lookup_2 _ _ _ Hj)) as [Hdelta Hcj].
  assert (spent (verify_run (take j (linear s)) v0) tj (c_block ci)) as Hs.
  { apply (accepted_spent _ _ i); [|by rewrite lookup_take_lt|by rewrite verify_all_take].
    apply Forall_lookup. intros k c Hk. apply lookup_take_Some in Hk as [Hk Hlt].
    unfold linear in Hk. rewrite list_lookup_fmap in Hk.
    destruct (vs_log s !! k) as [[c' t']|] eqn:El; cbn in Hk; simplify_eq.
    pose proof (vi_sorted _ _ H k j _ _ _ _ ltac:(lia) El Hj) as Hle.
    apply list_elem_of_lookup_2 in El. apply (vi_times _ _ H) in El as Hx.
    destruct (Hf _ El) as [_ ?]. split; [lia|done]. }
  rewrite (verify_all_at _ _ _ _ Lj) in Hrj. injection Hrj as Hrj.
  destruct (Verify _ _ _ _) as [r v'] eqn:E. cbn in Hrj. subst r.
  apply Verify_Ok_inv in E as (_ & Hskew & _ & Hrec & _).
  rewrite verify_run_Window in Hskew.
  destruct Hs as [Hs|Hs].
  - apply check_and_record_Ok in Hrec as (Hnone & _). rewrite Hd, Hn in Hs. congruence.
  - rewrite verify_run_Window in Hs. rewrite Ht in Hs. split; [lia|].
    destruct (Z.le_gt_cases (c_now cj - TimestampMS (c_block cj) * 1000000) (v_Window v0)) as [|Hgt]; [done|].
    apply abs_skew_expired in Hgt; [lia|by destruct Hcj].
Qed.

(** ** Executions, for evaluating the model *)

(** A schedule: let time pass, invoke Verify, or run a phase of the [i]-th call
    in progress. *)
Inductive vaction : Type :=
| ATick (t : Time)
| ACall (b : SignatureBlock) (m : bytes)
| AMove (i : nat).

Section Schedules.
Context `{HE : Ed25519} `{HN : NetEnv}.

Definition vexec1 (a : vaction) (s : vstate) : option vstate :=
  let '(mkVS clock v ts log rs) := s in
  match a with
  | ATick t => if clock <=? t then Some (mkVS t v ts log rs) else None
  | ACall b m => Some (mkVS clock v (VCalled b m :: ts) log rs)
  | AMove i =>
      let pre := take i ts in let post := drop (S i) ts in
      match ts !! i with
      | None => None
      | Some (VCalled b m) =>
          match prechecks clock b (v_Window v) with
          | Some e => Some (mkVS clock v (pre ++ post) (log ++ [(mkCall clock b m, clock)])
                              ((length log, Err e) :: rs))
          | None => Some (mkVS clock v (pre ++ VChecked clock b m :: post) log rs)
          end
      | Some (VChecked now b m) =>
          match check_and_record now (did_of b) (Nonce b) (TimestampMS b) v with
          | (Ok _, v') => Some (mkVS clock v' (pre ++ VRecorded (length log) b m :: post)
                                  (log ++ [(mkCall now b m, clock)]) rs)
          | (Err e, v') => Some (mkVS clock v' (pre ++ post) (log ++ [(mkCall now b m, clock)])
                                   ((length log, Err e) :: rs))
          | (Panic _, _) => None
          end
      | Some (VRecorded k b m) =>
          Some (mkVS clock v (pre ++ post) log ((k, check_signature v b m) :: rs))
      end
  end.

Fixpoint vexec (acts : list vaction) (s : vstate) : option vstate :=
  match acts with
  | [] => Some s
  | a :: acts => s' ← vexec1 a s; vexec acts s'
  end.

Lemma vexec1_sound a s s' : vexec1 a s = Some s' -> vstep s s'.
Proof.
  destruct s as [clock v ts log rs]. destruct a as [t|b m|i]; cbn; intros E.
  - case_match eqn:Hc; simplify_eq. zbool. by apply (v_tick (mkVS clock v ts log rs)).
  - simplify_eq. apply (v_call (mkVS clock v ts log rs)).
  - destruct (ts !! i) as [t|] eqn:Hi; [|done]. apply take_drop_middle in Hi. destruct t as [b m|now b m|k b m].
    + destruct (prechecks _ _ _) eqn:Hp; simplify_eq;
        [by eapply (v_refused (mkVS clock v ts log rs))|by eapply (v_passed (mkVS clock v ts log rs))].
    + destruct (check_and_record _ _ _ _ _) as [[[]|e|p] v'] eqn:Hp; simplify_eq;
        [by eapply (v_recorded (mkVS clock v ts log rs))|by eapply (v_replayed (mkVS clock v ts log rs))].
    + simplify_eq. by eapply (v_returns (mkVS clock v ts log rs)).
Qed.

Lemma vexec_reachable acts t0 v0 s s' :
  vreachable t0 v0 s -> vexec acts s = Some s' -> vreachable t0 v0 s'.
Proof.
  revert s. induction acts as [|a acts IH]; intros s Hr E; cbn in E; [by simplify_eq|].
  destruct (vexec1 a s) as [s1|] eqn:E1; cbn in E; [|done].
  eapply IH; [|done]. eapply vr_step; [done|]. by eapply vexec1_sound.
Qed.
End Schedules.

(** The race: a block is accepted at time 0; a replay of it reads the clock at
    the last acceptable instant; before it takes the mutex another call, a
    millisecond later, evicts the block. *)
Definition race_block : SignatureBlock := demo_block demo_nonce 0 (str "hi").
Definition other_block : SignatureBlock := demo_block (repeat xbb 16) 300001 (str "yo").
Definition race : list vaction :=
  [ACall race_block (str "hi"); AMove 0; AMove 0; AMove 0;
   ATick (300000 * 1000000); ACall race_block (str "hi"); AMove 0;
   ATick (300001 * 1000000); ACall other_block (str "yo"); AMove 0; AMove 0; AMove 0;
   AMove 0; AMove 0].
Definition race_end : vstate :=
  default (vs_init 0 NewVerifier)
    (vexec (HE := toy_ed25519) (HN := offline) race (vs_init 0 NewVerifier)).

Lemma race_reachable : vreachable (HE := toy_ed25519) (HN := offline) 0 NewVerifier race_end.
Proof.
  apply (vexec_reachable (HE := toy_ed25519) (HN := offline) race 0 NewVerifier (vs_init 0 NewVerifier));
    [apply vr_init|vm_compute; reflexivity].
Qed.

Lemma race_log : vs_log race_end =
  [(mkCall 0 race_block (str "hi"), 0);
   (mkCall (300001 * 1000000) other_block (str "yo"), 300001 * 1000000);
   (mkCall (300000 * 1000000) race_block (str "hi"), 300001 * 1000000)].
Proof. vm_compute. reflexivity. Qed.

Lemma verify_linearizable_witness :
  vs_results race_end = [(2%nat, Ok tt); (1%nat, Ok tt); (0%nat, Ok tt)] /\
  verify_all (HE := toy_ed25519) (HN := offline) (linear race_end) NewVerifier !! 2%nat = Some (Ok tt).
Proof.
  split; [vm_compute; reflexivity|].
  destruct (verify_linearizable (HE := toy_ed25519) (HN := offline) 0 NewVerifier race_end race_reachable)
    as (_ & H & _).
  apply H. vm_compute. apply list_elem_of_here.
Defined.

Lemma replay_needs_race_witness :
  ReplayWindow - 1000000 < 300000 * 1000000 - 0 * 1000000 <= ReplayWindow.
Proof.
  apply (replay_needs_race (HE := toy_ed25519) (HN := offline) 0 NewVerifier race_end 1000000 0 2
    (mkCall 0 race_block (str "hi")) 0 (mkCall (300000 * 1000000) race_block (str "hi")) (300001 * 1000000)).
  - apply race_reachable.
  - rewrite race_log. repeat apply Forall_cons_2; [..|apply Forall_nil_2];
      vm_compute; intuition congruence.
  - lia.
  - rewrite race_log. reflexivity.
  - rewrite race_log. reflexivity.
  - repeat split.
  - vm_compute. apply list_elem_of_further, list_elem_of_further, list_elem_of_here.
  - vm_compute. apply list_elem_of_here.
Defined.
