(* ===== verification/Hello.v ===== *)
(** * HELLO payloads

    [handshake.go], the part that reads and writes HELLO payloads: the inner
    payload of v0.1, the signed payload of v0.2 and the decoder of both. *)

From Stdlib Require Import Strings.Byte.
From stdpp Require Import base numbers list gmap strings.
From S2P Require Import Prelude Machine GoTime GoStrings GoText Varint Frame Capability Base58.
From S2P Require Import Identity.
Open Scope Z_scope.

Record Version := mkVersion { Major : Z; Minor : Z }.

Global Instance Version_eq_decision : EqDecision Version.
Proof. solve_decision. Defined.

Definition CurrentVersion : Version := mkVersion 0 2.

(** [v.String()]. *)
Definition Version_String (v : Version) : bytes := Itoa (Major v) ++ x2e :: Itoa (Minor v).

(** ** Encoding *)

(** One turn of the loop over [caps]. *)
Definition append_cap (buf : bytes) (c : Capability) : go bytes :=
  buf ← appendString buf (Name c);
  buf ← AppendVarint buf (Version_ c);
  Ok (if Required c then buf ++ [x01] else buf ++ [x00]).

Fixpoint append_caps (buf : bytes) (caps : list Capability) : go bytes :=
  match caps with
  | [] => Ok buf
  | c :: caps => buf ← append_cap buf c; append_caps buf caps
  end.

Definition encodeHelloInner (ver : Version) (nodeID : bytes) (caps : list Capability)
    : go bytes :=
  buf ← AppendVarint [] (Major ver);
  buf ← AppendVarint buf (Minor ver);
  buf ← appendString buf nodeID;
  buf ← AppendVarint buf (len caps);
  append_caps buf caps.

Definition buildSignedHello (signer : Signer) (caps : list Capability) (nonce : bytes)
    (signedAt : Time) : go bytes :=
  inner ← encodeHelloInner CurrentVersion (s_DID signer) caps;
  let block := mkBlock SigAlgEd25519 (s_VMID signer) nonce (Time_UnixMilli signedAt) [] in
  msg ← signedMessageBytes FrameHello inner block;
  let block := mkBlock (Algorithm block) (VMID block) (Nonce block) (TimestampMS block)
                 (s_Sign signer msg) in
  trailer ← SignatureBlock_Encode block;
  Ok (inner ++ trailer).

(** ** Decoding *)

(** [make([]Capability, 0, n)] panics when [n] elements of 32 bytes (a string
    header, a uint64 and a padded bool) exceed the address space the runtime of
    a 64-bit platform can allocate, 2^48 bytes.  A smaller request is assumed
    to be granted. *)
Definition maxAlloc : Z := 1 ≪ 48.
Definition sizeof_Capability : Z := 32.

Definition make_caps (n : Z) : go (list Capability) :=
  if maxAlloc <? n * sizeof_Capability then Panic (PanicMakeSlice n) else Ok [].

(** The variables of the capability loop. *)
Record hstate := mkH { h_i : Z; h_pos : nat; h_caps : list Capability }.

Definition malformed (fmt : string) (args : list arg) : error :=
  Errorf fmt (Some (Sentinel ErrMalformedHello)) args.

Definition decode_cap (payload : bytes) (s : hstate) : go hstate :=
  let i := h_i s in
  let pos := h_pos s in
  '(name, n) ← on_err (fun e => malformed "%w: cap[%d].name: %v" [ArgInt i; ArgErr e])
                 (readString (drop pos payload));
  let pos := (pos + n)%nat in
  '(ver, n) ← on_err (fun e => malformed "%w: cap[%d].version: %v" [ArgInt i; ArgErr e])
                (ReadVarint (drop pos payload));
  let pos := (pos + n)%nat in
  match payload !! pos with
  | None => Err (malformed "%w: cap[%d].required: missing byte" [ArgInt i])
  | Some b =>
      req ← (if bool_decide (b = x00) then Ok false
             else if bool_decide (b = x01) then Ok true
             else Err (malformed "%w: cap[%d].required: invalid value 0x%02x"
                         [ArgInt i; ArgInt (bval b)]));
      Ok (mkH (i + 1) (S pos) (h_caps s ++ [mkCap name ver req]))
  end.

Definition decodeHelloPayloadV02 (payload : bytes)
    : go (Version * bytes * list Capability * bytes) :=
  let pos := 0%nat in
  '(major, n) ← on_err (fun e => malformed "%w: VerMajor: %v" [ArgErr e])
                  (ReadVarint (drop pos payload));
  let pos := (pos + n)%nat in
  '(minor, n) ← on_err (fun e => malformed "%w: VerMinor: %v" [ArgErr e])
                  (ReadVarint (drop pos payload));
  let pos := (pos + n)%nat in
  '(nodeID, n) ← on_err (fun e => malformed "%w: NodeID: %v" [ArgErr e])
                   (readString (drop pos payload));
  let pos := (pos + n)%nat in
  '(numCaps, n) ← on_err (fun e => malformed "%w: NumCaps: %v" [ArgErr e])
                    (ReadVarint (drop pos payload));
  let pos := (pos + n)%nat in
  caps ← make_caps numCaps;
  s ← for_n numCaps (decode_cap payload) (mkH 0 pos caps);
  Ok (mkVersion major minor, nodeID, h_caps s, drop (h_pos s) payload).

(** ** The layout of an inner payload *)

Definition req_byte (r : bool) : byte := if r then x01 else x00.

Definition cap_spells (bs : bytes) (c : Capability) : Prop :=
  exists b1 b2, bs = b1 ++ b2 ++ [req_byte (Required c)] /\
    spells b1 (Name c) /\ spells b2 (Version_ c).

Definition caps_spell (bs : bytes) (caps : list Capability) : Prop :=
  exists parts, bs = concat parts /\ Forall2 cap_spells parts caps.

(** [bs] is an inner payload, in any of its encodings. *)
Definition hello_spells (bs : bytes) (ver : Version) (nodeID : bytes) (caps : list Capability)
    : Prop :=
  len caps * sizeof_Capability <= maxAlloc /\
  exists b1 b2 b3 b4 b5,
    bs = b1 ++ b2 ++ b3 ++ b4 ++ b5 /\
    spells b1 (Major ver) /\ spells b2 (Minor ver) /\ spells b3 nodeID /\
    spells b4 (len caps) /\ caps_spell b5 caps.

(** A successful read at offset [length p] of [p ++ data]. *)
Lemma ReadVarint_at p data v n :
  ReadVarint (drop (length p) (p ++ data)) = Ok (v, n) <->
  exists bs rest, data = bs ++ rest /\ n = length bs /\ spells bs v.
Proof. rewrite drop_app_length. exact (dec_spells (H := varint_codec) data v n). Qed.

Lemma readString_at p data s n :
  readString (drop (length p) (p ++ data)) = Ok (s, n) <->
  exists bs rest, data = bs ++ rest /\ n = length bs /\ spells bs s.
Proof. rewrite drop_app_length. exact (dec_spells (H := string_codec) data s n). Qed.

Lemma req_byte_inv (b : byte) e req :
  (if bool_decide (b = x00) then Ok false
   else if bool_decide (b = x01) then Ok true else Err e) = Ok req <-> b = req_byte req.
Proof. repeat case_bool_decide; destruct req; simpl; naive_solver. Qed.

Lemma lookup_at {A} (p data : list A) : (p ++ data) !! length p = head data.
Proof. rewrite lookup_app_r, Nat.sub_diag by lia. by destruct data. Qed.

Lemma decode_cap_Ok p data i caps s :
  decode_cap (p ++ data) (mkH i (length p) caps) = Ok s <->
  exists bs rest c, data = bs ++ rest /\ cap_spells bs c /\
    s = mkH (i + 1) (length (p ++ bs)) (caps ++ [c]).
Proof.
  unfold decode_cap. cbn [h_i h_pos h_caps]. split.
  - intros E. apply bind_Ok in E as ([name n] & E1%on_err_Ok & E).
    apply readString_at in E1 as (b1 & r1 & -> & -> & S1). rewrite app_assoc, <-length_app in E.
    apply bind_Ok in E as ([ver m] & E2%on_err_Ok & E).
    apply ReadVarint_at in E2 as (b2 & r2 & -> & -> & S2). rewrite app_assoc, <-length_app in E.
    rewrite lookup_at in E. destruct r2 as [|b r2]; [done|]. cbn [head] in E.
    apply bind_Ok in E as (req & ->%req_byte_inv & E). simplify_eq.
    exists (b1 ++ b2 ++ [req_byte req]), r2, (mkCap name ver req).
    split; [by rewrite <-!app_assoc|]. split; [by exists b1, b2|].
    f_equal. rewrite !length_app. simpl. lia.
  - intros (bs & rest & c & -> & (b1 & b2 & -> & S1 & S2) & ->).
    rewrite <-!app_assoc.
    rewrite (proj2 (readString_at p _ (Name c) (length b1))) by eauto. cbn [on_err mbind go_bind].
    rewrite app_assoc, <-length_app.
    rewrite (proj2 (ReadVarint_at _ _ (Version_ c) (length b2))) by eauto. cbn [on_err mbind go_bind].
    rewrite app_assoc, <-length_app, lookup_at. cbn [app head].
    rewrite (proj2 (req_byte_inv _ _ (Required c))) by done. simpl. destruct c. simpl.
    do 2 f_equal. rewrite !length_app. simpl. lia.
Qed.
Arguments decode_cap : simpl never.

Lemma caps_spell_cons bs c caps :
  caps_spell bs (c :: caps) <->
  exists b1 b2, bs = b1 ++ b2 /\ cap_spells b1 c /\ caps_spell b2 caps.
Proof.
  unfold caps_spell. split.
  - intros (parts & -> & H). inversion H; subst. simpl. eauto 8.
  - intros (b1 & b2 & -> & H1 & parts & -> & H2). exists (b1 :: parts). eauto.
Qed.

Lemma decode_caps_Ok k p data i caps s :
  for_nat k (decode_cap (p ++ data)) (mkH i (length p) caps) = Ok s <->
  exists bs rest cs, data = bs ++ rest /\ length cs = k /\ caps_spell bs cs /\
    s = mkH (i + Z.of_nat k) (length (p ++ bs)) (caps ++ cs).
Proof.
  revert p data i caps. induction k as [|k IH]; intros p data i caps.
  - cbn [for_nat]. split.
    + intros [= <-]. exists [], data, []. rewrite !app_nil_r, Z.add_0_r.
      split_and!; [done..| |done]. by exists [].
    + intros (bs & rest & cs & -> & Hl & (parts & -> & Hp) & ->).
      apply nil_length_inv in Hl as ->. inversion Hp; subst. simpl.
      by rewrite !app_nil_r, Z.add_0_r.
  - cbn [for_nat]. rewrite bind_Ok. split.
    + intros (s1 & (bs & rest & c & -> & Hc & ->)%decode_cap_Ok & E).
      rewrite app_assoc in E. apply IH in E as (bs2 & rest2 & cs & -> & Hl & Hcs & ->).
      exists (bs ++ bs2), rest2, (c :: cs). rewrite <-!app_assoc. split_and!; [done|simpl; lia| |].
      * apply caps_spell_cons. eauto.
      * simpl. f_equal. lia.
    + intros (bs & rest & cs & -> & Hl & Hcs & ->). destruct cs as [|c cs]; [done|].
      apply caps_spell_cons in Hcs as (b1 & b2 & -> & Hc & Hcs).
      exists (mkH (i + 1) (length (p ++ b1)) (caps ++ [c])). split.
      * apply decode_cap_Ok. exists b1, (b2 ++ rest), c. by rewrite <-app_assoc.
      * rewrite <-app_assoc, app_assoc. apply IH. exists b2, rest, cs. simpl in Hl.
        rewrite <-!app_assoc. split_and!; [done|lia|done|f_equal; lia].
Qed.

(** Exactly the payloads that decode. *)
Lemma decodeHello_Ok payload ver nodeID caps trailing :
  decodeHelloPayloadV02 payload = Ok (ver, nodeID, caps, trailing) <->
  exists inner, payload = inner ++ trailing /\ hello_spells inner ver nodeID caps.
Proof.
  unfold decodeHelloPayloadV02. split.
  - intros E. apply bind_Ok in E as ([major n] & E1%on_err_Ok & E).
    change 0%nat with (length (@nil byte)) in *. change payload with ([] ++ payload) in *.
    apply ReadVarint_at in E1 as (b1 & r1 & -> & -> & S1). rewrite app_assoc, <-length_app in E.
    apply bind_Ok in E as ([minor m] & E2%on_err_Ok & E).
    apply ReadVarint_at in E2 as (b2 & r2 & -> & -> & S2). rewrite app_assoc, <-length_app in E.
    apply bind_Ok in E as ([node m] & E3%on_err_Ok & E).
    apply readString_at in E3 as (b3 & r3 & -> & -> & S3). rewrite app_assoc, <-length_app in E.
    apply bind_Ok in E as ([num m] & E4%on_err_Ok & E).
    apply ReadVarint_at in E4 as (b4 & r4 & -> & -> & S4). rewrite app_assoc, <-length_app in E.
    apply bind_Ok in E as (cs & Hm & E). unfold make_caps in Hm. case_match; simplify_eq. zbool.
    assert (0 <= num) as Hnum.
    { specialize (S4 []). apply ReadVarint_range in S4. lia. }
    rewrite for_n_to_nat in E by done.
    apply bind_Ok in E as (s & (b5 & rest & cs & -> & Hl & Hcs & ->)%decode_caps_Ok & E).
    cbn [h_caps h_pos] in E. rewrite (app_assoc _ b5 rest), drop_app_length in E.
    injection E as <- <- <- <-.
    exists (b1 ++ b2 ++ b3 ++ b4 ++ b5). rewrite <-!app_assoc. split; [done|].
    split; [by rewrite Hl, Z2Nat.id by done|]. exists b1, b2, b3, b4, b5.
    split_and!; try done. by rewrite Hl, Z2Nat.id by done.
  - intros (inner & -> & Hmax & b1 & b2 & b3 & b4 & b5 & -> & S1 & S2 & S3 & S4 & S5).
    rewrite <-!app_assoc. change (b1 ++ ?x) with ([] ++ b1 ++ x).
    change 0%nat with (length (@nil byte)).
    rewrite (proj2 (ReadVarint_at [] _ (Major ver) (length b1))) by eauto.
    cbn [on_err mbind go_bind]. rewrite app_assoc, <-length_app.
    rewrite (proj2 (ReadVarint_at _ _ (Minor ver) (length b2))) by eauto.
    cbn [on_err mbind go_bind]. rewrite app_assoc, <-length_app.
    rewrite (proj2 (readString_at _ _ nodeID (length b3))) by eauto.
    cbn [on_err mbind go_bind]. rewrite app_assoc, <-length_app.
    rewrite (proj2 (ReadVarint_at _ _ (len caps) (length b4))) by eauto.
    cbn [on_err mbind go_bind]. rewrite app_assoc, <-length_app.
    unfold make_caps. rewrite (proj2 (Z.ltb_ge _ _)) by done. cbn [mbind go_bind].
    rewrite for_n_nat.
    rewrite (proj2 (decode_caps_Ok _ _ _ _ _ (mkH (0 + Z.of_nat (length caps))
      (length ((((([] ++ b1) ++ b2) ++ b3) ++ b4) ++ b5)) ([] ++ caps))))
      by (exists b5, trailing, caps; done).
    cbn [mbind go_bind h_caps h_pos]. rewrite (app_assoc _ b5), drop_app_length. by destruct ver.
Qed.
Arguments decodeHelloPayloadV02 : simpl never.

(** ** Encoding succeeds on what fits *)

Definition cap_valid (c : Capability) : Prop :=
  len (Name c) <= MaxVarint /\ 0 <= Version_ c <= MaxVarint.

(** What encodeHelloInner can encode and a peer can decode. *)
Definition hello_valid (ver : Version) (nodeID : bytes) (caps : list Capability) : Prop :=
  0 <= Major ver <= MaxVarint /\ 0 <= Minor ver <= MaxVarint /\
  len nodeID <= MaxVarint /\ Forall cap_valid caps /\
  len caps * sizeof_Capability <= maxAlloc.

Lemma varint_spells v : 0 <= v <= MaxVarint -> spells (varint_bytes v) v.
Proof. intros Hv rest. by apply varint_roundtrip. Qed.

Lemma string_spells s : len s <= MaxVarint -> spells (string_bytes s) s.
Proof. intros Hs rest. by apply string_roundtrip. Qed.

Lemma append_caps_ok buf caps :
  Forall cap_valid caps ->
  exists bs, append_caps buf caps = Ok (buf ++ bs) /\ caps_spell bs caps.
Proof.
  intros H. revert buf. induction H as [|c caps [H1 H2] _ IH]; intros buf.
  { exists []. rewrite app_nil_r. split; [done|]. by exists []. }
  set (b := string_bytes (Name c) ++ varint_bytes (Version_ c) ++ [req_byte (Required c)]).
  destruct (IH (buf ++ b)) as (bs & E & Hbs). exists (b ++ bs). split.
  - cbn [append_caps]. unfold append_cap. rewrite appendString_ok by done. cbn [mbind go_bind].
    rewrite AppendVarint_ok by lia. cbn [mbind go_bind].
    replace (if Required c then _ else _) with (buf ++ b)
      by (unfold b; destruct (Required c); by rewrite <-!app_assoc).
    by rewrite E, <-app_assoc.
  - apply caps_spell_cons. exists b, bs. split_and!; [done| |done].
    eexists _, _. split; [done|]. split; [by apply string_spells|by apply varint_spells].
Qed.

Lemma encodeHelloInner_spells ver nodeID caps :
  hello_valid ver nodeID caps ->
  exists inner, encodeHelloInner ver nodeID caps = Ok inner /\
    hello_spells inner ver nodeID caps.
Proof.
  intros (H1 & H2 & H3 & H4 & H5). unfold encodeHelloInner.
  assert (len caps <= MaxVarint) as Hn.
  { unfold maxAlloc, sizeof_Capability in H5. rewrite MaxVarint_val.
    change (1 ≪ 48) with (2 ^ 48) in H5. pow_norm. lia. }
  rewrite AppendVarint_ok by lia. cbn [mbind go_bind].
  rewrite AppendVarint_ok by lia. cbn [mbind go_bind].
  rewrite appendString_ok by done. cbn [mbind go_bind].
  rewrite AppendVarint_ok by lia. cbn [mbind go_bind].
  destruct (append_caps_ok ((([] ++ varint_bytes (Major ver)) ++ varint_bytes (Minor ver)) ++
    string_bytes nodeID ++ varint_bytes (len caps)) caps H4) as (bs & E & Hbs).
  rewrite app_assoc in E. rewrite E. eexists. split; [done|]. split; [done|].
  exists (varint_bytes (Major ver)), (varint_bytes (Minor ver)), (string_bytes nodeID),
    (varint_bytes (len caps)), bs.
  split; [by rewrite <-!app_assoc|].
  split_and!; [apply varint_spells..|apply string_spells|apply varint_spells|]; done || lia.
Qed.

(** HELLO payloads round-trip.  Whatever a node advertises (within the
    62-bit integers of the wire), encodeHelloInner encodes, and
    decodeHelloPayloadV02 reads back version, NodeID and capabilities in order,
    returning exactly the bytes that follow as the trailer. *)
Lemma hello_roundtrip ver nodeID caps trailing :
  hello_valid ver nodeID caps ->
  exists inner, encodeHelloInner ver nodeID caps = Ok inner /\
    decodeHelloPayloadV02 (inner ++ trailing) = Ok (ver, nodeID, caps, trailing).
Proof.
  intros (inner & E & Hs)%encodeHelloInner_spells. exists inner. split; [done|].
  apply decodeHello_Ok. eauto.
Qed.

Lemma hello_roundtrip_witness :
  let caps := [mkCap (str "aire.did-method.key/1") 0 true; mkCap (str "com.acme.chat/2") 7 false] in
  exists inner, encodeHelloInner CurrentVersion (str "did:key:z6Mk") caps = Ok inner /\
    decodeHelloPayloadV02 (inner ++ [x01; x02]) =
      Ok (CurrentVersion, str "did:key:z6Mk", caps, [x01; x02]).
Proof.
  apply (hello_roundtrip CurrentVersion (str "did:key:z6Mk")
    [mkCap (str "aire.did-method.key/1") 0 true; mkCap (str "com.acme.chat/2") 7 false]).
  unfold hello_valid, cap_valid. repeat (split || constructor); vm_compute; congruence.
Defined.

(** ** Every outcome of the decoder *)

Lemma decode_cap_err payload s e :
  decode_cap payload s = Err e -> errors_Is e ErrMalformedHello = true.
Proof.
  unfold decode_cap. intros E.
  destruct (readString _) as [[? ?]|?|?]; simpl in E; simplify_eq; [|done].
  destruct (ReadVarint _) as [[? ?]|?|?]; simpl in E; simplify_eq; [|done].
  repeat case_match; simplify_eq/=; done.
Qed.

Lemma decode_cap_never_panics payload s p : decode_cap payload s <> Panic p.
Proof.
  unfold decode_cap.
  intros [E%on_err_Panic|([? ?] & _ & [E%on_err_Panic|([? ?] & _ & E)]%bind_Panic)]%bind_Panic.
  - by apply readString_never_panics in E.
  - by apply ReadVarint_never_panics in E.
  - case_match; [|done]. apply bind_Panic in E as [E|(? & _ & E)]; [|done].
    by repeat case_match.
Qed.

Lemma decode_caps_outcome k payload s :
  match for_nat k (decode_cap payload) s with
  | Ok _ => True
  | Err e => errors_Is e ErrMalformedHello = true
  | Panic _ => False
  end.
Proof.
  revert s. induction k as [|k IH]; intros s; [done|]. cbn [for_nat].
  destruct (decode_cap payload s) as [s'|e|p] eqn:E; simpl.
  - apply IH.
  - by eapply decode_cap_err.
  - by apply decode_cap_never_panics in E.
Qed.

Lemma spells_nonempty `{Codec A} bs (a : A) : spells bs a -> (0 < length bs)%nat.
Proof. intros Hs. specialize (Hs []). apply codec_bound in Hs. lia. Qed.

Lemma caps_spell_length bs caps : caps_spell bs caps -> (3 * length caps <= length bs)%nat.
Proof.
  revert bs. induction caps as [|c caps IH]; intros bs; [simpl; lia|].
  intros (b1 & b2 & -> & (x & y & -> & Hx%spells_nonempty & Hy%spells_nonempty) & Hcs%IH)%caps_spell_cons.
  rewrite !length_app. simpl. lia.
Qed.

Lemma decodeHello_err payload e :
  decodeHelloPayloadV02 payload = Err e -> errors_Is e ErrMalformedHello = true.
Proof.
  unfold decodeHelloPayloadV02. intros E.
  destruct (ReadVarint _) as [[? ?]|?|?]; simpl in E; simplify_eq; [|done].
  destruct (ReadVarint _) as [[? ?]|?|?]; simpl in E; simplify_eq; [|done].
  destruct (readString _) as [[? ?]|?|?]; simpl in E; simplify_eq; [|done].
  destruct (ReadVarint _) as [[z' ?]|?|?] eqn:E4; simpl in E; simplify_eq; [|done].
  unfold make_caps in E. case_match; simpl in E; [done|].
  apply ReadVarint_range in E4. rewrite for_n_to_nat in E by lia.
  pose proof (decode_caps_outcome (Z.to_nat z') payload (mkH 0 (n + n0 + n1 + n2) [])) as Ho.
  destruct (for_nat _ _ _); simpl in E; by simplify_eq.
Qed.

Lemma decodeHello_panic payload p :
  decodeHelloPayloadV02 payload = Panic p ->
  exists n, p = PanicMakeSlice n /\ 2 ^ 43 < n <= MaxVarint.
Proof.
  unfold decodeHelloPayloadV02. intros E.
  apply bind_Panic in E as [E%on_err_Panic|([? ?] & _ & E)]; [by apply ReadVarint_never_panics in E|].
  apply bind_Panic in E as [E%on_err_Panic|([? ?] & _ & E)]; [by apply ReadVarint_never_panics in E|].
  apply bind_Panic in E as [E%on_err_Panic|([? ?] & _ & E)]; [by apply readString_never_panics in E|].
  apply bind_Panic in E as [E%on_err_Panic|([num ?] & E4%on_err_Ok & E)];
    [by apply ReadVarint_never_panics in E|].
  apply ReadVarint_range in E4.
  unfold make_caps in E. case_match eqn:Hm; simpl in E.
  - simplify_eq. exists num. split; [done|]. zbool.
    unfold maxAlloc, sizeof_Capability in Hm. change (1 ≪ 48) with (2 ^ 48) in Hm.
    pow_norm. lia.
  - rewrite for_n_to_nat in E by lia.
    pose proof (decode_caps_outcome (Z.to_nat num) payload (mkH 0 (0 + n + n0 + n1 + n2) [])) as Ho.
    destruct (for_nat _ _ _); simpl in E; by simplify_eq.
Qed.

(** Every outcome of decodeHelloPayloadV02, on any bytes.  A success
    splits the payload into the inner part, which is at least three bytes per
    capability, and the trailer; every error wraps ErrMalformedHello; and the
    only panic is that of make, when the announced capability count exceeds
    2^43. *)
Lemma decodeHello_outcome payload :
  match decodeHelloPayloadV02 payload with
  | Ok (ver, nodeID, caps, trailing) =>
      exists inner, payload = inner ++ trailing /\ hello_spells inner ver nodeID caps /\
        (3 * length caps < length inner)%nat
  | Err e => errors_Is e ErrMalformedHello = true
  | Panic p => exists n, p = PanicMakeSlice n /\ 2 ^ 43 < n <= MaxVarint
  end.
Proof.
  destruct (decodeHelloPayloadV02 payload) as [[[[ver node] caps] trailing]|e|p] eqn:E.
  - apply decodeHello_Ok in E as (inner & -> & Hs). exists inner. split_and!; try done.
    destruct Hs as (_ & b1 & b2 & b3 & b4 & b5 & -> & Hb1%spells_nonempty & _ & _ & _ & H5).
    apply caps_spell_length in H5. rewrite !length_app. lia.
  - by eapply decodeHello_err.
  - by eapply decodeHello_panic.
Qed.

(** An 11-byte HELLO payload on which the decoder panics: NumCaps = 2^43 + 1. *)
Example hello_count_panics :
  decodeHelloPayloadV02 ([x00; x02; x00] ++ varint_bytes (2 ^ 43 + 1)) =
  Panic (PanicMakeSlice (2 ^ 43 + 1)).
Proof. vm_compute. reflexivity. Qed.

(** ** What a HELLO signature binds *)

Definition unsigned (sb : SignatureBlock) : SignatureBlock :=
  mkBlock (Algorithm sb) (VMID sb) (Nonce sb) (TimestampMS sb) [].

Definition meta_valid (sb : SignatureBlock) : Prop :=
  length (Nonce sb) = 16%nat /\ is_i64 (TimestampMS sb).

(** The metadata determines the block up to its signature. *)
Lemma meta_bytes_inj sb1 sb2 :
  len (VMID sb1) <= MaxVarint -> len (VMID sb2) <= MaxVarint ->
  meta_valid sb1 -> meta_valid sb2 ->
  meta_bytes sb1 = meta_bytes sb2 -> unsigned sb1 = unsigned sb2.
Proof.
  intros Hl1 Hl2 [Hn1 Ht1] [Hn2 Ht2] E.
  assert (forall sb, len (VMID sb) <= MaxVarint -> length (Nonce sb) = 16%nat ->
    is_i64 (TimestampMS sb) -> block_valid (unsigned sb)) as Hv.
  { intros sb ???. split_and!; try done. }
  pose proof (block_roundtrip (unsigned sb1) [] (Hv _ Hl1 Hn1 Ht1)) as R1.
  pose proof (block_roundtrip (unsigned sb2) [] (Hv _ Hl2 Hn2 Ht2)) as R2.
  assert (block_bytes (unsigned sb1) = block_bytes (unsigned sb2)) as Eb.
  { unfold block_bytes. by f_equal. }
  rewrite Eb in R1. congruence.
Qed.

Lemma signedMessage_Ok_inv ft inner sb msg :
  signedMessageBytes ft inner sb = Ok msg ->
  len (VMID sb) <= MaxVarint /\ msg = DomainSeparator ++ ft :: inner ++ meta_bytes sb.
Proof.
  unfold signedMessageBytes. intros (meta & [? ->]%metaBytes_Ok_inv & E)%bind_Ok.
  split; [done|]. rewrite app_assoc_reverse in E. by injection E.
Qed.

(** C12: a HELLO signature binds the whole HELLO.  If two HELLOs have the same
    signed bytes, they agree on the frame type, on the inner payload byte for
    byte (hence on version, NodeID and capabilities) and on the algorithm,
    VMID, nonce and timestamp of the block: nothing can be moved across the
    boundary between the inner payload and the metadata. *)
Theorem hello_signature_binds ft1 ft2 inner1 inner2 h1 h2 sb1 sb2 msg :
  decodeHelloPayloadV02 inner1 = Ok (h1, []) -> decodeHelloPayloadV02 inner2 = Ok (h2, []) ->
  meta_valid sb1 -> meta_valid sb2 ->
  signedMessageBytes ft1 inner1 sb1 = Ok msg -> signedMessageBytes ft2 inner2 sb2 = Ok msg ->
  ft1 = ft2 /\ inner1 = inner2 /\ h1 = h2 /\ unsigned sb1 = unsigned sb2.
Proof.
  destruct h1 as [[ver1 node1] caps1], h2 as [[ver2 node2] caps2].
  intros (i1 & -> & S1)%decodeHello_Ok (i2 & -> & S2)%decodeHello_Ok Hm1 Hm2.
  rewrite !app_nil_r. intros [Hl1 ->]%signedMessage_Ok_inv [Hl2 E]%signedMessage_Ok_inv.
  apply app_inv_head in E.
  apply (inj2 cons) in E as [<- E].
  assert (decodeHelloPayloadV02 (i1 ++ meta_bytes sb1) = Ok (ver1, node1, caps1, meta_bytes sb1))
    as D1 by (apply decodeHello_Ok; eauto).
  assert (decodeHelloPayloadV02 (i2 ++ meta_bytes sb2) = Ok (ver2, node2, caps2, meta_bytes sb2))
    as D2 by (apply decodeHello_Ok; eauto).
  rewrite E in D1. rewrite D1 in D2.
  assert (meta_bytes sb1 = meta_bytes sb2) as Em by congruence.
  rewrite Em in E. apply app_inv_tail in E as ->.
  split_and!; [done|done|congruence|by apply meta_bytes_inj].
Qed.

Lemma hello_signature_binds_witness :
  let inner := [x00; x02; x01; x61; x00] in
  let sb := mkBlock x01 (str "did:key:z#z") (repeat xaa 16) 1781568000000 [] in
  x01 = x01 /\ inner = inner /\
  (mkVersion 0 2, [x61], @nil Capability) = (mkVersion 0 2, [x61], []) /\
  unsigned sb = unsigned sb.
Proof.
  apply (hello_signature_binds x01 x01 [x00; x02; x01; x61; x00] [x00; x02; x01; x61; x00]
    (mkVersion 0 2, [x61], []) (mkVersion 0 2, [x61], [])
    (mkBlock x01 (str "did:key:z#z") (repeat xaa 16) 1781568000000 [])
    (mkBlock x01 (str "did:key:z#z") (repeat xaa 16) 1781568000000 [])
    (DomainSeparator ++ x01 :: [x00; x02; x01; x61; x00] ++
       meta_bytes (mkBlock x01 (str "did:key:z#z") (repeat xaa 16) 1781568000000 [])));
    vm_compute; intuition congruence.
Defined.

(** The printed form of a version determines it. *)
Lemma Version_String_inj v w :
  is_u64 (Major v) -> is_u64 (Minor v) -> is_u64 (Major w) -> is_u64 (Minor w) ->
  Version_String v = Version_String w -> v = w.
Proof.
  intros H1 H2 H3 H4 E. apply (f_equal (fun s => Cut s x2e)) in E. unfold Version_String in E.
  rewrite !Cut_app in E by (apply Itoa_no_dot; unfold is_u64 in *; lia).
  injection E as E1 E2. apply Itoa_inj in E1, E2; [|done..]. destruct v, w; cbn in *; congruence.
Qed.
