(* ===== verification/Handshake.v ===== *)
(** * The handshake

    [handshake.go], runHandshake, with SendFrame and RecvFrame of [conn.go]: the
    symmetric HELLO exchange on the control stream. *)

From Stdlib Require Import Strings.Byte.
From stdpp Require Import base numbers list gmap strings.
From S2P Require Import Prelude Machine GoTime GoStrings Varint Frame Stream Capability.
From S2P Require Import Base58 Identity DidWeb Verifier Hello.
Open Scope Z_scope.

(** ** Streams

    A [quic.Stream] as its user sees it: the reading side, the bytes written so
    far, what a Write will do (the number of bytes it takes and its error), and
    whether the sending side has been closed. *)
Record Stream := mkStream {
  st_id : Z;
  st_in : reader;
  st_sent : bytes;
  st_write : bytes -> nat * option error;
  st_fin : bool;
}.

Definition st_set_in (s : Stream) (r : reader) : Stream :=
  mkStream (st_id s) r (st_sent s) (st_write s) (st_fin s).
Definition st_set_sent (s : Stream) (bs : bytes) : Stream :=
  mkStream (st_id s) (st_in s) bs (st_write s) (st_fin s).

(** A Write that takes everything. *)
Definition write_all (bs : bytes) : nat * option error := (length bs, None).

Definition SendFrame (f : Frame) (s : Stream) : go unit * Stream :=
  match Encode f with
  | Ok bs =>
      let '(n, err) := st_write s bs in
      let s := st_set_sent s (st_sent s ++ take n bs) in
      match err with
      | Some e => (Err (Errorf "aire: SendFrame: %w" (Some e) []), s)
      | None => (Ok tt, s)
      end
  | Err e => (Err e, s)
  | Panic p => (Panic p, s)
  end.

Definition RecvFrame (s : Stream) : go Frame * Stream :=
  let '(r, rd) := readFrame (st_in s) in (r, st_set_in s rd).

Definition Stream_Close (s : Stream) : Stream :=
  mkStream (st_id s) (st_in s) (st_sent s) (st_write s) true.

(** ** Configuration and result *)

(** Nil pointers are [None].  The Verifier of a config is shared by every
    connection that uses it, so a handshake returns its new contents. *)
Record NodeConfig := mkConfig {
  cfg_Signer : option Signer;
  cfg_Verifier : option Verifier;
  cfg_Capabilities : list Capability;
}.

Record HandshakeState := mkHS {
  PeerNodeID : bytes;
  NegotiatedMinor : Z;
  ActiveCapabilities : list Capability;
}.

(** The error codes of the handshake. *)
Definition ErrCodeIncompatibleVersion : Z := 0x01.
Definition ErrCodeMissingRequiredCapability : Z := 0x02.
Definition ErrCodeMalformedFrame : Z := 0x03.
Definition ErrCodeProtocolViolation : Z := 0x04.

(** What one run takes from its surroundings: the outcome of
    [ed25519.GenerateKey] and of [rand.Read], [time.Now()] when the HELLO is
    signed, and the Verifier's clock when the peer's HELLO is verified. *)
Record henv := mkEnv {
  he_GenerateKey : go bytes;
  he_rand : go bytes;
  he_Now : Time;
  he_Clock : Time;
}.

(** What [crypto/rand] and [crypto/ed25519] document: GenerateKey and Read return
    or fail, they do not panic, and a Read that succeeds fills the 16 bytes. *)
Definition env_sound (env : henv) : bool :=
  negb (panics (he_GenerateKey env)) &&
  match he_rand env with
  | Ok nonce => (length nonce =? 16)%nat
  | Err _ => true
  | Panic _ => false
  end.

Section Handshake.
Context `{HE : Ed25519} `{HN : NetEnv}.

Definition ephemeralSigner (env : henv) : go Signer :=
  priv ← on_err (fun e => Errorf "aire: ephemeral signer: %w" (Some e) []) (he_GenerateKey env);
  NewEd25519DIDKeySigner priv.

(** The block under [if peerVer.Minor >= 2]. *)
Definition verify_hello (clock : Time) (payload peerNodeID trailing : bytes) (v : Verifier)
    : go unit * Verifier :=
  if negb (HasPrefix peerNodeID (str "did:")) then
    (Err (malformed "%w: NodeID %q is not a DID" [ArgStr peerNodeID]), v)
  else if (length trailing =? 0)%nat then
    (Err (Errorf "%w: v0.2 HELLO missing signature block" (Some (Sentinel ErrBadSignature)) []), v)
  else
  match DecodeSignatureBlock trailing with
  | Err e => (Err (malformed "%w: signature block: %v" [ArgErr e]), v)
  | Panic p => (Panic p, v)
  | Ok (block, _) =>
      let '(peerDID, _, _) := Cut (VMID block) x23 in
      if negb (bool_decide (peerDID = peerNodeID)) then
        (Err (Errorf "%w: VMID DID %q != NodeID %q" (Some (Sentinel ErrKeyMismatch))
                [ArgStr peerDID; ArgStr peerNodeID]), v)
      else
      let innerLen := (length payload - length trailing)%nat in
      match signedMessageBytes FrameHello (take innerLen payload) block with
      | Ok signedMsg => Verify clock block signedMsg v
      | Err e => (Err e, v)
      | Panic p => (Panic p, v)
      end
  end.

(** What follows the reception of the first frame. *)
Definition process_hello (clock : Time) (local : list Capability) (f : Frame) (v : Verifier)
    : go HandshakeState * Verifier :=
  if negb (bool_decide (Type_ f = FrameHello)) then
    (Err (Errorf "%w: expected HELLO, got frame type 0x%02x" (Some (Sentinel ErrProtocolViolation))
            [ArgInt (bval (Type_ f))]), v)
  else if negb (OpID f =? 0) then
    (Err (Errorf "%w: HELLO had non-zero OpID %d" (Some (Sentinel ErrProtocolViolation))
            [ArgInt (OpID f)]), v)
  else
  match decodeHelloPayloadV02 (Payload f) with
  | Err e => (Err e, v)
  | Panic p => (Panic p, v)
  | Ok (peerVer, peerNodeID, peerCaps, trailing) =>
      if negb (Major peerVer =? Major CurrentVersion) then
        (Err (Errorf "%w: peer major=%d local major=%d" (Some (Sentinel ErrIncompatibleVersion))
                [ArgInt (Major peerVer); ArgInt (Major CurrentVersion)]), v)
      else
      let negotiatedMinor :=
        if Minor peerVer <? Minor CurrentVersion then Minor peerVer else Minor CurrentVersion in
      let '(verified, v) :=
        if 2 <=? Minor peerVer then verify_hello clock (Payload f) peerNodeID trailing v
        else (Ok tt, v) in
      (verified;;
       active ← NegotiateCapabilities local peerCaps;
       Ok (mkHS peerNodeID negotiatedMinor active), v)
  end.

(** The HELLO payload of this side. *)
Definition own_hello (env : henv) (local : NodeConfig) : go bytes :=
  signer ← match cfg_Signer local with Some s => Ok s | None => ephemeralSigner env end;
  nonce ← on_err (fun e => Errorf "aire: handshake: nonce: %w" (Some e) []) (he_rand env);
  buildSignedHello signer (cfg_Capabilities local) nonce (he_Now env).

(** The outcome, the control stream and the contents of the config's Verifier
    afterwards. *)
Definition runHandshake (env : henv) (ctrl : Stream) (local : NodeConfig)
    : go HandshakeState * Stream * option Verifier :=
  let keep (v : Verifier) := match cfg_Verifier local with Some _ => Some v | None => None end in
  let v := match cfg_Verifier local with Some v => v | None => NewVerifier end in
  match own_hello env local with
  | Err e => (Err e, ctrl, keep v)
  | Panic p => (Panic p, ctrl, keep v)
  | Ok helloPayload =>
      match SendFrame (mkFrame FrameHello x00 0 helloPayload) ctrl with
      | (Err e, ctrl) =>
          (Err (Errorf "aire: handshake: send HELLO: %w" (Some e) []), ctrl, keep v)
      | (Panic p, ctrl) => (Panic p, ctrl, keep v)
      | (Ok _, ctrl) =>
          match RecvFrame ctrl with
          | (Err e, ctrl) =>
              (Err (Errorf "aire: handshake: recv first frame: %w" (Some e) []), ctrl, keep v)
          | (Panic p, ctrl) => (Panic p, ctrl, keep v)
          | (Ok f, ctrl) =>
              let '(r, v) := process_hello (he_Clock env) (cfg_Capabilities local) f v in
              (r, ctrl, keep v)
          end
      end
  end.
End Handshake.

Arguments buildSignedHello : simpl never.
Arguments NewEd25519DIDKeySigner : simpl never.
Arguments NegotiateCapabilities : simpl never.

(** ** A genuine HELLO *)

Definition hello_frame (payload : bytes) : Frame := mkFrame FrameHello x00 0 payload.

Lemma hello_frame_valid payload :
  len payload <= MaxFrameSize -> frame_valid (hello_frame payload).
Proof. intros. split; [|done]. rewrite MaxVarint_val. pow_norm. simpl. lia. Qed.

Lemma SendFrame_ok f s :
  frame_valid f -> st_write s = write_all ->
  SendFrame f s = (Ok tt, st_set_sent s (st_sent s ++ frame_bytes f)).
Proof.
  intros [Ho Hp] Hw. unfold SendFrame, Encode.
  rewrite AppendEncode_ok by (done || by apply MaxFrameSize_varint).
  rewrite Hw. unfold write_all. by rewrite firstn_all.
Qed.

Lemma RecvFrame_ok f s data e :
  frame_valid f -> st_in s = mkReader (frame_bytes f ++ data) e ->
  RecvFrame s = (Ok f, st_set_in s (mkReader data e)).
Proof.
  intros Hf Hin. unfold RecvFrame. rewrite Hin.
  assert (Encode f = Ok (frame_bytes f)) as E.
  { destruct Hf. apply AppendEncode_ok; [done|]. by apply MaxFrameSize_varint. }
  rewrite (readFrame_ok _ _ f (length (frame_bytes f))).
  - by rewrite drop_app_length.
  - exact (codec_roundtrip (Codec := frame_codec) f _ data Hf E).
Qed.

Section Genuine.
Context `{HE : Ed25519} `{HN : NetEnv}.

Definition caps_valid (caps : list Capability) : Prop :=
  Forall cap_valid caps /\ len caps * sizeof_Capability <= maxAlloc.

(** The payload a signer builds: a spelled inner part and a valid signature
    block over it. *)
Lemma buildSignedHello_shape s caps nonce now :
  WireSigner s -> caps_valid caps -> length nonce = 16%nat ->
  exists inner sig msg,
    let block := mkBlock SigAlgEd25519 (s_VMID s) nonce (Time_UnixMilli now) sig in
    buildSignedHello s caps nonce now = Ok (inner ++ block_bytes block) /\
    hello_spells inner CurrentVersion (s_DID s) caps /\
    block_valid block /\ signedMessageBytes FrameHello inner block = Ok msg /\
    sig = s_Sign s msg /\ encodeHelloInner CurrentVersion (s_DID s) caps = Ok inner.
Proof.
  intros Hs [Hc Hn] Hl. pose proof ws_VMID_fits as Hv.
  destruct (encodeHelloInner_spells CurrentVersion (s_DID s) caps) as (inner & Ei & Hi).
  { split_and!; try done. by apply ws_DID_fits. }
  set (ts := Time_UnixMilli now).
  assert (forall sig, signedMessageBytes FrameHello inner (mkBlock SigAlgEd25519 (s_VMID s) nonce ts sig)
    = Ok ((DomainSeparator ++ [FrameHello]) ++ inner ++
          meta_bytes (mkBlock SigAlgEd25519 (s_VMID s) nonce ts []))) as Hm.
  { intros sig. unfold signedMessageBytes. by rewrite metaBytes_ok. }
  eexists inner, _, _. cbv zeta. split_and!; [|done| |apply Hm|done|done].
  - unfold buildSignedHello. rewrite Ei. cbn [mbind go_bind]. fold ts. rewrite Hm. cbn [mbind go_bind].
    cbn [Algorithm VMID Nonce TimestampMS]. rewrite SignatureBlock_Encode_ok; [done|].
    split_and!; try done; [apply i64_range|apply ws_Sign_fits].
  - split_and!; try done; [apply i64_range|apply ws_Sign_fits].
Qed.

(** Receiving it: the signature verifies and the outcome is that of the
    capability negotiation. *)
Lemma process_genuine clock local s caps nonce now payload v :
  WireSigner s -> Verifiable v s -> caps_valid caps -> length nonce = 16%nat ->
  buildSignedHello s caps nonce now = Ok payload ->
  0 <= v_Window v < maxDuration ->
  Z.abs (clock - Time_UnixMilli now * 1000000) <= v_Window v ->
  recorded v (s_DID s) nonce = None ->
  exists v',
    process_hello clock local (hello_frame payload) v =
      (active ← NegotiateCapabilities local caps; Ok (mkHS (s_DID s) 2 active), v') /\
    recorded v' (s_DID s) nonce = Some (Time_UnixMilli now).
Proof.
  intros Hs Hvs Hc Hl Hb Hw Hskew Hr.
  destruct (buildSignedHello_shape s caps nonce now Hs Hc Hl)
    as (inner & sig & msg & Eb & Hi & Hv & Hm & Hsig & _).
  rewrite Eb in Hb. injection Hb as <-.
  destruct (Verify_genuine clock s nonce (Time_UnixMilli now) msg v Hs Hvs Hw Hskew Hr)
    as (v' & Ev & Hr').
  exists v'. split; [|done].
  set (block := mkBlock _ _ _ _ _) in *.
  unfold process_hello. cbn [Type_ hello_frame OpID Payload].
  rewrite bool_decide_eq_true_2 by done. cbn [negb Z.eqb].
  rewrite (proj2 (decodeHello_Ok _ _ _ _ _)) by (exists inner; done).
  change (Major CurrentVersion =? Major CurrentVersion) with true. cbn [negb].
  change (2 <=? Minor CurrentVersion) with true. cbv iota zeta.
  change (if Minor CurrentVersion <? Minor CurrentVersion then _ else _) with 2.
  unfold verify_hello.
  rewrite ws_is_did. cbn [negb].
  rewrite (proj2 (Nat.eqb_neq _ _)) by done.
  pose proof (block_roundtrip block [] Hv) as Hrt. rewrite app_nil_r in Hrt. rewrite Hrt.
  pose proof (ws_did (s := s)) as Hd. change (VMID block) with (s_VMID s).
  destruct (Cut (s_VMID s) x23) as [[did frag] found]. cbn [fst] in Hd.
  rewrite bool_decide_eq_true_2 by done. cbn [negb].
  rewrite length_app, Nat.add_sub, take_app_length, Hm.
  subst sig. fold block in Ev. rewrite Ev. done.
Qed.
End Genuine.

(** ** Two parties *)

(** One side of a connection, with the HELLO payload it will send. *)
Record party := mkParty {
  p_signer : Signer;
  p_caps : list Capability;
  p_nonce : bytes;
  p_env : henv;
  p_verifier : Verifier;
  p_hello : bytes;
}.

Definition p_config (p : party) : NodeConfig :=
  mkConfig (Some (p_signer p)) (Some (p_verifier p)) (p_caps p).

Section TwoParties.
Context `{HE : Ed25519} `{HN : NetEnv}.

Definition party_ok (p : party) : Prop :=
  WireSigner (p_signer p) /\ caps_valid (p_caps p) /\
  length (p_nonce p) = 16%nat /\ he_rand (p_env p) = Ok (p_nonce p) /\
  buildSignedHello (p_signer p) (p_caps p) (p_nonce p) (he_Now (p_env p)) = Ok (p_hello p) /\
  len (p_hello p) <= MaxFrameSize /\ 0 <= v_Window (p_verifier p) < maxDuration.

(** [p] has a clock within its window of [q]'s, has not seen [q]'s nonce and can
    resolve [q]'s key. *)
Definition in_sync (p q : party) : Prop :=
  Z.abs (he_Clock (p_env p) - Time_UnixMilli (he_Now (p_env q)) * 1000000)
    <= v_Window (p_verifier p) /\
  recorded (p_verifier p) (s_DID (p_signer q)) (p_nonce q) = None /\
  Verifiable (p_verifier p) (p_signer q).

(** The control stream of [p]: writes succeed, and what [q] sends arrives,
    followed by anything. *)
Definition connected (s : Stream) (q : party) : Prop :=
  st_write s = write_all /\ st_sent s = [] /\
  exists rest e, st_in s = mkReader (frame_bytes (hello_frame (p_hello q)) ++ rest) e.

Lemma handshake_with_peer p q s :
  party_ok p -> party_ok q -> in_sync p q -> connected s q ->
  exists s' v', runHandshake (p_env p) s (p_config p) =
    (active ← NegotiateCapabilities (p_caps p) (p_caps q);
     Ok (mkHS (s_DID (p_signer q)) 2 active), s', Some v') /\
    st_sent s' = frame_bytes (hello_frame (p_hello p)) /\
    recorded v' (s_DID (p_signer q)) (p_nonce q) = Some (Time_UnixMilli (he_Now (p_env q))).
Proof.
  intros (_ & _ & _ & Hr & Hb & Hl & Hw) (Hs' & Hc' & Hn' & _ & Hb' & Hl' & _)
    (Hskew & Hrec & Hvf) (Hwr & Hsent & rest & e & Hin).
  destruct (process_genuine (he_Clock (p_env p)) (p_caps p) _ _ _ _ _ (p_verifier p)
    Hs' Hvf Hc' Hn' Hb' Hw Hskew Hrec) as (v' & Hp & Hv').
  unfold runHandshake, own_hello. cbn [p_config cfg_Signer cfg_Verifier cfg_Capabilities].
  cbn [mbind go_bind]. rewrite Hr. cbn [on_err mbind go_bind]. rewrite Hb.
  fold (hello_frame (p_hello p)).
  rewrite (SendFrame_ok _ _ (hello_frame_valid _ Hl) Hwr).
  rewrite (RecvFrame_ok (hello_frame (p_hello q)) (st_set_sent s _) rest e
    (hello_frame_valid _ Hl') Hin).
  rewrite Hp. eexists _, v'. split; [done|]. split; [|done]. simpl. by rewrite Hsent.
Qed.
End TwoParties.

(** C1: end to end, the two sides of a connection agree.  When two parties
    with fresh nonces and clocks within the window, each with a signer whose key
    the other's Verifier resolves (did:key, or a did:web that is published:
    [didkey_verifiable], [didweb_verifiable]), run the handshake against each
    other, each sends its HELLO, and either both complete, each
    with the other's DID as its peer, minor version 2 and the same active
    capabilities, or both fail with the same class of error, ErrMalformedHello
    for duplicate names or ErrMissingRequiredCapability. *)
Theorem handshake_agreement `{HE : Ed25519} `{HN : NetEnv} a b sa sb :
  party_ok a -> party_ok b -> in_sync a b -> in_sync b a -> connected sa b -> connected sb a ->
  let '(ra, sa', _) := runHandshake (p_env a) sa (p_config a) in
  let '(rb, sb', _) := runHandshake (p_env b) sb (p_config b) in
  st_sent sa' = frame_bytes (hello_frame (p_hello a)) /\
  st_sent sb' = frame_bytes (hello_frame (p_hello b)) /\
  match ra, rb with
  | Ok x, Ok y =>
      PeerNodeID x = s_DID (p_signer b) /\ PeerNodeID y = s_DID (p_signer a) /\
      NegotiatedMinor x = 2 /\ NegotiatedMinor y = 2 /\
      ActiveCapabilities x ≡ₚ ActiveCapabilities y
  | Err e1, Err e2 =>
      (errors_Is e1 ErrMalformedHello = true /\ errors_Is e2 ErrMalformedHello = true) \/
      (errors_Is e1 ErrMissingRequiredCapability = true /\
       errors_Is e2 ErrMissingRequiredCapability = true)
  | _, _ => False
  end.
Proof.
  intros Ha Hb Hab Hba Hca Hcb.
  destruct (handshake_with_peer a b sa Ha Hb Hab Hca) as (sa' & va' & -> & Hsa & _).
  destruct (handshake_with_peer b a sb Hb Ha Hba Hcb) as (sb' & vb' & -> & Hsb & _).
  split; [done|]. split; [done|].
  pose proof (negotiation_agreement (p_caps a) (p_caps b)) as Hn.
  destruct (NegotiateCapabilities (p_caps a) (p_caps b)),
    (NegotiateCapabilities (p_caps b) (p_caps a)); simpl; done.
Qed.

(** Two concrete parties. *)
Definition demo_signer (priv : bytes) : Signer := didkey_signer (HE := toy_ed25519) priv.

Definition demo_env (nonce : bytes) : henv :=
  mkEnv (Err (External 9)) (Ok nonce) demo_now demo_now.

Definition payload_of (r : go bytes) : bytes := match r with Ok p => p | _ => [] end.

Definition demo_party (seed : byte) (nonce : byte) (caps : list Capability) : party :=
  mkParty (demo_signer (repeat seed 32)) caps (repeat nonce 16)
    (demo_env (repeat nonce 16)) NewVerifier
    (payload_of (buildSignedHello (demo_signer (repeat seed 32)) caps (repeat nonce 16) demo_now)).

Definition demo_caps_a : list Capability :=
  [mkCap (str "com.acme.chat/1") 3 true; mkCap (str "com.acme.files/1") 1 false].
Definition demo_caps_b : list Capability := [mkCap (str "com.acme.chat/1") 2 false].

Definition demo_stream (peer : party) : Stream :=
  mkStream 0 (mkReader (frame_bytes (hello_frame (p_hello peer))) EOF) [] write_all false.

Definition party_a : party := demo_party x07 xaa demo_caps_a.
Definition party_b : party := demo_party x09 xbb demo_caps_b.

Lemma demo_party_ok seed nonce caps :
  caps_valid caps ->
  is_ok (buildSignedHello (demo_signer (repeat seed 32)) caps (repeat nonce 16) demo_now) = true ->
  len (p_hello (demo_party seed nonce caps)) <= MaxFrameSize ->
  party_ok (demo_party seed nonce caps).
Proof.
  unfold party_ok, demo_party.
  cbn [p_signer p_caps p_nonce p_env p_hello p_verifier demo_env he_rand he_Now].
  generalize (didkey_wire (HE := toy_ed25519) (HL := toy_ed25519_laws) (repeat seed 32)).
  fold (demo_signer (repeat seed 32)). generalize (demo_signer (repeat seed 32)).
  intros s Hs Hc Hok Hl. split_and!; try done. by destruct (buildSignedHello _ _ _ _).
Qed.

Lemma demo_in_sync p q :
  he_Clock (p_env p) = demo_now -> he_Now (p_env q) = demo_now -> p_verifier p = NewVerifier ->
  (exists priv, p_signer q = demo_signer priv) -> in_sync (HE := toy_ed25519) (HN := offline) p q.
Proof.
  intros H1 H2 H3 [priv H4]. unfold in_sync. rewrite H1, H2, H3, H4.
  split; [vm_compute; congruence|]. split; [done|apply (didkey_verifiable (HL := toy_ed25519_laws))].
Qed.

Lemma demo_connected q : connected (demo_stream q) q.
Proof. split_and!; try done. exists [], (Sentinel EOF). by rewrite app_nil_r. Qed.

Lemma party_a_ok : party_ok party_a.
Proof.
  apply demo_party_ok; [|vm_compute; congruence..].
  split; [|vm_compute; congruence]. repeat constructor; vm_compute; congruence.
Qed.

Lemma party_b_ok : party_ok party_b.
Proof.
  apply demo_party_ok; [|vm_compute; congruence..].
  split; [|vm_compute; congruence]. repeat constructor; vm_compute; congruence.
Qed.

Lemma handshake_agreement_witness :
  let '(ra, sa', _) := runHandshake (HE := toy_ed25519) (HN := offline)
        (p_env party_a) (demo_stream party_b) (p_config party_a) in
  let '(rb, sb', _) := runHandshake (HE := toy_ed25519) (HN := offline)
        (p_env party_b) (demo_stream party_a) (p_config party_b) in
  st_sent sa' = frame_bytes (hello_frame (p_hello party_a)) /\
  st_sent sb' = frame_bytes (hello_frame (p_hello party_b)) /\
  match ra, rb with
  | Ok x, Ok y =>
      PeerNodeID x = s_DID (p_signer party_b) /\ PeerNodeID y = s_DID (p_signer party_a) /\
      NegotiatedMinor x = 2 /\ NegotiatedMinor y = 2 /\
      ActiveCapabilities x ≡ₚ ActiveCapabilities y
  | Err e1, Err e2 =>
      (errors_Is e1 ErrMalformedHello = true /\ errors_Is e2 ErrMalformedHello = true) \/
      (errors_Is e1 ErrMissingRequiredCapability = true /\
       errors_Is e2 ErrMissingRequiredCapability = true)
  | _, _ => False
  end.
Proof.
  apply (handshake_agreement (HE := toy_ed25519) (HN := offline)
    party_a party_b (demo_stream party_b) (demo_stream party_a)).
  - apply party_a_ok.
  - apply party_b_ok.
  - apply demo_in_sync; [reflexivity..|eexists; reflexivity].
  - apply demo_in_sync; [reflexivity..|eexists; reflexivity].
  - apply demo_connected.
  - apply demo_connected.
Defined.

(** The same run evaluated. *)
Example handshake_demo :
  (runHandshake (HE := toy_ed25519) (HN := offline)
     (p_env party_a) (demo_stream party_b) (p_config party_a)).1.1 =
  Ok (mkHS (s_DID (p_signer party_b)) 2 [mkCap (str "com.acme.chat/1") 2 false]).
Proof. vm_compute. reflexivity. Qed.

(** ** What a completed handshake means *)

Arguments process_hello : simpl never.
Arguments verify_hello : simpl never.
Arguments Verify : simpl never.

Section Completed.
Context `{HE : Ed25519} `{HN : NetEnv}.

Definition config_verifier (local : NodeConfig) : Verifier :=
  match cfg_Verifier local with Some v => v | None => NewVerifier end.

(** Building and sending this side's HELLO panics. *)
Definition own_hello_panics (env : henv) (local : NodeConfig) (p : panic) : Prop :=
  own_hello env local = Panic p \/
  exists payload, own_hello env local = Ok payload /\ Encode (mkFrame FrameHello x00 0 payload) = Panic p.

(** The signers that a config leads to: its own, or one with a fresh key. *)
Definition signs_for (local : NodeConfig) (s : Signer) : Prop :=
  match cfg_Signer local with
  | Some s' => s = s'
  | None => exists priv, s = didkey_signer priv
  end.

(** The HELLO of a config can be encoded: its strings, versions and lengths are
    within what a varint holds. *)
Definition config_fits (local : NodeConfig) : Prop :=
  caps_valid (cfg_Capabilities local) /\
  forall s, signs_for local s -> WireSigner s /\
    forall inner msg, encodeHelloInner CurrentVersion (s_DID s) (cfg_Capabilities local) = Ok inner ->
      len inner + len (s_VMID s) + len (s_Sign s msg) + 64 <= MaxVarint.

Lemma buildSignedHello_fits local s nonce now :
  config_fits local -> signs_for local s -> length nonce = 16%nat ->
  exists payload, buildSignedHello s (cfg_Capabilities local) nonce now = Ok payload /\ len payload <= MaxVarint.
Proof.
  intros [Hc Hs] Hsig Hl. destruct (Hs s Hsig) as [Hw Hfit].
  destruct (buildSignedHello_shape s _ nonce now Hw Hc Hl) as (inner & sig & msg & E & _ & _ & _ & -> & Ei).
  eexists. split; [exact E|].
  specialize (Hfit inner msg Ei).
  unfold block_bytes, meta_bytes, string_bytes. cbn [Algorithm VMID Nonce TimestampMS Signature].
  rewrite !length_app. cbn [length]. rewrite !length_app, be_bytes_length, Hl.
  pose proof (varint_bytes_nonempty (len (s_VMID s))). pose proof (varint_bytes_nonempty (len (s_Sign s msg))). lia.
Qed.

(** Such a HELLO is built and encoded without a panic, whatever the key, the nonce
    and the time. *)
Lemma config_fits_sends env local p : config_fits local -> env_sound env = true -> ~ own_hello_panics env local p.
Proof.
  intros Hf [Hg Hr]%andb_true_iff.
  assert (forall s, (match cfg_Signer local with Some s => Ok s | None => ephemeralSigner env end) = Ok s ->
    signs_for local s) as Hs.
  { intros s. unfold signs_for, ephemeralSigner. destruct (cfg_Signer local); [by intros [= ->]|].
    intros (priv & _ & E)%bind_Ok. exists priv. by apply NewSigner_Ok_inv. }
  assert (forall q, (match cfg_Signer local with Some s => Ok s | None => ephemeralSigner env end) <> Panic q) as Hnp.
  { intros q. destruct (cfg_Signer local); [done|]. unfold ephemeralSigner.
    intros [E%on_err_Panic|(priv & _ & E)]%bind_Panic; [by rewrite E in Hg|by rewrite NewSigner_eq in E]. }
  intros [E|(payload & E & Ee)]; unfold own_hello in E.
  - apply bind_Panic in E as [E|(s & Es & [E%on_err_Panic|(nonce & En & E)]%bind_Panic)];
      [by eapply Hnp|by rewrite E in Hr|]. apply on_err_Ok in En. rewrite En in Hr. zbool.
    destruct (buildSignedHello_fits local s nonce (he_Now env) Hf (Hs _ Es) Hr) as (pl & E' & _). congruence.
  - apply bind_Ok in E as (s & Es & (nonce & En%on_err_Ok & E)%bind_Ok). rewrite En in Hr. zbool.
    destruct (buildSignedHello_fits local s nonce (he_Now env) Hf (Hs _ Es) Hr) as (pl & E' & Hl).
    rewrite E in E'. injection E' as <-. unfold Encode in Ee. rewrite AppendEncode_ok in Ee; [done| |done].
    vm_compute. intuition congruence.
Qed.

(** Once its HELLO is out and a frame is in, a run is [process_hello]; before
    that it fails and leaves the Verifier alone. *)
Lemma runHandshake_cases env ctrl local r ctrl' w :
  runHandshake env ctrl local = (r, ctrl', w) ->
  (w = cfg_Verifier local /\ ((exists e, r = Err e) \/ exists p, r = Panic p /\ own_hello_panics env local p)) \/
  exists f v', (readFrame (st_in ctrl)).1 = Ok f /\
    process_hello (he_Clock env) (cfg_Capabilities local) f (config_verifier local) = (r, v') /\
    w = match cfg_Verifier local with Some _ => Some v' | None => None end.
Proof.
  unfold runHandshake. fold (config_verifier local). intros E.
  assert (match cfg_Verifier local with Some _ => Some (config_verifier local) | None => None end
    = cfg_Verifier local) as Hkeep by (unfold config_verifier; by destruct (cfg_Verifier local)).
  destruct (own_hello env local) as [hello|?|p] eqn:Eo; rewrite ?Hkeep in E; [|left; simplify_eq..].
  2: split; [done|]; left; eauto. 2: split; [done|]; right; exists p; split; [done|by left].
  destruct (SendFrame _ ctrl) as [[[]|?|p] c1] eqn:Es.
  2: left; simplify_eq; split; [done|]; left; eauto.
  2: { left. simplify_eq. split; [done|]. right. exists p. split; [done|]. right. exists hello. split; [done|].
       unfold SendFrame in Es. destruct (Encode _); [|done|by simplify_eq].
       destruct (st_write ctrl a) as [n [|]]; by simplify_eq. }
  assert (st_in c1 = st_in ctrl) as Hin.
  { unfold SendFrame in Es. repeat case_match; by simplify_eq. }
  unfold RecvFrame in E. rewrite Hin in E. pose proof (readFrame_never_panics (st_in ctrl)) as Hnp.
  destruct (readFrame (st_in ctrl)) as [[f|?|p] rd]; [|left; simplify_eq; split; [done|]; left; eauto|by destruct (Hnp p)].
  destruct (process_hello _ _ f _) as [r' v'] eqn:Ep. simplify_eq. right. by exists f, v'.
Qed.

Lemma runHandshake_Ok_inv env ctrl local st ctrl' w :
  runHandshake env ctrl local = (Ok st, ctrl', w) ->
  exists f v', (readFrame (st_in ctrl)).1 = Ok f /\
    process_hello (he_Clock env) (cfg_Capabilities local) f (config_verifier local) = (Ok st, v') /\
    (cfg_Verifier local = None \/ w = Some v').
Proof.
  intros [[_ [[? ?]|(? & ? & _)]]|(f & v' & Hf & Hp & ->)]%runHandshake_cases; [done..|].
  exists f, v'. split_and!; try done. case_match; auto.
Qed.

Lemma verify_hello_Ok_inv clock payload node trailing v v' :
  verify_hello clock payload node trailing v = (Ok tt, v') ->
  HasPrefix node (str "did:") = true /\
  exists block n msg, DecodeSignatureBlock trailing = Ok (block, n) /\ did_of block = node /\
    signedMessageBytes FrameHello (take (length payload - length trailing) payload) block = Ok msg /\
    Verify clock block msg v = (Ok tt, v').
Proof.
  unfold verify_hello. intros E. case_match eqn:Hd; [done|]. zbool. split; [done|].
  case_match; [done|]. destruct (DecodeSignatureBlock trailing) as [[block n]|?|?]; [|done..].
  unfold did_of. destruct (Cut (VMID block) x23) as [[did frag] found] eqn:Ec.
  case_match eqn:Hk; [done|]. zbool.
  destruct (signedMessageBytes _ _ block) as [msg|?|?] eqn:Em; [|done..].
  exists block, n, msg. rewrite Ec. done.
Qed.

Lemma process_hello_Ok_inv clock local f v st v' :
  process_hello clock local f v = (Ok st, v') ->
  Type_ f = FrameHello /\ OpID f = 0 /\
  exists ver caps trailing, decodeHelloPayloadV02 (Payload f) = Ok (ver, PeerNodeID st, caps, trailing) /\
    Major ver = 0 /\ NegotiatedMinor st = Z.min 2 (Minor ver) /\
    NegotiateCapabilities local caps = Ok (ActiveCapabilities st) /\
    (if 2 <=? Minor ver then verify_hello clock (Payload f) (PeerNodeID st) trailing v = (Ok tt, v')
     else v' = v).
Proof.
  unfold process_hello. intros E. case_match eqn:Ht; [done|]. case_match eqn:Ho; [done|]. zbool.
  split; [done|]. split; [done|].
  destruct (decodeHelloPayloadV02 (Payload f)) as [[[[ver node] caps] trailing]|?|?]; [|done..].
  case_match eqn:Hm; [done|]. zbool. exists ver, caps, trailing.
  destruct (if 2 <=? Minor ver then _ else _) as [r v1] eqn:Ev.
  apply pair_equal_spec in E as [E <-]. destruct r as [[]|?|?]; [|done..].
  cbn [mbind go_bind] in E. apply bind_Ok in E as (active & En & [= <-]).
  cbn [PeerNodeID NegotiatedMinor ActiveCapabilities].
  split_and!; try done.
  - clear Ev. change (Minor CurrentVersion) with 2. case_match; zbool; lia.
  - case_match; [done|]. by simplify_eq.
Qed.

(** What a frame that completes a handshake shows about the peer. *)
Definition vouched (clock : Time) (local : list Capability) (v : Verifier) (f : Frame)
    (st : HandshakeState) : Prop :=
  Type_ f = FrameHello /\ OpID f = 0 /\
  exists ver caps inner trailing,
    Payload f = inner ++ trailing /\ hello_spells inner ver (PeerNodeID st) caps /\
    Major ver = Major CurrentVersion /\ NegotiatedMinor st = Z.min 2 (Minor ver) /\
    NegotiateCapabilities local caps = Ok (ActiveCapabilities st) /\
    (2 <= Minor ver ->
     exists block n pub, DecodeSignatureBlock trailing = Ok (block, n) /\
       did_of block = PeerNodeID st /\ HasPrefix (PeerNodeID st) (str "did:") = true /\
       abs_skew clock (TimestampMS block) <= v_Window v /\
       recorded v (PeerNodeID st) (Nonce block) = None /\
       ResolveKey v (VMID block) = Ok pub /\
       ed_Verify pub (DomainSeparator ++ FrameHello :: inner ++ meta_bytes block)
         (Signature block) = true /\
       (HasPrefix (PeerNodeID st) (str "did:key:") = true -> PeerNodeID st = MakeDIDKey pub)).

Lemma process_hello_vouched clock local f v st v' :
  process_hello clock local f v = (Ok st, v') -> vouched clock local v f st.
Proof.
  intros (Ht & Ho & ver & caps & trailing & Hd & Hmaj & Hmin & Hn & Hv)%process_hello_Ok_inv.
  apply decodeHello_Ok in Hd as (inner & Hpay & Hs). split; [done|]. split; [done|].
  exists ver, caps, inner, trailing. split_and!; try done. intros H2.
  rewrite (proj2 (Z.leb_le _ _)) in Hv by done.
  apply verify_hello_Ok_inv in Hv as (Hpre & block & n & msg & Hb & Hdid & Hm & Hv).
  rewrite Hpay, length_app, Nat.add_sub, take_app_length in Hm.
  apply signedMessage_Ok_inv in Hm as [_ ->].
  apply Verify_Ok_inv in Hv as (_ & Hskew & _ & Hr & Hc).
  apply check_and_record_Ok in Hr as (Hr & _ & _ & Hres). rewrite Hdid in Hr.
  apply check_signature_Ok_inv in Hc as (pub & Hk & _ & Hver). rewrite (ResolveKey_const v) in Hk by done.
  exists block, n, pub. split_and!; try done.
  intros Hkey. rewrite <-Hdid in Hkey |- *. by apply (ResolveKey_didkey v).
Qed.
End Completed.

(** C2: what a completed handshake authenticates.  If runHandshake succeeds,
    the peer's first frame was a HELLO with OpID 0 and the local major version,
    the negotiated minor is the smaller of the two and the active capabilities
    are the negotiation of the two lists; and if the peer announced minor 2 or
    more, its NodeID is a DID, the payload carries a signature block for that
    very DID, and the Verifier accepted the block's signature over the domain
    separator, the HELLO type, every byte of the inner payload and the block's
    metadata, under the key to which its ResolveKey resolves the VMID.  For a
    did:key NodeID this is the key that the NodeID spells. *)
Theorem handshake_authenticates `{HE : Ed25519} `{HN : NetEnv} env ctrl local st ctrl' w :
  runHandshake env ctrl local = (Ok st, ctrl', w) ->
  exists f ver caps inner trailing,
    (readFrame (st_in ctrl)).1 = Ok f /\ Type_ f = FrameHello /\ OpID f = 0 /\
    Payload f = inner ++ trailing /\ hello_spells inner ver (PeerNodeID st) caps /\
    Major ver = Major CurrentVersion /\ NegotiatedMinor st = Z.min 2 (Minor ver) /\
    NegotiateCapabilities (cfg_Capabilities local) caps = Ok (ActiveCapabilities st) /\
    (2 <= Minor ver ->
     exists block n pub, DecodeSignatureBlock trailing = Ok (block, n) /\
       did_of block = PeerNodeID st /\ HasPrefix (PeerNodeID st) (str "did:") = true /\
       abs_skew (he_Clock env) (TimestampMS block) <= v_Window (config_verifier local) /\
       recorded (config_verifier local) (PeerNodeID st) (Nonce block) = None /\
       ResolveKey (config_verifier local) (VMID block) = Ok pub /\
       ed_Verify pub (DomainSeparator ++ FrameHello :: inner ++ meta_bytes block)
         (Signature block) = true /\
       (HasPrefix (PeerNodeID st) (str "did:key:") = true -> PeerNodeID st = MakeDIDKey pub)).
Proof.
  intros (f & v' & Hf & Hp & _)%runHandshake_Ok_inv.
  apply process_hello_vouched in Hp as (Ht & Ho & ver & caps & inner & trailing & H1 & H2 & H3 & H4 & H5 & H6).
  exists f, ver, caps, inner, trailing. by split_and!.
Qed.

Lemma handshake_authenticates_witness :
  exists f, (readFrame (st_in (demo_stream party_b))).1 = Ok f /\ Type_ f = FrameHello /\ OpID f = 0.
Proof.
  destruct (handshake_authenticates (HE := toy_ed25519) (HN := offline)
    (p_env party_a) (demo_stream party_b) (p_config party_a)
    (mkHS (s_DID (p_signer party_b)) 2 [mkCap (str "com.acme.chat/1") 2 false])
    (runHandshake (HE := toy_ed25519) (HN := offline)
       (p_env party_a) (demo_stream party_b) (p_config party_a)).1.2
    (runHandshake (HE := toy_ed25519) (HN := offline)
       (p_env party_a) (demo_stream party_b) (p_config party_a)).2)
    as (f & _ & _ & _ & _ & H1 & H2 & H3 & _).
  - pose proof handshake_demo as E.
    destruct (runHandshake _ _ _) as [[r s] w]. cbn [fst snd] in *. by rewrite E.
  - exists f. split; [exact H1|]. split; [exact H2|exact H3].
Defined.

(** C36: a HELLO that announces a minor version below 2 is not authenticated.
    Whatever NodeID it claims, with no signature at all and whatever the
    Verifier, the handshake takes it as the peer's identity, provided the
    capabilities negotiate; the documentation of Operation.PeerNodeID and
    Invoke.PeerNodeID calls that value authenticated. *)
Theorem downgrade_skips_signature `{HE : Ed25519} `{HN : NetEnv} clock local v minor nodeID caps inner trailing :
  0 <= minor < 2 -> encodeHelloInner (mkVersion 0 minor) nodeID caps = Ok inner ->
  hello_valid (mkVersion 0 minor) nodeID caps ->
  process_hello clock local (hello_frame (inner ++ trailing)) v =
  (active ← NegotiateCapabilities local caps; Ok (mkHS nodeID minor active), v).
Proof.
  intros Hmin E Hv. destruct (encodeHelloInner_spells _ _ _ Hv) as (inner' & E' & Hs).
  assert (inner' = inner) as -> by congruence.
  unfold process_hello. cbn [Type_ hello_frame OpID Payload].
  rewrite bool_decide_eq_true_2 by done. cbn [negb Z.eqb].
  rewrite (proj2 (decodeHello_Ok _ _ _ _ _)) by (exists inner; done).
  cbn [Major Minor CurrentVersion negb Z.eqb].
  rewrite (proj2 (Z.ltb_lt _ _)) by lia. rewrite (proj2 (Z.leb_gt _ _)) by lia. done.
Qed.

Lemma downgrade_skips_signature_witness :
  process_hello (HE := toy_ed25519) (HN := offline) demo_now []
    (hello_frame ([x00; x01; x0d] ++ str "did:key:admin" ++ [x00] ++ [])) NewVerifier =
  (active ← NegotiateCapabilities [] []; Ok (mkHS (str "did:key:admin") 1 active), NewVerifier).
Proof.
  apply (downgrade_skips_signature (HE := toy_ed25519) (HN := offline) demo_now [] NewVerifier 1
    (str "did:key:admin") [] ([x00; x01; x0d] ++ str "did:key:admin" ++ [x00]) []).
  - lia.
  - vm_compute. reflexivity.
  - unfold hello_valid. repeat (split || constructor); vm_compute; congruence.
Defined.

(** ** Error classes *)

(** The sentinels a peer's first frame can provoke: four of the handshake and
    five of the identity layer. *)
Definition hello_errors : list sentinel :=
  [ErrProtocolViolation; ErrMalformedHello; ErrIncompatibleVersion; ErrMissingRequiredCapability;
   ErrBadSignature; ErrKeyMismatch; ErrStaleTimestamp; ErrReplayedNonce; ErrUnresolvableDID].

Definition classified (e : error) : Prop :=
  exists s, s ∈ hello_errors /\ errors_Is e s = true.

Ltac classify_as s :=
  exists s; split; [unfold hello_errors; set_solver | first [reflexivity | eassumption]].
Ltac classify :=
  cbn [fst];
  first [ classify_as ErrProtocolViolation | classify_as ErrMalformedHello
        | classify_as ErrIncompatibleVersion | classify_as ErrMissingRequiredCapability
        | classify_as ErrBadSignature | classify_as ErrKeyMismatch ].

Lemma Negotiate_classified local peer e :
  NegotiateCapabilities local peer = Err e -> classified e.
Proof.
  destruct (Negotiate_outcome local peer) as
    [[_ ->]|[(_ & e' & -> & He)|(_ & _ & _ & e' & -> & He)]]; intros [= <-]; classify.
Qed.

Lemma Negotiate_never_panics local peer p : NegotiateCapabilities local peer <> Panic p.
Proof.
  by destruct (Negotiate_outcome local peer) as
    [[_ ->]|[(_ & e' & -> & He)|(_ & _ & _ & e' & -> & He)]].
Qed.

Lemma DecodeSignatureBlock_never_panics data p : DecodeSignatureBlock data <> Panic p.
Proof.
  unfold DecodeSignatureBlock. destruct data as [|alg data]; [done|].
  intros [E%on_err_Panic|([? ?] & _ & E)]%bind_Panic; [by apply readString_never_panics in E|].
  case_match; [done|]. case_match; [done|].
  apply bind_Panic in E as [E%on_err_Panic|([? ?] & _ & E)]; [by apply ReadVarint_never_panics in E|].
  by case_match.
Qed.

(** A decoded block can be re-serialised: its VMID came off the wire. *)
Lemma signedMessage_decoded ft inner trailing block n :
  DecodeSignatureBlock trailing = Ok (block, n) ->
  is_ok (signedMessageBytes ft inner block) = true.
Proof.
  intros Hb%DecodeSignatureBlock_valid. unfold signedMessageBytes.
  rewrite metaBytes_ok; [done|]. by destruct Hb.
Qed.

Section Classes.
Context `{HE : Ed25519} `{HN : NetEnv}.

Lemma verify_hello_classified clock payload node trailing v e :
  (verify_hello clock payload node trailing v).1 = Err e -> classified e.
Proof.
  unfold verify_hello. case_match; [intros [= <-]; classify|].
  case_match; [intros [= <-]; classify|].
  destruct (DecodeSignatureBlock trailing) as [[block n]|?|?] eqn:Hb;
    [|intros [= <-]; classify|done].
  destruct (Cut (VMID block) x23) as [[did frag] found].
  case_match; [intros [= <-]; classify|].
  pose proof (signedMessage_decoded FrameHello (take (length payload - length trailing) payload) _ _ _ Hb).
  destruct (signedMessageBytes _ _ block); [|done..].
  intros (s & Hs & He)%Verify_err. exists s. split; [|done]. unfold hello_errors. set_solver.
Qed.

Lemma verify_hello_never_panics `{HT : !NetTotal} clock payload node trailing v p :
  client_total v -> (verify_hello clock payload node trailing v).1 <> Panic p.
Proof.
  intros Hc. unfold verify_hello. case_match; [done|]. case_match; [done|].
  destruct (DecodeSignatureBlock trailing) as [[block n]|?|?] eqn:Hb;
    [|done|by apply DecodeSignatureBlock_never_panics in Hb].
  destruct (Cut (VMID block) x23) as [[did frag] found]. case_match; [done|].
  pose proof (signedMessage_decoded FrameHello (take (length payload - length trailing) payload) _ _ _ Hb).
  destruct (signedMessageBytes _ _ block); [|done..]. by apply Verify_total.
Qed.

(** The only panic is that of the decoder. *)
Lemma process_hello_Panic `{HT : !NetTotal} clock local f v p :
  client_total v -> (process_hello clock local f v).1 = Panic p ->
  decodeHelloPayloadV02 (Payload f) = Panic p.
Proof.
  intros Hc. unfold process_hello. destruct (negb (bool_decide _)); [done|].
  destruct (negb (OpID f =? 0)); [done|].
  destruct (decodeHelloPayloadV02 (Payload f)) as [[[[ver node] caps] trailing]|e|q]; [|done|cbn; congruence].
  destruct (negb (Major ver =? _)); [done|].
  pose proof (verify_hello_never_panics clock (Payload f) node trailing v) as Hvp.
  destruct (verify_hello _ _ _ _ _) as [r1 v1]. cbn [fst] in Hvp.
  destruct (2 <=? Minor ver); cbn [fst]; intros [E|(_ & _ & [E|(? & _ & ?)]%bind_Panic)]%bind_Panic;
    first [done | by apply Negotiate_never_panics in E | by destruct (Hvp p)].
Qed.
End Classes.

(** C31: every way the peer's first frame can be refused.  On any frame, what
    follows its reception either completes, or returns an error that wraps one
    of nine sentinels (the four the documentation of Conn.Handshake lists and
    the five of the identity layer), or panics; and the only panic is the
    allocation of a capability list announced with more than 2^43 entries. *)
Theorem process_hello_outcome `{HE : Ed25519} `{HN : NetEnv} `{HT : !NetTotal} clock local f v :
  client_total v ->
  match (process_hello clock local f v).1 with
  | Ok _ => True
  | Err e => classified e
  | Panic p => exists n, p = PanicMakeSlice n /\ 2 ^ 43 < n
  end.
Proof.
  intros Hc. unfold process_hello. destruct (negb (bool_decide _)); [classify|].
  destruct (negb (OpID f =? 0)); [classify|].
  destruct (decodeHelloPayloadV02 (Payload f)) as [[[[ver node] caps] trailing]|e|p] eqn:Hd.
  2: { apply decodeHello_err in Hd. classify. }
  2: { apply decodeHello_panic in Hd as (n & -> & ?). exists n. split; [done|lia]. }
  destruct (negb (Major ver =? _)); [classify|].
  pose proof (verify_hello_classified clock (Payload f) node trailing v) as Hve.
  pose proof (verify_hello_never_panics clock (Payload f) node trailing v) as Hvp.
  destruct (verify_hello _ _ _ _ _) as [r1 v1]. cbn [fst] in Hve, Hvp.
  assert (forall r : go unit, (forall e, r = Err e -> classified e) -> (forall p, r <> Panic p) ->
    match (r;; active ← NegotiateCapabilities local caps; Ok (mkHS node
       (if Minor ver <? Minor CurrentVersion then Minor ver else Minor CurrentVersion) active)) with
    | Ok _ => True | Err e => classified e
    | Panic p => exists n, p = PanicMakeSlice n /\ 2 ^ 43 < n end) as Hr.
  { intros [[]|e|p] He Hp; simpl; [|by apply He|by destruct (Hp p)].
    destruct (NegotiateCapabilities local caps) eqn:Hn; simpl; [done| |].
    - by eapply Negotiate_classified.
    - by apply Negotiate_never_panics in Hn. }
  destruct (2 <=? Minor ver); cbn [fst]; apply Hr; auto; done.
Qed.

Lemma process_hello_outcome_witness :
  match (process_hello (HE := toy_ed25519) (HN := offline) demo_now []
           (mkFrame FrameInvoke x00 0 []) NewVerifier).1 with
  | Ok _ => True
  | Err e => classified e
  | Panic p => exists n, p = PanicMakeSlice n /\ 2 ^ 43 < n
  end.
Proof.
  apply (process_hello_outcome (HE := toy_ed25519) (HN := offline) (HT := offline_total)
    demo_now [] (mkFrame FrameInvoke x00 0 []) NewVerifier).
  intros r f u p. simpl. congruence.
Defined.

(** ** Replayed HELLOs

    The handshakes of the connections that share one Verifier (those of a Node
    whose NodeConfig has one), in the order in which they reach it. *)
Section Replay.
Context `{HE : Ed25519} `{HN : NetEnv}.

Record attempt := mkAttempt { at_clock : Time; at_frame : Frame }.

Fixpoint process_all (local : list Capability) (ats : list attempt) (v : Verifier)
    : list (go HandshakeState) :=
  match ats with
  | [] => []
  | a :: ats =>
      let '(r, v) := process_hello (at_clock a) local (at_frame a) v in
      r :: process_all local ats v
  end.

(** The signature block a HELLO frame of minor 2 or more carries. *)
Definition hello_block (f : Frame) : option SignatureBlock :=
  match decodeHelloPayloadV02 (Payload f) with
  | Ok (ver, _, _, trailing) =>
      if 2 <=? Minor ver then
        match DecodeSignatureBlock trailing with Ok (b, _) => Some b | _ => None end
      else None
  | _ => None
  end.

(** The Verifier is left alone or goes through one Verify. *)
Lemma process_hello_verifier clock local f v :
  (process_hello clock local f v).2 = v \/
  exists block msg, (process_hello clock local f v).2 = (Verify clock block msg v).2.
Proof.
  unfold process_hello. destruct (negb (bool_decide _)); [by left|].
  destruct (negb (OpID f =? 0)); [by left|].
  destruct (decodeHelloPayloadV02 _) as [[[[ver node] caps] trailing]|?|?]; [|by left..].
  destruct (negb (Major ver =? _)); [by left|]. destruct (2 <=? Minor ver); [|by left].
  unfold verify_hello. destruct (negb (HasPrefix _ _)); [by left|].
  destruct (length trailing =? 0)%nat; [by left|].
  destruct (DecodeSignatureBlock trailing) as [[block n]|?|?]; [|by left..].
  destruct (Cut (VMID block) x23) as [[did frag] found].
  destruct (negb (bool_decide _)); [by left|].
  destruct (signedMessageBytes _ _ block) as [msg|?|?]; [|by left..].
  right. exists block, msg. by destruct (Verify clock block msg v).
Qed.

Lemma process_hello_Window clock local f v :
  v_Window (process_hello clock local f v).2 = v_Window v.
Proof.
  destruct (process_hello_verifier clock local f v) as [->|(b & m & ->)]; [done|].
  apply Verify_Window.
Qed.

Lemma process_hello_Resolver clock local f v :
  v_Resolver (process_hello clock local f v).2 = v_Resolver v.
Proof.
  destruct (process_hello_verifier clock local f v) as [->|(b & m & ->)]; [done|].
  apply Verify_Resolver.
Qed.

Lemma spent_later v now now' b : now <= now' -> spent v now b -> spent v now' b.
Proof. intros Hle [?|?]; [by left|right; lia]. Qed.

Lemma process_hello_spent clock clock' local f v b :
  clock_ok (v_Window v) clock' -> clock <= clock' -> spent v clock b ->
  spent (process_hello clock' local f v).2 clock' b.
Proof.
  intros Hc Hle Hs. destruct (process_hello_verifier clock' local f v) as [->|(bl & m & ->)].
  - by eapply spent_later.
  - by eapply spent_step.
Qed.

(** A HELLO that is spent at [T] stays so while the readings do not pass [T]. *)
Lemma process_hello_spent_until clock T local f v b :
  clock_ok (v_Window v) clock -> clock <= T -> spent v T b ->
  spent (process_hello clock local f v).2 T b.
Proof.
  intros Hc Hle Hs. destruct (process_hello_verifier clock local f v) as [->|(bl & m & ->)]; [done|].
  destruct Hs as [Hr|He]; unfold spent; rewrite Verify_Window; [|by right].
  destruct (Verify_keeps clock bl m v (did_of b) (Nonce b) (TimestampMS b)) as [?|?]; [done..|by left|right; lia].
Qed.

(** An accepted HELLO went through Verify with its own block. *)
Lemma process_hello_accepted clock local f v st v' b :
  process_hello clock local f v = (Ok st, v') -> hello_block f = Some b ->
  exists msg, Verify clock b msg v = (Ok tt, v').
Proof.
  intros (_ & _ & ver & caps & trailing & Hd & _ & _ & _ & Hv)%process_hello_Ok_inv Hb.
  unfold hello_block in Hb. rewrite Hd in Hb. destruct (2 <=? Minor ver); [|done].
  apply verify_hello_Ok_inv in Hv as (_ & block & n & msg & Hblk & _ & _ & Hv).
  rewrite Hblk in Hb. simplify_eq. eauto.
Qed.

Fixpoint clocks_monotone (w : Duration) (last : Time) (ats : list attempt) : Prop :=
  match ats with
  | [] => True
  | a :: ats => last <= at_clock a /\ clock_ok w (at_clock a) /\ clocks_monotone w (at_clock a) ats
  end.

Lemma spent_never_accepted ats local v now b j a b' :
  clocks_monotone (v_Window v) now ats -> spent v now b ->
  ats !! j = Some a -> hello_block (at_frame a) = Some b' -> same_id b b' ->
  forall st, process_all local ats v !! j <> Some (Ok st).
Proof.
  revert v now j. induction ats as [|a0 ats IH]; intros v now j Hm Hs Hj Hb Hid st; [done|].
  destruct Hm as (Hle & Hc & Hm). simpl.
  pose proof (process_hello_spent now (at_clock a0) local (at_frame a0) v b Hc Hle Hs) as Hs'.
  pose proof (process_hello_Window (at_clock a0) local (at_frame a0) v) as Hw.
  destruct (process_hello (at_clock a0) local (at_frame a0) v) as [r v'] eqn:E. simpl in *.
  destruct j as [|j]; simpl in *; [|eapply IH; eauto; by rewrite Hw].
  intros [= ->]. simplify_eq.
  destruct (process_hello_accepted _ _ _ _ _ _ _ E Hb) as [msg Hok].
  pose proof (spent_later _ _ (at_clock a) _ Hle Hs) as Hs0.
  destruct (spent_rejects v (at_clock a) b b' msg Hc Hs0 Hid) as (e & He & _).
  by rewrite Hok in He.
Qed.
End Replay.

(** A signed HELLO is accepted at most once.  Over any sequence of
    handshakes that share a Verifier, with a clock that does not run backwards,
    if a HELLO with a signature block is accepted then no later HELLO whose
    block has the same DID, nonce and timestamp is, whatever its payload. *)
Lemma hello_accepted_once `{HE : Ed25519} `{HN : NetEnv} ats local v now0 i j a1 a2 b1 b2 st1 st2 :
  clocks_monotone (v_Window v) now0 ats -> (i < j)%nat ->
  ats !! i = Some a1 -> ats !! j = Some a2 ->
  hello_block (at_frame a1) = Some b1 -> hello_block (at_frame a2) = Some b2 -> same_id b1 b2 ->
  process_all local ats v !! i = Some (Ok st1) -> process_all local ats v !! j <> Some (Ok st2).
Proof.
  revert v now0 i j. induction ats as [|a ats IH];
    intros v now0 i j Hm Hij H1 H2 Hb1 Hb2 Hid Hok; [done|].
  destruct Hm as (Hle & Hc & Hm). simpl in *. destruct j as [|j]; [lia|].
  pose proof (process_hello_Window (at_clock a) local (at_frame a) v) as Hw.
  destruct (process_hello (at_clock a) local (at_frame a) v) as [r v'] eqn:E. simpl in *.
  rewrite <-Hw in Hm. destruct i as [|i]; simpl in *.
  - simplify_eq. destruct (process_hello_accepted _ _ _ _ _ _ _ E Hb1) as [msg Hv].
    apply Verify_spends in Hv. eapply spent_never_accepted; eauto.
  - eapply IH; eauto. lia.
Qed.

Lemma hello_accepted_once_witness :
  process_all (HE := toy_ed25519) (HN := offline) demo_caps_a
    [mkAttempt demo_now (hello_frame (p_hello party_b));
     mkAttempt (demo_now + 7) (hello_frame (p_hello party_b))] NewVerifier !! 1%nat <>
  Some (Ok (mkHS (s_DID (p_signer party_b)) 2 [mkCap (str "com.acme.chat/1") 2 false])).
Proof.
  refine (hello_accepted_once (HE := toy_ed25519) (HN := offline)
    [mkAttempt demo_now (hello_frame (p_hello party_b));
     mkAttempt (demo_now + 7) (hello_frame (p_hello party_b))] demo_caps_a NewVerifier demo_now 0 1
    (mkAttempt demo_now (hello_frame (p_hello party_b)))
    (mkAttempt (demo_now + 7) (hello_frame (p_hello party_b)))
    (default (mkBlock x00 [] [] 0 []) (hello_block (hello_frame (p_hello party_b))))
    (default (mkBlock x00 [] [] 0 []) (hello_block (hello_frame (p_hello party_b))))
    (mkHS (s_DID (p_signer party_b)) 2 [mkCap (str "com.acme.chat/1") 2 false]) _ _ _ _ _ _ _ _ _).
  - vm_compute. intuition congruence.
  - lia.
  - reflexivity.
  - reflexivity.
  - vm_compute. reflexivity.
  - vm_compute. reflexivity.
  - vm_compute. intuition reflexivity.
  - vm_compute. reflexivity.
Defined.

(** Without a configured Verifier every connection gets a fresh one: the same
    HELLO, replayed on a second connection, is accepted again. *)
Example nil_verifier_replay :
  let local := mkConfig (Some (p_signer party_a)) None demo_caps_a in
  let run := runHandshake (HE := toy_ed25519) (HN := offline)
               (p_env party_a) (demo_stream party_b) local in
  run.1.1 = Ok (mkHS (s_DID (p_signer party_b)) 2 [mkCap (str "com.acme.chat/1") 2 false]) /\
  run.2 = None.
Proof. vm_compute. split; reflexivity. Qed.
