(* ===== verification/HandshakeConc.v ===== *)
(** * Concurrent handshakes

    The connections of a node run runHandshake of [handshake.go] in goroutines of
    their own and share the Verifier of the node's config.  What follows the
    arrival of the peer's first frame only touches that Verifier through Verify,
    whose phases interleave with those of the other handshakes. *)

From Stdlib Require Import Strings.Byte.
From stdpp Require Import base numbers list gmap strings.
From S2P Require Import Prelude Machine GoTime Phases GoStrings Varint Frame Stream Capability.
From S2P Require Import Base58 Identity DidWeb Verifier VerifierConc Hello Handshake.
Open Scope Z_scope.

(** ** Up to Verify and after it *)

(** What becomes of a first frame before Verify is called: the handshake is over,
    or Verify is called and its result passed on. *)
Inductive stage : Type :=
| Finished (r : go HandshakeState)
| Verifying (block : SignatureBlock) (signedMsg : bytes) (k : go unit -> go HandshakeState).

Definition hello_stage (local : list Capability) (f : Frame) : stage :=
  if negb (bool_decide (Type_ f = FrameHello)) then
    Finished (Err (Errorf "%w: expected HELLO, got frame type 0x%02x"
                     (Some (Sentinel ErrProtocolViolation)) [ArgInt (bval (Type_ f))]))
  else if negb (OpID f =? 0) then
    Finished (Err (Errorf "%w: HELLO had non-zero OpID %d"
                     (Some (Sentinel ErrProtocolViolation)) [ArgInt (OpID f)]))
  else
  match decodeHelloPayloadV02 (Payload f) with
  | Err e => Finished (Err e)
  | Panic p => Finished (Panic p)
  | Ok (peerVer, peerNodeID, peerCaps, trailing) =>
      if negb (Major peerVer =? Major CurrentVersion) then
        Finished (Err (Errorf "%w: peer major=%d local major=%d"
                         (Some (Sentinel ErrIncompatibleVersion))
                         [ArgInt (Major peerVer); ArgInt (Major CurrentVersion)]))
      else
      let negotiatedMinor :=
        if Minor peerVer <? Minor CurrentVersion then Minor peerVer else Minor CurrentVersion in
      let rest (verified : go unit) : go HandshakeState :=
        verified;;
        active ← NegotiateCapabilities local peerCaps;
        Ok (mkHS peerNodeID negotiatedMinor active) in
      if negb (2 <=? Minor peerVer) then Finished (rest (Ok tt)) else
      if negb (HasPrefix peerNodeID (str "did:")) then
        Finished (Err (malformed "%w: NodeID %q is not a DID" [ArgStr peerNodeID]))
      else if (length trailing =? 0)%nat then
        Finished (Err (Errorf "%w: v0.2 HELLO missing signature block"
                         (Some (Sentinel ErrBadSignature)) []))
      else
      match DecodeSignatureBlock trailing with
      | Err e => Finished (Err (malformed "%w: signature block: %v" [ArgErr e]))
      | Panic p => Finished (Panic p)
      | Ok (block, _) =>
          let '(peerDID, _, _) := Cut (VMID block) x23 in
          if negb (bool_decide (peerDID = peerNodeID)) then
            Finished (Err (Errorf "%w: VMID DID %q != NodeID %q" (Some (Sentinel ErrKeyMismatch))
                             [ArgStr peerDID; ArgStr peerNodeID]))
          else
          let innerLen := (length (Payload f) - length trailing)%nat in
          match signedMessageBytes FrameHello (take innerLen (Payload f)) block with
          | Ok signedMsg => Verifying block signedMsg rest
          | Err e => Finished (Err e)
          | Panic p => Finished (Panic p)
          end
      end
  end.

Section Concurrent.
Context `{HE : Ed25519} `{HN : NetEnv}.
Context (local : list Capability).

(** Without interruption this is what runHandshake does with the frame. *)
Lemma process_hello_stage clock f v :
  process_hello clock local f v =
  match hello_stage local f with
  | Finished r => (r, v)
  | Verifying b m k => let '(u, v) := Verify clock b m v in (k u, v)
  end.
Proof.
  unfold process_hello, hello_stage. destruct (negb (bool_decide (Type_ f = _))); [done|].
  destruct (negb (OpID f =? 0)); [done|].
  destruct (decodeHelloPayloadV02 _) as [[[[ver node] caps] trailing]|?|?]; [|done..].
  destruct (negb (Major ver =? _)); [done|]. destruct (2 <=? Minor ver); cbn [negb]; [|done].
  unfold verify_hello. destruct (negb (HasPrefix _ _)); [done|].
  destruct (length trailing =? 0)%nat; [done|].
  destruct (DecodeSignatureBlock trailing) as [[block n]|?|?]; [|done..].
  destruct (Cut (VMID block) x23) as [[did frag] found].
  destruct (negb (bool_decide _)); [done|].
  destruct (signedMessageBytes _ _ block) as [msg|?|?]; [|done..].
  by destruct (Verify clock block msg v).
Qed.

(** ** The phases *)

#[export] Instance handshake_phased : Phased Frame Verifier (go HandshakeState) := {|
  ph_pre now f v :=
    match hello_stage local f with
    | Finished r => Some r
    | Verifying b m k => k <$> ph_pre now (b, m) v
    end;
  ph_lock now f v :=
    match hello_stage local f with
    | Finished r => (Some r, v)
    | Verifying b m k => let '(r, v) := ph_lock now (b, m) v in (k <$> r, v)
    end;
  ph_post f v :=
    match hello_stage local f with
    | Finished r => r
    | Verifying b m k => k (ph_post (b, m) v)
    end;
|}.

#[export] Instance handshake_phased_laws : PhasedLaws Frame Verifier (go HandshakeState).
Proof.
  assert (forall now f v, (ph_lock now f v).2 = v \/
    exists b m, (ph_lock now f v).2 = (ph_lock (R := go unit) now (b, m) v).2) as Hl.
  { intros now f v. cbn -[verify_phased]. destruct (hello_stage local f) as [|b m k]; [by left|].
    right. exists b, m. by destruct (ph_lock now (b, m) v). }
  split.
  - intros now c now' c' o. destruct (Hl now' c' o) as [->|(b & m & ->)]; [done|].
    cbn -[verify_phased]. destruct (hello_stage local c) as [|b' m' k]; [done|]. by rewrite ph_pre_const.
  - intros c now' c' o. destruct (Hl now' c' o) as [->|(b & m & ->)]; [done|].
    cbn -[verify_phased]. destruct (hello_stage local c) as [|b' m' k]; [done|]. by rewrite ph_post_const.
Qed.

Lemma handshake_op now f v : ph_op now f v = process_hello now local f v.
Proof.
  rewrite process_hello_stage. unfold ph_op. cbn -[verify_phased].
  destruct (hello_stage local f) as [r|b m k]; [done|]. rewrite <-verify_op. unfold ph_op.
  destruct (ph_pre now (b, m) v); [done|]. cbn [fmap option_fmap option_map].
  by destruct (ph_lock now (b, m) v) as [[r|] v'].
Qed.
End Concurrent.

(** ** Interleaved handshakes *)

Abbreviation hstate := (pstate Frame Verifier (go HandshakeState)).

Section Runs.
Context `{HE : Ed25519} `{HN : NetEnv}.
Context (local : list Capability).

(** A run of handshakes on one Verifier: frames arrive, time passes, and the
    handshakes move from phase to phase in any order.  (A handshake that panics
    is one whose result is a panic; that it ends the process is in [Serve].) *)
Definition handshakes_run (t0 : Time) (v0 : Verifier) (s : hstate) : Prop :=
  preachable (HP := handshake_phased local) t0 v0 s.

(** The handshakes in the order in which they took effect. *)
Definition in_order (s : hstate) : list attempt := (fun '(now, f) => mkAttempt now f) <$> plinear s.

Fixpoint process_run (ats : list attempt) (v : Verifier) : Verifier :=
  match ats with
  | [] => v
  | a :: ats => process_run ats (process_hello (at_clock a) local (at_frame a) v).2
  end.

Lemma prun_process calls v :
  prun (HP := handshake_phased local) calls v = process_run ((fun '(now, f) => mkAttempt now f) <$> calls) v.
Proof.
  revert v. induction calls as [|[now f] calls IH]; intros v; [done|].
  change (prun (HP := handshake_phased local) calls (ph_op (HP := handshake_phased local) now f v).2 =
    process_run ((fun '(now, f) => mkAttempt now f) <$> calls) (process_hello now local f v).2).
  by rewrite (handshake_op local), IH.
Qed.

Lemma pall_process calls v :
  pall (HP := handshake_phased local) calls v =
  process_all local ((fun '(now, f) => mkAttempt now f) <$> calls) v.
Proof.
  revert v. induction calls as [|[now f] calls IH]; intros v; [done|]. cbn -[ph_op].
  rewrite (handshake_op local). destruct (process_hello now local f v) as [r v']. by rewrite IH.
Qed.

Lemma handshakes_pinv t0 v0 s : handshakes_run t0 v0 s -> pinv (HP := handshake_phased local) v0 s.
Proof. apply preachable_pinv. Qed.

(** An accepted HELLO stays spent while the readings do not pass [T]. *)
Lemma accepted_hello_spent ats v i a st b T :
  Forall (fun a => at_clock a <= T /\ clock_ok (v_Window v) (at_clock a)) ats ->
  ats !! i = Some a -> hello_block (at_frame a) = Some b -> process_all local ats v !! i = Some (Ok st) ->
  spent (process_run ats v) T b /\ v_Window (process_run ats v) = v_Window v.
Proof.
  assert (forall ats v, Forall (fun a => at_clock a <= T /\ clock_ok (v_Window v) (at_clock a)) ats ->
    spent v T b -> spent (process_run ats v) T b /\ v_Window (process_run ats v) = v_Window v) as Hkeep.
  { clear. intros ats. induction ats as [|a ats IH]; intros v Hf Hs; [done|]. cbn.
    apply Forall_cons in Hf as [[Hle Hc] Hf].
    pose proof (process_hello_Window (at_clock a) local (at_frame a) v) as Hw.
    rewrite <-Hw in Hf |- *. apply IH; [done|].
    by apply process_hello_spent_until. }
  revert v i. induction ats as [|a0 ats IH]; intros v i Hf Hi Hb Hok; [done|]. cbn in Hok |- *.
  apply Forall_cons in Hf as [[Hle Hc] Hf].
  pose proof (process_hello_Window (at_clock a0) local (at_frame a0) v) as Hw.
  destruct (process_hello _ _ _ v) as [r v'] eqn:E. cbn in Hw, Hok |- *. rewrite <-Hw in Hf |- *.
  destruct i as [|i]; cbn in Hi, Hok; [|by eapply IH]. simplify_eq. apply Hkeep; [done|].
  destruct (process_hello_accepted _ _ _ _ _ _ _ E Hb) as [msg Hv].
  eapply spent_later; [exact Hle|]. by eapply Verify_spends.
Qed.

Lemma process_all_at ats v j a :
  ats !! j = Some a ->
  process_all local ats v !! j = Some (process_hello (at_clock a) local (at_frame a) (process_run (take j ats) v)).1.
Proof.
  revert v j. induction ats as [|a0 ats IH]; intros v j Hj; [done|]. cbn.
  destruct (process_hello (at_clock a0) _ _ v) as [r v'] eqn:E. destruct j as [|j]; cbn in Hj |- *.
  - simplify_eq. by rewrite E.
  - rewrite E. by apply IH.
Qed.

Lemma process_all_take ats v i j :
  (i < j)%nat -> process_all local (take j ats) v !! i = process_all local ats v !! i.
Proof.
  revert v i j. induction ats as [|a0 ats IH]; intros v i j Hij; [by rewrite take_nil|].
  destruct j as [|j]; [lia|]. cbn. destruct (process_hello _ _ _ v) as [r v'].
  destruct i as [|i]; [done|]. cbn. apply IH. lia.
Qed.
End Runs.

(** C6: concurrent handshakes are linearizable.  In every interleaving of the
    handshakes of a node there is one order of them (that in which they take
    effect on the shared Verifier, each after its frame arrived, at or after its
    clock reading and before it returned) such that the Verifier is as if they
    had run one after the other, every handshake completed, with exactly the
    state or the error, as at its place in that order, and none twice; when none
    is in progress all have returned. *)
Theorem handshakes_linearizable `{HE : Ed25519} `{HN : NetEnv} local t0 v0 s :
  handshakes_run local t0 v0 s ->
  ps_obj s = process_run local (in_order s) v0 /\
  (forall k r, (k, r) ∈ ps_results s -> process_all local (in_order s) v0 !! k = Some r) /\
  NoDup (ps_results s).*1 /\
  (forall now f t, (now, f, t) ∈ ps_log s -> now <= t <= ps_clock s) /\
  (ps_threads s = [] -> (ps_results s).*1 ≡ₚ seq 0 (length (ps_log s))).
Proof.
  intros H%handshakes_pinv. unfold in_order. split_and!.
  - rewrite <-prun_process. apply (pi_obj _ _ H).
  - intros k r Hr. rewrite <-pall_process. by apply (pi_results _ _ H).
  - by eapply pinv_results_nodup.
  - apply (pi_times _ _ H).
  - by eapply pinv_all_returned.
Qed.

(** C7: a recorded HELLO against concurrent handshakes.  If no handshake takes
    longer than [delta] from reading the clock to its critical section, then in
    any interleaving two completed handshakes whose HELLOs carry blocks with the
    same DID, nonce and timestamp are only possible when the second read a clock
    within [delta] of the end of the block's window. *)
Theorem concurrent_hello_replay `{HE : Ed25519} `{HN : NetEnv} local t0 v0 s delta
    i j nowi fi ti nowj fj tj b1 b2 st1 st2 :
  handshakes_run local t0 v0 s ->
  Forall (fun '(now, _, t) => t <= now + delta /\ clock_ok (v_Window v0) now) (ps_log s) ->
  (i < j)%nat -> ps_log s !! i = Some (nowi, fi, ti) -> ps_log s !! j = Some (nowj, fj, tj) ->
  hello_block fi = Some b1 -> hello_block fj = Some b2 -> same_id b1 b2 ->
  (i, Ok st1) ∈ ps_results s -> (j, Ok st2) ∈ ps_results s ->
  v_Window v0 - delta < nowj - TimestampMS b2 * 1000000 <= v_Window v0.
Proof.
  intros H%handshakes_pinv Hf Hij Hi Hj Hb1 Hb2 (Hd & Hn & Ht) Hri Hrj.
  apply (pi_results _ _ H) in Hri, Hrj. rewrite pall_process in Hri, Hrj. fold (in_order s) in Hri, Hrj.
  assert (forall k now f t, ps_log s !! k = Some (now, f, t) -> in_order s !! k = Some (mkAttempt now f)) as Hl.
  { intros k now f t Hk. unfold in_order, plinear. by rewrite !list_lookup_fmap, Hk. }
  rewrite Forall_forall in Hf.
  destruct (Hf _ (list_elem_of_lookup_2 _ _ _ Hj)) as [Hdelta Hcj].
  destruct (accepted_hello_spent local (take j (in_order s)) v0 i (mkAttempt nowi fi) st1 b1 tj)
    as [Hs Hw]; [|by rewrite lookup_take_lt, (Hl _ _ _ _ Hi)|done|by rewrite process_all_take|].
  { apply Forall_lookup. intros k a Hk. apply lookup_take_Some in Hk as [Hk Hlt].
    destruct (ps_log s !! k) as [[[now f] t]|] eqn:El;
      [|by unfold in_order, plinear in Hk; rewrite !list_lookup_fmap, El in Hk].
    rewrite (Hl _ _ _ _ El) in Hk. simplify_eq. cbn.
    pose proof (pi_sorted _ _ H k j _ _ _ _ ltac:(lia) El Hj) as Hle.
    apply list_elem_of_lookup_2 in El. pose proof (pi_times _ _ H _ _ _ El).
    destruct (Hf _ El) as [_ ?]. split; [lia|done]. }
  rewrite (process_all_at _ _ _ _ _ (Hl _ _ _ _ Hj)) in Hrj. injection Hrj as Hrj. cbn in Hrj.
  destruct (process_hello _ _ _ _) as [r v'] eqn:E. cbn in Hrj. subst r.
  destruct (process_hello_accepted _ _ _ _ _ _ _ E Hb2) as [msg Hv].
  apply Verify_Ok_inv in Hv as (_ & Hskew & _ & Hrec & _). rewrite Hw in Hskew.
  destruct Hs as [Hs|Hs].
  - apply check_and_record_Ok in Hrec as (Hnone & _). rewrite Hd, Hn in Hs. congruence.
  - rewrite Hw, Ht in Hs. split; [lia|].
    destruct (Z.le_gt_cases (nowj - TimestampMS b2 * 1000000) (v_Window v0)) as [|Hgt]; [done|].
    apply abs_skew_expired in Hgt; [lia|by destruct Hcj].
Qed.

(** ** A race between handshakes

    A HELLO signed at time 0 is accepted; a recording of it arrives and its
    handshake reads the clock at the last acceptable instant; before that
    handshake takes the mutex another one, a millisecond later, evicts the
    nonce. *)

Definition race_hello (seed nonce : byte) (now : Time) : Frame :=
  hello_frame (payload_of (buildSignedHello (demo_signer (repeat seed 32)) demo_caps_b (repeat nonce 16) now)).
Definition first_hello : Frame := race_hello x07 xaa 0.
Definition other_hello : Frame := race_hello x07 xbb (300001 * 1000000).

Definition hello_race : list (paction Frame) :=
  [PInvoke first_hello; PMove 0; PMove 0; PMove 0;
   PTick (300000 * 1000000); PInvoke first_hello; PMove 0;
   PTick (300001 * 1000000); PInvoke other_hello; PMove 0; PMove 0; PMove 0;
   PMove 0; PMove 0].
Definition hello_race_end : hstate :=
  default (ps_init 0 NewVerifier)
    (pexec (HP := handshake_phased (HE := toy_ed25519) (HN := offline) demo_caps_a) hello_race
       (ps_init 0 NewVerifier)).
Definition race_state : HandshakeState :=
  mkHS (s_DID (demo_signer (repeat x07 32))) 2 [mkCap (str "com.acme.chat/1") 2 false].

Lemma hello_race_run :
  handshakes_run (HE := toy_ed25519) (HN := offline) demo_caps_a 0 NewVerifier hello_race_end.
Proof.
  unfold handshakes_run.
  apply (pexec_reachable (HP := handshake_phased (HE := toy_ed25519) (HN := offline) demo_caps_a) hello_race 0
    NewVerifier (ps_init 0 NewVerifier)); [apply pr_init|vm_compute; reflexivity].
Qed.

Lemma hello_race_log : ps_log hello_race_end =
  [(0, first_hello, 0); (300001 * 1000000, other_hello, 300001 * 1000000);
   (300000 * 1000000, first_hello, 300001 * 1000000)].
Proof. vm_compute. reflexivity. Qed.

Lemma hello_race_results : ps_results hello_race_end =
  [(2%nat, Ok race_state); (1%nat, Ok race_state); (0%nat, Ok race_state)].
Proof. vm_compute. reflexivity. Qed.

Lemma handshakes_linearizable_witness :
  process_all (HE := toy_ed25519) (HN := offline) demo_caps_a (in_order hello_race_end) NewVerifier !! 2%nat
  = Some (Ok race_state).
Proof.
  destruct (handshakes_linearizable (HE := toy_ed25519) (HN := offline) demo_caps_a 0 NewVerifier hello_race_end
    hello_race_run) as (_ & H & _).
  apply H. rewrite hello_race_results. apply list_elem_of_here.
Defined.

Lemma concurrent_hello_replay_witness :
  exists b, hello_block first_hello = Some b /\
  ReplayWindow - 1000000 < 300000 * 1000000 - TimestampMS b * 1000000 <= ReplayWindow.
Proof.
  destruct (hello_block first_hello) as [b|] eqn:Hb; [|vm_compute in Hb; discriminate].
  exists b. split; [reflexivity|].
  apply (concurrent_hello_replay (HE := toy_ed25519) (HN := offline) demo_caps_a 0 NewVerifier hello_race_end
    1000000 0 2 0 first_hello 0 (300000 * 1000000) first_hello (300001 * 1000000) b b race_state race_state).
  - exact hello_race_run.
  - rewrite hello_race_log. repeat apply Forall_cons_2; [..|apply Forall_nil_2];
      vm_compute; intuition congruence.
  - lia.
  - rewrite hello_race_log. reflexivity.
  - rewrite hello_race_log. reflexivity.
  - exact Hb.
  - exact Hb.
  - repeat split.
  - rewrite hello_race_results. apply list_elem_of_further, list_elem_of_further, list_elem_of_here.
  - rewrite hello_race_results. apply list_elem_of_here.
Defined.
