(* ===== verification/Conn.v ===== *)
(** * Connections and operations

    [conn.go] (Conn, OpenStream, AcceptStream), [handshake.go] (Conn.Handshake)
    and [operation.go]: one QUIC connection, its control stream and the
    operations multiplexed on it. *)

From Stdlib Require Import Strings.Byte.
From stdpp Require Import base numbers list gmap strings.
From S2P Require Import Prelude Machine GoTime GoStrings Varint Frame Stream Capability.
From S2P Require Import Base58 Identity DidWeb Verifier Hello Handshake.
Open Scope Z_scope.

(** ** QUIC stream numbering

    The transport is a parameter.  [quic_id client k] is the ID of the [k]-th
    bidirectional stream that the client (or the server) opens.  The laws are
    those of RFC 9000, section 2.1: IDs are 62-bit, each identifies one stream
    of one initiator, and the client's first bidirectional stream is stream 0. *)
Class Quic := {
  quic_id : bool -> nat -> Z;
}.

Class QuicLaws `{Quic} := {
  quic_id_inj r k r' k' : quic_id r k = quic_id r' k' -> r = r' /\ k = k';
  quic_id_first : quic_id true 0 = 0;
}.

Definition rfc9000 : Quic := {|
  quic_id client k := 4 * Z.of_nat k + (if client then 0 else 1);
|}.

Lemma rfc9000_laws : QuicLaws (H := rfc9000).
Proof. split; simpl; [|done]. intros [] k [] k'; intros; split; lia. Qed.

(** What a successful OpenStreamSync or AcceptStream yields, up to the ID: the
    reading side and the behaviour of Write. *)
Abbreviation ends := (reader * (bytes -> nat * option error))%type.

(** A Conn: which side it is, its control stream, the handshake state, the
    numbers of streams opened and accepted so far, and the error it was closed
    with, if it was ([Some None] is the empty reason). *)
Record Conn := mkConn {
  isClient : bool;
  ctrl : option Stream;
  state : option HandshakeState;
  c_opened : nat;
  c_accepted : nat;
  c_closed : option (option error);
}.

(** The Conn that Dial and Listener.Accept return. *)
Definition new_conn (client : bool) : Conn := mkConn client None None 0 0 None.

Definition set_ctrl (c : Conn) (s : Stream) : Conn :=
  mkConn (isClient c) (Some s) (state c) (c_opened c) (c_accepted c) (c_closed c).
Definition set_state (c : Conn) (st : HandshakeState) : Conn :=
  mkConn (isClient c) (ctrl c) (Some st) (c_opened c) (c_accepted c) (c_closed c).
Definition CloseWithError (reason : option error) (c : Conn) : Conn :=
  mkConn (isClient c) (ctrl c) (state c) (c_opened c) (c_accepted c)
    (match c_closed c with Some r => Some r | None => Some reason end).

(** A stream at the time the transport hands it out. *)
Definition fresh_stream (id : Z) (e : ends) : Stream := mkStream id e.1 [] e.2 false.

Record Operation := mkOp {
  op_OpID : Z;
  op_stream : Stream;
  op_conn : Conn;
}.

Section Connections.
Context `{HE : Ed25519} `{HN : NetEnv} `{HQ : Quic}.

(** [c.qc.OpenStreamSync(ctx)] and [c.qc.AcceptStream(ctx)], with the outcome
    of the transport as an argument. *)
Definition OpenStreamSync (res : go ends) (c : Conn) : go Stream * Conn :=
  match res with
  | Ok e => (Ok (fresh_stream (quic_id (isClient c) (c_opened c)) e),
             mkConn (isClient c) (ctrl c) (state c) (S (c_opened c)) (c_accepted c) (c_closed c))
  | Err e => (Err e, c)
  | Panic p => (Panic p, c)
  end.

Definition qc_AcceptStream (res : go ends) (c : Conn) : go Stream * Conn :=
  match res with
  | Ok e => (Ok (fresh_stream (quic_id (negb (isClient c)) (c_accepted c)) e),
             mkConn (isClient c) (ctrl c) (state c) (c_opened c) (S (c_accepted c)) (c_closed c))
  | Err e => (Err e, c)
  | Panic p => (Panic p, c)
  end.

Definition OpenStream (res : go ends) (c : Conn) : go Stream * Conn :=
  let '(r, c) := OpenStreamSync res c in
  (on_err (fun e => Errorf "aire: OpenStream: %w" (Some e) []) r, c).

Definition AcceptStream (res : go ends) (c : Conn) : go Stream * Conn :=
  let '(r, c) := qc_AcceptStream res c in
  (on_err (fun e => Errorf "aire: AcceptStream: %w" (Some e) []) r, c).

Definition Conn_Close (c : Conn) : Conn := CloseWithError None c.

(** Conn.Handshake.  [w] is the contents of the config's Verifier
    afterwards. *)
Definition Conn_Handshake (env : henv) (res : go ends) (cfg : NodeConfig) (c : Conn)
    : go HandshakeState * Conn * option Verifier :=
  match state c with
  | Some _ => (Err (newError "aire: handshake already completed"), c, cfg_Verifier cfg)
  | None =>
      match (if isClient c then OpenStreamSync res c else qc_AcceptStream res c) with
      | (Err e, c) =>
          (Err (Errorf "aire: handshake: control stream: %w" (Some e) []),
           CloseWithError None c, cfg_Verifier cfg)
      | (Panic p, c) => (Panic p, c, cfg_Verifier cfg)
      | (Ok qs, c) =>
          let '(r, qs, w) := runHandshake env qs cfg in
          let c := set_ctrl c qs in
          match r with
          | Err e => (Err e, CloseWithError (Some e) c, w)
          | Panic p => (Panic p, c, w)
          | Ok st => (Ok st, set_state c st, w)
          end
      end
  end.

Definition Conn_State (c : Conn) : option HandshakeState := state c.

(** ** Operations *)

Definition NewOperation (res : go ends) (c : Conn) : go Operation * Conn :=
  match state c with
  | None => (Err (newError "aire: NewOperation: handshake not completed"), c)
  | Some _ =>
      let '(r, c) := OpenStream res c in
      (s ← r; Ok (mkOp (st_id s) s c), c)
  end.

Definition AcceptOperation (res : go ends) (c : Conn) : go Operation * Conn :=
  match state c with
  | None => (Err (newError "aire: AcceptOperation: handshake not completed"), c)
  | Some _ =>
      let '(r, c) := AcceptStream res c in
      (s ← r; Ok (mkOp (st_id s) s c), c)
  end.

Definition Operation_PeerNodeID (op : Operation) : bytes :=
  match state (op_conn op) with
  | None => []
  | Some st => PeerNodeID st
  end.

Definition with_stream (op : Operation) (s : Stream) : Operation :=
  mkOp (op_OpID op) s (op_conn op).

Definition Operation_Send (f : Frame) (op : Operation) : go unit * Operation :=
  let f := mkFrame (Type_ f) (Flags f) (op_OpID op) (Payload f) in
  let '(r, s) := SendFrame f (op_stream op) in
  (r, with_stream op s).

(** Recv also returns the frame next to the error; callers only use it when
    the error is nil. *)
Definition Operation_Recv (op : Operation) : go Frame * Operation :=
  let '(r, s) := RecvFrame (op_stream op) in
  let op := with_stream op s in
  match r with
  | Ok f =>
      if negb (OpID f =? op_OpID op) then
        (Err (Errorf "%w: frame OpID %d, operation OpID %d" (Some (Sentinel ErrProtocolViolation))
                [ArgInt (OpID f); ArgInt (op_OpID op)]), op)
      else (Ok f, op)
  | r => (r, op)
  end.

Definition Operation_Close (op : Operation) : Operation :=
  with_stream op (Stream_Close (op_stream op)).
End Connections.

(** ** The life of a connection *)

(** One call on a connection. *)
Inductive conn_call : Type :=
| CHandshake (env : henv) (res : go ends) (cfg : NodeConfig)
| CNewOperation (res : go ends)
| CAcceptOperation (res : go ends)
| COpenStream (res : go ends)
| CAcceptStream (res : go ends)
| CClose.

Section Life.
Context `{HE : Ed25519} `{HN : NetEnv} `{HQ : Quic}.

(** Its effect, and the OpID of the operation it returned, if it did. *)
Definition conn_step (call : conn_call) (c : Conn) : option Z * Conn :=
  match call with
  | CHandshake env res cfg => (None, (Conn_Handshake env res cfg c).1.2)
  | CNewOperation res =>
      match NewOperation res c with
      | (Ok op, c) => (Some (op_OpID op), c)
      | (_, c) => (None, c)
      end
  | CAcceptOperation res =>
      match AcceptOperation res c with
      | (Ok op, c) => (Some (op_OpID op), c)
      | (_, c) => (None, c)
      end
  | COpenStream res => (None, (OpenStream res c).2)
  | CAcceptStream res => (None, (AcceptStream res c).2)
  | CClose => (None, Conn_Close c)
  end.

Fixpoint conn_run (calls : list conn_call) (c : Conn) : list Z * Conn :=
  match calls with
  | [] => ([], c)
  | call :: calls =>
      let '(o, c) := conn_step call c in
      let '(ids, c) := conn_run calls c in
      (option_list o ++ ids, c)
  end.

(** A connection reached from a fresh one. *)
Inductive reachable (client : bool) : Conn -> Prop :=
| reach_new : reachable client (new_conn client)
| reach_step call c : reachable client c -> reachable client (conn_step call c).2.

(** The invariant: the side is fixed, and once the state is set there is a
    control stream, which was the first stream the client opened. *)
Definition conn_inv (client : bool) (c : Conn) : Prop :=
  isClient c = client /\
  (state c <> None -> ctrl c <> None /\ (0 < if client then c_opened c else c_accepted c)%nat).

(** Opening the control stream. *)
Lemma control_stream res c r c1 :
  (if isClient c then OpenStreamSync res c else qc_AcceptStream res c) = (r, c1) ->
  isClient c1 = isClient c /\ state c1 = state c /\
  (c_opened c <= c_opened c1)%nat /\ (c_accepted c <= c_accepted c1)%nat /\
  (is_ok r = true -> (0 < if isClient c then c_opened c1 else c_accepted c1)%nat).
Proof.
  destruct (isClient c) eqn:Ec, res; unfold OpenStreamSync, qc_AcceptStream;
    intros [= <- <-]; simpl; split_and!; try done; lia.
Qed.

(** The whole handshake. *)
Lemma Conn_Handshake_effect env res cfg c r c' w :
  Conn_Handshake env res cfg c = (r, c', w) ->
  isClient c' = isClient c /\
  (c_opened c <= c_opened c')%nat /\ (c_accepted c <= c_accepted c')%nat /\
  (state c <> None -> c' = c /\ exists e, r = Err e) /\
  (state c = None ->
   match r with
   | Ok st => state c' = Some st /\ ctrl c' <> None /\
       (0 < if isClient c then c_opened c' else c_accepted c')%nat
   | Err _ => state c' = None /\ c_closed c' <> None
   | Panic _ => state c' = None
   end).
Proof.
  unfold Conn_Handshake. intros E. destruct (state c) as [st|] eqn:Es; simplify_eq.
  { split_and!; try done; eauto. }
  destruct (if isClient c then _ else _) as [r1 c1] eqn:Eo.
  apply control_stream in Eo as (H1 & H2 & H3 & H4 & H5). rewrite Es in H2.
  destruct r1 as [qs|e|p]; simplify_eq; simpl.
  - destruct (runHandshake env qs cfg) as [[[st|e|p] qs'] w'] eqn:Er; simplify_eq; simpl;
      split_and!; try done; intros _; auto. split; [done|]. by destruct (c_closed c1).
  - split_and!; try done. intros _. split; [done|]. by destruct (c_closed c1).
  - split_and!; done.
Qed.

(** NewOperation and AcceptOperation: nothing before the handshake, and
    otherwise one stream more. *)
Lemma NewOperation_effect res c r c' :
  NewOperation res c = (r, c') ->
  (state c = None /\ c' = c /\ exists e, r = Err e) \/
  (state c <> None /\ isClient c' = isClient c /\ state c' = state c /\ ctrl c' = ctrl c /\
   c_accepted c' = c_accepted c /\
   ((is_ok r = false /\ c_opened c' = c_opened c) \/
    (c_opened c' = S (c_opened c) /\ exists op, r = Ok op /\ op_conn op = c' /\
     op_OpID op = st_id (op_stream op) /\ op_OpID op = quic_id (isClient c) (c_opened c)))).
Proof.
  unfold NewOperation, OpenStream, OpenStreamSync. destruct (state c) as [st|] eqn:Es.
  - right. destruct res; simplify_eq/=; split_and!; try done; eauto 10.
  - intros [= <- <-]. left. eauto.
Qed.

Lemma AcceptOperation_effect res c r c' :
  AcceptOperation res c = (r, c') ->
  (state c = None /\ c' = c /\ exists e, r = Err e) \/
  (state c <> None /\ isClient c' = isClient c /\ state c' = state c /\ ctrl c' = ctrl c /\
   c_opened c' = c_opened c /\
   ((is_ok r = false /\ c_accepted c' = c_accepted c) \/
    (c_accepted c' = S (c_accepted c) /\ exists op, r = Ok op /\ op_conn op = c' /\
     op_OpID op = st_id (op_stream op) /\
     op_OpID op = quic_id (negb (isClient c)) (c_accepted c)))).
Proof.
  unfold AcceptOperation, AcceptStream, qc_AcceptStream. destruct (state c) as [st|] eqn:Es.
  - right. destruct res; simplify_eq/=; split_and!; try done; eauto 10.
  - intros [= <- <-]. left. eauto.
Qed.

(** Every step: the counters only grow, and an OpID it returns is that of the
    next stream of one of the two initiators, after the handshake. *)
Lemma conn_step_effect call c o c' :
  conn_step call c = (o, c') ->
  isClient c' = isClient c /\
  (c_opened c <= c_opened c')%nat /\ (c_accepted c <= c_accepted c')%nat /\
  (state c <> None -> state c' = state c /\ ctrl c' = ctrl c) /\
  match o with
  | None => True
  | Some id => state c <> None /\
      (id = quic_id (isClient c) (c_opened c) /\ (c_opened c < c_opened c')%nat \/
       id = quic_id (negb (isClient c)) (c_accepted c) /\ (c_accepted c < c_accepted c')%nat)
  end.
Proof.
  destruct call as [env res cfg|res|res|[]|[]|]; simpl; intros E;
    try (simplify_eq/=; split_and!; try done; lia).
  - destruct (Conn_Handshake env res cfg c) as [[r c1] w] eqn:Eh. simplify_eq.
    apply Conn_Handshake_effect in Eh as (H1 & H2 & H3 & H4 & _).
    split_and!; try done. intros Hs. by destruct (H4 Hs) as [-> _].
  - destruct (NewOperation res c) as [r c1] eqn:En.
    apply NewOperation_effect in En as [(H1 & -> & e & ->)|(H1 & H2 & H3 & H4 & H5 & H6)];
      [by simplify_eq|].
    destruct H6 as [[H6 H7]|(H6 & op & -> & _ & _ & H7)].
    + destruct r; simplify_eq/=; split_and!; try done; lia.
    + simplify_eq. split_and!; try done; lia.
  - destruct (AcceptOperation res c) as [r c1] eqn:En.
    apply AcceptOperation_effect in En as [(H1 & -> & e & ->)|(H1 & H2 & H3 & H4 & H5 & H6)];
      [by simplify_eq|].
    destruct H6 as [[H6 H7]|(H6 & op & -> & _ & _ & H7)].
    + destruct r; simplify_eq/=; split_and!; try done; lia.
    + simplify_eq. split_and!; try done; lia.
Qed.

Lemma conn_step_inv client call c :
  conn_inv client c -> conn_inv client (conn_step call c).2.
Proof.
  intros [Hcl Hst]. destruct (conn_step call c) as [o c'] eqn:E. cbn [snd].
  apply conn_step_effect in E as Hx. destruct Hx as (H1 & H2 & H3 & H4 & _).
  split; [by rewrite H1|]. intros Hs.
  destruct (state c) as [st|] eqn:Es.
  - destruct H4 as [_ ->]; [done|]. destruct Hst as [? ?]; [done|]. split; [done|].
    destruct client; lia.
  - destruct call as [env res cfg|res|res|[]|[]|]; simpl in E; try (simplify_eq/=; congruence).
    + destruct (Conn_Handshake env res cfg c) as [[r c1] w] eqn:Eh. simplify_eq.
      apply Conn_Handshake_effect in Eh as (_ & _ & _ & _ & H5). specialize (H5 Es).
      destruct r; [by destruct H5 as (_ & ? & ?)|by destruct H5|done].
    + unfold NewOperation in E. rewrite Es in E. simplify_eq.
    + unfold AcceptOperation in E. rewrite Es in E. simplify_eq.
Qed.

Lemma reachable_inv client c : reachable client c -> conn_inv client c.
Proof. induction 1; [by split|by apply conn_step_inv]. Qed.

(** The IDs that streams yet to be opened or accepted can have. *)
Definition future (c : Conn) (id : Z) : Prop :=
  (exists k, (c_opened c <= k)%nat /\ id = quic_id (isClient c) k) \/
  (exists k, (c_accepted c <= k)%nat /\ id = quic_id (negb (isClient c)) k).

Lemma future_step call c id : future (conn_step call c).2 id -> future c id.
Proof.
  destruct (conn_step call c) as [o c'] eqn:E. cbn [snd].
  apply conn_step_effect in E as (H1 & H2 & H3 & _). unfold future. rewrite H1.
  intros [(k & Hk & ->)|(k & Hk & ->)]; [left|right]; exists k; split; auto; lia.
Qed.

Lemma conn_run_future calls c id : id ∈ (conn_run calls c).1 -> future c id.
Proof.
  revert c. induction calls as [|call calls IH]; intros c; simpl; [set_solver|].
  pose proof (future_step call c id) as Hf.
  destruct (conn_step call c) as [o c'] eqn:E. cbn [snd] in Hf. specialize (IH c').
  destruct (conn_run calls c') as [ids c'']. cbn [fst] in *. rewrite elem_of_app.
  intros [Ho|Hin]; [|auto]. destruct o as [id'|]; [|by apply elem_of_nil in Ho].
  apply list_elem_of_singleton in Ho as ->.
  apply conn_step_effect in E as (_ & _ & _ & _ & _ & [[-> _]|[-> _]]); [left|right]; eauto.
Qed.
End Life.

(** C15: OpIDs identify operations.  On a connection (client or server) that was
    driven by any calls since it was created, any further sequence of Handshake,
    NewOperation, AcceptOperation, OpenStream, AcceptStream and Close calls, with
    whatever outcomes from the transport, returns operations whose OpIDs are
    pairwise distinct and never 0, the OpID of control frames. *)
Theorem opids_unique `{HE : Ed25519} `{HN : NetEnv} `{HQ : Quic} `{HQL : !QuicLaws} client c calls :
  reachable client c ->
  NoDup (conn_run calls c).1 /\ 0 ∉ (conn_run calls c).1.
Proof.
  intros Hr. revert c Hr. induction calls as [|call calls IH]; intros c Hr; simpl.
  { split; [constructor|set_solver]. }
  pose proof (reach_step client call c Hr) as Hr'. apply reachable_inv in Hr as [Hcl Hinv].
  destruct (conn_step call c) as [o c'] eqn:E. cbn [snd] in Hr'.
  destruct (IH c' Hr') as [Hnd H0]. pose proof (conn_run_future calls c') as Hfut.
  destruct (conn_run calls c') as [ids c'']. cbn [fst] in *.
  apply conn_step_effect in E as (H1 & H2 & H3 & _ & Ho).
  destruct o as [id|]; simpl; [|done]. destruct Ho as [Hs Hid].
  destruct (Hinv Hs) as [_ Hpos]. split.
  - apply NoDup_cons. split; [|done]. intros Hin%Hfut. unfold future in Hin. rewrite H1 in Hin.
    destruct Hid as [[-> ?]|[-> ?]], Hin as [(k & Hk & Heq)|(k & Hk & Heq)];
      apply quic_id_inj in Heq as [Hb Hk']; try lia; by destruct (isClient c).
  - rewrite not_elem_of_cons. split; [|done]. rewrite <-quic_id_first. intros Heq.
    destruct Hid as [[-> ?]|[-> ?]]; apply quic_id_inj in Heq as [Hb Hk'];
      rewrite Hcl in *; destruct client; simpl in *; try done; lia.
Qed.

(** A connection that completed its handshake and opened two operations. *)
Definition demo_ends (peer : party) : ends :=
  (mkReader (frame_bytes (hello_frame (p_hello peer))) EOF, write_all).
Definition demo_calls : list conn_call :=
  [CHandshake (p_env party_a) (Ok (demo_ends party_b)) (p_config party_a);
   CNewOperation (Ok (mkReader [] EOF, write_all));
   CAcceptOperation (Ok (mkReader [] EOF, write_all));
   COpenStream (Err (External 3));
   CNewOperation (Err (External 3));
   CNewOperation (Ok (mkReader [] EOF, write_all))].

Lemma opids_unique_witness :
  NoDup (conn_run (HE := toy_ed25519) (HN := offline) (HQ := rfc9000) demo_calls (new_conn true)).1 /\
  0 ∉ (conn_run (HE := toy_ed25519) (HN := offline) (HQ := rfc9000) demo_calls (new_conn true)).1.
Proof.
  apply (opids_unique (HE := toy_ed25519) (HN := offline) (HQ := rfc9000) (HQL := rfc9000_laws)
    true (new_conn true) demo_calls).
  constructor.
Defined.

Example demo_calls_ids :
  (conn_run (HE := toy_ed25519) (HN := offline) (HQ := rfc9000) demo_calls (new_conn true)).1
  = [4; 1; 8].
Proof. vm_compute. reflexivity. Qed.

Section Identity.
Context `{HE : Ed25519} `{HN : NetEnv} `{HQ : Quic}.

Lemma conn_run_state calls c st :
  state c = Some st -> state (conn_run calls c).2 = Some st.
Proof.
  revert c. induction calls as [|call calls IH]; intros c Hs; simpl; [done|].
  destruct (conn_step call c) as [o c'] eqn:E.
  apply conn_step_effect in E as (_ & _ & _ & H4 & _).
  assert (state c' = Some st) as Hs' by (destruct H4 as [-> _]; [congruence|done]).
  specialize (IH c' Hs'). by destruct (conn_run calls c').
Qed.
End Identity.

(** C33: the peer's identity is fixed by the handshake.  Once the handshake of a
    connection has completed with state [st], no sequence of calls changes the
    state (a second Handshake is refused and leaves the connection untouched),
    and every operation opened or accepted afterwards reports the NodeID of
    [st]. *)
Theorem peer_identity_stable `{HE : Ed25519} `{HN : NetEnv} `{HQ : Quic} calls c st :
  state c = Some st ->
  let c' := (conn_run calls c).2 in
  state c' = Some st /\
  (forall env res cfg, exists e, Conn_Handshake env res cfg c' = (Err e, c', cfg_Verifier cfg)) /\
  (forall res op c'',
     NewOperation res c' = (Ok op, c'') \/ AcceptOperation res c' = (Ok op, c'') ->
     Operation_PeerNodeID op = PeerNodeID st).
Proof.
  intros Hs. cbv zeta. pose proof (conn_run_state calls c st Hs) as Hs'.
  destruct (conn_run calls c) as [ids c']. cbn [snd] in *. split; [done|]. split.
  - intros env res cfg. unfold Conn_Handshake. rewrite Hs'. eauto.
  - intros res op c''. unfold Operation_PeerNodeID.
    intros [E|E]; [apply NewOperation_effect in E|apply AcceptOperation_effect in E];
      destruct E as [(H & _)|(_ & _ & Hst & _ & _ & [[Hf _]|(_ & op' & [= Ho] & Hc & _)])];
      first [congruence|done|subst op'; by rewrite Hc, Hst, Hs'].
Qed.

Definition demo_conn : Conn :=
  (conn_run (HE := toy_ed25519) (HN := offline) (HQ := rfc9000) (take 1 demo_calls) (new_conn true)).2.
Definition demo_state : HandshakeState :=
  mkHS (s_DID (p_signer party_b)) 2 [mkCap (str "com.acme.chat/1") 2 false].

Lemma peer_identity_stable_witness :
  state (conn_run (HE := toy_ed25519) (HN := offline) (HQ := rfc9000) (tail demo_calls) demo_conn).2
  = Some demo_state.
Proof.
  apply (peer_identity_stable (HE := toy_ed25519) (HN := offline) (HQ := rfc9000)
    (tail demo_calls) demo_conn demo_state).
  vm_compute. reflexivity.
Defined.

(** ** Frames of an operation *)

(** Send one frame after another, stopping at the first failure. *)
Fixpoint send_frames (fs : list Frame) (op : Operation) : go unit * Operation :=
  match fs with
  | [] => (Ok tt, op)
  | f :: fs =>
      match Operation_Send f op with
      | (Ok _, op) => send_frames fs op
      | (r, op) => (r, op)
      end
  end.

(** Receive [n] frames, stopping at the first failure. *)
Fixpoint recv_frames (n : nat) (op : Operation) : list Frame * go unit :=
  match n with
  | O => ([], Ok tt)
  | S n =>
      match Operation_Recv op with
      | (Ok f, op) => let '(fs, r) := recv_frames n op in (f :: fs, r)
      | (Err e, _) => ([], Err e)
      | (Panic p, _) => ([], Panic p)
      end
  end.

(** The frame as it goes on the wire of operation [id]. *)
Definition stamp (id : Z) (f : Frame) : Frame := mkFrame (Type_ f) (Flags f) id (Payload f).

Definition frames_bytes (fs : list Frame) : bytes := concat (frame_bytes <$> fs).

Lemma Operation_Send_ok f op :
  0 <= op_OpID op <= MaxVarint -> len (Payload f) <= MaxFrameSize ->
  st_write (op_stream op) = write_all ->
  Operation_Send f op =
    (Ok tt, with_stream op (st_set_sent (op_stream op)
              (st_sent (op_stream op) ++ frame_bytes (stamp (op_OpID op) f)))).
Proof.
  intros Ho Hp Hw. unfold Operation_Send. fold (stamp (op_OpID op) f).
  by rewrite SendFrame_ok by (done || by split).
Qed.

Lemma send_frames_ok fs op :
  0 <= op_OpID op <= MaxVarint -> Forall (fun f => len (Payload f) <= MaxFrameSize) fs ->
  st_write (op_stream op) = write_all ->
  exists op', send_frames fs op = (Ok tt, op') /\
    st_sent (op_stream op') =
      st_sent (op_stream op) ++ frames_bytes (stamp (op_OpID op) <$> fs).
Proof.
  intros Ho Hf. revert op Ho. induction Hf as [|f fs Hf _ IH]; intros op Ho Hw.
  { exists op. cbn. by rewrite app_nil_r. }
  cbn [send_frames]. rewrite Operation_Send_ok by done.
  destruct (IH (with_stream op (st_set_sent (op_stream op)
    (st_sent (op_stream op) ++ frame_bytes (stamp (op_OpID op) f))))) as (op' & E & Hs); [done|done|].
  exists op'. split; [exact E|]. rewrite Hs. cbn. by rewrite <-app_assoc.
Qed.

Lemma Operation_Recv_ok f op data e :
  frame_valid f -> st_in (op_stream op) = mkReader (frame_bytes f ++ data) e ->
  Operation_Recv op =
    (if OpID f =? op_OpID op then Ok f
     else Err (Errorf "%w: frame OpID %d, operation OpID %d" (Some (Sentinel ErrProtocolViolation))
                 [ArgInt (OpID f); ArgInt (op_OpID op)]),
     with_stream op (st_set_in (op_stream op) (mkReader data e))).
Proof.
  intros Hf Hin. unfold Operation_Recv. rewrite (RecvFrame_ok _ _ _ _ Hf Hin).
  cbn [op_OpID with_stream]. by destruct (OpID f =? op_OpID op).
Qed.

(** Matching frames are received, and the reader is left behind them. *)
Lemma recv_frames_app fs op data e :
  Forall (fun f => frame_valid f /\ OpID f = op_OpID op) fs ->
  st_in (op_stream op) = mkReader (frames_bytes fs ++ data) e ->
  exists op', st_in (op_stream op') = mkReader data e /\
    forall n, recv_frames (length fs + n) op =
      let '(gs, r) := recv_frames n op' in (fs ++ gs, r).
Proof.
  intros Hf. remember (op_OpID op) as id eqn:Hid. revert op Hid.
  induction Hf as [|f fs [Hv Ho] _ IH]; intros op Hid Hin.
  { exists op. split; [done|]. intros n. cbn. by destruct (recv_frames n op). }
  unfold frames_bytes in Hin. cbn in Hin. rewrite <-app_assoc in Hin.
  destruct (IH (with_stream op (st_set_in (op_stream op) (mkReader (frames_bytes fs ++ data) e))))
    as (op' & Hin' & Hn); [done|done|].
  exists op'. split; [done|]. intros n. cbn [length Nat.add recv_frames].
  rewrite (Operation_Recv_ok _ _ _ _ Hv Hin). rewrite (proj2 (Z.eqb_eq _ _)) by congruence.
  fold (frames_bytes fs). rewrite Hn. by destruct (recv_frames n op').
Qed.

(** C16: an operation delivers its frames.  Whatever frames one side sends
    through an operation (payloads within MaxFrameSize, any OpID in the struct),
    the other side of the stream, whose operation has the same OpID, receives
    exactly those frames in order, stamped with the operation's OpID, and then
    reads io.EOF once the sender has closed. *)
Theorem operation_delivery fs snd_op rcv_op :
  0 <= op_OpID snd_op <= MaxVarint -> op_OpID rcv_op = op_OpID snd_op ->
  Forall (fun f => len (Payload f) <= MaxFrameSize) fs ->
  st_write (op_stream snd_op) = write_all -> st_sent (op_stream snd_op) = [] ->
  let '(r, snd_op') := send_frames fs snd_op in
  st_in (op_stream rcv_op) = mkReader (st_sent (op_stream snd_op')) EOF ->
  r = Ok tt /\
  recv_frames (length fs) rcv_op = (stamp (op_OpID snd_op) <$> fs, Ok tt) /\
  recv_frames (S (length fs)) rcv_op = (stamp (op_OpID snd_op) <$> fs, Err EOF).
Proof.
  intros Ho Heq Hf Hw Hs. destruct (send_frames_ok fs snd_op Ho Hf Hw) as (op' & -> & ->).
  rewrite Hs. cbn [app]. intros Hin. split; [done|].
  assert (Forall (fun f => frame_valid f /\ OpID f = op_OpID rcv_op)
    (stamp (op_OpID snd_op) <$> fs)) as Hv.
  { apply Forall_fmap. eapply Forall_impl; [done|]. intros f Hl. by rewrite Heq. }
  destruct (recv_frames_app (stamp (op_OpID snd_op) <$> fs) rcv_op [] EOF) as (op'' & Hin' & Hn);
    [done|by rewrite app_nil_r|]. rewrite length_fmap in Hn. split.
  - specialize (Hn 0%nat). rewrite Nat.add_0_r in Hn. cbn [recv_frames] in Hn.
    by rewrite app_nil_r in Hn.
  - specialize (Hn 1%nat). rewrite Nat.add_1_r in Hn. rewrite Hn.
    assert (recv_frames 1 op'' = ([], Err EOF)) as ->.
    { cbn [recv_frames]. unfold Operation_Recv, RecvFrame. by rewrite Hin'. }
    by rewrite app_nil_r.
Qed.

Lemma operation_delivery_witness :
  let fs := [mkFrame FrameStream x00 99 (str "hello"); mkFrame FrameGoodbye x00 0 []] in
  let snd_op := mkOp 4 (fresh_stream 4 (mkReader [] EOF, write_all)) (new_conn true) in
  let rcv_op := mkOp 4 (fresh_stream 4
    (mkReader (frames_bytes (stamp 4 <$> fs)) EOF, write_all)) (new_conn false) in
  recv_frames 3 rcv_op = ([mkFrame FrameStream x00 4 (str "hello"); mkFrame FrameGoodbye x00 4 []],
                          Err EOF).
Proof.
  pose (fs := [mkFrame FrameStream x00 99 (str "hello"); mkFrame FrameGoodbye x00 0 []]).
  pose (snd_op := mkOp 4 (fresh_stream 4 (mkReader [] EOF, write_all)) (new_conn true)).
  pose (rcv_op := mkOp 4 (fresh_stream 4
    (mkReader (frames_bytes (stamp 4 <$> fs)) EOF, write_all)) (new_conn false)).
  refine (proj2 (proj2 (operation_delivery fs snd_op rcv_op _ _ _ _ _ _))).
  - vm_compute. intuition congruence.
  - reflexivity.
  - repeat constructor; vm_compute; congruence.
  - reflexivity.
  - reflexivity.
  - vm_compute. reflexivity.
Defined.

(** Frames of another operation are refused.  On any stream contents, Recv
    returns what the stream decoder returns, except that a frame whose OpID is
    not the operation's is an ErrProtocolViolation; the frame is consumed either
    way. *)
Lemma Recv_checks_OpID op :
  let '(r, rd) := readFrame (st_in (op_stream op)) in
  let '(r', op') := Operation_Recv op in
  st_in (op_stream op') = rd /\ op_OpID op' = op_OpID op /\
  match r with
  | Ok f => (OpID f = op_OpID op /\ r' = Ok f) \/
            (OpID f <> op_OpID op /\
             exists e, r' = Err e /\ errors_Is e ErrProtocolViolation = true)
  | _ => r' = r
  end.
Proof.
  unfold Operation_Recv, RecvFrame. destruct (readFrame _) as [r rd].
  destruct r as [f|e|p]; cbn; try done.
  destruct (OpID f =? op_OpID op) eqn:E; zbool; cbn; split_and!; try done; [by left|].
  right. split; [done|]. by eexists.
Qed.
