(* ===== verification/ErrorText.v ===== *)
(** * Error messages

    What [err.Error()] says: the messages of the package's sentinel errors, and
    the verbs of [fmt.Errorf] that its error messages use.  [Conn.Handshake] sends
    this text to the peer as the reason of its CloseWithError, always with error
    code 0, so the text is all that the peer learns about a failed handshake. *)

From Stdlib Require Import Strings.Byte.
From stdpp Require Import base numbers list gmap strings.
From S2P Require Import Prelude Machine GoTime GoStrings GoText Varint Frame Stream Cancel Capability.
From S2P Require Import Base58 Identity DidWeb Verifier Hello Handshake Conn.
Open Scope Z_scope.

(** ** Sentinels *)

Definition frame_sentinels : list (sentinel * string) :=
  [(ErrShortBuffer, "aire: short buffer"); (ErrFrameTooLarge, "aire: frame exceeds MaxFrameSize")].

Definition operation_sentinels : list (sentinel * string) :=
  [(ErrCancelled, "aire: operation cancelled"); (ErrBudgetExceeded, "aire: budget exceeded");
   (ErrDeadlineExceeded, "aire: deadline exceeded"); (ErrDelegateFailed, "aire: delegate failed")].

Definition identity_sentinels : list (sentinel * string) :=
  [(ErrBadSignature, "aire: bad signature"); (ErrStaleTimestamp, "aire: stale timestamp");
   (ErrReplayedNonce, "aire: replayed nonce"); (ErrUnresolvableDID, "aire: unresolvable DID");
   (ErrKeyMismatch, "aire: key mismatch")].

Definition handshake_sentinels : list (sentinel * string) :=
  [(ErrIncompatibleVersion, "aire: incompatible protocol version");
   (ErrMissingRequiredCapability, "aire: missing required capability");
   (ErrMalformedHello, "aire: malformed HELLO"); (ErrProtocolViolation, "aire: protocol violation")].

Definition addressing_sentinels : list (sentinel * string) :=
  [(ErrNoAIREv1Service, "aire: no AIREv1 service entry in DID Document");
   (ErrAlsoKnownAsMismatch, "aire: handle not in DID Document alsoKnownAs");
   (ErrUnsupportedDIDMethod, "aire: unsupported DID method for endpoint resolution");
   (ErrMalformedHandle, "aire: malformed handle"); (ErrMalformedDIDWeb, "aire: malformed did:web")].

(** Those of package io. *)
Definition io_sentinels : list (sentinel * string) :=
  [(EOF, "EOF"); (ErrUnexpectedEOF, "unexpected EOF")].

Definition all_sentinels : list (sentinel * string) :=
  frame_sentinels ++ operation_sentinels ++ identity_sentinels ++ handshake_sentinels ++
  addressing_sentinels ++ io_sentinels.

Definition sentinel_text (s : sentinel) : bytes :=
  match list_find (fun p => p.1 = s) all_sentinels with
  | Some (_, (_, t)) => str t
  | None => []
  end.

(** ** Verbs *)

(** What the messages need from outside: the text of an error that the transport
    or the operating system made, and [unicode.IsPrint] on runes that are not
    ASCII. *)
Class ErrorEnv := {
  ext_Error : Z -> bytes;
  uni_IsPrint : Z -> bool;
}.

(** An operand, with an error already rendered. *)
Inductive operand : Type :=
| OInt (z : Z)
| OStr (s : bytes)
| OErr (text : bytes).

Section Render.
Context `{HT : ErrorEnv}.

(** [strconv.IsPrint]. *)
Definition IsPrint (r : Z) : bool :=
  if r <? 0x80 then (0x20 <=? r) && (r <? 0x7f) else uni_IsPrint r.

(** The last [n] hexadecimal digits of [v]. *)
Fixpoint hex_fixed (n : nat) (v : Z) (acc : bytes) : bytes :=
  match n with
  | O => acc
  | S n => hex_fixed n (v / 16) (hex_digit (v mod 16) :: acc)
  end.

(** [strconv.appendEscapedRune], for the quote character [q]. *)
Definition escape_rune (q r : Z) : bytes :=
  if (r =? q) || (r =? 0x5c) then [x5c; to_byte r]
  else if IsPrint r then EncodeRune r
  else if r =? 0x07 then str "\a" else if r =? 0x08 then str "\b"
  else if r =? 0x0c then str "\f" else if r =? 0x0a then str "\n"
  else if r =? 0x0d then str "\r" else if r =? 0x09 then str "\t"
  else if r =? 0x0b then str "\v"
  else if (r <? 0x20) || (r =? 0x7f) then str "\x" ++ hex_fixed 2 r []
  else if negb (ValidRune r) then str "\u" ++ hex_fixed 4 0xFFFD []
  else if r <? 0x10000 then str "\u" ++ hex_fixed 4 r []
  else str "\U" ++ hex_fixed 8 r [].

(** [strconv.Quote]: a byte that is not part of a valid encoding is escaped as
    such. *)
Definition quote_span (sp : Z * bytes) : bytes :=
  match sp with
  | (r, [b]) => if (r =? RuneError) then str "\x" ++ hex_fixed 2 (bval b) [] else escape_rune 0x22 r
  | (r, _) => escape_rune 0x22 r
  end.
Definition Quote (s : bytes) : bytes := [x22] ++ concat (quote_span <$> spans s) ++ [x22].

(** [strconv.QuoteRune]. *)
Definition QuoteRune (r : Z) : bytes := [x27] ++ escape_rune 0x27 r ++ [x27].

(** [time.Duration.String]: [fmtFrac] keeps the [prec] digits after the point
    without trailing zeros. *)
Fixpoint frac_digits (prec : nat) (v : Z) (acc : bytes) : bytes :=
  match prec with
  | O => acc
  | S prec =>
      let d := v mod 10 in
      frac_digits prec (v / 10) (if (d =? 0) && bool_decide (acc = []) then [] else digit d :: acc)
  end.
Definition fmtFrac (prec : nat) (v : Z) : bytes :=
  match frac_digits prec v [] with [] => [] | ds => x2e :: ds end.

Definition Duration_String (d : Duration) : bytes :=
  let u := Z.abs d in
  let sign := if d <? 0 then [x2d] else [] in
  if u =? 0 then str "0s"
  else if u <? 1000 then sign ++ Itoa u ++ str "ns"
  else if u <? 1000000 then sign ++ Itoa (u / 1000) ++ fmtFrac 3 u ++ [xc2; xb5; x73]
  else if u <? 1000000000 then sign ++ Itoa (u / 1000000) ++ fmtFrac 6 u ++ str "ms"
  else
    let secs := u / 1000000000 in
    let s := Itoa (secs mod 60) ++ fmtFrac 9 u ++ str "s" in
    let mins := secs / 60 in
    if mins =? 0 then sign ++ s else
    let m := Itoa (mins mod 60) ++ str "m" ++ s in
    let hours := mins / 60 in
    if hours =? 0 then sign ++ m else sign ++ Itoa hours ++ str "h" ++ m.

(** One verb, and what fmt prints when the operand is missing.  An integer under
    [%s] is a time.Duration, one under [%q] a byte. *)
Definition missing (verb : byte) : bytes := str "%!" ++ [verb] ++ str "(MISSING)".

Definition verb_text (verb : byte) (args : list operand) : bytes :=
  match args with
  | [] => missing verb
  | OInt z :: _ =>
      if bool_decide (verb = x71) then QuoteRune z
      else if bool_decide (verb = x73) then Duration_String z
      else if bool_decide (verb = x78) then fmt_02x z
      else Itoa z
  | OStr s :: _ => if bool_decide (verb = x71) then Quote s else s
  | OErr t :: _ => t
  end.

(** [fmt.Sprintf] for the verbs %w, %v, %s, %q, %d and %02x; [w] is the text of
    the operand of %w, the other operands follow in order. *)
Fixpoint Sprintf (fmt : bytes) (w : bytes) (args : list operand) : bytes :=
  match fmt with
  | [] => []
  | c :: rest =>
      if negb (bool_decide (c = x25)) then c :: Sprintf rest w args else
      match rest with
      | v :: rest1 =>
          if bool_decide (v = x77) then w ++ Sprintf rest1 w args
          else if bool_decide (v = x30) then
            match rest1 with
            | _ :: v2 :: rest2 => verb_text v2 args ++ Sprintf rest2 w (tail args)
            | _ => []
            end
          else verb_text v args ++ Sprintf rest1 w (tail args)
      | [] => str "%!(NOVERB)"
      end
  end.

(** [err.Error()]. *)
Fixpoint Error (e : error) : bytes :=
  match e with
  | Sentinel s => sentinel_text s
  | Errorf fmt w args =>
      Sprintf (str fmt) (match w with Some w => Error w | None => [] end)
        (map (fun a => match a with
                       | ArgInt z => OInt z
                       | ArgStr s => OStr s
                       | ArgErr e => OErr (Error e)
                       end) args)
  | External n => ext_Error n
  end.

(** The reason the peer sees, once the connection has been closed. *)
Definition close_reason (c : Conn) : option bytes :=
  match c_closed c with
  | None => None
  | Some None => Some []
  | Some (Some e) => Some (Error e)
  end.
End Render.

(** A world for evaluating the texts: Latin-1 is printable. *)
Definition latin1 : ErrorEnv := {|
  ext_Error n := str "external error " ++ Itoa n;
  uni_IsPrint r := (0xa1 <=? r) && (r <=? 0xff) && negb (r =? 0xad);
|}.

Example durations :
  Duration_String (300 * Second + 1000000) = str "5m0.001s" /\
  Duration_String (7261 * Second) = str "2h1m1s" /\ Duration_String 1500 = str "1.5" ++ [xc2; xb5; x73] /\
  Duration_String (-2000000) = str "-2ms".
Proof. vm_compute. split_and!; reflexivity. Qed.

Example quotes :
  Quote (HT := latin1) (str "a\b" ++ [x0a; xc3; xa9; xff; x22]) =
  [x22] ++ str "a\\b\n" ++ [xc3; xa9] ++ str "\xff\" ++ [x22; x22] /\
  QuoteRune (HT := latin1) 0x30 = str "'0'".
Proof. vm_compute. split; reflexivity. Qed.

Example mismatch_text :
  Error (HT := latin1) (Errorf "%w: VMID DID %q != NodeID %q" (Some (Sentinel ErrKeyMismatch))
    [ArgStr (str "did:key:z1"); ArgStr (str "did:key:z2")]) =
  str "aire: key mismatch: VMID DID " ++ [x22] ++ str "did:key:z1" ++ [x22] ++ str " != NodeID " ++
  [x22] ++ str "did:key:z2" ++ [x22].
Proof. vm_compute. reflexivity. Qed.

(** ** The class of an error, from its text *)

(** The chain of wrapped errors down to a sentinel, each text starting with that
    of the next. *)
Fixpoint leads_with (e : error) (s : sentinel) : bool :=
  match e with
  | Sentinel s' => bool_decide (s' = s)
  | Errorf fmt (Some w) _ => HasPrefix (str fmt) (str "%w") && leads_with w s
  | _ => false
  end.

Lemma leads_with_Is e s : leads_with e s = true -> errors_Is e s = true.
Proof.
  revert e. fix IH 1. intros [s'|fmt [w|] args|n]; cbn; try done.
  intros [_ H]%andb_true_iff. by apply IH.
Qed.

Section Prefixes.
Context `{HT : ErrorEnv}.

Lemma Sprintf_w rest w args : Sprintf (str "%w" ++ rest) w args = w ++ Sprintf rest w args.
Proof. reflexivity. Qed.

Lemma leads_with_text e s : leads_with e s = true -> HasPrefix (Error e) (sentinel_text s) = true.
Proof.
  revert e. fix IH 1. intros [s'|fmt [w|] args|n]; cbn; try done.
  - rewrite bool_decide_eq_true. intros ->. rewrite HasPrefix_true. exists []. by rewrite app_nil_r.
  - intros [[rest ->]%HasPrefix_true [tl Ht]%IH%HasPrefix_true]%andb_true_iff.
    rewrite Sprintf_w, Ht, <-app_assoc. apply HasPrefix_app.
Qed.
End Prefixes.

(** No sentinel's text is the beginning of another's. *)
Definition sentinels : list sentinel := all_sentinels.*1.

Lemma sentinels_all s : s ∈ sentinels.
Proof. apply (bool_decide_unpack _). by destruct s; vm_compute. Qed.

Lemma sentinel_text_prefix s s' : HasPrefix (sentinel_text s') (sentinel_text s) = true -> s = s'.
Proof.
  assert (Forall (fun s => Forall (fun s' => HasPrefix (sentinel_text s') (sentinel_text s) = true -> s = s')
    sentinels) sentinels) as H.
  { apply (bool_decide_unpack _). vm_compute. done. }
  rewrite Forall_forall in H. pose proof (H s (sentinels_all s)) as H'. rewrite Forall_forall in H'.
  apply H', sentinels_all.
Qed.

(** Two prefixes of one text: one is a prefix of the other. *)
Lemma HasPrefix_linear t p q :
  HasPrefix t p = true -> HasPrefix t q = true -> HasPrefix p q = true \/ HasPrefix q p = true.
Proof.
  rewrite !HasPrefix_true. intros [x ->] [y E].
  apply app_eq_inv in E as [(k & -> & _)|(k & -> & _)]; [left|right]; eauto.
Qed.

Lemma text_names_class `{HT : ErrorEnv} e s s' :
  leads_with e s = true -> HasPrefix (Error e) (sentinel_text s') = true <-> s' = s.
Proof.
  intros Hl%leads_with_text. split; [|by intros ->]. intros Hp.
  destruct (HasPrefix_linear _ _ _ Hl Hp) as [H%sentinel_text_prefix|H%sentinel_text_prefix]; congruence.
Qed.

(** ** The errors of a handshake *)

(** Encoders panic but return no error. *)
Definition no_err {A} (m : go A) : Prop := forall e, m <> Err e.

Create HintDb no_err discriminated.

Lemma no_err_bind {A B} (m : go A) (f : A -> go B) :
  no_err m -> (forall a, no_err (f a)) -> no_err (m ≫= f).
Proof. intros Hm Hf e. destruct m as [a|e'|p]; cbn; [apply Hf|by destruct (Hm e')|done]. Qed.

Lemma no_err_Ok {A} (a : A) : no_err (Ok a).
Proof. by intros e. Qed.

Lemma no_err_AppendVarint dst v : no_err (AppendVarint dst v).
Proof. intros e. apply AppendVarint_never_err. Qed.

#[export] Hint Resolve no_err_Ok no_err_AppendVarint : no_err.
#[export] Hint Extern 2 (no_err (_ ≫= _)) => (apply no_err_bind; [|intros ?]) : no_err.

Lemma no_err_appendString dst s : no_err (appendString dst s).
Proof. unfold appendString. auto with no_err. Qed.
#[export] Hint Resolve no_err_appendString : no_err.

Lemma no_err_append_caps caps buf : no_err (append_caps buf caps).
Proof.
  revert buf. induction caps as [|c caps IH]; intros buf; cbn [append_caps]; [auto with no_err|].
  apply no_err_bind; [|done]. unfold append_cap. auto with no_err.
Qed.

Lemma no_err_metaBytes b : no_err (metaBytes b).
Proof. unfold metaBytes. auto with no_err. Qed.
#[export] Hint Resolve no_err_append_caps no_err_metaBytes : no_err.

Lemma no_err_buildSignedHello s caps nonce now : no_err (buildSignedHello s caps nonce now).
Proof.
  unfold buildSignedHello, encodeHelloInner, signedMessageBytes, SignatureBlock_Encode.
  auto 10 with no_err.
Qed.

(** Errors about the peer's frame lead with their sentinel. *)
Definition led (e : error) : Prop := exists s, s ∈ hello_errors /\ leads_with e s = true.

Ltac lead_as s :=
  exists s; split; [unfold hello_errors; set_solver | first [reflexivity | eassumption]].
Ltac lead :=
  cbn [fst];
  first [ lead_as ErrProtocolViolation | lead_as ErrMalformedHello | lead_as ErrIncompatibleVersion
        | lead_as ErrMissingRequiredCapability | lead_as ErrBadSignature | lead_as ErrKeyMismatch
        | lead_as ErrStaleTimestamp | lead_as ErrReplayedNonce | lead_as ErrUnresolvableDID ].

Lemma decode_caps_lead k payload s e : for_nat k (decode_cap payload) s = Err e -> led e.
Proof.
  revert s. induction k as [|k IH]; intros s; cbn [for_nat]; [done|].
  intros [E|(s' & _ & E)]%bind_Err; [|by eapply IH]. unfold decode_cap in E.
  destruct (readString _) as [[? ?]|?|?]; simpl in E; simplify_eq; [|lead].
  destruct (ReadVarint _) as [[? ?]|?|?]; simpl in E; simplify_eq; [|lead].
  repeat case_match; simplify_eq/=; lead.
Qed.

Lemma decodeHello_lead payload e : decodeHelloPayloadV02 payload = Err e -> led e.
Proof.
  unfold decodeHelloPayloadV02. intros E.
  destruct (ReadVarint _) as [[? ?]|?|?]; simpl in E; simplify_eq; [|lead].
  destruct (ReadVarint _) as [[? ?]|?|?]; simpl in E; simplify_eq; [|lead].
  destruct (readString _) as [[? ?]|?|?]; simpl in E; simplify_eq; [|lead].
  destruct (ReadVarint _) as [[z' ?]|?|?] eqn:E4; simpl in E; simplify_eq; [|lead].
  unfold make_caps in E. case_match; simpl in E; [done|].
  apply ReadVarint_range in E4. rewrite for_n_to_nat in E by lia.
  apply bind_Err in E as [E|(? & _ & ?)]; [by eapply decode_caps_lead|by repeat case_match].
Qed.

Lemma Negotiate_lead local peer e : NegotiateCapabilities local peer = Err e -> led e.
Proof.
  assert (forall caps side idx, index_from caps side idx = Err e -> led e) as Hi.
  { induction caps as [|c caps IH]; intros side idx; cbn; [done|].
    case_match; [|by apply IH]. intros [= <-]. lead. }
  assert (forall caps other fmt, HasPrefix (str fmt) (str "%w") = true ->
    check_required caps other fmt = Err e -> led e) as Hc.
  { intros caps other fmt Hf. induction caps as [|c caps IH]; cbn; [done|].
    case_match; [done|]. case_match; [done|]. intros [= <-]. exists ErrMissingRequiredCapability.
    split; [unfold hello_errors; set_solver|]. cbn [leads_with]. by rewrite Hf. }
  unfold NegotiateCapabilities, indexCapabilities.
  intros [E|(? & _ & [E|(? & _ & [E|(? & _ & [E|(? & _ & ?)]%bind_Err)]%bind_Err)]%bind_Err)]%bind_Err;
    [by eapply Hi|by eapply Hi|..|done]; (eapply Hc; [|exact E]; reflexivity).
Qed.

Section Handshakes.
Context `{HE : Ed25519} `{HN : NetEnv}.

Lemma Verify_lead now block msg v e : (Verify now block msg v).1 = Err e -> led e.
Proof.
  rewrite Verify_unfold. case_match; [intros [= <-]; lead|]. case_match; [intros [= <-]; lead|].
  case_match; [intros [= <-]; lead|].
  destruct (check_and_record _ _ _ _ v) as [[[]|e'|p] v'] eqn:Ec; cbn [fst];
    [|intros [= <-]; unfold check_and_record in Ec; case_match; simplify_eq; lead|done].
  unfold check_signature. destruct (Cut (VMID block) x23) as [[did frag] found].
  destruct (ResolveKey _ _) as [pub|e'|p]; simpl; [|intros [= <-]; lead|done].
  unfold VerifyEd25519. case_match; simpl; [done|]. case_match; [|done]. intros [= <-]. lead.
Qed.

Lemma verify_hello_lead clock payload node trailing v e :
  (verify_hello clock payload node trailing v).1 = Err e -> led e.
Proof.
  unfold verify_hello. case_match; [intros [= <-]; lead|]. case_match; [intros [= <-]; lead|].
  destruct (DecodeSignatureBlock trailing) as [[block n]|?|?] eqn:Hb; [|intros [= <-]; lead|done].
  destruct (Cut (VMID block) x23) as [[did frag] found]. case_match; [intros [= <-]; lead|].
  pose proof (signedMessage_decoded FrameHello (take (length payload - length trailing) payload) _ _ _ Hb).
  destruct (signedMessageBytes _ _ block); [apply Verify_lead|done..].
Qed.

Lemma process_hello_lead clock local f v e : (process_hello clock local f v).1 = Err e -> led e.
Proof.
  unfold process_hello. case_match; [intros [= <-]; lead|]. case_match; [intros [= <-]; lead|].
  destruct (decodeHelloPayloadV02 (Payload f)) as [[[[ver node] caps] trailing]|e'|p] eqn:Hd;
    [|intros [= <-]; by eapply decodeHello_lead|done].
  case_match; [intros [= <-]; lead|].
  pose proof (verify_hello_lead clock (Payload f) node trailing v) as Hv.
  destruct (verify_hello _ _ _ _ _) as [r1 v1].
  assert (forall (r : go unit) v1, (forall e, r = Err e -> led e) ->
    (r;; active ← NegotiateCapabilities local caps; Ok (mkHS node
       (if Minor ver <? Minor CurrentVersion then Minor ver else Minor CurrentVersion) active), v1 : Verifier).1
    = Err e -> led e) as Hr.
  { intros r v2 Hr [E|(? & _ & [E|(? & _ & ?)]%bind_Err)]%bind_Err; [by apply Hr|by eapply Negotiate_lead|done]. }
  destruct (2 <=? Minor ver); apply Hr; auto; done.
Qed.

(** What fails before the peer's frame is there says so. *)
Definition own_failure `{HT : ErrorEnv} (e : error) : Prop :=
  HasPrefix (Error e) (str "aire: handshake: ") = true \/
  HasPrefix (Error e) (str "aire: ephemeral signer: ") = true.

(** The peer's first frame, if the handshake came so far as to receive it: this
    side's HELLO was built and written, and a frame could be read. *)
Definition received (env : henv) (local : NodeConfig) (e : ends) : option Frame :=
  match own_hello env local with
  | Ok payload =>
      match (SendFrame (mkFrame FrameHello x00 0 payload) (fresh_stream 0 e)).1, (readFrame e.1).1 with
      | Ok _, Ok f => Some f
      | _, _ => None
      end
  | _ => None
  end.

Lemma own_hello_failure `{HT : ErrorEnv} env local e : own_hello env local = Err e -> own_failure e.
Proof.
  intros Eo. unfold own_hello in Eo. apply bind_Err in Eo as [Eo|(s & _ & Eo)].
  - destruct (cfg_Signer local); [done|]. right. unfold ephemeralSigner in Eo.
    rewrite bind_Err in Eo. destruct Eo as [Eo|(priv & _ & Eo)]; [|by rewrite NewSigner_eq in Eo].
    destruct (he_GenerateKey env); simpl in Eo; simplify_eq. reflexivity.
  - apply bind_Err in Eo as [Eo|(nonce & _ & Eo)]; [|by apply no_err_buildSignedHello in Eo].
    left. destruct (he_rand env); simpl in Eo; simplify_eq. reflexivity.
Qed.

(** What becomes of a write does not depend on the number of the stream. *)
Lemma SendFrame_outcome f id id' e :
  (SendFrame f (fresh_stream id e)).1 = (SendFrame f (fresh_stream id' e)).1 /\
  st_in (SendFrame f (fresh_stream id e)).2 = e.1.
Proof.
  unfold SendFrame. cbn [fresh_stream st_write]. destruct (Encode f) as [bs|?|?]; [|done..].
  by destruct (e.2 bs) as [n [err|]].
Qed.

Lemma runHandshake_lead `{HT : ErrorEnv} env id en local e ctrl' w :
  runHandshake env (fresh_stream id en) local = (Err e, ctrl', w) ->
  match received env local en with
  | Some f => (process_hello (he_Clock env) (cfg_Capabilities local) f (config_verifier local)).1 = Err e
  | None => own_failure e
  end.
Proof.
  unfold runHandshake, received. fold (config_verifier local).
  destruct (own_hello env local) as [hello|e'|p] eqn:Eo; [|intros [= <- _ _]; by eapply own_hello_failure|done].
  destruct (SendFrame_outcome (mkFrame FrameHello x00 0 hello) id 0 en) as [<- Hin].
  destruct (SendFrame _ (fresh_stream id en)) as [[[]|e'|p] c1]; cbn [fst snd] in *;
    [|intros [= <- _ _]; left; reflexivity|done].
  unfold RecvFrame. rewrite Hin.
  destruct (readFrame en.1) as [[f|e'|p] rd]; cbn [fst]; [|intros [= <- _ _]; left; reflexivity|done].
  destruct (process_hello _ _ f _) as [r v'] eqn:Ep. by intros [= -> _ _].
Qed.
End Handshakes.

Lemma own_failure_no_class `{HT : ErrorEnv} e s : own_failure e -> HasPrefix (Error e) (sentinel_text s) = false.
Proof.
  intros Ho. destruct (HasPrefix (Error e) (sentinel_text s)) eqn:E; [|done]. exfalso.
  destruct Ho as [Ho|Ho]; destruct (HasPrefix_linear _ _ _ Ho E) as [H|H]; destruct s; vm_compute in H; done.
Qed.

(** C32: a failed handshake tells the peer why.  When Handshake fails on its control
    stream it closes the connection with [err.Error()] as the reason.  If the
    peer's first frame was received, then it is this frame that was refused, with
    err; err wraps one of nine sentinels, and this text, which is all the peer
    gets, begins with the message of that sentinel and of no other.  If no frame
    was received (this side could not build or write its HELLO, or the stream
    ended) the text begins with one of the two prefixes of such failures and
    with no sentinel's message. *)
Theorem close_reason_names_error `{HE : Ed25519} `{HN : NetEnv} `{HQ : Quic} `{HT : ErrorEnv}
    env e cfg client err c w :
  Conn_Handshake env (Ok e) cfg (new_conn client) = (Err err, c, w) ->
  close_reason c = Some (Error err) /\
  match received env cfg e with
  | Some f =>
      (process_hello (he_Clock env) (cfg_Capabilities cfg) f (config_verifier cfg)).1 = Err err /\
      exists s, s ∈ hello_errors /\ errors_Is err s = true /\
        forall s', HasPrefix (Error err) (sentinel_text s') = true <-> s' = s
  | None => own_failure err /\ forall s, HasPrefix (Error err) (sentinel_text s) = false
  end.
Proof.
  intros E. assert (exists id ctrl' w', runHandshake env (fresh_stream id e) cfg = (Err err, ctrl', w') /\
    c_closed c = Some (Some err)) as (id & ctrl' & w' & Hr & Hc).
  { unfold Conn_Handshake in E. cbn [new_conn state isClient] in E. destruct client; cbn in E;
      (destruct (runHandshake env _ cfg) as [[r qs] w'] eqn:Er; destruct r; simplify_eq; eauto 10). }
  split; [unfold close_reason; by rewrite Hc|].
  apply runHandshake_lead in Hr. destruct (received env cfg e) as [f|].
  - split; [done|]. apply process_hello_lead in Hr as (s & Hs & Hl). exists s.
    split; [done|]. split; [by apply leads_with_Is|]. intros s'. by apply text_names_class.
  - split; [done|]. intros s. by apply own_failure_no_class.
Qed.

(** A peer that starts with an INVOKE. *)
Definition rude_ends : ends := (mkReader (frame_bytes (mkFrame FrameInvoke x00 0 [])) EOF, write_all).
Definition rude_error : error :=
  Errorf "%w: expected HELLO, got frame type 0x%02x" (Some (Sentinel ErrProtocolViolation))
    [ArgInt (bval FrameInvoke)].
Definition rude_handshake : go HandshakeState * Conn * option Verifier :=
  Conn_Handshake (HE := toy_ed25519) (HN := offline) (HQ := rfc9000) (p_env party_a) (Ok rude_ends)
    (p_config party_a) (new_conn true).

Lemma rude_handshake_fails :
  Conn_Handshake (HE := toy_ed25519) (HN := offline) (HQ := rfc9000) (p_env party_a) (Ok rude_ends)
    (p_config party_a) (new_conn true) = (Err rude_error, rude_handshake.1.2, rude_handshake.2).
Proof. vm_compute. reflexivity. Qed.

Lemma rude_received :
  received (HE := toy_ed25519) (p_env party_a) (p_config party_a) rude_ends =
  Some (mkFrame FrameInvoke x00 0 []).
Proof. vm_compute. reflexivity. Qed.

Lemma close_reason_names_error_witness :
  close_reason (HT := latin1) rude_handshake.1.2 = Some (Error (HT := latin1) rude_error) /\
  exists s, s ∈ hello_errors /\ errors_Is rude_error s = true /\
    forall s', HasPrefix (Error (HT := latin1) rude_error) (sentinel_text s') = true <-> s' = s.
Proof.
  pose proof (close_reason_names_error (HE := toy_ed25519) (HN := offline) (HQ := rfc9000) (HT := latin1)
    (p_env party_a) rude_ends (p_config party_a) true rude_error rude_handshake.1.2 rude_handshake.2
    rude_handshake_fails) as [H1 H2].
  rewrite rude_received in H2. destruct H2 as [_ H2]. exact (conj H1 H2).
Defined.

Example rude_reason :
  close_reason (HT := latin1) rude_handshake.1.2 =
  Some (str "aire: protocol violation: expected HELLO, got frame type 0x" ++ fmt_02x (bval FrameInvoke)).
Proof. vm_compute. reflexivity. Qed.
