(* ===== verification/Endpoint.v ===== *)
(** * Endpoints

    The entry points of [conn.go]: DevTLSConfig, Listen and the Listener, Dial,
    and [node.go]'s Node.Addr.  What the transport and the certificate functions
    return is an argument. *)

From Stdlib Require Import Strings.Byte.
From stdpp Require Import base numbers list gmap strings.
From S2P Require Import Prelude Machine GoTime GoStrings Varint Frame Stream Capability.
From S2P Require Import Base58 Identity DidWeb Verifier Hello Handshake Conn.
Open Scope Z_scope.

Definition ALPN : bytes := str "aire/v0".

(** ** The development TLS configuration *)

(** The fields of x509.Certificate that the template sets. *)
Record Certificate := mkCertificate {
  SerialNumber : Z;
  CommonName : bytes;
  NotBefore : Time;
  NotAfter : Time;
  KeyUsage : Z;
  ExtKeyUsage : list Z;
  DNSNames : list bytes;
  IPAddresses : list (list Z);
}.

(** The fields of tls.Config that are set. *)
Record tlsConfig := mkTLS {
  Certificates : list bytes;
  InsecureSkipVerify : bool;
  NextProtos : list bytes;
  MinVersion : Z;
}.

Definition KeyUsageDigitalSignature : Z := 1.
Definition ExtKeyUsageServerAuth : Z := 1.
Definition ExtKeyUsageClientAuth : Z := 2.
Definition VersionTLS13 : Z := 0x0304.
Definition Hour : Duration := 3600 * Second.

(** What crypto/ecdsa, crypto/x509, encoding/pem and crypto/tls return, and the
    two readings of the clock. *)
Record tls_env := mkTlsEnv {
  te_GenerateKey : go bytes;
  te_Now1 : Time;
  te_Now2 : Time;
  te_CreateCertificate : Certificate -> bytes -> go bytes;
  te_MarshalECPrivateKey : bytes -> go bytes;
  te_EncodeToMemory : bytes -> bytes -> bytes;
  te_X509KeyPair : bytes -> bytes -> go bytes;
}.

(** [if err != nil { panic(fmt.Sprintf(msg, err)) }]. *)
Definition or_panic {A} (msg : string) (m : go A) : go A :=
  match m with
  | Err e => Panic (PanicError msg e)
  | m => m
  end.

Definition dev_template (now1 now2 : Time) : Certificate :=
  mkCertificate 1 (str "aire-dev") (Time_Add now1 (- Hour)) (Time_Add now2 (365 * 24 * Hour))
    KeyUsageDigitalSignature [ExtKeyUsageServerAuth; ExtKeyUsageClientAuth]
    [str "localhost"; str "aire-dev"]
    [repeat 0 10 ++ [255; 255; 127; 0; 0; 1]; repeat 0 15 ++ [1]].

Definition DevTLSConfig (env : tls_env) : go tlsConfig :=
  priv ← or_panic "aire: DevTLSConfig: ecdsa.GenerateKey: %v" (te_GenerateKey env);
  let tmpl := dev_template (te_Now1 env) (te_Now2 env) in
  derBytes ← or_panic "aire: DevTLSConfig: CreateCertificate: %v" (te_CreateCertificate env tmpl priv);
  keyBytes ← or_panic "aire: DevTLSConfig: MarshalECPrivateKey: %v" (te_MarshalECPrivateKey env priv);
  let certPEM := te_EncodeToMemory env (str "CERTIFICATE") derBytes in
  let keyPEM := te_EncodeToMemory env (str "EC PRIVATE KEY") keyBytes in
  cert ← or_panic "aire: DevTLSConfig: X509KeyPair: %v" (te_X509KeyPair env certPEM keyPEM);
  Ok (mkTLS [cert] true [ALPN] VersionTLS13).

Lemma or_panic_no_Err {A} msg (m : go A) e : or_panic msg m <> Err e.
Proof. by destruct m. Qed.

Lemma or_panic_Ok {A} msg (m : go A) a : or_panic msg m = Ok a <-> m = Ok a.
Proof. destruct m; cbn; naive_solver. Qed.

(** DevTLSConfig never reports an error; what it returns offers AIRE's protocol
    and nothing else, over TLS 1.3 only, with a certificate made from a template
    that is valid at the time. *)
Lemma DevTLSConfig_outcome env :
  match DevTLSConfig env with
  | Ok cfg => NextProtos cfg = [ALPN] /\ MinVersion cfg = VersionTLS13 /\
      InsecureSkipVerify cfg = true /\
      (te_Now1 env <= te_Now2 env ->
       exists tmpl priv der, te_CreateCertificate env tmpl priv = Ok der /\
         NotBefore tmpl < te_Now1 env /\ te_Now2 env < NotAfter tmpl)
  | Err _ => False
  | Panic _ => True
  end.
Proof.
  destruct (DevTLSConfig env) as [cfg|e|p] eqn:E; [| |done]; unfold DevTLSConfig in E.
  - apply bind_Ok in E as (priv & _ & E). apply bind_Ok in E as (der & Hd%or_panic_Ok & E).
    apply bind_Ok in E as (key & _ & E). apply bind_Ok in E as (cert & _ & E). simplify_eq.
    split_and!; [done..|]. intros _. eexists _, _, _. split; [exact Hd|].
    cbn. unfold Time_Add, Hour, Second. lia.
  - repeat (apply bind_Err in E as [E|(? & _ & E)]; [by apply or_panic_no_Err in E|]). done.
Qed.

(** ** Listeners *)

(** A QUIC listener: its address and whether it was closed. *)
Record QListener := mkQL { ql_addr : bytes; ql_closed : bool }.

Record Listener := mkListener { ql : QListener }.

(** [Listen(addr, tlsConf)]; [res] is what quic.ListenAddr returns. *)
Definition Listen (res : go QListener) (addr : bytes) : go Listener :=
  ql ← on_err (fun e => Errorf "aire: Listen %s: %w" (Some e) [ArgStr addr]) res;
  Ok (mkListener ql).

(** [l.Accept(ctx)]; [res] is what the QUIC listener's Accept returns. *)
Definition Listener_Accept (res : go unit) : go Conn :=
  on_err (fun e => Errorf "aire: Accept: %w" (Some e) []) res;;
  Ok (new_conn false).

Definition Listener_Addr (l : Listener) : bytes := ql_addr (ql l).

(** [l.Close()]; [res] is what the QUIC listener's Close returns. *)
Definition Listener_Close (res : go unit) (l : Listener) : go unit * Listener :=
  (res, mkListener (mkQL (ql_addr (ql l)) true)).

(** [Dial(ctx, addr, tlsConf)]; [res] is what quic.DialAddr returns. *)
Definition Dial (res : go unit) (addr : bytes) : go Conn :=
  on_err (fun e => Errorf "aire: Dial %s: %w" (Some e) [ArgStr addr]) res;;
  Ok (new_conn true).

(** [n.Addr()]. *)
Definition Node_Addr (listener : option Listener) : bytes :=
  match listener with
  | None => []
  | Some l => Listener_Addr l
  end.

(** Every connection starts without a handshake, on the side it was made. *)
Lemma Dial_fresh res addr c :
  Dial res addr = Ok c -> res = Ok tt /\ isClient c = true /\ state c = None /\ ctrl c = None.
Proof. destruct res as [[]| |]; cbn; naive_solver. Qed.

Lemma Listener_Accept_fresh res c :
  Listener_Accept res = Ok c -> res = Ok tt /\ isClient c = false /\ state c = None /\ ctrl c = None.
Proof. destruct res as [[]| |]; cbn; naive_solver. Qed.
