(* ===== verification/Dispatch.v ===== *)
(** * Invocations and dispatch

    [node.go], the part that runs per operation: the INVOKE payload, Conn.Invoke
    on the calling side, the agent table and handleOperation on the serving
    side. *)

From Stdlib Require Import Strings.Byte.
From stdpp Require Import base numbers list gmap strings.
From S2P Require Import Prelude Machine GoTime GoStrings Varint Frame Stream Capability.
From S2P Require Import Base58 Identity DidWeb Verifier Hello Handshake Conn.
Open Scope Z_scope.

(** ** The INVOKE payload *)

Definition encodeInvokePayload (agentID opName args : bytes) : go bytes :=
  buf ← appendString [] agentID;
  buf ← appendString buf opName;
  Ok (buf ++ args).

Definition decodeInvokePayload (payload : bytes) : go (bytes * bytes * bytes) :=
  '(agentID, n) ← on_err (fun e => Errorf "aire: INVOKE: agent-id: %w" (Some e) [])
                    (readString payload);
  '(opName, m) ← on_err (fun e => Errorf "aire: INVOKE: operation: %w" (Some e) [])
                   (readString (drop n payload));
  Ok (agentID, opName, drop (n + m) payload).

(** ** The caller *)

Section Caller.
Context `{HQ : Quic}.

(** Conn.Invoke.  When the send fails the operation is closed and dropped. *)
Definition Conn_Invoke (res : go ends) (agentID opName args : bytes) (c : Conn)
    : go Operation * Conn :=
  match NewOperation res c with
  | (Err e, c) => (Err e, c)
  | (Panic p, c) => (Panic p, c)
  | (Ok op, c) =>
      match encodeInvokePayload agentID opName args with
      | Err e => (Err e, c)
      | Panic p => (Panic p, c)
      | Ok payload =>
          match Operation_Send (mkFrame FrameInvoke x00 0 payload) op with
          | (Ok _, op) => (Ok op, c)
          | (Err e, _) => (Err e, c)
          | (Panic p, _) => (Panic p, c)
          end
      end
  end.
End Caller.

(** ** The server *)

(** The Invoke an agent receives; the live Operation is passed next to it. *)
Record Invoke := mkInvoke {
  inv_AgentID : bytes;
  inv_Operation : bytes;
  inv_Args : bytes;
  inv_PeerNodeID : bytes;
}.

(** An Agent reads and writes the operation it is given and returns an error
    that the node discards. *)
Definition Agent : Type := Invoke -> Operation -> go unit * Operation.

Abbreviation agent_table := (gmap bytes Agent).

Definition RegisterAgent (id : bytes) (a : option Agent) (agents : agent_table)
    : go unit * agent_table :=
  if bool_decide (id = []) then (Err (newError "aire: RegisterAgent: empty ID"), agents) else
  match a with
  | None => (Err (newError "aire: RegisterAgent: nil Agent"), agents)
  | Some a =>
      match agents !! id with
      | Some _ => (Err (Errorf "aire: RegisterAgent: %q already registered" None [ArgStr id]), agents)
      | None => (Ok tt, <[id := a]> agents)
      end
  end.

(** handleOperation: the Invoke it passed to an agent, if any, and the operation
    at the end. *)
Definition handleOperation (agents : agent_table) (op : Operation)
    : go (option Invoke) * Operation :=
  match Operation_Recv op with
  | (Err _, op) => (Ok None, Operation_Close op)
  | (Panic p, op) => (Panic p, op)
  | (Ok f, op) =>
      if negb (bool_decide (Type_ f = FrameInvoke)) then (Ok None, Operation_Close op) else
      match decodeInvokePayload (Payload f) with
      | Err _ => (Ok None, Operation_Close op)
      | Panic p => (Panic p, op)
      | Ok (agentID, opName, args) =>
          match agents !! agentID with
          | None => (Ok None, Operation_Close op)
          | Some agent =>
              let inv := mkInvoke agentID opName args (Operation_PeerNodeID op) in
              match agent inv op with
              | (Panic p, op) => (Panic p, op)
              | (_, op) => (Ok (Some inv), Operation_Close op)
              end
          end
      end
  end.

(** ** The payload codec *)

Lemma encodeInvoke_ok agentID opName args :
  len agentID <= MaxVarint -> len opName <= MaxVarint ->
  encodeInvokePayload agentID opName args = Ok (string_bytes agentID ++ string_bytes opName ++ args).
Proof.
  intros H1 H2. unfold encodeInvokePayload. rewrite appendString_ok by done. cbn [mbind go_bind].
  rewrite appendString_ok by done. cbn [mbind go_bind app]. by rewrite <-app_assoc.
Qed.

Lemma decodeInvoke_Ok payload agentID opName args :
  decodeInvokePayload payload = Ok (agentID, opName, args) <->
  exists b1 b2, payload = b1 ++ b2 ++ args /\ spells b1 agentID /\ spells b2 opName.
Proof.
  unfold decodeInvokePayload. split.
  - intros ([s n] & E1%on_err_Ok & ([t m] & E2%on_err_Ok & E)%bind_Ok)%bind_Ok.
    apply (dec_spells (H := string_codec)) in E1 as (b1 & r1 & -> & -> & S1).
    rewrite drop_app_length in E2.
    apply (dec_spells (H := string_codec)) in E2 as (b2 & r2 & -> & -> & S2).
    rewrite app_assoc, <-length_app, drop_app_length in E. injection E as -> -> ->.
    by exists b1, b2.
  - intros (b1 & b2 & -> & S1 & S2).
    pose proof (S1 (b2 ++ args)) as E1. cbn [dec string_codec] in E1. rewrite E1.
    cbn [on_err mbind go_bind]. rewrite drop_app_length.
    pose proof (S2 args) as E2. cbn [dec string_codec] in E2. rewrite E2.
    cbn [on_err mbind go_bind]. by rewrite app_assoc, <-length_app, drop_app_length.
Qed.

Lemma decodeInvoke_never_panics payload p : decodeInvokePayload payload <> Panic p.
Proof.
  unfold decodeInvokePayload.
  intros [E%on_err_Panic|([? ?] & _ & [E%on_err_Panic|([? ?] & _ & E)]%bind_Panic)]%bind_Panic;
    [by apply readString_never_panics in E..|done].
Qed.
Arguments decodeInvokePayload : simpl never.
Arguments encodeInvokePayload : simpl never.

(** The frame that invokes. *)
Definition invoke_frame (id : Z) (agentID opName args : bytes) : Frame :=
  mkFrame FrameInvoke x00 id (string_bytes agentID ++ string_bytes opName ++ args).

Definition invoke_fits (agentID opName args : bytes) : Prop :=
  len (string_bytes agentID ++ string_bytes opName ++ args) <= MaxFrameSize.

Lemma invoke_fits_strings agentID opName args :
  invoke_fits agentID opName args -> len agentID <= MaxVarint /\ len opName <= MaxVarint.
Proof.
  unfold invoke_fits, string_bytes. rewrite !length_app. intros H.
  split; apply MaxFrameSize_varint; lia.
Qed.

Lemma Conn_Invoke_ok `{HQ : Quic} e agentID opName args c st :
  state c = Some st -> 0 <= quic_id (isClient c) (c_opened c) <= MaxVarint ->
  e.2 = write_all -> invoke_fits agentID opName args ->
  exists op c', Conn_Invoke (Ok e) agentID opName args c = (Ok op, c') /\
    op_OpID op = quic_id (isClient c) (c_opened c) /\
    st_sent (op_stream op) = frame_bytes (invoke_frame (op_OpID op) agentID opName args).
Proof.
  intros Hs Hid Hw Hfit. apply invoke_fits_strings in Hfit as Hl. destruct Hl as [H1 H2].
  unfold Conn_Invoke, NewOperation, OpenStream, OpenStreamSync. rewrite Hs. cbn [on_err mbind go_bind].
  rewrite encodeInvoke_ok by done. rewrite Operation_Send_ok; [|done..].
  eexists _, _. split; [done|]. split; [done|]. done.
Qed.

Lemma handle_invoke agents op id agentID opName args data e :
  invoke_fits agentID opName args -> 0 <= id <= MaxVarint -> op_OpID op = id ->
  st_in (op_stream op) = mkReader (frame_bytes (invoke_frame id agentID opName args) ++ data) e ->
  handleOperation agents op =
  let op := with_stream op (st_set_in (op_stream op) (mkReader data e)) in
  match agents !! agentID with
  | None => (Ok None, Operation_Close op)
  | Some agent =>
      let inv := mkInvoke agentID opName args (Operation_PeerNodeID op) in
      match agent inv op with
      | (Panic p, op) => (Panic p, op)
      | (_, op) => (Ok (Some inv), Operation_Close op)
      end
  end.
Proof.
  intros Hfit Hid Ho Hin.
  unfold handleOperation.
  rewrite (Operation_Recv_ok (invoke_frame id agentID opName args) op data e); [|by split|done].
  rewrite (proj2 (Z.eqb_eq _ _)) by done. cbn [Type_ Payload invoke_frame].
  rewrite bool_decide_eq_true_2 by done. cbn [negb].
  rewrite (proj2 (decodeInvoke_Ok _ agentID opName args)); [done|].
  eexists _, _. split; [done|]. apply invoke_fits_strings in Hfit as [? ?].
  split; by apply string_spells.
Qed.

(** An invocation reaches its agent.  When Conn.Invoke succeeds on a
    connection and the other side accepts that stream, whose bytes begin with
    what was sent, handleOperation calls the agent registered under the
    requested ID, exactly once, with the operation name and argument bytes the
    caller gave and the NodeID that the server's handshake recorded for the
    connection, and closes the operation; with no agent under that ID it closes
    the operation and calls nothing. *)
Lemma invoke_dispatch `{HQ : Quic} ends_c agentID opName args c st agents op data e cop c' :
  state c = Some st -> 0 <= quic_id (isClient c) (c_opened c) <= MaxVarint ->
  ends_c.2 = write_all -> invoke_fits agentID opName args ->
  Conn_Invoke (Ok ends_c) agentID opName args c = (Ok cop, c') ->
  op_OpID op = op_OpID cop ->
  st_in (op_stream op) = mkReader (st_sent (op_stream cop) ++ data) e ->
  let op1 := with_stream op (st_set_in (op_stream op) (mkReader data e)) in
  let inv := mkInvoke agentID opName args (Operation_PeerNodeID op) in
  handleOperation agents op =
  match agents !! agentID with
  | None => (Ok None, Operation_Close op1)
  | Some agent =>
      match agent inv op1 with
      | (Panic p, op2) => (Panic p, op2)
      | (_, op2) => (Ok (Some inv), Operation_Close op2)
      end
  end.
Proof.
  intros Hs Hid Hw Hfit Hi Ho Hin. cbv zeta.
  destruct (Conn_Invoke_ok _ _ _ _ _ _ Hs Hid Hw Hfit) as (cop' & c'' & E & Eid & Esent).
  rewrite E in Hi. simplify_eq.
  rewrite (handle_invoke agents op (op_OpID cop) agentID opName args data e); [done|done|..].
  - by rewrite Eid.
  - done.
  - by rewrite Hin, Esent.
Qed.

(** An agent that sends its arguments back. *)
Definition echo_agent : Agent := fun inv op =>
  Operation_Send (mkFrame FrameStream x00 0 (inv_Args inv)) op.

Definition demo_agents : agent_table := {[ str "echo" := echo_agent ]}.

(** The two ends of an operation on [demo_conn], after the INVOKE was sent. *)
Definition demo_cop : Operation :=
  mkOp 4 (st_set_sent (fresh_stream 4 (mkReader [] EOF, write_all))
    (frame_bytes (invoke_frame 4 (str "echo") (str "say") (str "hi"))))
    (mkConn true (ctrl demo_conn) (state demo_conn) 2 0 None).
Definition demo_op : Operation :=
  mkOp 4 (fresh_stream 4
    (mkReader (st_sent (op_stream demo_cop) ++ []) EOF, write_all)) demo_conn.

Lemma invoke_dispatch_witness :
  (handleOperation demo_agents demo_op).1 =
  Ok (Some (mkInvoke (str "echo") (str "say") (str "hi") (PeerNodeID demo_state))).
Proof.
  rewrite (invoke_dispatch (HQ := rfc9000) (mkReader [] EOF, write_all)
    (str "echo") (str "say") (str "hi") demo_conn demo_state demo_agents demo_op [] EOF
    demo_cop (op_conn demo_cop)).
  - vm_compute. reflexivity.
  - vm_compute. reflexivity.
  - vm_compute. intuition congruence.
  - reflexivity.
  - vm_compute. congruence.
  - vm_compute. reflexivity.
  - reflexivity.
  - reflexivity.
Defined.

(** The operation after its first frame was read and before anything else. *)
Definition after_frame (op : Operation) : Operation :=
  with_stream op (st_set_in (op_stream op) (readFrame (st_in (op_stream op))).2).

(** The first frame on the stream is an INVOKE with the operation's OpID whose
    payload spells the agent, the operation and the arguments of [inv], and
    [inv] has the connection's peer. *)
Definition first_invoke (op : Operation) (inv : Invoke) : Prop :=
  inv_PeerNodeID inv = Operation_PeerNodeID op /\
  exists f b1 b2, (readFrame (st_in (op_stream op))).1 = Ok f /\ Type_ f = FrameInvoke /\
    OpID f = op_OpID op /\ Payload f = b1 ++ b2 ++ inv_Args inv /\
    spells b1 (inv_AgentID inv) /\ spells b2 (inv_Operation inv).

Lemma Operation_Recv_after op :
  Operation_Recv op =
  (match (readFrame (st_in (op_stream op))).1 with
   | Ok f => if negb (OpID f =? op_OpID op) then
       Err (Errorf "%w: frame OpID %d, operation OpID %d" (Some (Sentinel ErrProtocolViolation))
              [ArgInt (OpID f); ArgInt (op_OpID op)])
     else Ok f
   | r => r
   end, after_frame op).
Proof.
  unfold Operation_Recv, RecvFrame, after_frame.
  destruct (readFrame (st_in (op_stream op))) as [[f|e|p] rd]; [|done..]. cbn. by case_match.
Qed.

Lemma first_invoke_decodes op inv f :
  first_invoke op inv -> (readFrame (st_in (op_stream op))).1 = Ok f ->
  Type_ f = FrameInvoke /\ OpID f = op_OpID op /\
  decodeInvokePayload (Payload f) = Ok (inv_AgentID inv, inv_Operation inv, inv_Args inv).
Proof.
  intros (_ & f' & b1 & b2 & E & Ht & Ho & Hp & S1 & S2) Hf. rewrite Hf in E. simplify_eq.
  split_and!; [done|done|]. apply decodeInvoke_Ok. eauto.
Qed.

(** C22: every way an inbound operation can go, whatever bytes the peer sends on
    the stream.  If the first frame is an INVOKE of this operation for a
    registered agent, handleOperation calls that agent, once, with the fields of
    the frame and the connection's peer identity, on the operation as it was
    received (its first frame read and nothing written), and then closes what the
    agent leaves; if the agent panics so does it, and the operation stays as the
    agent left it.  In all other cases it calls no agent, writes nothing and
    closes the operation.  There is no other outcome. *)
Theorem handleOperation_outcome agents op :
  let op1 := after_frame op in
  ((exists inv agent, first_invoke op inv /\ agents !! inv_AgentID inv = Some agent /\
      handleOperation agents op =
      match agent inv op1 with
      | (Panic p, op2) => (Panic p, op2)
      | (_, op2) => (Ok (Some inv), Operation_Close op2)
      end) \/
   ((forall inv, first_invoke op inv -> agents !! inv_AgentID inv = None) /\
    handleOperation agents op = (Ok None, Operation_Close op1))) /\
  (op_OpID op1 = op_OpID op /\ op_conn op1 = op_conn op /\
   st_sent (op_stream op1) = st_sent (op_stream op) /\ st_fin (op_stream op1) = st_fin (op_stream op)) /\
  (forall op2, st_fin (op_stream (Operation_Close op2)) = true /\
     st_sent (op_stream (Operation_Close op2)) = st_sent (op_stream op2)).
Proof.
  cbv zeta. split; [|done]. unfold handleOperation. rewrite Operation_Recv_after.
  pose proof (readFrame_never_panics (st_in (op_stream op))) as Hnp.
  pose proof (first_invoke_decodes op) as Hfi.
  destruct (readFrame (st_in (op_stream op))).1 as [f|e|p] eqn:Hf;
    [|right; split; [intros inv (_ & f & ? & ? & E & _); congruence|done]|by destruct (Hnp p)].
  destruct (negb (OpID f =? op_OpID op)) eqn:Ho; zbool.
  { right. split; [|done]. intros inv Hi. by destruct (Hfi inv f Hi eq_refl) as (_ & ? & _). }
  destruct (negb (bool_decide (Type_ f = FrameInvoke))) eqn:Ht; zbool.
  { right. split; [|done]. intros inv Hi. by destruct (Hfi inv f Hi eq_refl) as (? & _). }
  pose proof (decodeInvoke_never_panics (Payload f)) as Hdp.
  destruct (decodeInvokePayload (Payload f)) as [[[agentID opName] args]|e|p] eqn:Hd; [| |by destruct (Hdp p)].
  2:{ right. split; [|done]. intros inv Hi. destruct (Hfi inv f Hi eq_refl) as (_ & _ & ?). congruence. }
  destruct (agents !! agentID) as [agent|] eqn:Ha.
  - left. exists (mkInvoke agentID opName args (Operation_PeerNodeID op)), agent. split; [|done].
    apply decodeInvoke_Ok in Hd as (b1 & b2 & Hp & S1 & S2). split; [done|]. by exists f, b1, b2.
  - right. split; [|done]. intros inv Hi. destruct (Hfi inv f Hi eq_refl) as (_ & _ & E).
    rewrite Hd in E. injection E as <- _ _. exact Ha.
Qed.
