(* ===== verification/Session.v ===== *)
(** * Sessions

    The two ends of a connection together: Conn.Handshake on both sides, then any
    number of invocations, each with Conn.Invoke on the client, AcceptOperation
    and handleOperation on the server, and the frames that come back. *)

From Stdlib Require Import Strings.Byte.
From stdpp Require Import base numbers list gmap strings.
From S2P Require Import Prelude Machine GoTime GoStrings Varint Frame Stream Capability.
From S2P Require Import Base58 Identity DidWeb Verifier Hello Handshake Conn Dispatch.
Open Scope Z_scope.

(** ** Serving an invocation *)

(** An operation that the server accepted as stream [id], on which [data] arrives
    and whose writes all succeed. *)
Definition inbound (c : Conn) (id : Z) (data : bytes) : Operation :=
  mkOp id (fresh_stream id (mkReader data EOF, write_all)) c.

(** All that a server with these agents writes in answer to an INVOKE. *)
Definition replies (agents : agent_table) (c : Conn) (id : Z) (agentID opName args : bytes) : bytes :=
  st_sent (op_stream
    (handleOperation agents
       (inbound c id (frame_bytes (invoke_frame id agentID opName args)))).2).

Lemma replies_agent agents c id agentID opName args agent :
  invoke_fits agentID opName args -> 0 <= id <= MaxVarint -> agents !! agentID = Some agent ->
  replies agents c id agentID opName args =
  st_sent (op_stream
    (agent (mkInvoke agentID opName args (Operation_PeerNodeID (inbound c id []))) (inbound c id [])).2).
Proof.
  intros Hfit Hid Ha. unfold replies.
  rewrite (handle_invoke agents _ id agentID opName args [] EOF); [|done|done|done|].
  - cbn zeta. rewrite Ha.
    change (with_stream _ _) with (inbound c id []).
    change (Operation_PeerNodeID _) with (Operation_PeerNodeID (inbound c id [])).
    by destruct (agent _ _) as [[[]|e|p] op].
  - cbn. by rewrite app_nil_r.
Qed.

(** The operation that Conn.Invoke returns when nothing fails, and the
    connection it leaves. *)
Section Invoked.
Context `{HQ : Quic}.

Definition next_id (c : Conn) : Z := quic_id (isClient c) (c_opened c).
Definition opened (c : Conn) : Conn :=
  mkConn (isClient c) (ctrl c) (state c) (S (c_opened c)) (c_accepted c) (c_closed c).
Definition invoked (e : ends) (agentID opName args : bytes) (c : Conn) : Operation :=
  mkOp (next_id c)
    (st_set_sent (fresh_stream (next_id c) e)
       (frame_bytes (invoke_frame (next_id c) agentID opName args)))
    (opened c).

Lemma Conn_Invoke_eq e agentID opName args c :
  state c <> None -> 0 <= next_id c <= MaxVarint -> e.2 = write_all ->
  invoke_fits agentID opName args ->
  Conn_Invoke (Ok e) agentID opName args c = (Ok (invoked e agentID opName args c), opened c).
Proof.
  intros Hs Hid Hw Hfit. apply invoke_fits_strings in Hfit as Hl. destruct Hl as [H1 H2].
  unfold Conn_Invoke, NewOperation, OpenStream, OpenStreamSync.
  destruct (state c) as [st|] eqn:Es; [|done]. cbn [on_err mbind go_bind].
  rewrite encodeInvoke_ok by done. rewrite Operation_Send_ok; [|done..].
  unfold invoked, opened. by rewrite Es.
Qed.
End Invoked.

(** Receiving the first [k] frames of a stream that carries more. *)
Lemma recv_first fs k op data e :
  Forall (fun f => frame_valid f /\ OpID f = op_OpID op) fs -> (k <= length fs)%nat ->
  st_in (op_stream op) = mkReader (frames_bytes fs ++ data) e ->
  recv_frames k op = (take k fs, Ok tt).
Proof.
  intros Hf Hk Hin. rewrite <-(take_drop k fs) in Hin, Hf. apply Forall_app in Hf as [Hf _].
  unfold frames_bytes in Hin. rewrite fmap_app, concat_app, <-app_assoc in Hin.
  destruct (recv_frames_app _ _ _ _ Hf Hin) as (op' & _ & Hn). specialize (Hn 0%nat).
  rewrite Nat.add_0_r, length_take_le in Hn by done. rewrite Hn. cbn. by rewrite app_nil_r.
Qed.

(** The wire image of frames sent on operation [id]. *)
Lemma stamped_valid id fs :
  0 <= id <= MaxVarint -> Forall (fun f => len (Payload f) <= MaxFrameSize) fs ->
  Forall (fun f => frame_valid f /\ OpID f = id) (stamp id <$> fs).
Proof. intros Hid Hf. apply Forall_fmap. eapply Forall_impl; [exact Hf|]. by intros f. Qed.

(** ** One invocation *)

Record request := mkRequest { rq_agent : bytes; rq_op : bytes; rq_args : bytes }.

Definition request_fits (cl : request) : Prop := invoke_fits (rq_agent cl) (rq_op cl) (rq_args cl).

Section Session.
Context `{HQ : Quic}.

(** The client invokes, the transport carries the bytes to the server, which
    accepts the stream and handles the operation, and what the server wrote is
    carried back.  The caller sends nothing after the INVOKE.  The outcome is
    what handleOperation did and the client's operation, ready to receive. *)
Definition rpc (agents : agent_table) (cl : request) (ca cb : Conn)
    : option (go (option Invoke) * Operation) * Conn * Conn :=
  match Conn_Invoke (Ok (mkReader [] EOF, write_all)) (rq_agent cl) (rq_op cl) (rq_args cl) ca with
  | (Ok cop, ca) =>
      match AcceptOperation (Ok (mkReader (st_sent (op_stream cop)) EOF, write_all)) cb with
      | (Ok sop, cb) =>
          let '(r, sop) := handleOperation agents sop in
          let reply := mkReader (st_sent (op_stream sop)) EOF in
          (Some (r, with_stream cop (st_set_in (op_stream cop) reply)), ca, cb)
      | (_, cb) => (None, ca, cb)
      end
  | (_, ca) => (None, ca, cb)
  end.

Fixpoint rpcs (agents : agent_table) (cls : list request) (ca cb : Conn)
    : list (option (go (option Invoke) * Operation)) :=
  match cls with
  | [] => []
  | cl :: cls => let '(o, ca, cb) := rpc agents cl ca cb in o :: rpcs agents cls ca cb
  end.

(** Two ends of one connection after [n] operations: the server knows the client
    as [node]. *)
Definition paired (node : bytes) (n : nat) (ca cb : Conn) : Prop :=
  isClient ca = true /\ isClient cb = false /\ state ca <> None /\
  (exists st, state cb = Some st /\ PeerNodeID st = node) /\
  c_opened ca = S n /\ c_accepted cb = S n.

(** The agent answers [inv] with the frames [fs], on any operation whose writes
    succeed. *)
Definition answers (agent : Agent) (inv : Invoke) (fs : list Frame) : Prop :=
  Forall (fun f => len (Payload f) <= MaxFrameSize) fs /\
  forall op, 0 <= op_OpID op <= MaxVarint -> st_write (op_stream op) = write_all ->
    panics (agent inv op).1 = false /\ (agent inv op).2 = (send_frames fs op).2.

(** What a call of [cl] by [node] comes to, as operation [id]. *)
Definition answered (agents : agent_table) (node : bytes) (id : Z) (cl : request)
    (o : option (go (option Invoke) * Operation)) : Prop :=
  let inv := mkInvoke (rq_agent cl) (rq_op cl) (rq_args cl) node in
  exists cop, op_OpID cop = id /\
  match agents !! rq_agent cl with
  | None => o = Some (Ok None, cop) /\ recv_frames 1 cop = ([], Err EOF)
  | Some agent => forall fs, answers agent inv fs ->
      o = Some (Ok (Some inv), cop) /\
      recv_frames (S (length fs)) cop = (stamp id <$> fs, Err EOF)
  end.

(** All the frames and then the end. *)
Lemma recv_all_frames fs op :
  Forall (fun f => frame_valid f /\ OpID f = op_OpID op) fs ->
  st_in (op_stream op) = mkReader (frames_bytes fs) EOF ->
  recv_frames (S (length fs)) op = (fs, Err EOF).
Proof.
  intros Hf Hin. rewrite <-(app_nil_r (frames_bytes fs)) in Hin.
  destruct (recv_frames_app fs op [] EOF Hf Hin) as (op' & Hin' & Hn). specialize (Hn 1%nat).
  rewrite Nat.add_1_r in Hn. rewrite Hn.
  assert (recv_frames 1 op' = ([], Err EOF)) as ->
    by (cbn [recv_frames]; unfold Operation_Recv, RecvFrame; by rewrite Hin').
  by rewrite app_nil_r.
Qed.

(** The server's side of one call. *)
Lemma AcceptOperation_paired node n ca cb data :
  paired node n ca cb ->
  exists cb', AcceptOperation (Ok (mkReader data EOF, write_all)) cb =
    (Ok (inbound cb' (next_id ca) data), cb') /\ paired node (S n) (opened ca) cb'.
Proof.
  intros (H1 & H2 & H3 & (st & H4 & H5) & H6 & H7). unfold AcceptOperation, AcceptStream, qc_AcceptStream.
  rewrite H4. cbn [on_err mbind go_bind]. eexists. split.
  - unfold inbound, next_id. by rewrite H1, H2, H6, H7.
  - unfold paired, opened. cbn. rewrite ?H6, ?H7. split_and!; try done. eauto.
Qed.

Lemma rpc_answered agents node n cl ca cb :
  paired node n ca cb -> 0 <= quic_id true (S n) <= MaxVarint -> request_fits cl ->
  exists o ca' cb', rpc agents cl ca cb = (o, ca', cb') /\ paired node (S n) ca' cb' /\
    answered agents node (quic_id true (S n)) cl o.
Proof.
  intros Hp Hid Hfit. assert (next_id ca = quic_id true (S n)) as Hn.
  { destruct Hp as (H1 & _ & _ & _ & H6 & _). unfold next_id. by rewrite H1, H6. }
  unfold rpc. rewrite (Conn_Invoke_eq _ _ _ _ ca) by (apply Hp || by rewrite ?Hn || done).
  cbn [invoked op_stream st_set_sent st_sent].
  destruct (AcceptOperation_paired node n ca cb
    (frame_bytes (invoke_frame (next_id ca) (rq_agent cl) (rq_op cl) (rq_args cl))) Hp) as (cb' & -> & Hp').
  rewrite (handle_invoke agents _ (next_id ca) (rq_agent cl) (rq_op cl) (rq_args cl) [] EOF);
    [|done|by rewrite Hn|done|cbn; by rewrite app_nil_r].
  cbn zeta. change (with_stream (inbound cb' _ _) _) with (inbound cb' (next_id ca) []).
  assert (Operation_PeerNodeID (inbound cb' (next_id ca) []) = node) as ->.
  { destruct Hp' as (_ & _ & _ & (st & H4 & H5) & _). unfold Operation_PeerNodeID. cbn. by rewrite H4. }
  unfold answered. set (inv := mkInvoke _ _ _ node). rewrite <-Hn in *.
  set (cop0 := invoked (mkReader [] EOF, write_all) (rq_agent cl) (rq_op cl) (rq_args cl) ca).
  destruct (agents !! rq_agent cl) as [agent|].
  - destruct (agent inv _) as [ra sop] eqn:Ea.
    set (r := match ra with Panic p => Panic p | _ => Ok (Some inv) end).
    set (cop := with_stream cop0 (st_set_in (op_stream cop0) (mkReader (st_sent (op_stream sop)) EOF))).
    exists (Some (r, cop)), (opened ca), cb'. split; [by destruct ra|]. split; [done|].
    exists cop. split; [|intros fs [Hfs Hag]; split]; [done| |].
    + specialize (Hag (inbound cb' (next_id ca) []) Hid eq_refl). rewrite Ea in Hag. by destruct Hag as [Hr _], ra.
    + specialize (Hag (inbound cb' (next_id ca) []) Hid eq_refl). rewrite Ea in Hag. destruct Hag as [_ Hs]. cbn in Hs. subst sop.
      destruct (send_frames_ok fs (inbound cb' (next_id ca) [])) as (op' & E & Hs); [done|done|done|].
      rewrite <-(length_fmap (stamp (next_id ca)) fs). apply recv_all_frames; [by apply stamped_valid|].
      cbn. rewrite E. cbn in *. by destruct ra; rewrite Hs.
  - eexists _, _, _. split; [reflexivity|]. split; [done|].
    exists (with_stream cop0 (st_set_in (op_stream cop0) (mkReader [] EOF))). by split_and!.
Qed.

Lemma rpcs_answered agents node cls n ca cb :
  paired node n ca cb -> Forall request_fits cls ->
  (forall k, (k <= n + length cls)%nat -> 0 <= quic_id true k <= MaxVarint) ->
  forall i cl, cls !! i = Some cl ->
  exists o, rpcs agents cls ca cb !! i = Some o /\ answered agents node (quic_id true (S (n + i))) cl o.
Proof.
  intros Hp Hf. revert n ca cb Hp. induction Hf as [|cl cls Hcl _ IH]; intros n ca cb Hp Hid i cl' Hi; [done|].
  cbn [length] in Hid.
  destruct (rpc_answered agents node n cl ca cb Hp (Hid (S n) ltac:(lia)) Hcl) as (o & ca' & cb' & E & Hp' & Ho).
  cbn [rpcs]. rewrite E. destruct i as [|i]; cbn in Hi.
  - injection Hi as <-. exists o. split; [done|]. by rewrite Nat.add_0_r.
  - rewrite <-plus_n_Sm. apply (IH (S n)); [done| |done]. intros k Hk. apply Hid. lia.
Qed.
End Session.

(** ** The handshake of the two ends *)

Section Handshakes.
Context `{HE : Ed25519} `{HN : NetEnv} `{HQ : Quic}.

(** A control stream on which the HELLO of [q] arrives, followed by anything. *)
Definition carries (e : ends) (q : party) : Prop :=
  e.2 = write_all /\ exists rest err, e.1 = mkReader (frame_bytes (hello_frame (p_hello q)) ++ rest) err.

Lemma Conn_Handshake_party client p q e active :
  party_ok p -> party_ok q -> in_sync p q -> carries e q ->
  NegotiateCapabilities (p_caps p) (p_caps q) = Ok active ->
  exists c v, Conn_Handshake (p_env p) (Ok e) (p_config p) (new_conn client) =
    (Ok (mkHS (s_DID (p_signer q)) 2 active), c, v) /\
    isClient c = client /\ state c = Some (mkHS (s_DID (p_signer q)) 2 active) /\
    (if client then c_opened c else c_accepted c) = 1%nat.
Proof.
  intros Hp Hq Hs [Hw (rest & err & He)] Hn. unfold Conn_Handshake. cbn [state new_conn isClient].
  assert (forall id, exists s' v', runHandshake (p_env p) (fresh_stream id e) (p_config p) =
    (Ok (mkHS (s_DID (p_signer q)) 2 active), s', Some v')) as Hrun.
  { intros id. destruct (handshake_with_peer p q (fresh_stream id e) Hp Hq Hs) as (s' & v' & E & _).
    - split; [done|]. split; [done|]. by exists rest, err.
    - rewrite Hn in E. by exists s', v'. }
  destruct client; cbn [OpenStreamSync qc_AcceptStream isClient];
    (edestruct Hrun as (s' & v' & ->)); by eexists _, _.
Qed.
End Handshakes.

(** C4: a session end to end.  Two parties with fresh nonces, clocks within
    the window, signers whose keys the other's Verifier resolves and compatible
    capabilities connect: both
    Handshakes complete, each with the other's DID and the same active
    capabilities.  Then whatever invocations the client makes, one after the
    other and any number of them, the [i]-th is the operation of stream [i+1] on
    both sides; the agent registered under the requested ID is called once, with
    the operation name, the argument bytes and the DID of the client, and the
    client receives exactly the frames with which the agent answers, in order,
    and then io.EOF; where no agent is registered it receives io.EOF at once. *)
Theorem session_end_to_end `{HE : Ed25519} `{HN : NetEnv} `{HQ : Quic}
    a b ea eb act_a act_b agents calls :
  party_ok a -> party_ok b -> in_sync a b -> in_sync b a -> carries ea b -> carries eb a ->
  NegotiateCapabilities (p_caps a) (p_caps b) = Ok act_a ->
  NegotiateCapabilities (p_caps b) (p_caps a) = Ok act_b ->
  Forall request_fits calls -> (forall k, (k <= length calls)%nat -> 0 <= quic_id true k <= MaxVarint) ->
  exists sta ca va stb cb vb,
    Conn_Handshake (p_env a) (Ok ea) (p_config a) (new_conn true) = (Ok sta, ca, va) /\
    Conn_Handshake (p_env b) (Ok eb) (p_config b) (new_conn false) = (Ok stb, cb, vb) /\
    PeerNodeID sta = s_DID (p_signer b) /\ PeerNodeID stb = s_DID (p_signer a) /\
    ActiveCapabilities sta ≡ₚ ActiveCapabilities stb /\
    forall i cl, calls !! i = Some cl ->
    exists o, rpcs agents calls ca cb !! i = Some o /\
      answered agents (s_DID (p_signer a)) (quic_id true (S i)) cl o.
Proof.
  intros Ha Hb Hab Hba Hea Heb Hna Hnb Hf Hid.
  destruct (Conn_Handshake_party true a b ea act_a Ha Hb Hab Hea Hna) as (ca & va & Ea & Ha1 & Ha2 & Ha3).
  destruct (Conn_Handshake_party false b a eb act_b Hb Ha Hba Heb Hnb) as (cb & vb & Eb & Hb1 & Hb2 & Hb3).
  eexists _, ca, va, _, cb, vb. split_and!; [exact Ea|exact Eb|done|done| |].
  - pose proof (negotiation_agreement (p_caps a) (p_caps b)) as Hn. rewrite Hna, Hnb in Hn. exact Hn.
  - apply (rpcs_answered agents _ calls 0); [|done|done]. split_and!; try done; [by rewrite Ha2|].
    eexists. by split.
Qed.

Lemma demo_ends_carries q : carries (demo_ends q) q.
Proof. split; [done|]. exists [], EOF. by rewrite app_nil_r. Qed.

(** The echo agent answers with one frame. *)
Lemma echo_answers inv :
  len (inv_Args inv) <= MaxFrameSize -> answers echo_agent inv [mkFrame FrameStream x00 0 (inv_Args inv)].
Proof.
  intros Hl. split; [by repeat constructor|]. intros op Hid Hw. unfold echo_agent. cbn [send_frames].
  by rewrite Operation_Send_ok.
Qed.

Lemma session_end_to_end_witness :
  exists ca cb cop,
    rpcs (HQ := rfc9000) demo_agents
      [mkRequest (str "nobody") (str "x") []; mkRequest (str "echo") (str "say") (str "hi")] ca cb !! 1%nat =
      Some (Some (Ok (Some (mkInvoke (str "echo") (str "say") (str "hi") (s_DID (p_signer party_a)))), cop)) /\
    recv_frames 2 cop = ([mkFrame FrameStream x00 8 (str "hi")], Err EOF).
Proof.
  destruct (session_end_to_end (HE := toy_ed25519) (HN := offline) (HQ := rfc9000)
    party_a party_b (demo_ends party_b) (demo_ends party_a)
    [mkCap (str "com.acme.chat/1") 2 false] [mkCap (str "com.acme.chat/1") 2 false] demo_agents
    [mkRequest (str "nobody") (str "x") []; mkRequest (str "echo") (str "say") (str "hi")])
    as (sta & ca & va & stb & cb & vb & _ & _ & _ & _ & _ & H).
  - apply party_a_ok.
  - apply party_b_ok.
  - apply demo_in_sync; [reflexivity..|eexists; reflexivity].
  - apply demo_in_sync; [reflexivity..|eexists; reflexivity].
  - apply demo_ends_carries.
  - apply demo_ends_carries.
  - vm_compute. reflexivity.
  - vm_compute. reflexivity.
  - repeat constructor; vm_compute; congruence.
  - intros k Hk. cbn in *. unfold MaxVarint. rewrite shl_mul by lia. lia.
  - destruct (H 1%nat (mkRequest (str "echo") (str "say") (str "hi")) eq_refl) as (o & Ho & cop & _ & Hc).
    change (demo_agents !! rq_agent (mkRequest (str "echo") (str "say") (str "hi"))) with (Some echo_agent) in Hc.
    destruct (Hc _ (echo_answers (mkInvoke (str "echo") (str "say") (str "hi") (s_DID (p_signer party_a)))
      ltac:(vm_compute; congruence))) as [-> Hr]. exists ca, cb, cop.
    split; [exact Ho|exact Hr].
Defined.
