(* ===== verification/Demo.v ===== *)
(** * The streaming demo

    [cmd/aire-demo/main.go]: a server node with a "stream" agent and a client
    that invokes it, receives some of the tokens and closes the connection.
    What main prints is in [Transcript]; sleeping and the log lines of the agent
    are left out. *)

From Stdlib Require Import Strings.Byte.
From stdpp Require Import base numbers list gmap strings.
From S2P Require Import Prelude Machine GoTime GoStrings GoText Varint Frame Stream Capability.
From S2P Require Import Base58 Identity DidWeb Verifier Hello Handshake Conn Endpoint Dispatch Session.
Open Scope Z_scope.

(** ** The agent *)

Definition nTokens : Z := 5.
Definition cancelAfter : Z := 3.

Definition token (i : Z) : bytes := str "token-" ++ Itoa i.
Definition token_frame (i : Z) : Frame := mkFrame FrameStream x00 0 (token i).

(** The body of the loop; its state is the loop index and the operation. *)
Definition stream_body (st : Z * Operation) : go unit * (Z * Operation) :=
  let '(i, op) := st in
  match Operation_Send (token_frame i) op with
  | (Ok _, op) => (Ok tt, (i64 (i + 1), op))
  | (r, op) => (r, (i, op))
  end.

(** streamAgent.  The loop runs [n] times.  (For the largest int the condition
    [i <= n] never fails; the statements about the agent exclude that [n].) *)
Definition streamAgent : Agent := fun inv op =>
  match Atoi (inv_Args inv) with
  | Err e => (Err (Errorf "parse args: %w" (Some e) []), op)
  | Panic p => (Panic p, op)
  | Ok n =>
      let '(r, (_, op)) := sfor_n n stream_body (1, op) in (r, op)
  end.

(** The loop sends the tokens one by one and stops at the first failure. *)
Lemma stream_loop n i op :
  1 <= i -> i + Z.of_nat n <= 2 ^ 63 ->
  (let '(r, (_, op')) := sfor_nat n stream_body (i, op) in (r, op')) =
  send_frames (token_frame <$> seqZ i (Z.of_nat n)) op.
Proof.
  revert i op. induction n as [|n IH]; intros i op Hi Hn; [done|].
  rewrite seqZ_cons by lia. rewrite Nat2Z.inj_succ, Z.pred_succ in *.
  cbn [sfor_nat fmap list_fmap send_frames stream_body].
  destruct (Operation_Send (token_frame i) op) as [[[]|e|p] op1]; cbn [then_do]; [|done|done].
  destruct n as [|n].
  - done.
  - rewrite i64_id by (unfold is_i64; lia). apply IH; lia.
Qed.

Lemma streamAgent_sends inv op n :
  Atoi (inv_Args inv) = Ok n -> streamAgent inv op = send_frames (token_frame <$> seqZ 1 n) op.
Proof.
  intros E. unfold streamAgent. rewrite E. apply Atoi_range in E as [_ Hn]. rewrite sfor_n_nat.
  destruct (Z.le_gt_cases n 0) as [Hz|Hp].
  - rewrite (Z2Nat.nonpos n) by lia. by rewrite seqZ_nil by lia.
  - rewrite stream_loop, Z2Nat.id by lia. done.
Qed.

(** ** Delivery *)

Lemma decimal_length fuel n acc : (length (decimal fuel n acc) <= fuel + length acc)%nat.
Proof.
  revert n acc. induction fuel as [|fuel IH]; intros n acc; cbn [decimal]; [lia|].
  destruct (n <? 10); cbn; [lia|]. specialize (IH (n / 10) (digit (n mod 10) :: acc)).
  cbn in IH. lia.
Qed.

Lemma Itoa_length n : (length (Itoa n) <= 21)%nat.
Proof.
  unfold Itoa. pose proof (decimal_length 20 n []) as H1. pose proof (decimal_length 20 (- n) []) as H2.
  cbn [length] in *. destruct (n <? 0); cbn [length]; lia.
Qed.

Lemma token_fits i : len (Payload (token_frame i)) <= MaxFrameSize.
Proof.
  pose proof (Itoa_length i). unfold token_frame, token. cbn [Payload]. rewrite length_app.
  change (length (str "token-")) with 6%nat. unfold MaxFrameSize. rewrite shl_mul by lia. pow_norm. lia.
Qed.

Lemma small_invoke n : invoke_fits (str "stream") (str "tokens") (Itoa n).
Proof.
  unfold invoke_fits. rewrite !length_app. pose proof (Itoa_length n).
  assert (length (string_bytes (str "stream")) = 7%nat /\ length (string_bytes (str "tokens")) = 7%nat)
    as [-> ->] by (vm_compute; done).
  unfold MaxFrameSize. rewrite shl_mul by lia. pow_norm. lia.
Qed.

Lemma tokens_fit ns : Forall (fun f => len (Payload f) <= MaxFrameSize) (token_frame <$> ns).
Proof. apply Forall_fmap, Forall_true. intros i. apply token_fits. Qed.

(** What the server writes for an invocation of the stream agent. *)
Lemma stream_replies agents c id n :
  0 <= id <= MaxVarint -> is_i64 n -> agents !! str "stream" = Some streamAgent ->
  replies agents c id (str "stream") (str "tokens") (Itoa n) =
  frames_bytes (stamp id <$> (token_frame <$> seqZ 1 n)).
Proof.
  intros Hid Hn Ha. rewrite (replies_agent _ _ _ _ _ _ streamAgent); [|by apply small_invoke|done|done].
  rewrite (streamAgent_sends _ _ n) by (by apply Atoi_Itoa).
  destruct (send_frames_ok (token_frame <$> seqZ 1 n) (inbound c id [])) as (op' & E & Hs);
    [done|apply tokens_fit|done|]. rewrite E. exact Hs.
Qed.

Lemma take_seqZ m n k : 0 <= Z.of_nat k <= n -> take k (seqZ m n) = seqZ m (Z.of_nat k).
Proof.
  intros Hk. replace n with (Z.of_nat k + (n - Z.of_nat k)) by lia. rewrite seqZ_app by lia.
  apply take_app_length'. by rewrite length_seqZ, Nat2Z.id.
Qed.

(** The client's operation after its Invoke, with the server's tokens on it. *)
Lemma stream_invoked `{HQ : Quic} agents c sc n :
  state c <> None -> 0 <= next_id c <= MaxVarint -> 0 <= n < 2 ^ 63 - 1 ->
  agents !! str "stream" = Some streamAgent ->
  let e := (mkReader (replies agents sc (next_id c) (str "stream") (str "tokens") (Itoa n)) EOF,
            write_all) in
  let op := invoked e (str "stream") (str "tokens") (Itoa n) c in
  let fs := stamp (next_id c) <$> (token_frame <$> seqZ 1 n) in
  Conn_Invoke (Ok e) (str "stream") (str "tokens") (Itoa n) c = (Ok op, opened c) /\
  st_in (op_stream (Operation_Close op)) = mkReader (frames_bytes fs ++ []) EOF /\
  Forall (fun f => frame_valid f /\ OpID f = op_OpID (Operation_Close op)) fs.
Proof.
  intros Hs Hid Hn Ha e op fs. split_and!.
  - apply Conn_Invoke_eq; [done|done|done|apply small_invoke].
  - cbn. by rewrite stream_replies, app_nil_r by (done || unfold is_i64; lia).
  - apply stamped_valid; [done|apply tokens_fit].
Qed.

(** The first [k] of them. *)
Lemma stream_recv `{HQ : Quic} agents c sc n k :
  state c <> None -> 0 <= next_id c <= MaxVarint -> 0 <= n < 2 ^ 63 - 1 ->
  agents !! str "stream" = Some streamAgent -> Z.of_nat k <= n ->
  let e := (mkReader (replies agents sc (next_id c) (str "stream") (str "tokens") (Itoa n)) EOF,
            write_all) in
  recv_frames k (Operation_Close (invoked e (str "stream") (str "tokens") (Itoa n) c)) =
  (stamp (next_id c) <$> (token_frame <$> seqZ 1 (Z.of_nat k)), Ok tt).
Proof.
  intros Hs Hid Hn Ha Hk e. destruct (stream_invoked agents c sc n Hs Hid Hn Ha) as (_ & Hin & Hv).
  fold e in Hin, Hv. rewrite (recv_first _ k _ [] EOF Hv); [|by rewrite !length_fmap, length_seqZ; lia|exact Hin].
  by rewrite <-!fmap_take, take_seqZ by lia.
Qed.

(** The stream agent delivers its tokens.  A client that invokes
    "stream"/"tokens" with the decimal for [n] on a connection that has completed
    its handshake, served by a node that has the agent registered, receives
    token-1, token-2, ... in order and without gaps, any number of them up to
    [n], and io.EOF after the [n]-th. *)
Lemma stream_demo_delivery `{HQ : Quic} agents c sc n :
  state c <> None -> 0 <= next_id c <= MaxVarint -> 0 <= n < 2 ^ 63 - 1 ->
  agents !! str "stream" = Some streamAgent ->
  let e := (mkReader (replies agents sc (next_id c) (str "stream") (str "tokens") (Itoa n)) EOF,
            write_all) in
  exists op c', Conn_Invoke (Ok e) (str "stream") (str "tokens") (Itoa n) c = (Ok op, c') /\
    (forall k, Z.of_nat k <= n ->
      recv_frames k (Operation_Close op) =
      (stamp (op_OpID op) <$> (token_frame <$> seqZ 1 (Z.of_nat k)), Ok tt)) /\
    recv_frames (S (Z.to_nat n)) (Operation_Close op) =
      (stamp (op_OpID op) <$> (token_frame <$> seqZ 1 n), Err EOF).
Proof.
  intros Hs Hid Hn Ha e. destruct (stream_invoked agents c sc n Hs Hid Hn Ha) as (Hi & Hin & Hv).
  fold e in Hi, Hin, Hv. eexists _, _. split; [exact Hi|]. split; [intros k Hk; by apply stream_recv|].
  destruct (recv_frames_app _ _ [] EOF Hv Hin) as (op' & Hin' & Hr). specialize (Hr 1%nat).
  rewrite !length_fmap, length_seqZ, Nat.add_1_r in Hr. rewrite Hr.
  assert (recv_frames 1 op' = ([], Err EOF)) as ->
    by (cbn [recv_frames]; unfold Operation_Recv, RecvFrame; by rewrite Hin').
  by rewrite app_nil_r.
Qed.

(** ** The program *)

(** What the program gets from outside: the certificate functions, the outcomes
    of binding and dialling, and for the client's connection the environment of
    its handshake and the streams it opens. *)
Record demo_world := mkDemoWorld {
  dw_tls_server : tls_env;
  dw_tls_client : tls_env;
  dw_listen : go QListener;
  dw_dial : go unit;
  dw_env : henv;
  dw_ctrl : go ends;
  dw_op : go ends;
}.

(** [log.Fatalf(fmt, err)] ends the program. *)
Definition Fatalf {A} (fmt : string) (m : go A) : go A :=
  on_err (fun e => Errorf fmt None [ArgErr e]) m.

Definition stream_agents : agent_table := (RegisterAgent (str "stream") (Some streamAgent) ∅).2.

Section Program.
Context `{HE : Ed25519} `{HN : NetEnv} `{HQ : Quic}.

(** main: the frames the client received and its connection at the end. *)
Definition aire_demo (w : demo_world) : go (list Frame * Conn) :=
  Fatalf "RegisterAgent: %v" (RegisterAgent (str "stream") (Some streamAgent) ∅).1;;
  DevTLSConfig (dw_tls_server w);;
  server ← Fatalf "Listen: %v" (Listen (dw_listen w) (str "127.0.0.1:0"));
  DevTLSConfig (dw_tls_client w);;
  conn ← Fatalf "Dial: %v" (Dial (dw_dial w) (Node_Addr (Some server)));
  let '(r, conn, _) := Conn_Handshake (dw_env w) (dw_ctrl w) (mkConfig None None []) conn in
  Fatalf "client Handshake: %v" r;;
  let '(r, conn) := Conn_Invoke (dw_op w) (str "stream") (str "tokens") (Itoa nTokens) conn in
  op ← Fatalf "Invoke: %v" r;
  let op := Operation_Close op in
  let '(fs, r) := recv_frames (Z.to_nat cancelAfter) op in
  on_err (fun e => Errorf "Recv token %d: %v" None [ArgInt (1 + len fs); ArgErr e]) r;;
  Ok (fs, Conn_Close conn).
End Program.

(** The demo does what it says.  If the certificates, the listener, the
    dialling and the handshake succeed and the stream the client opens carries
    what the server writes, then the program receives token-1, token-2 and
    token-3, in this order, and ends with its connection closed. *)
Lemma aire_demo_receives `{HE : Ed25519} `{HN : NetEnv} `{HQ : Quic} w sc st c v :
  is_ok (DevTLSConfig (dw_tls_server w)) = true -> is_ok (DevTLSConfig (dw_tls_client w)) = true ->
  is_ok (dw_listen w) = true -> dw_dial w = Ok tt ->
  Conn_Handshake (dw_env w) (dw_ctrl w) (mkConfig None None []) (new_conn true) = (Ok st, c, v) ->
  0 <= next_id c <= MaxVarint ->
  dw_op w = Ok (mkReader (replies stream_agents sc (next_id c) (str "stream") (str "tokens")
                            (Itoa nTokens)) EOF, write_all) ->
  exists c', c_closed c' <> None /\
    aire_demo w = Ok ([mkFrame FrameStream x00 (next_id c) (str "token-1");
                       mkFrame FrameStream x00 (next_id c) (str "token-2");
                       mkFrame FrameStream x00 (next_id c) (str "token-3")], c').
Proof.
  intros Ht1 Ht2 Hl Hd Hh Hid Hop.
  assert (state c <> None) as Hs.
  { apply Conn_Handshake_effect in Hh as (_ & _ & _ & _ & H). destruct (H eq_refl) as [-> _]. done. }
  destruct (stream_invoked stream_agents c sc nTokens Hs Hid) as (Hi & _); [unfold nTokens; lia|done|].
  exists (Conn_Close (opened c)).
  split; [unfold Conn_Close, CloseWithError; cbn; by destruct (c_closed c)|].
  unfold aire_demo. cbn [RegisterAgent fst Fatalf on_err mbind go_bind].
  destruct (DevTLSConfig (dw_tls_server w)); [|done|done]. cbn [mbind go_bind].
  destruct (dw_listen w); [|done|done]. cbn [Listen on_err Fatalf mbind go_bind].
  destruct (DevTLSConfig (dw_tls_client w)); [|done|done]. cbn [mbind go_bind].
  rewrite Hd. cbn [Dial on_err Fatalf mbind go_bind]. rewrite Hh. cbn [on_err Fatalf mbind go_bind].
  rewrite Hop, Hi. cbn [on_err Fatalf mbind go_bind].
  rewrite stream_recv by (done || unfold cancelAfter, nTokens; lia). done.
Qed.

(** ** A concrete run *)

Definition toy_tls : tls_env :=
  mkTlsEnv (Ok [x01]) 0 1 (fun _ k => Ok (x02 :: k)) (fun k => Ok (x03 :: k)) (fun _ b => b)
    (fun c k => Ok (c ++ k)).

Definition toy_henv : henv := mkEnv (Ok (repeat x05 32)) (Ok (repeat xcc 16)) demo_now demo_now.

(** The client's connection after its handshake with [party_b]. *)
Definition client_handshake :=
  Conn_Handshake (HE := toy_ed25519) (HN := offline) (HQ := rfc9000)
    toy_henv (Ok (demo_ends party_b)) (mkConfig None None []) (new_conn true).
Definition client_conn : Conn := client_handshake.1.2.
Definition client_state : HandshakeState := mkHS (s_DID (p_signer party_b)) 2 [].

Definition toy_world : demo_world :=
  mkDemoWorld toy_tls toy_tls (Ok (mkQL (str "127.0.0.1:40000") false)) (Ok tt) toy_henv
    (Ok (demo_ends party_b))
    (Ok (mkReader (replies stream_agents (new_conn false) 4 (str "stream") (str "tokens")
                     (Itoa nTokens)) EOF, write_all)).

Lemma client_handshakes :
  Conn_Handshake (HE := toy_ed25519) (HN := offline) (HQ := rfc9000)
    (dw_env toy_world) (dw_ctrl toy_world) (mkConfig None None []) (new_conn true) =
  (Ok client_state, client_conn, client_handshake.2).
Proof. vm_compute. reflexivity. Qed.

Lemma client_next_id : next_id (HQ := rfc9000) client_conn = 4.
Proof. vm_compute. reflexivity. Qed.

Lemma aire_demo_receives_witness :
  exists c', c_closed c' <> None /\
    aire_demo (HE := toy_ed25519) (HN := offline) (HQ := rfc9000) toy_world =
    Ok ([mkFrame FrameStream x00 4 (str "token-1");
         mkFrame FrameStream x00 4 (str "token-2");
         mkFrame FrameStream x00 4 (str "token-3")], c').
Proof.
  rewrite <-client_next_id.
  apply (aire_demo_receives (HE := toy_ed25519) (HN := offline) (HQ := rfc9000) toy_world
    (new_conn false) client_state client_conn client_handshake.2); [reflexivity..| | |].
  - exact client_handshakes.
  - rewrite client_next_id. vm_compute. intuition congruence.
  - rewrite client_next_id. reflexivity.
Defined.

Lemma stream_demo_delivery_witness :
  let e := (mkReader (replies stream_agents (new_conn false) 4 (str "stream") (str "tokens")
                        (Itoa 12)) EOF, write_all) in
  exists op c', Conn_Invoke (HQ := rfc9000) (Ok e) (str "stream") (str "tokens") (Itoa 12) client_conn
                = (Ok op, c') /\
    recv_frames 13 (Operation_Close op) =
      (stamp (op_OpID op) <$> (token_frame <$> seqZ 1 12), Err EOF).
Proof.
  rewrite <-client_next_id.
  destruct (stream_demo_delivery (HQ := rfc9000) stream_agents client_conn (new_conn false) 12)
    as (op & c' & H1 & _ & H2).
  - vm_compute. congruence.
  - rewrite client_next_id. vm_compute. intuition congruence.
  - lia.
  - reflexivity.
  - exists op, c'. split; [exact H1|exact H2].
Defined.
