(* ===== verification/Peers.v ===== *)
(** * The peers demo

    [cmd/aire-peers/main.go]: two worker agents on one node, and on another node
    a coordinator agent that invokes both in parallel and forwards their answers
    in the order of arrival.  What main prints is in [Transcript]; sleeping and
    the log lines of the agents are left out. *)

From Stdlib Require Import Strings.Byte.
From stdpp Require Import base numbers list gmap strings.
From S2P Require Import Prelude Machine GoTime GoStrings GoText Varint Frame Stream Capability.
From S2P Require Import Base58 Identity DidWeb Verifier Hello Handshake Conn Endpoint Dispatch.
From S2P Require Import Session Demo.
Open Scope Z_scope.

(** ** The workers *)

Definition wordcountAgent : Agent := fun inv op =>
  let n := len (Fields (inv_Args inv)) in
  Operation_Send (mkFrame FrameStream x00 0 (Itoa n)) op.

(** [r[i], r[j] = r[j], r[i]]. *)
Definition swap (i j : Z) (r : list Z) : go (list Z) :=
  if (i <? 0) || (j <? 0) then Panic PanicIndex else
  match r !! Z.to_nat i, r !! Z.to_nat j with
  | Some a, Some b => Ok (<[Z.to_nat j := a]> (<[Z.to_nat i := b]> r))
  | _, _ => Panic PanicIndex
  end.

(** [for i < j { swap; i, j = i+1, j-1 }]; the length of [r] is enough fuel. *)
Fixpoint swap_loop (fuel : nat) (i j : Z) (r : list Z) : go (list Z) :=
  match fuel with
  | O => Ok r
  | S fuel =>
      if i <? j then r ← swap i j r; swap_loop fuel (i + 1) (j - 1) r
      else Ok r
  end.

Definition reverseAgent : Agent := fun inv op =>
  let r := runes (inv_Args inv) in
  match swap_loop (length r) 0 (len r - 1) r with
  | Ok r => Operation_Send (mkFrame FrameStream x00 0 (string_of_runes r)) op
  | Err e => (Err e, op)
  | Panic p => (Panic p, op)
  end.

(** A swap of the two ends of a segment. *)
Lemma swap_ends a x m y b :
  swap (len a) (len a + len m + 1) (a ++ x :: m ++ y :: b) = Ok (a ++ y :: m ++ x :: b).
Proof.
  unfold swap. rewrite (proj2 (Z.ltb_ge (len a) 0)), (proj2 (Z.ltb_ge (_ + _) 0)) by lia. cbn [orb].
  replace (Z.to_nat (len a + len m + 1)) with (length (a ++ x :: m)) by (rewrite length_app; cbn; lia).
  rewrite Nat2Z.id, list_lookup_middle by done.
  assert (a ++ x :: m ++ y :: b = (a ++ x :: m) ++ y :: b) as E by (by rewrite <-app_assoc).
  rewrite E, list_lookup_middle by done. rewrite <-E.
  rewrite <-(Nat.add_0_r (length a)), insert_app_r. cbn [insert list_insert].
  assert (a ++ y :: m ++ y :: b = (a ++ y :: m) ++ y :: b) as E' by (by rewrite <-app_assoc).
  rewrite E'. replace (length (a ++ x :: m)) with (length (a ++ y :: m) + 0)%nat
    by (rewrite !length_app; cbn; lia).
  rewrite insert_app_r. cbn [insert list_insert]. by rewrite <-app_assoc.
Qed.

(** The loop reverses what lies between the indices. *)
Lemma swap_loop_segment n a m b :
  (length m <= n)%nat ->
  swap_loop n (len a) (len a + len m - 1) (a ++ m ++ b) = Ok (a ++ reverse m ++ b).
Proof.
  revert a m b. induction n as [|n IH]; intros a m b Hn.
  { destruct m; [done|cbn in Hn; lia]. }
  cbn [swap_loop]. destruct m as [|x m]; [cbn; by rewrite (proj2 (Z.ltb_ge _ _)) by lia|].
  destruct m as [|y m _] using rev_ind.
  { cbn [length]. by rewrite (proj2 (Z.ltb_ge _ _)) by lia. }
  cbn [length] in *. rewrite length_app in *. cbn [length] in *.
  rewrite (proj2 (Z.ltb_lt _ _)) by lia.
  replace (len a + Z.of_nat (S (length m + 1)) - 1) with (len a + len m + 1) by lia.
  replace (a ++ (x :: m ++ [y]) ++ b) with (a ++ x :: m ++ y :: b) by (cbn; by rewrite <-app_assoc).
  rewrite swap_ends. cbn [mbind go_bind].
  specialize (IH (a ++ [y]) m (x :: b) ltac:(lia)). rewrite length_app in IH. cbn [length] in IH.
  replace (Z.of_nat (length a + 1)) with (len a + 1) in IH by lia.
  replace (len a + 1 + len m - 1) with (len a + len m + 1 - 1) in IH by lia.
  rewrite <-!app_assoc in IH. cbn [app] in IH. rewrite IH.
  rewrite reverse_cons, reverse_snoc. cbn [app]. by rewrite <-!app_assoc.
Qed.

Lemma swap_loop_reverse r : swap_loop (length r) 0 (len r - 1) r = Ok (reverse r).
Proof.
  pose proof (swap_loop_segment (length r) [] r [] ltac:(lia)) as E. cbn in E.
  by rewrite !app_nil_r in E.
Qed.

(** What the workers answer. *)
Definition wordcount (args : bytes) : bytes := Itoa (len (Fields args)).
Definition reversed (args : bytes) : bytes := string_of_runes (reverse (runes args)).

Lemma reverseAgent_sends inv op :
  reverseAgent inv op = Operation_Send (mkFrame FrameStream x00 0 (reversed (inv_Args inv))) op.
Proof. unfold reverseAgent. by rewrite swap_loop_reverse. Qed.

(** The in-place loop of the reverse agent is list reversal: the agent never
    indexes out of range, the runes of what it sends are the runes of its
    arguments in the opposite order (an invalid byte counting as U+FFFD), and
    reversing twice gives back exactly the valid UTF-8 arguments. *)
Lemma reverse_agent_reverses inv op :
  reverseAgent inv op = Operation_Send (mkFrame FrameStream x00 0 (reversed (inv_Args inv))) op /\
  runes (reversed (inv_Args inv)) = reverse (runes (inv_Args inv)) /\
  (reversed (reversed (inv_Args inv)) = inv_Args inv <-> ValidString (inv_Args inv) = true).
Proof.
  assert (runes (reversed (inv_Args inv)) = reverse (runes (inv_Args inv))) as E.
  { apply runes_string_of_runes. apply Forall_reverse, runes_valid. }
  split_and!; [apply reverseAgent_sends|exact E|].
  unfold reversed at 1. rewrite E, reverse_involutive. symmetry. apply ValidString_iff.
Qed.

(** ** The coordinator *)

Definition targets : list bytes := [str "wordcount"; str "reverse"].

(** The goroutine of one target. *)
Inductive worker : Type :=
| WStart (t : bytes)                     (* before bConn.Invoke *)
| WInvoked (t : bytes) (op : Operation)  (* at op.Recv *)
| WDone (t : bytes) (r : option bytes).  (* returned; the chunk it sent, if any *)

Definition target (w : worker) : bytes :=
  match w with WStart t | WInvoked t _ | WDone t _ => t end.
Definition result (w : worker) : option bytes :=
  match w with WDone _ r => r | _ => None end.
Definition finished (w : worker) : bool :=
  match w with WDone _ _ => true | _ => false end.

(** The handler: the shared connection to the other node, the operation it
    answers on, its goroutines, the contents of the channel [out], the chunks
    forwarded so far, and what Handle returned. *)
Record coord := mkCoord {
  co_conn : Conn;
  co_op : Operation;
  co_workers : list worker;
  co_out : list bytes;
  co_sent : list bytes;
  co_ret : option (go unit);
}.

(** [fmt.Appendf(nil, "%s=%s", agentID, payload)]. *)
Definition chunk (t payload : bytes) : bytes := t ++ x3d :: payload.

(** The calls into the transport. *)
Inductive call : Type :=
| CallInvoke (t : bytes)    (* bConn.Invoke, of a goroutine *)
| CallRecv (t : bytes)      (* op.Recv, of a goroutine *)
| CallSend (ch : bytes).    (* inv.Op.Send, of the handler *)

Section Coordinator.
Context `{HQ : Quic}.
(** The stream that the transport opens for an invocation of [t] on [c], the
    arguments of the request, and the calls that never return: a peer that stays
    silent leaves Recv waiting, one that does not read or grant streams leaves
    Send or Invoke waiting. *)
Context (net : bytes -> Conn -> go ends) (args : bytes) (blocks : call -> bool).

Definition coord_init (c : Conn) (op : Operation) : coord :=
  mkCoord c op (WStart <$> targets) [] [] None.

(** One move of a goroutine: its new state, the connection, what it sends to
    [out], and whether it panics (which ends the process). *)
Definition worker_move (w : worker) (c : Conn) : option (worker * Conn * list bytes * option panic) :=
  match w with
  | WStart t =>
      if blocks (CallInvoke t) then None else
      match Conn_Invoke (net t c) t (str "go") args c with
      | (Ok op, c) => Some (WInvoked t (Operation_Close op), c, [], None)
      | (Err _, c) => Some (WDone t None, c, [], None)
      | (Panic p, c) => Some (WDone t None, c, [], Some p)
      end
  | WInvoked t op =>
      if blocks (CallRecv t) then None else
      match Operation_Recv op with
      | (Ok f, _) => Some (WDone t (Some (chunk t (Payload f))), c, [chunk t (Payload f)], None)
      | (Err _, _) => Some (WDone t None, c, [], None)
      | (Panic p, _) => Some (WDone t None, c, [], Some p)
      end
  | WDone _ _ => None
  end.

(** The capacity of [out]. *)
Definition out_cap : nat := 2.

(** A goroutine moves (a send to [out] needs room in it); the handler takes a
    chunk from [out] and forwards it, returning if that fails; or it finds [out]
    closed and empty, which it is once all goroutines are done. *)
Inductive coord_step (s : coord) : coord -> Prop :=
| co_worker pre w post w' c' chunks crash :
    co_workers s = pre ++ w :: post ->
    worker_move w (co_conn s) = Some (w', c', chunks, crash) ->
    (length (co_out s) + length chunks <= out_cap)%nat ->
    coord_step s (mkCoord c' (co_op s) (pre ++ w' :: post) (co_out s ++ chunks) (co_sent s)
      (match crash with Some p => Some (Panic p) | None => co_ret s end))
| co_forward ch out op' :
    co_ret s = None -> co_out s = ch :: out -> blocks (CallSend ch) = false ->
    Operation_Send (mkFrame FrameStream x00 0 ch) (co_op s) = (Ok tt, op') ->
    coord_step s (mkCoord (co_conn s) op' (co_workers s) out (co_sent s ++ [ch]) None)
| co_send_fails ch out op' r :
    co_ret s = None -> co_out s = ch :: out -> blocks (CallSend ch) = false ->
    Operation_Send (mkFrame FrameStream x00 0 ch) (co_op s) = (r, op') -> is_ok r = false ->
    coord_step s (mkCoord (co_conn s) op' (co_workers s) out (co_sent s) (Some r))
| co_finish :
    co_ret s = None -> co_out s = [] -> forallb finished (co_workers s) = true ->
    coord_step s (mkCoord (co_conn s) (co_op s) (co_workers s) [] (co_sent s) (Some (Ok tt))).

(** How many moves a goroutine has left, counting the one its chunk needs. *)
Definition worker_weight (w : worker) : nat :=
  match w with WStart _ => 3 | WInvoked _ _ => 2 | WDone _ _ => 0 end.

Definition coord_work (s : coord) : nat :=
  (sum_list_with worker_weight (co_workers s) + length (co_out s) +
   match co_ret s with None => 1 | Some _ => 0 end)%nat.

(** What a move does to a goroutine. *)
Lemma worker_move_effect w c w' c' chunks crash :
  worker_move w c = Some (w', c', chunks, crash) ->
  finished w = false /\ target w' = target w /\ result w = None /\
  (worker_weight w' + length chunks < worker_weight w)%nat /\
  chunks = option_list (result w').
Proof.
  destruct w as [t|t op|t r]; cbn; [destruct (blocks _); [done|]..|done].
  - destruct (Conn_Invoke _ _ _ _ _) as [[op|e|p] c1]; intros; simplify_eq; cbn; split_and!; done || lia.
  - destruct (Operation_Recv op) as [[f|e|p] op1]; intros; simplify_eq; cbn; split_and!; done || lia.
Qed.

(** The goroutine is in a call that never returns. *)
Definition waits (w : worker) : bool :=
  match w with
  | WStart t => blocks (CallInvoke t)
  | WInvoked t _ => blocks (CallRecv t)
  | WDone _ _ => false
  end.

Lemma worker_waits w c : waits w = true -> worker_move w c = None.
Proof. destruct w; cbn; [intros ->..|]; done. Qed.

Lemma worker_moves w c : finished w = false -> waits w = false -> is_Some (worker_move w c).
Proof.
  destruct w as [t|t op|t r]; cbn; [| |done]; intros _ ->;
    [destruct (Conn_Invoke _ _ _ _ _) as [[]]|destruct (Operation_Recv op) as [[]]]; eauto.
Qed.

Lemma coord_step_work s s' : coord_step s s' -> (coord_work s' < coord_work s)%nat.
Proof.
  unfold coord_work. destruct 1 as [pre w post w' c' chunks crash Hw Hm _|ch out op' Hr Ho _ _
    |ch out op' r Hr Ho _ _ _|Hr Ho _]; cbn.
  - apply worker_move_effect in Hm as (_ & _ & _ & Hlt & _).
    rewrite Hw, !sum_list_with_app, length_app. cbn.
    destruct crash, (co_ret s); lia.
  - rewrite Hr, Ho. cbn. lia.
  - rewrite Hr, Ho. cbn. lia.
  - rewrite Hr, Ho. cbn. lia.
Qed.

(** *** The invariant *)

Definition stream_frame (payload : bytes) : Frame := mkFrame FrameStream x00 0 payload.

(** Handle has not failed. *)
Definition good (s : coord) : Prop := co_ret s = None \/ co_ret s = Some (Ok tt).

Record coord_inv (op0 : Operation) (s : coord) : Prop := {
  ci_targets : target <$> co_workers s = targets;
  ci_room : (length (co_out s) <= length (omap result (co_workers s)))%nat;
  ci_chunks : good s -> co_sent s ++ co_out s ≡ₚ omap result (co_workers s);
  ci_sent : good s -> send_frames (stream_frame <$> co_sent s) op0 = (Ok tt, co_op s);
  ci_done : co_ret s = Some (Ok tt) -> forallb finished (co_workers s) = true /\ co_out s = [];
  ci_failed e : co_ret s = Some (Err e) -> exists ch op1,
    send_frames (stream_frame <$> co_sent s) op0 = (Ok tt, op1) /\
    Operation_Send (stream_frame ch) op1 = (Err e, co_op s);
}.

Lemma send_frames_snoc fs f op op1 r op2 :
  send_frames fs op = (Ok tt, op1) -> Operation_Send f op1 = (r, op2) ->
  send_frames (fs ++ [f]) op = (r, op2).
Proof.
  revert op. induction fs as [|g fs IH]; intros op E1 E2; cbn in *.
  - simplify_eq. rewrite E2. by destruct r as [[]| |].
  - destruct (Operation_Send g op) as [[[]|e|p] op3]; [by apply IH|done|done].
Qed.

Lemma length_omap_le {A B} (f : A -> option B) l : (length (omap f l) <= length l)%nat.
Proof. induction l as [|x l IH]; cbn; [done|]. destruct (f x); cbn; lia. Qed.

(** A goroutine that is not done leaves room in the channel. *)
Lemma coord_room op0 s pre w post w' c' chunks crash :
  coord_inv op0 s -> co_workers s = pre ++ w :: post ->
  worker_move w (co_conn s) = Some (w', c', chunks, crash) ->
  (length (co_out s) + length chunks <= out_cap)%nat.
Proof.
  intros H Hw Hm. apply worker_move_effect in Hm as (_ & _ & Hr & _ & ->).
  pose proof (ci_room _ _ H) as Hroom. pose proof (ci_targets _ _ H) as Ht.
  apply (f_equal length) in Ht. rewrite length_fmap in Ht. rewrite Hw in *.
  rewrite omap_app, length_app in Hroom. rewrite length_app in Ht.
  cbn [omap list_omap length] in *. rewrite Hr in Hroom.
  pose proof (length_omap_le result pre) as H1. pose proof (length_omap_le result post) as H2.
  change (length targets) with 2%nat in Ht. unfold out_cap. destruct (result w'); cbn; lia.
Qed.

Lemma coord_step_inv op0 s s' : coord_inv op0 s -> coord_step s s' -> coord_inv op0 s'.
Proof.
  intros H Hst. destruct Hst as [pre w post w' c' chunks crash Hw Hm _|ch out op' Hr Ho _ Hs
    |ch out op' r Hr Ho _ Hs Hok|Hr Ho Hf].
  - apply worker_move_effect in Hm as (Hf & Ht & Hr & _ & ->).
    assert (good (mkCoord c' (co_op s) (pre ++ w' :: post) (co_out s ++ option_list (result w'))
      (co_sent s) (match crash with Some p => Some (Panic p) | None => co_ret s end)) -> good s) as Hg
      by (unfold good; cbn; destruct crash; naive_solver).
    destruct H as [H1 H2 H3 H4 H5 H6]. rewrite Hw in *.
    assert (omap result (pre ++ w' :: post) ≡ₚ omap result (pre ++ w :: post) ++ option_list (result w')) as Hp.
    { rewrite !omap_app. cbn. rewrite Hr. destruct (result w'); cbn; [|by rewrite app_nil_r].
      rewrite <-Permutation_middle. symmetry. rewrite Permutation_app_comm. done. }
    split; cbn.
    + rewrite <-H1, !fmap_app. cbn. by rewrite Ht.
    + rewrite (Permutation_length Hp), !length_app. lia.
    + intros Hg'%Hg. rewrite Hp, <-(H3 Hg'). by rewrite app_assoc.
    + intros Hg'%Hg. auto.
    + intros E. destruct crash; [done|]. destruct (H5 E) as [Hall _].
      rewrite forallb_app in Hall. cbn in Hall. rewrite Hf in Hall.
      by rewrite andb_false_r in Hall.
    + intros e E. destruct crash; [done|]. by apply H6.
  - destruct H as [H1 H2 H3 H4 H5 H6]. assert (good s) as Hg by (by left). rewrite Ho in *.
    split; cbn; [done|cbn in H2; lia|..|done|done].
    + intros _. rewrite <-(H3 Hg). by rewrite <-app_assoc.
    + intros _. rewrite fmap_app. by eapply send_frames_snoc; [apply H4|].
  - destruct H as [H1 H2 H3 H4 H5 H6]. rewrite Ho in *. assert (good s) as Hg by (by left).
    split; cbn; [done|cbn in H2; lia|..].
    1,2,3: unfold good; cbn; intros E; destruct r as [[]| |]; naive_solver.
    intros e [= ->]. exists ch, (co_op s). split; [by apply H4|done].
  - destruct H as [H1 H2 H3 H4 H5 H6]. assert (good s) as Hg by (by left). rewrite Ho in *.
    split; cbn; auto. done.
Qed.

Lemma coord_init_inv c op : coord_inv op (coord_init c op).
Proof. by split; cbn. Qed.

(** Every goroutine has ended or waits for ever, and the handler has returned,
    waits for ever in Send, or waits for a goroutine. *)
Definition settled (s : coord) : Prop :=
  Forall (fun w => finished w = true \/ waits w = true) (co_workers s) /\
  (co_ret s = None ->
   match co_out s with
   | ch :: _ => blocks (CallSend ch) = true
   | [] => exists w, w ∈ co_workers s /\ waits w = true
   end).

(** Then nothing moves any more; and until then something can. *)
Lemma settled_final s s' : settled s -> ~ coord_step s s'.
Proof.
  intros [Hw Hr] Hst. destruct Hst as [pre w post w' c' chunks crash E Hm _|ch out op' Hn Ho Hb _
    |ch out op' r Hn Ho Hb _ _|Hn Ho Hf].
  - rewrite E in Hw. apply Forall_app in Hw as [_ [[Hf|Hs] _]%Forall_cons].
    + apply worker_move_effect in Hm as [? _]. congruence.
    + by rewrite worker_waits in Hm.
  - specialize (Hr Hn). rewrite Ho in Hr. congruence.
  - specialize (Hr Hn). rewrite Ho in Hr. congruence.
  - specialize (Hr Hn). rewrite Ho in Hr. destruct Hr as (w & Hin & Hwt).
    rewrite forallb_forall in Hf. apply list_elem_of_In, Hf in Hin. by destruct w.
Qed.

Lemma coord_progress op0 s : coord_inv op0 s -> settled s \/ exists s', coord_step s s'.
Proof.
  intros H. destruct (decide (Exists (fun w => finished w = false /\ waits w = false) (co_workers s))) as [Hex|Hno].
  { right. apply Exists_exists in Hex as (w & Hin & Hn & Hwt).
    apply list_elem_of_split in Hin as (pre & post & E).
    destruct (worker_moves w (co_conn s) Hn Hwt) as [[[[w' c'] chunks] crash] Hm].
    eexists. eapply co_worker; [done..|]. by eapply coord_room. }
  assert (Forall (fun w => finished w = true \/ waits w = true) (co_workers s)) as Hw.
  { apply Forall_forall. intros w Hin. destruct (finished w) eqn:Ef, (waits w) eqn:Ew; auto.
    destruct Hno. apply Exists_exists. eauto. }
  destruct (co_ret s) eqn:Hr; [left; by split; [|rewrite Hr]|].
  destruct (co_out s) as [|ch out] eqn:Ho.
  - destruct (forallb finished (co_workers s)) eqn:Hf; [right; eexists; by apply co_finish|left].
    split; [done|]. intros _. rewrite Ho. clear H Hno Hr Ho. induction Hw as [|w ws Hw _ IH]; [done|].
    cbn in Hf. destruct Hw as [Hw|Hw]; [|exists w; split; [by left|done]].
    rewrite Hw in Hf. destruct (IH Hf) as (w' & ? & ?). exists w'. split; [by right|done].
  - destruct (blocks (CallSend ch)) eqn:Hb; [left; split; [done|]; by rewrite Ho|right].
    destruct (Operation_Send (mkFrame FrameStream x00 0 ch) (co_op s)) as [[[]|e|p] op'] eqn:Es;
      [eexists; by eapply co_forward|eexists; by eapply co_send_fails..].
Qed.
End Coordinator.

(** Where every call returns, all goroutines end and the handler returns. *)
Definition returns : call -> bool := fun _ => false.

Lemma settled_mono blocks s : (forall k, blocks k = false) -> settled blocks s -> settled returns s.
Proof.
  intros Hb [Hw Hr].
  assert (forall w, waits blocks w = false) as Hn by (intros []; cbn; auto).
  split.
  - eapply Forall_impl; [exact Hw|]. intros w [?|E]; [by left|]. by rewrite Hn in E.
  - intros E. specialize (Hr E). destruct (co_out s); [|by rewrite Hb in Hr].
    destruct Hr as (w & _ & Hwt). by rewrite Hn in Hwt.
Qed.

Lemma settled_returns s :
  settled returns s -> forallb finished (co_workers s) = true /\ co_ret s <> None.
Proof.
  intros [Hw Hr]. split.
  - apply forallb_forall. intros w Hin%list_elem_of_In. rewrite Forall_forall in Hw.
    destruct (Hw w Hin) as [?|E]; [done|]. by destruct w.
  - intros E. specialize (Hr E). destruct (co_out s); [|done]. destruct Hr as (w & _ & Hwt). by destruct w.
Qed.

(** C24: the coordinator and a transport that may block.  Whatever the transport
    answers, whichever of its calls never return, and however the goroutines are
    scheduled, after finitely many steps nothing moves any more, and then:
    - a goroutine that has not ended is in an Invoke or Recv that never returns,
      so none is left blocked on the channel, even if the handler gave up early;
    - if the handler has not returned, it is in a Send that never returns, or a
      goroutine never answered, and all the answers that did arrive have been
      forwarded: the silent agent does not hold up the other;
    - if it returned nil, both goroutines have ended and the frames it sent on
      its operation are the chunks of those that got an answer, each exactly
      once, in the order of arrival;
    - if it returned an error, that is the error of its first Send that failed.
    If every call returns, both goroutines end and the handler returns. *)
Theorem coordinator_settles `{HQ : Quic} net args blocks c op :
  inevitably (coord_step net args blocks)
    (fun s =>
       (forall s', ~ coord_step net args blocks s s') /\
       target <$> co_workers s = targets /\
       Forall (fun w => finished w = true \/ waits blocks w = true) (co_workers s) /\
       match co_ret s with
       | None =>
           co_sent s ++ co_out s ≡ₚ omap result (co_workers s) /\
           send_frames (stream_frame <$> co_sent s) op = (Ok tt, co_op s) /\
           ((exists ch out, co_out s = ch :: out /\ blocks (CallSend ch) = true) \/
            (co_out s = [] /\ exists w, w ∈ co_workers s /\ waits blocks w = true))
       | Some (Ok _) =>
           forallb finished (co_workers s) = true /\ co_sent s ≡ₚ omap result (co_workers s) /\
           send_frames (stream_frame <$> co_sent s) op = (Ok tt, co_op s)
       | Some (Err e) => exists ch op1,
           send_frames (stream_frame <$> co_sent s) op = (Ok tt, op1) /\
           Operation_Send (stream_frame ch) op1 = (Err e, co_op s)
       | Some (Panic _) => True
       end /\
       ((forall k, blocks k = false) -> forallb finished (co_workers s) = true /\ co_ret s <> None))
    (coord_init c op).
Proof.
  apply (inevitably_by_measure coord_work _ _ (coord_inv op)).
  - apply coord_step_work.
  - apply coord_step_inv.
  - intros s H. destruct (coord_progress net args blocks op s H) as [Hset|?]; [left|by right].
    split; [intros s'; by apply settled_final|]. split; [apply (ci_targets _ _ H)|].
    split; [apply Hset|]. split; [|intros Hb; by apply settled_returns, (settled_mono blocks)].
    destruct (co_ret s) as [[[]|e|p]|] eqn:Hr; [| |done|].
    + destruct (ci_done _ _ H Hr) as [Hf Ho]. split; [done|].
      assert (good s) as Hg by (by right). split; [|by apply (ci_sent _ _ H)].
      by rewrite <-(ci_chunks _ _ H Hg), Ho, app_nil_r.
    + by apply (ci_failed _ _ H).
    + assert (good s) as Hg by (by left). split; [by apply (ci_chunks _ _ H)|].
      split; [by apply (ci_sent _ _ H)|]. destruct Hset as [_ Hs]. specialize (Hs Hr).
      destruct (co_out s); [by right|left; eauto].
  - apply coord_init_inv.
Qed.

(** ** The two nodes together *)

(** vegaB's agents. *)
Definition peer_agents : agent_table :=
  (RegisterAgent (str "reverse") (Some reverseAgent)
     (RegisterAgent (str "wordcount") (Some wordcountAgent) ∅).2).2.

Definition answer (t args : bytes) : bytes :=
  if bool_decide (t = str "wordcount") then wordcount args else reversed args.

(** Every chunk, and every request, fits a frame. *)
Definition small (args : bytes) : Prop := 3 * len args + 64 <= MaxFrameSize.

Lemma string_of_runes_reverse rs : length (string_of_runes (reverse rs)) = length (string_of_runes rs).
Proof.
  unfold string_of_runes. induction rs as [|r rs IH]; [done|].
  rewrite reverse_cons, fmap_app, concat_app, length_app, IH. cbn. rewrite app_nil_r, length_app. lia.
Qed.

Lemma reversed_length args : (length (reversed args) <= 3 * length args)%nat.
Proof. unfold reversed. rewrite string_of_runes_reverse. apply runes_growth. Qed.

Lemma answer_length t args : (length (answer t args) <= 3 * length args + 21)%nat.
Proof.
  unfold answer, wordcount. pose proof (reversed_length args). pose proof (Itoa_length (len (Fields args))).
  case_bool_decide; lia.
Qed.

Lemma target_length t : t ∈ targets -> (length t <= 9)%nat.
Proof. unfold targets. rewrite !elem_of_cons. intros [->|[->|[]%elem_of_nil]]; cbn; lia. Qed.

Lemma target_invoke t args : t ∈ targets -> small args -> invoke_fits t (str "go") args.
Proof.
  unfold invoke_fits, small. intros Ht Hs. rewrite !length_app.
  change (length (string_bytes (str "go"))) with 3%nat.
  assert (length (string_bytes t) <= 10)%nat; [|lia].
  unfold targets in Ht. rewrite !elem_of_cons in Ht. destruct Ht as [->|[->|[]%elem_of_nil]]; vm_compute; lia.
Qed.

Lemma chunk_fits t args : t ∈ targets -> small args -> len (chunk t (answer t args)) <= MaxFrameSize.
Proof.
  unfold small, chunk. intros Ht%target_length Hs. pose proof (answer_length t args).
  rewrite length_app. cbn [length]. lia.
Qed.

Lemma answer_fits t args : small args -> len (answer t args) <= MaxFrameSize.
Proof. unfold small. pose proof (answer_length t args). lia. Qed.

(** What vegaB writes for one invocation. *)
Lemma peer_replies sc id t args :
  t ∈ targets -> small args -> 0 <= id <= MaxVarint ->
  replies peer_agents sc id t (str "go") args = frame_bytes (stamp id (stream_frame (answer t args))).
Proof.
  intros Ht Hs Hid. pose proof (target_invoke t args Ht Hs) as Hfit.
  assert (forall op, st_write (op_stream op) = write_all -> st_sent (op_stream op) = [] -> op_OpID op = id ->
    st_sent (op_stream (Operation_Send (stream_frame (answer t args)) op).2) =
    frame_bytes (stamp id (stream_frame (answer t args)))) as Hsend.
  { intros op Hw H0 Ho. rewrite Operation_Send_ok; [|by rewrite Ho|by apply answer_fits|done].
    cbn. by rewrite H0, Ho. }
  unfold targets in Ht. rewrite !elem_of_cons in Ht. destruct Ht as [->|[->|[]%elem_of_nil]].
  - rewrite (replies_agent _ _ _ _ _ _ wordcountAgent); [|done..]. by apply Hsend.
  - rewrite (replies_agent _ _ _ _ _ _ reverseAgent); [|done..]. rewrite reverseAgent_sends. by apply Hsend.
Qed.

Section Together.
Context `{HQ : Quic}.
(** vegaB's end of the connection, vegaA's end when the request arrives, the
    request and the operation it came on. *)
Context (sc c0 : Conn) (args : bytes) (op0 : Operation).
Hypothesis Hshake : state c0 <> None.
Hypothesis Hids : forall k, (k < 2)%nat -> 0 <= quic_id (isClient c0) (c_opened c0 + k) <= MaxVarint.
Hypothesis Hsmall : small args.
Hypothesis Hop : 0 <= op_OpID op0 <= MaxVarint.
Hypothesis Hwrite : st_write (op_stream op0) = write_all.

(** The streams of vegaA's connection carry what vegaB writes. *)
Definition peer_net (t : bytes) (c : Conn) : go ends :=
  Ok (mkReader (replies peer_agents sc (next_id c) t (str "go") args) EOF, write_all).

Definition worker_good (w : worker) : Prop :=
  match w with
  | WStart t => t ∈ targets
  | WInvoked t op => t ∈ targets /\
      exists f op', Operation_Recv op = (Ok f, op') /\ Payload f = answer t args
  | WDone t r => t ∈ targets /\ r = Some (chunk t (answer t args))
  end.

Definition starting (w : worker) : nat := match w with WStart _ => 1 | _ => 0 end.

Record together (s : coord) : Prop := {
  tg_inv : coord_inv op0 s;
  tg_workers : Forall worker_good (co_workers s);
  tg_state : state (co_conn s) <> None;
  tg_client : isClient (co_conn s) = isClient c0;
  tg_opened : (c_opened (co_conn s) + sum_list_with starting (co_workers s) = c_opened c0 + 2)%nat;
  tg_out : Forall (fun ch => len ch <= MaxFrameSize) (co_out s);
  tg_op : op_OpID (co_op s) = op_OpID op0 /\ st_write (op_stream (co_op s)) = write_all;
  tg_good : good s;
}.

(** The move of a goroutine against vegaB. *)
Lemma worker_served w c :
  worker_good w -> finished w = false -> state c <> None ->
  (starting w = 1%nat -> 0 <= next_id c <= MaxVarint) ->
  exists w' chunks, worker_move peer_net args returns w c =
    Some (w', if decide (starting w = 1%nat) then opened c else c, chunks, None) /\
    worker_good w' /\ starting w' = 0%nat /\ Forall (fun ch => len ch <= MaxFrameSize) chunks.
Proof.
  intros Hg Hf Hs Hid. destruct w as [t|t op|t r]; [| |done]; cbn in *.
  - unfold peer_net. rewrite Conn_Invoke_eq; [|done|by apply Hid|done|by apply target_invoke].
    eexists _, _. split; [done|]. split_and!; [|done|done].
    split; [done|]. eexists _, _. split.
    + rewrite (Operation_Recv_ok (stamp (next_id c) (stream_frame (answer t args))) _ [] EOF).
      * by rewrite (proj2 (Z.eqb_eq _ _)).
      * split; [by apply Hid|by apply answer_fits].
      * cbn. rewrite peer_replies by (done || by apply Hid). by rewrite app_nil_r.
    + done.
  - destruct Hg as (Ht & f & op' & E & Hp). rewrite E, Hp. eexists _, _. split; [done|].
    split_and!; [done|done|]. constructor; [by apply chunk_fits|done].
Qed.

Lemma starting_le ws : (sum_list_with starting ws <= length ws)%nat.
Proof. induction ws as [|w ws IH]; cbn; [done|]. destruct w; cbn; lia. Qed.

Lemma together_step s s' : together s -> coord_step peer_net args returns s s' -> together s'.
Proof.
  intros H Hst. pose proof (coord_step_inv _ _ _ _ _ _ (tg_inv _ H) Hst) as Hinv.
  destruct Hst as [pre w post w' c' chunks crash Hw Hm _|ch out op' Hr Ho _ Hs
    |ch out op' r Hr Ho _ Hs Hok|Hr Ho Hf].
  - pose proof (tg_workers _ H) as Hws. pose proof (tg_opened _ H) as Hop'. rewrite Hw in Hws, Hop'.
    rewrite sum_list_with_app in Hop'. cbn in Hop'.
    apply Forall_app in Hws as [H1 [H2 H3]%Forall_cons].
    apply worker_move_effect in Hm as Hx. destruct Hx as (Hf & _).
    destruct (worker_served w (co_conn s) H2 Hf (tg_state _ H)) as (w1 & ch1 & Hm1 & Hg1 & Hs1 & Hc1).
    { intros Hstart. unfold next_id. rewrite (tg_client _ H).
      replace (c_opened (co_conn s)) with
        (c_opened c0 + (1 - (sum_list_with starting pre + sum_list_with starting post)))%nat;
        [apply Hids; lia|].
      pose proof (starting_le pre). pose proof (starting_le post).
      pose proof (f_equal length (ci_targets _ _ (tg_inv _ H))) as Hl.
      rewrite length_fmap, Hw, length_app in Hl. cbn in Hl. lia. }
    rewrite Hm1 in Hm. simplify_eq. split; cbn.
    + exact Hinv.
    + apply Forall_app; split; [done|by constructor].
    + case_decide; [|apply (tg_state _ H)]. cbn. apply (tg_state _ H).
    + case_decide; cbn; apply (tg_client _ H).
    + rewrite sum_list_with_app. cbn. rewrite Hs1.
      case_decide; cbn; destruct w; cbn in *; lia.
    + apply Forall_app; split; [apply (tg_out _ H)|done].
    + apply (tg_op _ H).
    + apply (tg_good _ H).
  - pose proof (tg_out _ H) as Hf. rewrite Ho in Hf. apply Forall_cons in Hf as [Hc Hf].
    destruct (tg_op _ H) as [H1 H2]. rewrite Operation_Send_ok in Hs; [|by rewrite H1|done|done].
    simplify_eq. destruct H. split; cbn; try done. by left.
  - pose proof (tg_out _ H) as Hf. rewrite Ho in Hf. apply Forall_cons in Hf as [Hc Hf].
    destruct (tg_op _ H) as [H1 H2]. rewrite Operation_Send_ok in Hs; [|by rewrite H1|done|done].
    by simplify_eq.
  - destruct H. split; cbn; try done. by right.
Qed.

Lemma together_init : together (coord_init c0 op0).
Proof.
  split; [apply coord_init_inv| |done|done|done|done|done|by left].
  cbn. unfold targets. repeat constructor; cbn; set_solver.
Qed.

(** The chunks of goroutines that all finished. *)
Lemma together_results s :
  together s -> forallb finished (co_workers s) = true ->
  omap result (co_workers s) = (fun t => chunk t (answer t args)) <$> targets.
Proof.
  intros H Hf. pose proof (tg_workers _ H) as Hg. rewrite <-(ci_targets _ _ (tg_inv _ H)).
  revert Hg Hf. generalize (co_workers s). intros ws Hg.
  induction Hg as [|w ws Hw _ IH]; cbn; [done|]. rewrite andb_true_iff. intros [Hfw Hf].
  rewrite (IH Hf). destruct w as [| |t r]; [done..|]. cbn in *. by destruct Hw as [_ ->].
Qed.
End Together.

(** C23: the two nodes give the client both answers.  When vegaA's coordinator
    handles a request on a connection to vegaB that has completed its handshake,
    and every call into the transport returns, then however its goroutines are
    scheduled and whichever worker answers first, after finitely many steps the handler returns nil having sent the client
    exactly two STREAM frames: the word count and the reversal of the arguments,
    each labelled with its agent, in one of the two orders. *)
Theorem peers_fan_out `{HQ : Quic} sc c0 args op0 :
  state c0 <> None ->
  (forall k, (k < 2)%nat -> 0 <= quic_id (isClient c0) (c_opened c0 + k) <= MaxVarint) ->
  small args -> 0 <= op_OpID op0 <= MaxVarint ->
  st_write (op_stream op0) = write_all -> st_sent (op_stream op0) = [] ->
  inevitably (coord_step (peer_net sc args) args returns)
    (fun s => co_ret s = Some (Ok tt) /\ exists ch1 ch2,
       [ch1; ch2] ≡ₚ [chunk (str "wordcount") (Itoa (len (Fields args)));
                      chunk (str "reverse") (string_of_runes (reverse (runes args)))] /\
       st_sent (op_stream (co_op s)) =
         frames_bytes [mkFrame FrameStream x00 (op_OpID op0) ch1;
                       mkFrame FrameStream x00 (op_OpID op0) ch2])
    (coord_init c0 op0).
Proof.
  intros Hs Hids Hsm Hop Hw H0.
  apply (inevitably_by_measure coord_work _ _ (together c0 args op0)).
  - apply coord_step_work.
  - by apply together_step.
  - intros s H. destruct (coord_progress (peer_net sc args) args returns op0 s (tg_inv _ _ _ _ H))
      as [[Hf Hr]%settled_returns|?]; [left|by right].
    destruct (tg_good _ _ _ _ H) as [?|E]; [done|]. split; [done|].
    pose proof (together_results _ _ _ _ H Hf) as Hres.
    pose proof (ci_chunks _ _ (tg_inv _ _ _ _ H) (tg_good _ _ _ _ H)) as Hperm.
    destruct (ci_done _ _ (tg_inv _ _ _ _ H) E) as [_ Hout]. rewrite Hout, app_nil_r, Hres in Hperm.
    pose proof (ci_sent _ _ (tg_inv _ _ _ _ H) (tg_good _ _ _ _ H)) as Hsent.
    assert (Forall (fun f => len (Payload f) <= MaxFrameSize) (stream_frame <$> co_sent s)) as Hfit.
    { rewrite Hperm. apply Forall_fmap, Forall_fmap, Forall_forall. intros t Ht. by apply chunk_fits. }
    destruct (send_frames_ok _ op0 Hop Hfit Hw) as (op' & Eq & Hbytes).
    rewrite Hsent in Eq. simplify_eq. rewrite H0 in Hbytes. cbn [app] in Hbytes.
    pose proof (Permutation_length Hperm) as Hl. cbn in Hl.
    destruct (co_sent s) as [|ch1 [|ch2 [|]]]; try (cbn in Hl; lia).
    exists ch1, ch2. split; [exact Hperm|exact Hbytes].
  - by apply together_init.
Qed.

(** The wordcount agent on words separated by single spaces. *)
Lemma wordcount_words inv op ws :
  Forall word ws -> inv_Args inv = Join (string_of_runes <$> ws) x20 ->
  wordcountAgent inv op = Operation_Send (stream_frame (Itoa (len ws))) op.
Proof.
  intros Hw E. unfold wordcountAgent. rewrite E, Fields_Join by done. by rewrite length_fmap.
Qed.

(** ** The program *)

Definition sentence : bytes := str "the quick brown fox jumps over the lazy dog".

(** What the program gets from outside, as in [Demo]; [pw_coordinator] is the
    coordinator on a connection, under some schedule. *)
Record peers_world := mkPeersWorld {
  pw_tls : nat -> tls_env;
  pw_listenB : go QListener;
  pw_dialB : go unit;
  pw_envB : henv;
  pw_ctrlB : go ends;
  pw_coordinator : Conn -> Agent;
  pw_listenA : go QListener;
  pw_dialA : go unit;
  pw_envA : henv;
  pw_ctrlA : go ends;
  pw_op : go ends;
}.

(** [must(err)]. *)
Definition must {A} (m : go A) : go A := Fatalf "%v" m.

Section Program.
Context `{HE : Ed25519} `{HN : NetEnv} `{HQ : Quic}.

(** main: the chunks the client received. *)
Definition aire_peers (w : peers_world) : go (list Frame) :=
  let '(r, agentsB) := RegisterAgent (str "wordcount") (Some wordcountAgent) ∅ in
  must r;;
  must (RegisterAgent (str "reverse") (Some reverseAgent) agentsB).1;;
  DevTLSConfig (pw_tls w 0);;
  vegaB ← must (Listen (pw_listenB w) (str "127.0.0.1:0"));
  DevTLSConfig (pw_tls w 1);;
  bConn ← Fatalf "vega-A → vega-B dial: %v" (Dial (pw_dialB w) (Node_Addr (Some vegaB)));
  let '(r, bConn, _) := Conn_Handshake (pw_envB w) (pw_ctrlB w) (mkConfig None None []) bConn in
  Fatalf "vega-A → vega-B handshake: %v" r;;
  must (RegisterAgent (str "coordinator") (Some (pw_coordinator w bConn)) ∅).1;;
  DevTLSConfig (pw_tls w 2);;
  vegaA ← must (Listen (pw_listenA w) (str "127.0.0.1:0"));
  DevTLSConfig (pw_tls w 3);;
  cConn ← Fatalf "client dial: %v" (Dial (pw_dialA w) (Node_Addr (Some vegaA)));
  let '(r, cConn, _) := Conn_Handshake (pw_envA w) (pw_ctrlA w) (mkConfig None None []) cConn in
  Fatalf "client handshake: %v" r;;
  let '(r, _) := Conn_Invoke (pw_op w) (str "coordinator") (str "process") sentence cConn in
  op ← Fatalf "client invoke: %v" r;
  let op := Operation_Close op in
  let '(fs, r) := recv_frames 2 op in
  on_err (fun e => Errorf "client recv chunk %d: %v" None [ArgInt (1 + len fs); ArgErr e]) r;;
  Ok fs.

(** The client sees the two frames that the coordinator sent. *)
Lemma aire_peers_receives w stB bConn vB stA cConn vA f1 f2 :
  (forall i, is_ok (DevTLSConfig (pw_tls w i)) = true) ->
  is_ok (pw_listenB w) = true -> pw_dialB w = Ok tt ->
  is_ok (pw_listenA w) = true -> pw_dialA w = Ok tt ->
  Conn_Handshake (pw_envB w) (pw_ctrlB w) (mkConfig None None []) (new_conn true) = (Ok stB, bConn, vB) ->
  Conn_Handshake (pw_envA w) (pw_ctrlA w) (mkConfig None None []) (new_conn true) = (Ok stA, cConn, vA) ->
  0 <= next_id cConn <= MaxVarint ->
  Forall (fun f => frame_valid f /\ OpID f = next_id cConn) [f1; f2] ->
  pw_op w = Ok (mkReader (frames_bytes [f1; f2]) EOF, write_all) ->
  aire_peers w = Ok [f1; f2].
Proof.
  intros Ht HlB HdB HlA HdA HhB HhA Hid Hf Ho.
  assert (state cConn <> None) as Hs.
  { apply Conn_Handshake_effect in HhA as (_ & _ & _ & _ & H). destruct (H eq_refl) as [-> _]. done. }
  assert (forall i, exists t, DevTLSConfig (pw_tls w i) = Ok t) as Htls.
  { intros i. specialize (Ht i). destruct (DevTLSConfig (pw_tls w i)); [eauto|done|done]. }
  unfold aire_peers. cbn [RegisterAgent bool_decide]. unfold must.
  destruct (Htls 0%nat) as [? ->], (Htls 1%nat) as [? ->], (Htls 2%nat) as [? ->], (Htls 3%nat) as [? ->].
  destruct (pw_listenB w); [|done|done]. destruct (pw_listenA w); [|done|done].
  rewrite HdB, HdA. cbn [Listen Dial on_err Fatalf mbind go_bind fst].
  rewrite HhB. cbn [on_err Fatalf mbind go_bind fst].
  rewrite HhA. cbn [on_err Fatalf mbind go_bind fst].
  rewrite Ho, Conn_Invoke_eq; [|done|done|done|vm_compute; congruence].
  cbn [on_err Fatalf mbind go_bind].
  rewrite (recv_first [f1; f2] 2 _ [] EOF); [done|done|done|]. by rewrite app_nil_r.
Qed.
End Program.

(** ** A concrete run *)

Example sentence_answers :
  answer (str "wordcount") sentence = str "9" /\
  answer (str "reverse") sentence = str "god yzal eht revo spmuj xof nworb kciuq eht".
Proof. vm_compute. done. Qed.

Lemma peers_fan_out_witness :
  inevitably (coord_step (HQ := rfc9000) (peer_net (HQ := rfc9000) (new_conn false) sentence) sentence returns)
    (fun s => co_ret s = Some (Ok tt) /\ exists ch1 ch2,
       [ch1; ch2] ≡ₚ [chunk (str "wordcount") (Itoa (len (Fields sentence)));
                      chunk (str "reverse") (string_of_runes (reverse (runes sentence)))] /\
       st_sent (op_stream (co_op s)) =
         frames_bytes [mkFrame FrameStream x00 4 ch1; mkFrame FrameStream x00 4 ch2])
    (coord_init client_conn (inbound (new_conn false) 4 [])).
Proof.
  apply (peers_fan_out (HQ := rfc9000) (new_conn false) client_conn sentence (inbound (new_conn false) 4 [])).
  - vm_compute. congruence.
  - intros k Hk. destruct k as [|[|k]]; [vm_compute; intuition congruence..|lia].
  - vm_compute. congruence.
  - vm_compute. intuition congruence.
  - reflexivity.
  - reflexivity.
Defined.
