(* ===== verification/Transcript.v ===== *)
(** * What the demos print

    The standard output of the two programs under cmd/: banners and the lines of
    logf in main.  (The agents log too, from goroutines of their own; those lines
    are not part of this.)  A program that calls log.Fatalf ends there, with the
    message on standard error. *)

From Stdlib Require Import Strings.Byte.
From stdpp Require Import base numbers list gmap strings.
From S2P Require Import Prelude Machine GoTime GoStrings GoText Varint Frame Stream Cancel Capability.
From S2P Require Import Base58 Identity DidWeb Verifier Hello Handshake Conn ErrorText Endpoint Dispatch.
From S2P Require Import Session Demo Peers.
Open Scope Z_scope.

(** ** Programs that print *)

Record out (A : Type) := mkOut { o_lines : list bytes; o_res : go A }.
Arguments mkOut {A} _ _.
Arguments o_lines {A} _.
Arguments o_res {A} _.

Global Instance out_ret : MRet out := fun A a => mkOut [] (Ok a).
Global Instance out_bind : MBind out := fun A B f m =>
  match o_res m with
  | Ok a => let m' := f a in mkOut (o_lines m ++ o_lines m') (o_res m')
  | Err e => mkOut (o_lines m) (Err e)
  | Panic p => mkOut (o_lines m) (Panic p)
  end.

Definition run {A} (m : go A) : out A := mkOut [] m.
Definition Println (l : bytes) : out unit := mkOut [l] (Ok tt).
Definition print_all (ls : list bytes) : out unit := mkOut ls (Ok tt).

(** The lines of a sequence of which the first part succeeds. *)
Lemma o_lines_bind {A B} (m : out A) (f : A -> out B) a :
  o_res m = Ok a -> o_lines (m ≫= f) = o_lines m ++ o_lines (f a).
Proof. intros E. cbv [mbind out_bind]. by rewrite E. Qed.

Lemma o_lines_run {A B} (m : go A) (f : A -> out B) a : m = Ok a -> o_lines (run m ≫= f) = o_lines (f a).
Proof. by intros ->. Qed.

Lemma o_res_bind {A B} (m : out A) (f : A -> out B) : o_res (m ≫= f) = o_res m ≫= (fun a => o_res (f a)).
Proof. cbv [mbind out_bind go_bind]. by destruct (o_res m). Qed.

Lemma o_res_run {A B} (m : go A) (f : A -> out B) (g : A -> go B) :
  (forall a, o_res (f a) = g a) -> o_res (run m ≫= f) = m ≫= g.
Proof. intros H. rewrite o_res_bind. cbv [mbind go_bind run]. cbn. by destruct m. Qed.

Lemma o_res_print {B} ls (f : unit -> out B) : o_res (print_all ls ≫= f) = o_res (f tt).
Proof. done. Qed.

Section Output.
Context `{HT : ErrorEnv}.

(** Receiving [n] frames and printing a line for each. *)
Fixpoint recv_print (n : nat) (i : Z) (line : Z -> Frame -> bytes) (fatal : string) (op : Operation)
    : out (list Frame) :=
  match n with
  | O => mret []
  | S n =>
      match Operation_Recv op with
      | (Ok f, op) => Println (line i f);; fs ← recv_print n (i + 1) line fatal op; mret (f :: fs)
      | (Err e, _) => run (Err (Errorf fatal None [ArgInt i; ArgErr e]))
      | (Panic p, _) => run (Panic p)
      end
  end.

(** The lines for the [i]-th frame and those after it. *)
Definition frame_lines (line : Z -> Frame -> bytes) (i : Z) (fs : list Frame) : list bytes :=
  imap (fun k f => line (i + Z.of_nat k) f) fs.

Lemma recv_print_Ok n i line fatal op fs :
  recv_frames n op = (fs, Ok tt) -> recv_print n i line fatal op = mkOut (frame_lines line i fs) (Ok fs).
Proof.
  revert i op fs. induction n as [|n IH]; intros i op fs E; cbn in E |- *; [by simplify_eq|].
  destruct (Operation_Recv op) as [[f|e|p] op']; [|done..].
  destruct (recv_frames n op') as [fs' r] eqn:Er. simplify_eq.
  rewrite (IH (i + 1) op' fs' Er). cbv [mbind out_bind mret out_ret Println]. cbn. rewrite app_nil_r. f_equal.
  unfold frame_lines. cbn [imap]. rewrite Z.add_0_r. f_equal. apply imap_ext. intros k f' _. cbn. f_equal. lia.
Qed.

(** Its result is that of the loop without the printing. *)
Lemma recv_print_res n i line fatal op :
  o_res (recv_print n i line fatal op) =
  let '(fs, r) := recv_frames n op in
  on_err (fun e => Errorf fatal None [ArgInt (i + len fs); ArgErr e]) r;; Ok fs.
Proof.
  revert i op. induction n as [|n IH]; intros i op; cbn [recv_print recv_frames]; [done|].
  destruct (Operation_Recv op) as [[f|e|p] op']; [|by cbn; rewrite Z.add_0_r|done].
  change (o_res (fs ← recv_print n (i + 1) line fatal op'; mret (f :: fs)) =
    let '(fs, r) := let '(fs, r) := recv_frames n op' in (f :: fs, r) in
    on_err (fun e => Errorf fatal None [ArgInt (i + len fs); ArgErr e]) r;; Ok fs).
  rewrite o_res_bind, IH.
  destruct (recv_frames n op') as [fs [[]|e|p]]; [done| |done].
  cbn. do 3 f_equal. f_equal. lia.
Qed.

(** ** cmd/aire-demo *)

Definition demo_header : out unit :=
  print_all [[]; str "==========================================================";
    str " AIRE v0.1 demo — two nodes, stream of tokens, cancel-ish";
    str "=========================================================="; []].

Definition demo_footer : out unit :=
  print_all [[]; str "=========================================================="; str " demo complete";
    str "=========================================================="; []].

(** [logf(format, args...)]; [now] is [time.Now().Format("15:04:05.000")], which
    has no verbs. *)
Definition demo_line (now : bytes) (format : string) (args : list operand) : bytes :=
  now ++ str " " ++ Sprintf (str format) [] args.
Definition demo_logf (now : bytes) (format : string) (args : list operand) : out unit :=
  Println (demo_line now format args).

Definition token_line (now : Z -> bytes) (i : Z) (f : Frame) : bytes :=
  demo_line (now i) "  client recv token %d: %q" [OInt i; OStr (Payload f)].

Section DemoMain.
Context `{HE : Ed25519} `{HN : NetEnv} `{HQ : Quic}.

(** main; [now k] is the time of day at its [k]-th line of log, [tokens i] that
    of the line for token [i], and [closed] the error that conn.Close returns, if
    any. *)
Definition demo_main (w : demo_world) (now : nat -> bytes) (tokens : Z -> bytes) (closed : option error) : out (list Frame * Conn) :=
  demo_header;;
  run (Fatalf "RegisterAgent: %v" (RegisterAgent (str "stream") (Some streamAgent) ∅).1);;
  run (DevTLSConfig (dw_tls_server w));;
  server ← run (Fatalf "Listen: %v" (Listen (dw_listen w) (str "127.0.0.1:0")));
  demo_logf (now 0%nat) "server listening at %s" [OStr (Node_Addr (Some server))];;
  run (DevTLSConfig (dw_tls_client w));;
  conn ← run (Fatalf "Dial: %v" (Dial (dw_dial w) (Node_Addr (Some server))));
  let '(r, conn, _) := Conn_Handshake (dw_env w) (dw_ctrl w) (mkConfig None None []) conn in
  state ← run (Fatalf "client Handshake: %v" r);
  demo_logf (now 1%nat) "client handshake complete (peer=%s, negotiated=0.%d)"
    [OStr (PeerNodeID state); OInt (NegotiatedMinor state)];;
  let '(r, conn) := Conn_Invoke (dw_op w) (str "stream") (str "tokens") (Itoa nTokens) conn in
  op ← run (Fatalf "Invoke: %v" r);
  let op := Operation_Close op in
  demo_logf (now 2%nat) "client invoked stream/tokens (n=%d)" [OInt nTokens];;
  fs ← recv_print (Z.to_nat cancelAfter) 1 (token_line tokens) "Recv token %d: %v" op;
  demo_logf (now 3%nat) "client cancelling: closing connection after %d/%d tokens"
    [OInt cancelAfter; OInt nTokens];;
  demo_logf (now 4%nat) "(real per-op CANCEL is v0.3; v0.1 simulates by closing the conn)" [];;
  (if closed is Some e then demo_logf (now 5%nat) "client conn.Close: %v" [OErr (Error e)] else mret tt);;
  demo_footer;;
  mret (fs, Conn_Close conn).
End DemoMain.

(** ** cmd/aire-peers *)

Definition peers_header : out unit :=
  print_all [[]; str "==================================================================";
    str " AIRE peer demo — two Vega-style nodes collaborating over QUIC";
    str "=================================================================="; []].

Definition peers_footer : out unit :=
  print_all [[]; str "==================================================================";
    str " demo complete — agent on vega-A used AIRE to delegate to agents";
    str " on vega-B. fan-out rode independent QUIC streams: the fast";
    str " reply (reverse, 30ms) returned without waiting on the slow one";
    str " (wordcount, 200ms). this is what HTTP cannot give you.";
    str "=================================================================="; []].

Definition peers_line (now : bytes) (format : string) (args : list operand) : bytes :=
  now ++ str "  " ++ Sprintf (str format) [] args.
Definition peers_logf (now : bytes) (format : string) (args : list operand) : out unit :=
  Println (peers_line now format args).

Definition chunk_line (now : Z -> bytes) (i : Z) (f : Frame) : bytes :=
  peers_line (now i) "[client]   ◀ chunk %d: %s" [OInt i; OStr (Payload f)].

Section PeersMain.
Context `{HE : Ed25519} `{HN : NetEnv} `{HQ : Quic}.

Definition peers_main (w : peers_world) (now : nat -> bytes) (chunks : Z -> bytes) : out (list Frame) :=
  peers_header;;
  let '(r, agentsB) := RegisterAgent (str "wordcount") (Some wordcountAgent) ∅ in
  run (must r);;
  run (must (RegisterAgent (str "reverse") (Some reverseAgent) agentsB).1);;
  run (DevTLSConfig (pw_tls w 0));;
  vegaB ← run (must (Listen (pw_listenB w) (str "127.0.0.1:0")));
  peers_logf (now 0%nat) "[vega-B]   listening at %s   agents=[wordcount, reverse]"
    [OStr (Node_Addr (Some vegaB))];;
  run (DevTLSConfig (pw_tls w 1));;
  bConn ← run (Fatalf "vega-A → vega-B dial: %v" (Dial (pw_dialB w) (Node_Addr (Some vegaB))));
  let '(r, bConn, _) := Conn_Handshake (pw_envB w) (pw_ctrlB w) (mkConfig None None []) bConn in
  bState ← run (Fatalf "vega-A → vega-B handshake: %v" r);
  peers_logf (now 1%nat) "[vega-A]   peer link established to %s (negotiated 0.%d)"
    [OStr (PeerNodeID bState); OInt (NegotiatedMinor bState)];;
  run (must (RegisterAgent (str "coordinator") (Some (pw_coordinator w bConn)) ∅).1);;
  run (DevTLSConfig (pw_tls w 2));;
  vegaA ← run (must (Listen (pw_listenA w) (str "127.0.0.1:0")));
  peers_logf (now 2%nat) "[vega-A]   listening at %s   agents=[coordinator]"
    [OStr (Node_Addr (Some vegaA))];;
  run (DevTLSConfig (pw_tls w 3));;
  cConn ← run (Fatalf "client dial: %v" (Dial (pw_dialA w) (Node_Addr (Some vegaA))));
  let '(r, cConn, _) := Conn_Handshake (pw_envA w) (pw_ctrlA w) (mkConfig None None []) cConn in
  cState ← run (Fatalf "client handshake: %v" r);
  peers_logf (now 3%nat) "[client]   handshake complete with %s (negotiated 0.%d)"
    [OStr (PeerNodeID cState); OInt (NegotiatedMinor cState)];;
  Println [];;
  peers_logf (now 4%nat) "[client]   ▶ invoke coordinator/process(%q)" [OStr sentence];;
  let '(r, _) := Conn_Invoke (pw_op w) (str "coordinator") (str "process") sentence cConn in
  op ← run (Fatalf "client invoke: %v" r);
  let op := Operation_Close op in
  fs ← recv_print 2 1 (chunk_line chunks) "client recv chunk %d: %v" op;
  peers_footer;;
  mret fs.
End PeersMain.
End Output.

(** ** What they print *)

Section Transcripts.
Context `{HT : ErrorEnv} `{HE : Ed25519} `{HN : NetEnv} `{HQ : Quic}.

Lemma demo_logf_lines {B} now format args (f : unit -> out B) :
  o_lines (demo_logf now format args ≫= f) = demo_line now format args :: o_lines (f tt).
Proof. done. Qed.

Lemma peers_logf_lines {B} now format args (f : unit -> out B) :
  o_lines (peers_logf now format args ≫= f) = peers_line now format args :: o_lines (f tt).
Proof. done. Qed.

Lemma Println_res {B} l (f : unit -> out B) : o_res (Println l ≫= f) = o_res (f tt).
Proof. done. Qed.

Lemma demo_logf_res {B} now format args (f : unit -> out B) : o_res (demo_logf now format args ≫= f) = o_res (f tt).
Proof. done. Qed.

Lemma peers_logf_res {B} now format args (f : unit -> out B) : o_res (peers_logf now format args ≫= f) = o_res (f tt).
Proof. done. Qed.

(** Past the next call that is not a print. *)
Ltac peel :=
  repeat first [rewrite demo_logf_res|rewrite peers_logf_res|rewrite Println_res];
  apply o_res_run.

(** Printing changes nothing else: the programs end as the ones without it do,
    with the same result or the same error. *)
Lemma demo_main_res w now tokens closed : o_res (demo_main w now tokens closed) = aire_demo w.
Proof.
  unfold demo_main, aire_demo. unfold demo_header at 1. rewrite o_res_print.
  peel. intros []. peel. intros _. peel. intros server. peel. intros _. peel. intros conn.
  destruct (Conn_Handshake _ _ _ conn) as [[r c] v]. peel. intros st.
  destruct (Conn_Invoke _ _ _ _ c) as [r' c']. peel. intros op.
  rewrite demo_logf_res, o_res_bind, recv_print_res.
  destruct (recv_frames _ _) as [fs [[]|e|p]]; [|done|done].
  by destruct closed.
Qed.

Lemma peers_main_res w now chunks : o_res (peers_main w now chunks) = aire_peers w.
Proof.
  unfold peers_main, aire_peers. unfold peers_header at 1. rewrite o_res_print.
  destruct (RegisterAgent (str "wordcount") _ _) as [r agentsB].
  peel. intros []. peel. intros []. peel. intros _. peel. intros vegaB. peel. intros _. peel. intros bConn.
  destruct (Conn_Handshake _ _ _ bConn) as [[r1 c1] v1]. peel. intros stB. peel. intros [].
  peel. intros _. peel. intros vegaA. peel. intros _. peel. intros cConn.
  destruct (Conn_Handshake _ _ _ cConn) as [[r2 c2] v2]. peel. intros stA.
  destruct (Conn_Invoke _ _ _ _ c2) as [r3 c3]. peel. intros op.
  rewrite o_res_bind, recv_print_res. by destruct (recv_frames _ _) as [fs [[]|e|p]].
Qed.

(** The streaming demo prints its story.  If the certificates, the listener, the
    dialling and the handshake succeed and the stream the client opens carries
    what the server writes, the program prints, in this order: the banner, the
    server's address, the identity and minor version of the handshake, the
    invocation, the three tokens token-1, token-2 and token-3 with their numbers,
    that it cancels after 3 of 5 tokens, the error of closing the connection if
    there is one, and the closing banner. *)
Lemma demo_transcript w now tokens closed ql sc st c v :
  is_ok (DevTLSConfig (dw_tls_server w)) = true -> is_ok (DevTLSConfig (dw_tls_client w)) = true ->
  dw_listen w = Ok ql -> dw_dial w = Ok tt ->
  Conn_Handshake (dw_env w) (dw_ctrl w) (mkConfig None None []) (new_conn true) = (Ok st, c, v) ->
  0 <= next_id c <= MaxVarint ->
  dw_op w = Ok (mkReader (replies stream_agents sc (next_id c) (str "stream") (str "tokens")
                            (Itoa nTokens)) EOF, write_all) ->
  o_lines (demo_main w now tokens closed) =
  o_lines demo_header ++
  [demo_line (now 0%nat) "server listening at %s" [OStr (Node_Addr (Some (mkListener ql)))];
   demo_line (now 1%nat) "client handshake complete (peer=%s, negotiated=0.%d)"
     [OStr (PeerNodeID st); OInt (NegotiatedMinor st)];
   demo_line (now 2%nat) "client invoked stream/tokens (n=%d)" [OInt 5];
   demo_line (tokens 1) "  client recv token %d: %q" [OInt 1; OStr (str "token-1")];
   demo_line (tokens 2) "  client recv token %d: %q" [OInt 2; OStr (str "token-2")];
   demo_line (tokens 3) "  client recv token %d: %q" [OInt 3; OStr (str "token-3")];
   demo_line (now 3%nat) "client cancelling: closing connection after %d/%d tokens" [OInt 3; OInt 5];
   demo_line (now 4%nat) "(real per-op CANCEL is v0.3; v0.1 simulates by closing the conn)" []] ++
  (if closed is Some e then [demo_line (now 5%nat) "client conn.Close: %v" [OErr (Error e)]] else []) ++
  o_lines demo_footer.
Proof.
  intros Ht1 Ht2 Hl Hd Hh Hid Hop.
  assert (state c <> None) as Hs.
  { apply Conn_Handshake_effect in Hh as (_ & _ & _ & _ & H). destruct (H eq_refl) as [-> _]. done. }
  destruct (stream_invoked stream_agents c sc nTokens Hs Hid) as (Hi & _); [unfold nTokens; lia|done|].
  pose proof (stream_recv stream_agents c sc nTokens (Z.to_nat cancelAfter) Hs Hid) as Hrecv.
  apply (recv_print_Ok _ 1 (token_line tokens) "Recv token %d: %v") in Hrecv;
    [|unfold nTokens; lia|done|unfold cancelAfter, nTokens; lia].
  destruct (DevTLSConfig (dw_tls_server w)) as [t1|?|?] eqn:E1; [|done|done].
  destruct (DevTLSConfig (dw_tls_client w)) as [t2|?|?] eqn:E2; [|done|done].
  unfold demo_main. rewrite (o_lines_bind demo_header _ tt) by done. f_equal.
  rewrite (o_lines_run _ _ tt) by done. rewrite (o_lines_run _ _ _ E1).
  rewrite (o_lines_run _ _ (mkListener ql)) by (by rewrite Hl). rewrite demo_logf_lines.
  rewrite (o_lines_run _ _ _ E2). rewrite (o_lines_run _ _ (new_conn true)) by (by rewrite Hd).
  rewrite Hh. rewrite (o_lines_run _ _ st) by done. rewrite demo_logf_lines.
  rewrite Hop, Hi. erewrite o_lines_run by reflexivity. rewrite demo_logf_lines.
  erewrite o_lines_bind by (by rewrite Hrecv). rewrite Hrecv. cbn [o_lines].
  rewrite !demo_logf_lines. by destruct closed.
Qed.

(** The peers demo prints its story: the banner, the two nodes and the link
    between them, the client's handshake, the invocation of the coordinator with
    the sentence, the two chunks that came back in the order in which they came,
    and the closing banner. *)
Lemma peers_transcript w now chunks qlB qlA stB bConn vB stA cConn vA f1 f2 :
  (forall i, is_ok (DevTLSConfig (pw_tls w i)) = true) ->
  pw_listenB w = Ok qlB -> pw_dialB w = Ok tt -> pw_listenA w = Ok qlA -> pw_dialA w = Ok tt ->
  Conn_Handshake (pw_envB w) (pw_ctrlB w) (mkConfig None None []) (new_conn true) = (Ok stB, bConn, vB) ->
  Conn_Handshake (pw_envA w) (pw_ctrlA w) (mkConfig None None []) (new_conn true) = (Ok stA, cConn, vA) ->
  0 <= next_id cConn <= MaxVarint ->
  Forall (fun f => frame_valid f /\ OpID f = next_id cConn) [f1; f2] ->
  pw_op w = Ok (mkReader (frames_bytes [f1; f2]) EOF, write_all) ->
  o_lines (peers_main w now chunks) =
  o_lines peers_header ++
  [peers_line (now 0%nat) "[vega-B]   listening at %s   agents=[wordcount, reverse]"
     [OStr (Node_Addr (Some (mkListener qlB)))];
   peers_line (now 1%nat) "[vega-A]   peer link established to %s (negotiated 0.%d)"
     [OStr (PeerNodeID stB); OInt (NegotiatedMinor stB)];
   peers_line (now 2%nat) "[vega-A]   listening at %s   agents=[coordinator]"
     [OStr (Node_Addr (Some (mkListener qlA)))];
   peers_line (now 3%nat) "[client]   handshake complete with %s (negotiated 0.%d)"
     [OStr (PeerNodeID stA); OInt (NegotiatedMinor stA)];
   [];
   peers_line (now 4%nat) "[client]   ▶ invoke coordinator/process(%q)" [OStr sentence];
   chunk_line chunks 1 f1; chunk_line chunks 2 f2] ++
  o_lines peers_footer.
Proof.
  intros Ht HlB HdB HlA HdA HhB HhA Hid Hf Ho.
  assert (state cConn <> None) as Hs.
  { apply Conn_Handshake_effect in HhA as (_ & _ & _ & _ & H). destruct (H eq_refl) as [-> _]. done. }
  assert (forall i, exists t, DevTLSConfig (pw_tls w i) = Ok t) as Htls.
  { intros i. specialize (Ht i). destruct (DevTLSConfig (pw_tls w i)); [eauto|done|done]. }
  destruct (Htls 0%nat) as [t0 E0], (Htls 1%nat) as [t1 E1], (Htls 2%nat) as [t2 E2], (Htls 3%nat) as [t3 E3].
  unfold peers_main. rewrite (o_lines_bind peers_header _ tt) by done. f_equal.
  destruct (RegisterAgent (str "wordcount") (Some wordcountAgent) ∅) as [r agentsB] eqn:Er.
  change (RegisterAgent (str "wordcount") (Some wordcountAgent) ∅)
    with (Ok tt, <[str "wordcount" := wordcountAgent]> (∅ : agent_table)) in Er.
  injection Er as <- <-. do 2 rewrite (o_lines_run _ _ tt) by done. rewrite (o_lines_run _ _ _ E0).
  rewrite (o_lines_run _ _ (mkListener qlB)) by (by rewrite HlB). rewrite peers_logf_lines.
  rewrite (o_lines_run _ _ _ E1). rewrite (o_lines_run _ _ (new_conn true)) by (by rewrite HdB).
  rewrite HhB. rewrite (o_lines_run _ _ stB) by done. rewrite peers_logf_lines.
  rewrite (o_lines_run _ _ tt) by done. rewrite (o_lines_run _ _ _ E2).
  rewrite (o_lines_run _ _ (mkListener qlA)) by (by rewrite HlA). rewrite peers_logf_lines.
  rewrite (o_lines_run _ _ _ E3). rewrite (o_lines_run _ _ (new_conn true)) by (by rewrite HdA).
  rewrite HhA. rewrite (o_lines_run _ _ stA) by done. rewrite peers_logf_lines.
  rewrite (o_lines_bind (Println []) _ tt), peers_logf_lines by done.
  rewrite Ho, Conn_Invoke_eq; [|done|done|done|vm_compute; congruence].
  erewrite o_lines_run by reflexivity.
  set (op := Operation_Close _).
  assert (recv_frames 2 op = ([f1; f2], Ok tt)) as Hr
    by (apply (recv_first [f1; f2] 2 op [] EOF); [done|done|by rewrite app_nil_r]).
  apply (recv_print_Ok _ 1 (chunk_line chunks) "client recv chunk %d: %v") in Hr.
  erewrite o_lines_bind by (by rewrite Hr). rewrite Hr. reflexivity.
Qed.
End Transcripts.

(** ** A concrete run: what the demo prints at noon. *)

Example demo_at_noon :
  let noon := str "12:00:00.000" in
  let rule := str "==========================================================" in
  let quoted s := [x22] ++ str s ++ [x22] in
  o_lines (demo_main (HT := latin1) (HE := toy_ed25519) (HN := offline) (HQ := rfc9000) toy_world
    (fun _ => noon) (fun _ => noon) None) =
  [[]; rule; str " AIRE v0.1 demo — two nodes, stream of tokens, cancel-ish"; rule; [];
   noon ++ str " server listening at 127.0.0.1:40000";
   noon ++ str " client handshake complete (peer=" ++ s_DID (p_signer party_b) ++ str ", negotiated=0.2)";
   noon ++ str " client invoked stream/tokens (n=5)";
   noon ++ str "   client recv token 1: " ++ quoted "token-1"%string;
   noon ++ str "   client recv token 2: " ++ quoted "token-2"%string;
   noon ++ str "   client recv token 3: " ++ quoted "token-3"%string;
   noon ++ str " client cancelling: closing connection after 3/5 tokens";
   noon ++ str " (real per-op CANCEL is v0.3; v0.1 simulates by closing the conn)";
   []; rule; str " demo complete"; rule; []].
Proof. vm_compute. reflexivity. Qed.
