(* ===== verification/NodeLife.v ===== *)
(** * The life of a Node

    [node.go], Listen, Stop, acceptLoop, handleConn and the goroutines they
    start, as a labelled transition system: one thread per call or goroutine in
    progress, one step per atomic action (a critical section under [n.mu], an
    assignment, a WaitGroup operation, a call to the transport), and any
    interleaving of the threads.  Labels tell the node's own steps from those
    that wait for somebody else: a peer, the transport, an agent, a caller. *)

From stdpp Require Import base numbers list relations.
From S2P Require Import Prelude.
Open Scope nat_scope.

(** Where a thread stands; [c] is the number of the connection it works for. *)
Inductive thread : Type :=
| Listen_call            (* Listen: before n.mu.Lock *)
| Listen_bind            (* n.started set; before Listen(addr, tlsConf) *)
| Listen_bound           (* before n.listener = listener *)
| Listen_assigned        (* before n.wg.Add(1) *)
| Listen_added           (* before go n.acceptLoop() *)
| Stop_call              (* Stop: before n.mu.Lock *)
| Stop_flagged           (* n.stopped set; before n.cancel() *)
| Stop_cancelled         (* before the listener is closed *)
| Stop_closed            (* at n.wg.Wait() *)
| Accept_loop            (* acceptLoop: at n.listener.Accept(n.ctx) *)
| Accept_got (c : nat)   (* before n.wg.Add(1) *)
| Accept_added (c : nat) (* before go n.handleConn(conn) *)
| Accept_exit            (* deferred n.wg.Done() *)
| Conn_start (c : nat)   (* handleConn: Handshake at AcceptStream(n.ctx) *)
| Conn_hello (c : nat)   (* Handshake in runHandshake, on the control stream *)
| Conn_loop (c : nat)    (* at conn.AcceptOperation(n.ctx) *)
| Conn_got (c : nat)     (* before n.wg.Add(1) *)
| Conn_added (c : nat)   (* before go func() *)
| Conn_exit (c : nat)    (* deferred conn.Close() *)
| Conn_closed (c : nat)  (* deferred n.wg.Done() *)
| Op_recv (c : nat)      (* handleOperation: at op.Recv() *)
| Op_agent (c : nat)     (* in agent.Handle *)
| Op_exit (c : nat).     (* deferred n.wg.Done() *)

Global Instance thread_eq_decision : EqDecision thread.
Proof. solve_decision. Defined.

(** [listener]: nil, or open or closed.  [accepted] counts the connections that
    Accept returned and [closed] holds those this node has closed. *)
Record node := mkNode {
  started : bool;
  stopped : bool;
  cancelled : bool;
  listener : option bool;
  wg : nat;
  accepted : nat;
  closed : list nat;
  threads : list thread;
}.

(** NewNode. *)
Definition NewNode : node := mkNode false false false None 0 0 [] [].

(** What a step shows, and who decides that it happens. *)
Inductive label : Type :=
| Tau                       (* the node itself *)
| ListenReturns (ok : bool) (* the node itself, to the caller of Listen *)
| StopReturns (waited : bool)
| AgentReturns              (* an agent's Handle *)
| Peer                      (* a peer or the transport *)
| Call.                     (* a caller of Listen or Stop *)

Definition with_threads (s : node) (ts : list thread) : node :=
  mkNode (started s) (stopped s) (cancelled s) (listener s) (wg s) (accepted s) (closed s) ts.

(** The state updates of single actions. *)
Definition set_started (s : node) :=
  mkNode true (stopped s) (cancelled s) (listener s) (wg s) (accepted s) (closed s) (threads s).
Definition set_stopped (s : node) :=
  mkNode (started s) true (cancelled s) (listener s) (wg s) (accepted s) (closed s) (threads s).
Definition set_cancelled (s : node) :=
  mkNode (started s) (stopped s) true (listener s) (wg s) (accepted s) (closed s) (threads s).
Definition set_listener (l : option bool) (s : node) :=
  mkNode (started s) (stopped s) (cancelled s) l (wg s) (accepted s) (closed s) (threads s).
Definition wg_add (s : node) :=
  mkNode (started s) (stopped s) (cancelled s) (listener s) (S (wg s)) (accepted s) (closed s) (threads s).
Definition wg_done (s : node) :=
  mkNode (started s) (stopped s) (cancelled s) (listener s) (pred (wg s)) (accepted s) (closed s) (threads s).
Definition new_connection (s : node) :=
  mkNode (started s) (stopped s) (cancelled s) (listener s) (wg s) (S (accepted s)) (closed s) (threads s).
Definition close_conn (c : nat) (s : node) :=
  mkNode (started s) (stopped s) (cancelled s) (listener s) (wg s) (accepted s) (c :: closed s) (threads s).

(** [X_act s t l s' ts]: thread [t] of the function [X] moves in state [s], with
    the shared part of the state becoming that of [s'], and is replaced by the
    threads [ts]. *)
Inductive Listen_act (s : node) : thread -> label -> node -> list thread -> Prop :=
| listen_refused : started s || stopped s = true ->
    Listen_act s Listen_call (ListenReturns false) s []
| listen_start : started s || stopped s = false ->
    Listen_act s Listen_call Tau (set_started s) [Listen_bind]
| listen_bind_fails : Listen_act s Listen_bind (ListenReturns false) s []
| listen_binds : Listen_act s Listen_bind Tau s [Listen_bound]
| listen_assigns : Listen_act s Listen_bound Tau (set_listener (Some true) s) [Listen_assigned]
| listen_adds : Listen_act s Listen_assigned Tau (wg_add s) [Listen_added]
| listen_spawns : Listen_act s Listen_added (ListenReturns true) s [Accept_loop].

Inductive Stop_act (s : node) : thread -> label -> node -> list thread -> Prop :=
| stop_again : stopped s = true -> Stop_act s Stop_call (StopReturns false) s []
| stop_flags : stopped s = false -> Stop_act s Stop_call Tau (set_stopped s) [Stop_flagged]
| stop_cancels : Stop_act s Stop_flagged Tau (set_cancelled s) [Stop_cancelled]
| stop_closes : Stop_act s Stop_cancelled Tau
    (set_listener ((fun _ => false) <$> listener s) s) [Stop_closed]
| stop_waits : wg s = 0 -> Stop_act s Stop_closed (StopReturns true) s [].

(** Accept returns an error once its context is cancelled or the listener is
    closed, unless a connection was still queued, and whenever the transport
    fails. *)
Inductive acceptLoop_act (s : node) : thread -> label -> node -> list thread -> Prop :=
| accept_cancelled : cancelled s = true \/ listener s = Some false ->
    acceptLoop_act s Accept_loop Tau s [Accept_exit]
| accept_fails : acceptLoop_act s Accept_loop Peer s [Accept_exit]
| accept_succeeds : acceptLoop_act s Accept_loop Peer (new_connection s) [Accept_got (accepted s)]
| accept_adds c : acceptLoop_act s (Accept_got c) Tau (wg_add s) [Accept_added c]
| accept_spawns c : acceptLoop_act s (Accept_added c) Tau s [Accept_loop; Conn_start c]
| accept_done : acceptLoop_act s Accept_exit Tau (wg_done s) [].

(** Handshake waits for the control stream under [n.ctx]; once it has it,
    runHandshake reads the peer's HELLO from the stream, which no context
    governs.  A failed Handshake has closed the connection. *)
Inductive handleConn_act (s : node) : thread -> label -> node -> list thread -> Prop :=
| conn_control_cancelled c : cancelled s = true ->
    handleConn_act s (Conn_start c) Tau (close_conn c s) [Conn_exit c]
| conn_control_fails c : handleConn_act s (Conn_start c) Peer (close_conn c s) [Conn_exit c]
| conn_control c : handleConn_act s (Conn_start c) Peer s [Conn_hello c]
| conn_handshake_fails c : handleConn_act s (Conn_hello c) Peer (close_conn c s) [Conn_exit c]
| conn_handshakes c : handleConn_act s (Conn_hello c) Peer s [Conn_loop c]
| conn_accept_cancelled c : cancelled s = true ->
    handleConn_act s (Conn_loop c) Tau s [Conn_exit c]
| conn_accept_fails c : handleConn_act s (Conn_loop c) Peer s [Conn_exit c]
| conn_accepts c : handleConn_act s (Conn_loop c) Peer s [Conn_got c]
| conn_adds c : handleConn_act s (Conn_got c) Tau (wg_add s) [Conn_added c]
| conn_spawns c : handleConn_act s (Conn_added c) Tau s [Conn_loop c; Op_recv c]
| conn_closes c : handleConn_act s (Conn_exit c) Tau (close_conn c s) [Conn_closed c]
| conn_done c : handleConn_act s (Conn_closed c) Tau (wg_done s) [].

(** The goroutine of one operation: Recv returns when the peer's first frame or
    an error arrives, or because this node closed the connection; the frame
    leads to an agent or to nothing; the agent returns when it pleases. *)
Inductive op_act (s : node) : thread -> label -> node -> list thread -> Prop :=
| op_recv_closed c : c ∈ closed s -> op_act s (Op_recv c) Tau s [Op_exit c]
| op_recv_fails c : op_act s (Op_recv c) Peer s [Op_exit c]
| op_dispatches c : op_act s (Op_recv c) Peer s [Op_agent c]
| op_returns c : op_act s (Op_agent c) AgentReturns s [Op_exit c]
| op_done c : op_act s (Op_exit c) Tau (wg_done s) [].

Definition act (s : node) (t : thread) (l : label) (s' : node) (ts : list thread) : Prop :=
  Listen_act s t l s' ts \/ Stop_act s t l s' ts \/ acceptLoop_act s t l s' ts \/
  handleConn_act s t l s' ts \/ op_act s t l s' ts.

(** A step: a user calls Listen or Stop, or one thread moves. *)
Inductive step : node -> label -> node -> Prop :=
| call_Listen s : step s Call (with_threads s (Listen_call :: threads s))
| call_Stop s : step s Call (with_threads s (Stop_call :: threads s))
| thread_moves s t l s' ts pre post :
    threads s = pre ++ t :: post -> act s t l s' ts ->
    step s l (with_threads s' (pre ++ ts ++ post)).

Definition steps : node -> node -> Prop := rtc (fun s s' => exists l, step s l s').

Definition node_reachable (s : node) : Prop := steps NewNode s.

(** Case analysis on an action. *)
Ltac act_cases H := destruct H as [H|[H|[H|[H|H]]]]; destruct H.
Ltac act_rule c :=
  unfold act;
  first [ left; apply c | right; left; apply c | right; right; left; apply c
        | right; right; right; left; apply c | right; right; right; right; apply c ].

(** Induction on reachable states. *)
Lemma reachable_invariant (P : node -> Prop) :
  P NewNode -> (forall s l s', P s -> step s l s' -> P s') ->
  forall s, node_reachable s -> P s.
Proof.
  intros H0 Hs s H. unfold node_reachable, steps in H. remember NewNode as s0 eqn:E.
  clear E.
  induction H as [s|s1 s2 s3 [l Hst] _ IH]; [done|]. apply IH. by eapply Hs.
Qed.

(** ** Counting threads *)

(** What a thread holds of the WaitGroup. *)
Definition holds (t : thread) : nat :=
  match t with
  | Listen_added => 1
  | Accept_loop | Accept_got _ | Accept_exit => 1
  | Accept_added _ => 2
  | Conn_start _ | Conn_hello _ | Conn_loop _ | Conn_got _ | Conn_exit _ | Conn_closed _ => 1
  | Conn_added _ => 2
  | Op_recv _ | Op_agent _ | Op_exit _ => 1
  | _ => 0
  end.

(** A goroutine that the node runs in the background. *)
Definition background (t : thread) : bool :=
  match t with
  | Accept_loop | Accept_got _ | Accept_added _ | Accept_exit
  | Conn_start _ | Conn_hello _ | Conn_loop _ | Conn_got _ | Conn_added _ | Conn_exit _ | Conn_closed _
  | Op_recv _ | Op_agent _ | Op_exit _ => true
  | _ => false
  end.

(** A Listen call that passed the check of [n.started], or the accept loop it
    became. *)
Definition owner (t : thread) : nat :=
  match t with
  | Listen_bind | Listen_bound | Listen_assigned | Listen_added
  | Accept_loop | Accept_got _ | Accept_added _ | Accept_exit => 1
  | _ => 0
  end.

(** A Listen call between that check and its return. *)
Definition listening (t : thread) : bool :=
  match t with
  | Listen_bind | Listen_bound | Listen_assigned | Listen_added => true
  | _ => false
  end.

Definition count (f : thread -> nat) (ts : list thread) : nat := sum_list_with f ts.

Lemma count_cons f t ts : count f (t :: ts) = f t + count f ts.
Proof. done. Qed.

Lemma count_split f pre t post :
  count f (pre ++ t :: post) = f t + (count f pre + count f post).
Proof. unfold count. rewrite sum_list_with_app. cbn. lia. Qed.

Lemma count_replaced f pre ts post :
  count f (pre ++ ts ++ post) = count f ts + (count f pre + count f post).
Proof. unfold count. rewrite !sum_list_with_app. lia. Qed.

(** ** The invariant *)

Record inv (s : node) : Prop := {
  inv_wg : wg s = count holds (threads s);
  inv_owner : count owner (threads s) <= (if started s then 1 else 0);
  inv_listener : started s = false -> listener s = None;
}.

Lemma act_wg s t l s' ts :
  act s t l s' ts -> threads s' = threads s /\
  (holds t <= wg s -> wg s' + holds t = wg s + count holds ts).
Proof. intros H. act_cases H; cbn; split; try done; lia. Qed.

Lemma act_owner s t l s' ts :
  act s t l s' ts ->
  (started s = true -> started s' = true) /\
  (count owner ts <= owner t \/ started s = false /\ started s' = true /\ count owner ts = 1).
Proof.
  intros H. act_cases H; cbn; split; auto.
  right. apply orb_false_iff in H as [-> _]. auto.
Qed.

Lemma act_listener s t l s' ts :
  act s t l s' ts ->
  listener s' = listener s \/ (t = Listen_bound /\ listener s' = Some true) \/
  (t = Stop_cancelled /\ listener s' = (fun _ => false) <$> listener s).
Proof. intros H. act_cases H; cbn; auto. Qed.

Lemma inv_NewNode : inv NewNode.
Proof. by split. Qed.

Lemma step_inv s l s' : inv s -> step s l s' -> inv s'.
Proof.
  intros [Hwg Hown Hlis] Hst. destruct Hst as [s|s|s t l s1 ts pre post Hts Ha].
  - split; cbn; try done; by destruct (started s).
  - split; cbn; try done; by destruct (started s).
  - rewrite Hts, count_split in Hwg, Hown.
    pose proof (act_wg _ _ _ _ _ Ha) as [_ Hw].
    pose proof (act_owner _ _ _ _ _ Ha) as [Hs Ho].
    pose proof (act_listener _ _ _ _ _ Ha) as Hl.
    split; cbn [with_threads wg threads started listener].
    + rewrite count_replaced. lia.
    + rewrite count_replaced. destruct Ho as [Ho|(E1 & E2 & Ho)].
      * destruct (started s); [rewrite Hs by done|]; [lia|]. destruct (started s1); lia.
      * rewrite E1 in Hown. rewrite E2. lia.
    + intros Hf. assert (started s = false) as Hf0 by (destruct (started s); [by rewrite Hs in Hf|done]).
      rewrite Hf0 in Hown. specialize (Hlis Hf0).
      destruct Hl as [->|[[-> _]|[_ ->]]]; [done|cbn in Hown; lia|by rewrite Hlis].
Qed.

Lemma node_reachable_inv s : node_reachable s -> inv s.
Proof. apply (reachable_invariant inv inv_NewNode step_inv). Qed.

Lemma background_holds t : background t = true -> 0 < holds t.
Proof. destruct t; cbn; lia || done. Qed.

Lemma count_zero f ts t : count f ts = 0 -> t ∈ ts -> f t = 0.
Proof.
  induction ts as [|x ts IH]; [set_solver|]. rewrite count_cons. intros H Ht.
  apply elem_of_cons in Ht as [->|Ht]; [lia|apply IH; [lia|done]].
Qed.

(** A Stop call past its critical section. *)
Definition stopping (t : thread) : bool :=
  match t with Stop_flagged | Stop_cancelled | Stop_closed => true | _ => false end.

Definition inv_stop (s : node) : Prop :=
  forall t, t ∈ threads s -> stopping t = true -> stopped s = true.

Lemma act_stopped s t l s' ts :
  act s t l s' ts ->
  (stopped s = true -> stopped s' = true) /\
  forall t', t' ∈ ts -> stopping t' = true -> stopping t = true \/ stopped s' = true.
Proof. intros H. act_cases H; cbn; split; auto; intros t' Ht; set_unfold; naive_solver. Qed.

Lemma step_inv_stop s l s' : inv_stop s -> step s l s' -> inv_stop s'.
Proof.
  intros Hi Hst. destruct Hst as [s|s|s t l s1 ts pre post Hts Ha]; unfold inv_stop in *; cbn.
  1,2: intros t [->|Ht]%elem_of_cons; [done|by apply Hi].
  apply act_stopped in Ha as [Hs Hn]. rewrite Hts in Hi. intros t' Ht' Hst.
  rewrite !elem_of_app in Ht'. destruct Ht' as [Ht'|[Ht'|Ht']].
  - apply Hs, (Hi t'); [set_solver|done].
  - destruct (Hn t' Ht' Hst) as [Ht|]; [|done]. apply Hs, (Hi t); [set_solver|done].
  - apply Hs, (Hi t'); [set_solver|done].
Qed.

Lemma node_reachable_inv_stop s : node_reachable s -> inv_stop s.
Proof.
  apply (reachable_invariant inv_stop); [|exact step_inv_stop].
  intros t Ht. by apply elem_of_nil in Ht.
Qed.

(** Every accepted connection has at most one thread that handles it, and a
    connection yet to be accepted has none. *)
Definition handler (c : nat) (t : thread) : nat :=
  match t with
  | Accept_got c' | Accept_added c' | Conn_start c' | Conn_hello c' | Conn_loop c' | Conn_got c'
  | Conn_added c' | Conn_exit c' | Conn_closed c' => if c' =? c then 1 else 0
  | _ => 0
  end.

Definition inv_handlers (s : node) : Prop :=
  forall c, count (handler c) (threads s) <= (if c <? accepted s then 1 else 0).

Lemma act_handlers s t l s' ts c :
  act s t l s' ts ->
  (accepted s' = accepted s /\ count (handler c) ts <= handler c t) \/
  (accepted s' = S (accepted s) /\ t = Accept_loop /\ ts = [Accept_got (accepted s)]).
Proof. intros H. act_cases H; cbn; try (left; split; [done|lia]). by right. Qed.

Lemma step_inv_handlers s l s' : inv_handlers s -> step s l s' -> inv_handlers s'.
Proof.
  intros Hi Hst c. specialize (Hi c). destruct Hst as [s|s|s t l s1 ts pre post Hts Ha]; [done..|].
  cbn [with_threads threads accepted]. rewrite count_replaced. rewrite Hts, count_split in Hi.
  destruct (act_handlers _ _ _ _ _ c Ha) as [[-> Hc]|(-> & -> & ->)]; [lia|].
  rewrite count_cons. cbn [handler count sum_list_with] in *.
  destruct (Nat.eqb_spec (accepted s) c), (Nat.ltb_spec c (accepted s)), (Nat.ltb_spec c (S (accepted s))); lia.
Qed.

Lemma node_reachable_inv_handlers s : node_reachable s -> inv_handlers s.
Proof. by apply (reachable_invariant inv_handlers); [intros c; cbn; lia|exact step_inv_handlers]. Qed.

(** ** Quiescence *)

(** Stopped, with no goroutine left and no Listen call in progress. *)
Definition quiescent (s : node) : Prop :=
  stopped s = true /\ forall t, t ∈ threads s -> background t = false /\ listening t = false.

Lemma act_quiescent s t l s' ts :
  act s t l s' ts -> stopped s = true -> background t = false -> listening t = false ->
  stopped s' = true /\ wg s' = wg s /\
  (listener s' = Some true -> listener s = Some true) /\
  forall t', t' ∈ ts -> background t' = false /\ listening t' = false.
Proof.
  intros H Hs Hb Hl. act_cases H; cbn in *; try done; split_and!; try done;
    try (intros t' Ht'; set_unfold; naive_solver).
  - rewrite Hs in H. by rewrite orb_true_r in H.
  - by destruct (listener s).
Qed.

Lemma quiescent_step s l s' :
  quiescent s -> step s l s' ->
  quiescent s' /\ wg s' = wg s /\ (listener s' = Some true -> listener s = Some true).
Proof.
  intros [Hs Hq] Hst. destruct Hst as [s|s|s t l s1 ts pre post Hts Ha].
  1,2: split_and!; cbn; try done; split; [done|]; cbn; intros t [->|Ht]%elem_of_cons; auto.
  rewrite Hts in Hq. destruct (Hq t) as [Hb Hl]; [set_solver|].
  destruct (act_quiescent _ _ _ _ _ Ha Hs Hb Hl) as (H1 & H2 & H3 & H4).
  split_and!; cbn; try done. split; [done|]. cbn. intros t'. rewrite !elem_of_app.
  intros [?|[?|?]]; [apply Hq|by apply H4|apply Hq]; set_solver.
Qed.

Lemma quiescent_steps s s' :
  quiescent s -> steps s s' ->
  quiescent s' /\ wg s' = wg s /\ (listener s' = Some true -> listener s = Some true).
Proof.
  intros Hq H. induction H as [s|s1 s2 s3 [l Hst] _ IH]; [done|].
  destruct (quiescent_step _ _ _ Hq Hst) as (Hq2 & Hw & Hl).
  destruct (IH Hq2) as (Hq3 & Hw3 & Hl3). split_and!; [done|congruence|auto].
Qed.

Lemma act_StopReturns s t s' ts :
  act s t (StopReturns true) s' ts -> t = Stop_closed /\ s' = s /\ ts = [] /\ wg s = 0.
Proof.
  intros H. unfold act in H.
  destruct H as [H|[H|[H|[H|H]]]]; inversion H; subst; auto.
Qed.

(** C25: Stop waits for everything and is final.  In any interleaving, when a
    Stop call returns from its wait no goroutine of the node is left: the accept
    loop, every connection and every operation have finished.  If moreover no
    Listen call is in progress, the node stays without goroutines forever,
    whatever calls follow, and a closed listener stays closed. *)
Theorem stop_is_final s s' :
  node_reachable s -> step s (StopReturns true) s' ->
  (forall t, t ∈ threads s' -> background t = false) /\ stopped s' = true /\
  ((forall t, t ∈ threads s' -> listening t = false) ->
   forall s'', steps s' s'' ->
     (forall t, t ∈ threads s'' -> background t = false) /\ wg s'' = 0 /\
     (listener s' <> Some true -> listener s'' <> Some true)).
Proof.
  intros Hr Hst. pose proof (node_reachable_inv s Hr) as [Hwg _ _].
  pose proof (node_reachable_inv_stop s Hr) as Hstop.
  inversion Hst as [| |s0 t l s1 ts pre post Hts Ha]; subst. apply act_StopReturns in Ha as (-> & -> & -> & H0). clear Hst.
  rewrite Hts, count_split in Hwg. cbn in Hwg.
  assert (forall t, t ∈ pre ++ post -> background t = false) as Hb.
  { intros t Ht. destruct (background t) eqn:E; [|done]. apply background_holds in E.
    assert (count holds (pre ++ post) = 0) as Hz by (unfold count in *; rewrite sum_list_with_app; lia).
    pose proof (count_zero _ _ t Hz Ht). lia. }
  assert (stopped s = true) as Hs by (apply (Hstop Stop_closed); [rewrite Hts; set_solver|done]).
  cbn. split_and!; [done|done|]. intros Hl s'' Hss.
  assert (quiescent (with_threads s (pre ++ post))) as Hq0 by (split; cbn; auto).
  destruct (quiescent_steps _ _ Hq0 Hss) as ([_ Hq] & Hw & Hli).
  split_and!; [intros t Ht; by apply Hq|by rewrite Hw|]. cbn in Hli. auto.
Qed.

(** ** Executions, for evaluating the model *)

(** One step of the thread at the head of the list. *)
Lemma head_step s t l s' ts rest :
  threads s = t :: rest -> act s t l s' ts -> step s l (with_threads s' (ts ++ rest)).
Proof. intros E Ha. exact (thread_moves s t l s' ts [] rest E Ha). Qed.

(** A node that listened and is being stopped: everything finished, Stop at its
    wait. *)
Definition stop_waiting : node := mkNode true true true (Some false) 0 0 [] [Stop_closed].

Ltac run_head c := eapply rtc_l; [eexists; eapply head_step; [reflexivity|act_rule c; auto]|cbn].
Ltac run_at pre c :=
  eapply rtc_l; [eexists; eapply (thread_moves _ _ _ _ _ pre); [reflexivity|act_rule c; auto]|cbn].

Lemma stop_waiting_reachable : node_reachable stop_waiting.
Proof.
  unfold node_reachable, steps, NewNode.
  eapply rtc_l; [eexists; apply call_Listen|cbn].
  run_head listen_start. run_head listen_binds. run_head listen_assigns.
  run_head listen_adds. run_head listen_spawns.
  eapply rtc_l; [eexists; apply call_Stop|cbn].
  run_head stop_flags. run_head stop_cancels. run_head stop_closes.
  run_at [Stop_closed] accept_cancelled. run_at [Stop_closed] accept_done.
  apply rtc_refl.
Qed.

Lemma stop_is_final_witness :
  stopped (with_threads stop_waiting []) = true /\
  forall s'', steps (with_threads stop_waiting []) s'' -> wg s'' = 0 /\ listener s'' <> Some true.
Proof.
  destruct (stop_is_final stop_waiting (with_threads stop_waiting [])) as (_ & Hs & H).
  - apply stop_waiting_reachable.
  - apply (head_step stop_waiting Stop_closed (StopReturns true) stop_waiting [] []); [reflexivity|].
    act_rule stop_waits. reflexivity.
  - split; [exact Hs|]. intros s'' Hss.
    destruct (H ltac:(cbn; intros t Ht; by apply elem_of_nil in Ht) s'' Hss) as (_ & H1 & H2).
    split; [exact H1|]. apply H2. cbn. congruence.
Defined.

(** ** Stop racing with Listen *)

(** Both calls have returned, and the listener is open. *)
Definition leaked : node := mkNode true true true (Some true) 0 0 [] [].

(** A call on a node that was started and stopped, with nothing running, leaves
    the listener as it is. *)
Lemma only_calls_keep_listener s s' :
  steps s s' -> started s = true -> stopped s = true ->
  (forall t, t ∈ threads s -> t = Listen_call \/ t = Stop_call) ->
  listener s' = listener s.
Proof.
  intros H. induction H as [s|s1 s2 s3 [l Hst] _ IH]; [done|]. intros H1 H2 H3.
  destruct Hst as [s|s|s t l s1 ts pre post Hts Ha].
  1,2: apply IH; cbn; [done|done|]; intros t [->|Ht]%elem_of_cons; auto.
  rewrite Hts in H3. destruct (H3 t) as [->| ->]; [set_solver|..];
    destruct Ha as [Ha|[Ha|[Ha|[Ha|Ha]]]]; inversion Ha; subst; rewrite ?H1, ?H2 in *; try done;
    apply IH; cbn; try done; intros t' Ht'; apply H3; set_solver.
Qed.

(** C37: a Stop that overlaps a Listen leaks the listener.  There is an
    interleaving in which Listen and Stop both return nil, Stop having waited
    for every goroutine, and the listener that Listen bound is open; from then
    on no sequence of calls closes it, because every further Stop returns at
    once. *)
Theorem stop_listen_race_leaks :
  node_reachable leaked /\ forall s, steps leaked s -> listener s = Some true.
Proof.
  split.
  - unfold node_reachable, steps, NewNode.
    eapply rtc_l; [eexists; apply call_Listen|cbn].
    run_head listen_start.
    eapply rtc_l; [eexists; apply call_Stop|cbn].
    run_head stop_flags. run_head stop_cancels. run_head stop_closes.
    run_head stop_waits.
    run_head listen_binds. run_head listen_assigns. run_head listen_adds. run_head listen_spawns.
    run_head accept_cancelled. run_head accept_done.
    apply rtc_refl.
  - intros s Hs. apply (only_calls_keep_listener leaked s Hs); try done.
    intros t Ht. by apply elem_of_nil in Ht.
Qed.
