(* ===== verification/NodeStop.v ===== *)
(** * Stopping a Node

    Termination and liveness of the transition system of [NodeLife]: the node
    does a bounded amount of work per event, a Stop that is not held up by a
    handshake always completes, and what happens to handshakes and operations
    that are in progress when Stop is called. *)

From stdpp Require Import base numbers list relations.
From S2P Require Import Prelude NodeLife.
Open Scope nat_scope.

(** ** Work *)

(** Steps that the node takes by itself. *)
Definition own (l : label) : bool :=
  match l with Tau | ListenReturns _ | StopReturns _ => true | _ => false end.

(** Steps that bring new work from outside. *)
Definition event (l : label) : bool :=
  match l with Peer | Call => true | _ => false end.

(** How many steps a thread can still take before the next event. *)
Definition weight (t : thread) : nat :=
  match t with
  | Op_exit _ => 1 | Op_agent _ => 2 | Op_recv _ => 3
  | Conn_closed _ => 1 | Conn_exit _ => 2 | Conn_loop _ => 3 | Conn_hello _ => 4 | Conn_start _ => 5
  | Conn_added _ => 7 | Conn_got _ => 8
  | Accept_exit => 1 | Accept_loop => 2 | Accept_added _ => 8 | Accept_got _ => 9
  | Listen_added => 3 | Listen_assigned => 4 | Listen_bound => 5 | Listen_bind => 6 | Listen_call => 7
  | Stop_closed => 1 | Stop_cancelled => 2 | Stop_flagged => 3 | Stop_call => 4
  end.

Definition work (s : node) : nat := count weight (threads s).

Lemma act_weight s t l s' ts :
  act s t l s' ts -> 1 + count weight ts <= weight t + (if event l then 8 else 0).
Proof. intros H. act_cases H; cbn; lia. Qed.

Lemma step_work s l s' : step s l s' -> 1 + work s' <= work s + (if event l then 8 else 0).
Proof.
  unfold work. intros H. destruct H as [s|s|s t l s1 ts pre post Hts Ha];
    cbn [with_threads threads event]; [rewrite count_cons; cbn [weight]; lia..|].
  apply act_weight in Ha. rewrite Hts, count_split, count_replaced. lia.
Qed.

(** Executions with their labels. *)
Inductive exec : node -> list label -> node -> Prop :=
| exec_nil s : exec s [] s
| exec_cons s l s1 ls s2 : step s l s1 -> exec s1 ls s2 -> exec s (l :: ls) s2.

Definition events (ls : list label) : nat := length (List.filter event ls).

(** The node only works when something happens.  In every execution, of any
    interleaving, the number of steps is bounded by the work pending at the start
    plus eight for each event (a call of Listen or Stop, or an act of a peer or
    of the transport): there is no loop in which the node runs by itself, and
    between two events it comes to rest. *)
Lemma node_work_bounded s ls s' :
  exec s ls s' -> length ls + work s' <= work s + 8 * events ls.
Proof.
  induction 1 as [s|s l s1 ls s2 Hst _ IH]; [cbn; lia|].
  apply step_work in Hst. unfold events in *. cbn. destruct (event l); cbn; lia.
Qed.

Lemma node_work_bounded_witness :
  let s := with_threads (set_started NewNode) [Listen_bind] in
  length [Call; Tau] + work s <= work NewNode + 8 * events [Call; Tau].
Proof.
  apply (node_work_bounded NewNode [Call; Tau]).
  eapply exec_cons; [apply call_Listen|].
  eapply exec_cons; [|apply exec_nil].
  apply (head_step _ Listen_call _ (set_started (with_threads NewNode [Listen_call])) [Listen_bind] []);
    [reflexivity|]. act_rule listen_start. reflexivity.
Defined.

(** ** Progress *)

(** The node's own steps, and those plus the returns of agents. *)
Definition own_step (s s' : node) : Prop := exists l, own l = true /\ step s l s'.
Definition progress (s s' : node) : Prop :=
  exists l, own l || (match l with AgentReturns => true | _ => false end) = true /\ step s l s'.

Lemma own_progress s s' : own_step s s' -> progress s s'.
Proof. intros (l & Hl & Hs). exists l. by rewrite Hl. Qed.

Lemma progress_work s s' : progress s s' -> work s' < work s.
Proof. intros (l & Hl & Hs%step_work). destruct l; cbn in *; done || lia. Qed.

(** A thread that can take a step of the node's own. *)
Definition ready (s : node) (t : thread) : bool :=
  match t with
  | Stop_closed => wg s =? 0
  | Accept_loop => cancelled s || bool_decide (listener s = Some false)
  | Conn_start _ | Conn_loop _ => cancelled s
  | Conn_hello _ | Op_agent _ => false
  | Op_recv c => bool_decide (c ∈ closed s)
  | _ => true
  end.

Lemma ready_act s t : ready s t = true -> exists l s' ts, own l = true /\ act s t l s' ts.
Proof.
  destruct t; cbn; intros H; zbool; try done.
  - destruct (started s || stopped s) eqn:E; eexists _, _, _;
      (split; [|first [act_rule listen_refused; done | act_rule listen_start; done]]); done.
  - eexists Tau, _, _. split; [done|]. act_rule listen_binds.
  - eexists Tau, _, _. split; [done|]. act_rule listen_assigns.
  - eexists Tau, _, _. split; [done|]. act_rule listen_adds.
  - eexists _, _, _. split; [|act_rule listen_spawns]. done.
  - destruct (stopped s) eqn:E; eexists _, _, _;
      (split; [|first [act_rule stop_again; done | act_rule stop_flags; done]]); done.
  - eexists Tau, _, _. split; [done|]. act_rule stop_cancels.
  - eexists Tau, _, _. split; [done|]. act_rule stop_closes.
  - eexists _, _, _. split; [|act_rule stop_waits; done]. done.
  - eexists Tau, _, _. split; [done|]. act_rule accept_cancelled.
    apply orb_true_iff in H as [H|H]; zbool; auto.
  - eexists Tau, _, _. split; [done|]. act_rule accept_adds.
  - eexists Tau, _, _. split; [done|]. act_rule accept_spawns.
  - eexists Tau, _, _. split; [done|]. act_rule accept_done.
  - eexists Tau, _, _. split; [done|]. by act_rule conn_control_cancelled.
  - eexists Tau, _, _. split; [done|]. by act_rule conn_accept_cancelled.
  - eexists Tau, _, _. split; [done|]. act_rule conn_adds.
  - eexists Tau, _, _. split; [done|]. act_rule conn_spawns.
  - eexists Tau, _, _. split; [done|]. act_rule conn_closes.
  - eexists Tau, _, _. split; [done|]. act_rule conn_done.
  - eexists Tau, _, _. split; [done|]. by act_rule op_recv_closed.
  - eexists Tau, _, _. split; [done|]. act_rule op_done.
Qed.

Lemma ready_step s t : t ∈ threads s -> ready s t = true -> exists s', own_step s s'.
Proof.
  intros (pre & post & E)%list_elem_of_split (l & s' & ts & Hl & Ha)%ready_act.
  eexists _, l. split; [done|]. by eapply thread_moves.
Qed.

(** ** Invariants of a stopping node *)

(** A stopped node is cancelled, or its Stop is about to cancel it. *)
Definition inv_cancel (s : node) : Prop :=
  stopped s = true -> cancelled s = true \/ Stop_flagged ∈ threads s.

Lemma act_cancel s t l s' ts :
  act s t l s' ts -> stopped s' = true ->
  cancelled s' = true \/ Stop_flagged ∈ ts \/
  (stopped s = true /\ t <> Stop_flagged /\ cancelled s' = cancelled s).
Proof. intros H. act_cases H; cbn; intros Hs; auto; right; left; set_solver. Qed.

Lemma step_inv_cancel s l s' : inv_cancel s -> step s l s' -> inv_cancel s'.
Proof.
  unfold inv_cancel. intros Hi H. destruct H as [s|s|s t l s1 ts pre post Hts Ha]; cbn.
  1,2: intros Hs; destruct (Hi Hs); [by left|right; set_solver].
  intros Hs. destruct (act_cancel _ _ _ _ _ Ha Hs) as [?|[?|(Hs0 & Hne & ->)]];
    [by left|right; set_solver|].
  destruct (Hi Hs0) as [?|Hf]; [by left|right]. rewrite Hts in Hf. set_solver.
Qed.

(** An operation whose connection is open has a handleConn that serves it. *)
Definition op_of (c : nat) (t : thread) : Prop := t = Op_recv c \/ t = Op_agent c.
Definition serves (c : nat) (t : thread) : Prop :=
  t = Conn_loop c \/ t = Conn_got c \/ t = Conn_added c \/ t = Conn_exit c.

Definition inv_ops (s : node) : Prop :=
  forall c t, t ∈ threads s -> op_of c t ->
  c ∈ closed s \/ exists t', t' ∈ threads s /\ serves c t'.

Lemma act_closed s t l s' ts c : act s t l s' ts -> c ∈ closed s -> c ∈ closed s'.
Proof. intros H Hc. act_cases H; cbn; set_solver. Qed.

Lemma act_serves s t l s' ts c :
  act s t l s' ts -> serves c t -> c ∈ closed s' \/ exists t', t' ∈ ts /\ serves c t'.
Proof.
  unfold serves. intros H [->|[->|[->| ->]]];
    destruct H as [H|[H|[H|[H|H]]]]; inversion H; subst; cbn;
    first [left; set_solver | right; eexists; split; [apply list_elem_of_here|by auto]].
Qed.

Lemma act_op_of s t l s' ts c t' :
  act s t l s' ts -> t' ∈ ts -> op_of c t' -> op_of c t \/ exists t'', t'' ∈ ts /\ serves c t''.
Proof.
  unfold op_of, serves. intros H Ht' Hop. act_cases H; set_unfold; naive_solver.
Qed.

Lemma step_inv_ops s l s' : inv_ops s -> step s l s' -> inv_ops s'.
Proof.
  unfold inv_ops. intros Hi H. destruct H as [s|s|s t l s1 ts pre post Hts Ha]; cbn; intros c t'.
  1,2: intros [->|Ht]%elem_of_cons Hop; [by destruct Hop|];
    destruct (Hi c t' Ht Hop) as [?|(t1 & ? & ?)]; [by left|right; exists t1; set_solver].
  intros Ht' Hop.
  assert ((exists t0, t0 ∈ threads s /\ op_of c t0) \/ exists t1, t1 ∈ ts /\ serves c t1)
    as [(t0 & Ht0 & Hop0)|(t1 & ? & ?)]; [|clear Ht' Hop|right; exists t1; set_solver].
  { rewrite !elem_of_app in Ht'. rewrite Hts. destruct Ht' as [?|[Ht'|?]].
    - left. exists t'. set_solver.
    - destruct (act_op_of _ _ _ _ _ _ _ Ha Ht' Hop) as [?|?]; [left; exists t; set_solver|by right].
    - left. exists t'. set_solver. }
  destruct (Hi c t0 Ht0 Hop0) as [Hc|(t1 & Ht1 & Hs1)]; [left; by eapply act_closed|].
  rewrite Hts, elem_of_app, elem_of_cons in Ht1. destruct Ht1 as [?|[->|?]].
  - right. exists t1. set_solver.
  - destruct (act_serves _ _ _ _ _ _ Ha Hs1) as [?|(t2 & ? & ?)]; [by left|right; exists t2; set_solver].
  - right. exists t1. set_solver.
Qed.

Lemma node_reachable_inv_cancel s : node_reachable s -> inv_cancel s.
Proof. by apply (reachable_invariant inv_cancel); [|exact step_inv_cancel]. Qed.

Lemma node_reachable_inv_ops s : node_reachable s -> inv_ops s.
Proof.
  apply (reachable_invariant inv_ops); [|exact step_inv_ops].
  intros c t Ht. by apply elem_of_nil in Ht.
Qed.

Lemma reachable_step s l s' : node_reachable s -> step s l s' -> node_reachable s'.
Proof. intros H Hs. eapply rtc_r; [exact H|]. by exists l. Qed.

(** A Stop is never undone. *)
Lemma step_stopped s l s' : step s l s' -> stopped s = true -> stopped s' = true.
Proof.
  intros H. destruct H as [s|s|s t l s1 ts pre post Hts Ha]; cbn; [done|done|].
  by apply act_stopped in Ha as [? _].
Qed.

(** ** What is left when nothing can move *)

(** Nothing of the node's own can be done: whoever is left is in a handshake,
    in an agent, or is a Stop that waits for one of those; and every connection
    under a running agent is closed. *)
Lemma stopped_at_rest s :
  node_reachable s -> stopped s = true -> Forall (fun t => ready s t = false) (threads s) ->
  forall t, t ∈ threads s ->
    (exists c, t = Conn_hello c) \/ (exists c, t = Op_agent c /\ c ∈ closed s) \/
    (t = Stop_closed /\ wg s <> 0).
Proof.
  intros Hr Hs Hn. rewrite Forall_forall in Hn.
  assert (cancelled s = true) as Hc.
  { destruct (node_reachable_inv_cancel s Hr Hs) as [|Hf]; [done|]. by apply Hn in Hf. }
  assert (forall c t, t ∈ threads s -> op_of c t -> c ∈ closed s) as Hops.
  { intros c t Ht Hop. destruct (node_reachable_inv_ops s Hr c t Ht Hop) as [|(t' & Ht' & Hv)]; [done|].
    apply Hn in Ht'. destruct Hv as [->|[->|[->| ->]]]; cbn in Ht'; congruence. }
  intros t Ht. pose proof (Hn t Ht) as Hnt. destruct t; cbn in Hnt;
    rewrite ?Hc in Hnt; cbn in Hnt; try congruence; zbool; eauto.
  - destruct Hnt. by eapply Hops; [|left].
  - right; left. eexists. split; [done|]. by eapply Hops; [|right].
Qed.

Lemma count_pos f ts : 0 < count f ts -> exists t, t ∈ ts /\ 0 < f t.
Proof.
  induction ts as [|t ts IH]; [cbn; lia|]. rewrite count_cons. intros H.
  destruct (decide (0 < f t)); [exists t; set_solver|].
  destruct IH as (t' & ? & ?); [lia|]. exists t'. set_solver.
Qed.

(** A handshake in progress. *)
Definition in_handshake (t : thread) : Prop := exists c, t = Conn_hello c.

Lemma act_no_handshake s t l s' ts :
  act s t l s' ts -> event l = false -> ~ in_handshake t ->
  forall t', t' ∈ ts -> ~ in_handshake t'.
Proof.
  unfold in_handshake. intros H Hl Hn t' Ht' [c ->].
  act_cases H; cbn in Hl; set_unfold; naive_solver.
Qed.

Lemma progress_no_handshake s s' :
  progress s s' -> (forall t, t ∈ threads s -> ~ in_handshake t) ->
  forall t, t ∈ threads s' -> ~ in_handshake t.
Proof.
  intros (l & Hl & H) Hn. assert (event l = false) as He by (by destruct l).
  destruct H as [s|s|s t l s1 ts pre post Hts Ha]; [done|done|]. cbn. intros t'.
  rewrite !elem_of_app. rewrite Hts in Hn.
  intros [?|[?|?]]; [apply Hn; set_solver| |apply Hn; set_solver].
  eapply act_no_handshake; [done..| |done]. apply Hn. set_solver.
Qed.

(** The node can move by itself or every thread waits for somebody else. *)
Lemma own_or_rest s :
  (exists s', own_step s s') \/ Forall (fun t => ready s t = false) (threads s).
Proof.
  destruct (Forall_Exists_dec (fun t => ready s t = false) (fun t => ready s t = true)
    (fun t => match ready s t as b return {b = false} + {b = true} with
              | false => left eq_refl | true => right eq_refl end) (threads s))
    as [?|(t & Ht & Hr)%Exists_exists]; [by right|left; by eapply ready_step].
Qed.

Lemma progress_reachable s s' : progress s s' -> node_reachable s -> node_reachable s'.
Proof. intros (l & _ & H) Hr. by eapply reachable_step. Qed.

Lemma progress_stopped s s' : progress s s' -> stopped s = true -> stopped s' = true.
Proof. intros (l & _ & H). by eapply step_stopped. Qed.

(** Stop completes.  Once Stop has been called on a node that has no
    handshake in progress, then however its goroutines are scheduled, and with no
    further event from outside than that the running agents return, after
    finitely many steps every goroutine has ended and every call of Stop and
    Listen has returned; at no point on the way can the node be stuck. *)
Lemma stop_completes s :
  node_reachable s -> stopped s = true -> (forall t, t ∈ threads s -> ~ in_handshake t) ->
  inevitably progress (fun s' => threads s' = []) s.
Proof.
  intros Hr Hs Hh.
  apply (inevitably_by_measure work progress _ (fun s => node_reachable s /\ stopped s = true /\
    forall t, t ∈ threads s -> ~ in_handshake t)); [exact progress_work|..|done].
  - intros s1 s2 (H1 & H2 & H3) Hp. split_and!;
      [by eapply progress_reachable|by eapply progress_stopped|by eapply progress_no_handshake].
  - intros s1 (H1 & H2 & H3). destruct (own_or_rest s1) as [[s2 Ho]|Hn].
    { right. exists s2. by apply own_progress. }
    pose proof (stopped_at_rest s1 H1 H2 Hn) as Hrest.
    pose proof (inv_wg _ (node_reachable_inv s1 H1)) as Hwg.
    destruct (decide (wg s1 = 0)) as [Hz|Hz].
    + left. destruct (threads s1) as [|t ts] eqn:E; [done|]. exfalso.
      destruct (Hrest t) as [Hc|[(c & -> & _)|[-> Hw]]]; [by left|by destruct (H3 t); [left|]| |done].
      rewrite count_cons in Hwg. cbn in Hwg. lia.
    + right. destruct (count_pos holds (threads s1)) as (t & Ht & Hp); [lia|].
      destruct (Hrest t Ht) as [Hc|[(c & -> & _)|[-> _]]]; [by destruct (H3 t Ht)| |cbn in Hp; lia].
      apply list_elem_of_split in Ht as (pre & post & E).
      eexists _, AgentReturns. split; [done|]. eapply thread_moves; [done|]. act_rule op_returns.
Qed.

(** An agent runs on connection 0, and Stop has set its flag. *)
Definition busy : node :=
  mkNode true true false (Some true) 3 1 [] [Stop_flagged; Accept_loop; Conn_loop 0; Op_agent 0].

Lemma busy_reachable : node_reachable busy.
Proof.
  unfold node_reachable, steps, NewNode.
  eapply rtc_l; [eexists; apply call_Listen|cbn].
  run_head listen_start. run_head listen_binds. run_head listen_assigns.
  run_head listen_adds. run_head listen_spawns.
  run_head accept_succeeds. run_head accept_adds. run_head accept_spawns.
  run_at [Accept_loop] conn_control. run_at [Accept_loop] conn_handshakes.
  run_at [Accept_loop] conn_accepts. run_at [Accept_loop] conn_adds. run_at [Accept_loop] conn_spawns.
  run_at [Accept_loop; Conn_loop 0] op_dispatches.
  eapply rtc_l; [eexists; apply call_Stop|cbn].
  run_head stop_flags. apply rtc_refl.
Qed.

Lemma stop_completes_witness :
  inevitably progress (fun s' => threads s' = []) busy.
Proof.
  apply (stop_completes busy).
  - apply busy_reachable.
  - reflexivity.
  - unfold in_handshake. intros t Ht [c ->]. cbn in Ht. set_solver.
Defined.

(** Stop ends the connections of running operations.  Once Stop has been
    called, then however the goroutines are scheduled, with no event from outside
    and while the agents keep running, after finitely many steps of the node the
    connection of every running agent has been closed by this node. *)
Lemma stop_severs_operations s :
  node_reachable s -> stopped s = true ->
  inevitably own_step (fun s' => forall c, Op_agent c ∈ threads s' -> c ∈ closed s') s.
Proof.
  intros Hr Hs.
  apply (inevitably_by_measure work own_step _ (fun s => node_reachable s /\ stopped s = true)); [..|done].
  - intros s1 s2 Ho. by apply progress_work, own_progress.
  - intros s1 s2 [H1 H2] Ho%own_progress. split; [by eapply progress_reachable|by eapply progress_stopped].
  - intros s1 [H1 H2]. destruct (own_or_rest s1) as [Ho|Hn]; [by right|left].
    intros c Ht. destruct (stopped_at_rest s1 H1 H2 Hn _ Ht) as [[c' E]|[(c' & E & ?)|[E _]]]; by simplify_eq.
Qed.

Lemma stop_severs_operations_witness :
  inevitably own_step (fun s' => forall c, Op_agent c ∈ threads s' -> c ∈ closed s') busy.
Proof. apply (stop_severs_operations busy); [apply busy_reachable|reflexivity]. Defined.

(** Stop waits for connection 0, which waits for the peer's HELLO. *)
Definition stalled : node :=
  mkNode true true true (Some false) 1 1 [] [Stop_closed; Conn_hello 0].

(** C38: a peer that stalls in the handshake holds up Stop.  There is a reachable
    state in which a Stop call waits, the only goroutine left reads the HELLO of a
    peer, and nothing can happen until the peer or the transport acts: the
    cancelled context does not reach that read. *)
Theorem stalled_handshake_blocks_stop :
  node_reachable stalled /\ Stop_closed ∈ threads stalled /\ cancelled stalled = true /\
  forall l s, step stalled l s -> event l = true.
Proof.
  split_and!; [|set_solver|done|].
  - unfold node_reachable, steps, NewNode.
    eapply rtc_l; [eexists; apply call_Listen|cbn].
    run_head listen_start. run_head listen_binds. run_head listen_assigns.
    run_head listen_adds. run_head listen_spawns.
    run_head accept_succeeds. run_head accept_adds. run_head accept_spawns.
    run_at [Accept_loop] conn_control.
    eapply rtc_l; [eexists; apply call_Stop|cbn].
    run_head stop_flags. run_head stop_cancels. run_head stop_closes.
    run_at [Stop_closed] accept_cancelled. run_at [Stop_closed] accept_done. apply rtc_refl.
  - intros l s H. inversion H as [| |s0 t l0 s1 ts pre post Hts Ha]; subst; [done..|].
    assert (t ∈ threads stalled) as Ht by (rewrite Hts; set_solver).
    cbn in Ht. rewrite !elem_of_cons in Ht. destruct Ht as [->|[->|[]%elem_of_nil]];
      destruct Ha as [Ha|[Ha|[Ha|[Ha|Ha]]]]; inversion Ha; by subst.
Qed.
