(* ===== verification/Serve.v ===== *)
(** * A serving node

    [node.go] as a whole: the transition system of [NodeLife] with the data that
    its threads work on.  Connections are [Conn]s, their handshakes run
    Conn.Handshake against the Verifier of the node's config, operations are
    received, dispatched and handled as handleOperation does, and RegisterAgent
    interleaves with all of it.  A panic in any goroutine ends the process.  A
    log keeps the history that the theorems are about. *)

From Stdlib Require Import Strings.Byte.
From stdpp Require Import base numbers list gmap strings relations.
From S2P Require Import Prelude Machine GoTime GoStrings Varint Frame Stream Capability.
From S2P Require Import Base58 Identity DidWeb Verifier Hello Handshake Conn Dispatch NodeLife NodeStop.
Open Scope Z_scope.

(** ** handleOperation in two parts

    Up to the call of the agent, and from it.  Between the first frame and the
    lookup the code touches no shared state, so the first part is one action,
    at the moment of the lookup under [n.mu]. *)
Definition op_dispatch (agents : agent_table) (op : Operation)
    : go (option (Agent * Invoke)) * Operation :=
  match Operation_Recv op with
  | (Err _, op) => (Ok None, op)
  | (Panic p, op) => (Panic p, op)
  | (Ok f, op) =>
      if negb (bool_decide (Type_ f = FrameInvoke)) then (Ok None, op) else
      match decodeInvokePayload (Payload f) with
      | Err _ => (Ok None, op)
      | Panic p => (Panic p, op)
      | Ok (agentID, opName, args) =>
          match agents !! agentID with
          | None => (Ok None, op)
          | Some agent => (Ok (Some (agent, mkInvoke agentID opName args (Operation_PeerNodeID op))), op)
          end
      end
  end.

Lemma handleOperation_split agents op :
  handleOperation agents op =
  match op_dispatch agents op with
  | (Ok (Some (agent, inv)), op) =>
      match agent inv op with
      | (Panic p, op) => (Panic p, op)
      | (_, op) => (Ok (Some inv), Operation_Close op)
      end
  | (Ok None, op) => (Ok None, Operation_Close op)
  | (Err e, op) => (Err e, op)
  | (Panic p, op) => (Panic p, op)
  end.
Proof.
  unfold handleOperation, op_dispatch. destruct (Operation_Recv op) as [[f|e|p] op1]; [|done..].
  destruct (negb _); [done|]. destruct (decodeInvokePayload _) as [[[a o] args]|?|?]; [|done..].
  by destruct (agents !! a).
Qed.

(** The Invoke carries the requested ID, the table's agent for it and the
    identity of the connection. *)
Lemma op_dispatch_Some agents op agent inv op' :
  op_dispatch agents op = (Ok (Some (agent, inv)), op') ->
  agents !! inv_AgentID inv = Some agent /\ inv_PeerNodeID inv = Operation_PeerNodeID op.
Proof.
  unfold op_dispatch, Operation_Recv. destruct (RecvFrame (op_stream op)) as [[f|e|p] st]; [|done..].
  destruct (negb (OpID f =? _)); [done|]. destruct (negb _); [done|].
  destruct (decodeInvokePayload _) as [[[a o] args]|?|?]; [|done..].
  destruct (agents !! a) eqn:E; [|done]. by intros [= <- <- <-].
Qed.

Lemma op_dispatch_never_panics agents op op' p : op_dispatch agents op <> (Panic p, op').
Proof.
  unfold op_dispatch, Operation_Recv, RecvFrame.
  pose proof (readFrame_never_panics (st_in (op_stream op))) as Hnp.
  destruct (readFrame _) as [[f|e|q] rd]; cbn [fst] in Hnp; [|done|by destruct (Hnp q)].
  destruct (negb (OpID f =? _)); [done|]. destruct (negb _); [done|].
  pose proof (decodeInvoke_never_panics (Payload f)) as Hd.
  destruct (decodeInvokePayload _) as [[[a o] args]|?|q]; [|done|by destruct (Hd q)].
  by destruct (agents !! a).
Qed.

(** ** State *)

(** A thread of [NodeLife] with what it holds. *)
Inductive dthread : Type :=
| Plain (t : thread)
| Hello_at (c : nat) (e : ends)               (* in runHandshake, on the control stream [e] *)
| Got_op (c : nat) (op : Operation)           (* AcceptOperation returned [op] *)
| Added_op (c : nat) (op : Operation)
| Recv_op (c : nat) (op : Operation)          (* handleOperation(op), at op.Recv *)
| Run_agent (c : nat) (op0 : Operation) (agent : Agent) (inv : Invoke) (op : Operation).
                                              (* in agent.Handle; [op0] as accepted *)

Definition erase_thread (t : dthread) : thread :=
  match t with
  | Plain t => t
  | Hello_at c _ => Conn_hello c
  | Got_op c _ => Conn_got c
  | Added_op c _ => Conn_added c
  | Recv_op c _ => Op_recv c
  | Run_agent c _ _ _ _ => Op_agent c
  end.

(** What happened, latest first.  A handshake is logged with what it took from
    its surroundings, the control stream, the Verifier it found and its
    result. *)
Inductive history : Type :=
| EvRegister (id : bytes) (agent : Agent)
| EvHandshake (c : nat) (env : henv) (e : ends) (v : option Verifier) (r : go HandshakeState)
| EvCall (c : nat) (agent : Agent) (inv : Invoke)
| EvFinished (c : nat) (op0 : Operation) (inv : option Invoke) (op : Operation).

(** The fields of Node and the connections it serves.  The threads are
    [sv_threads]; those of [sv_node] are not used.  [sv_crashed] is the panic
    that ended the process. *)
Record server := mkServer {
  sv_node : node;
  sv_threads : list dthread;
  sv_agents : agent_table;
  sv_verifier : option Verifier;
  sv_conns : gmap nat Conn;
  sv_log : list history;
  sv_crashed : option panic;
}.

Definition erase (s : server) : node := with_threads (sv_node s) (erase_thread <$> sv_threads s).

Definition sv_set_threads (s : server) (ts : list dthread) : server :=
  mkServer (sv_node s) ts (sv_agents s) (sv_verifier s) (sv_conns s) (sv_log s) (sv_crashed s).
Definition sv_set_node (s : server) (n : node) : server :=
  mkServer n (sv_threads s) (sv_agents s) (sv_verifier s) (sv_conns s) (sv_log s) (sv_crashed s).
Definition sv_set_conn (c : nat) (conn : Conn) (s : server) : server :=
  mkServer (sv_node s) (sv_threads s) (sv_agents s) (sv_verifier s) (<[c := conn]> (sv_conns s))
    (sv_log s) (sv_crashed s).
Definition sv_set_verifier (v : option Verifier) (s : server) : server :=
  mkServer (sv_node s) (sv_threads s) (sv_agents s) v (sv_conns s) (sv_log s) (sv_crashed s).
Definition sv_set_agents (a : agent_table) (s : server) : server :=
  mkServer (sv_node s) (sv_threads s) a (sv_verifier s) (sv_conns s) (sv_log s) (sv_crashed s).
Definition log_event (ev : history) (s : server) : server :=
  mkServer (sv_node s) (sv_threads s) (sv_agents s) (sv_verifier s) (sv_conns s) (ev :: sv_log s)
    (sv_crashed s).
Definition crash (p : panic) (s : server) : server :=
  mkServer (sv_node s) (sv_threads s) (sv_agents s) (sv_verifier s) (sv_conns s) (sv_log s) (Some p).

(** ** Steps *)

Section Serve.
Context `{HE : Ed25519} `{HN : NetEnv} `{HQ : Quic}.
Context (cfg : NodeConfig).

(** NewNode(cfg). *)
Definition NewServer : server := mkServer NewNode [] ∅ (cfg_Verifier cfg) ∅ [] None.

(** [n.cfg], with the present contents of the Verifier it points to. *)
Definition config (s : server) : NodeConfig :=
  mkConfig (cfg_Signer cfg) (sv_verifier s) (cfg_Capabilities cfg).

(** Listen, Stop and acceptLoop: as in [NodeLife]; an accepted connection is a
    new Conn. *)
Inductive serve_act (s : server) : dthread -> label -> server -> list dthread -> Prop :=
| serve_Listen t l n ts : Listen_act (sv_node s) t l n ts ->
    serve_act s (Plain t) l (sv_set_node s n) (Plain <$> ts)
| serve_Stop t l n ts : Stop_act (sv_node s) t l n ts ->
    serve_act s (Plain t) l (sv_set_node s n) (Plain <$> ts)
| serve_acceptLoop t l n ts : acceptLoop_act (sv_node s) t l n ts -> accepted n = accepted (sv_node s) ->
    serve_act s (Plain t) l (sv_set_node s n) (Plain <$> ts)
| serve_accepts :
    let c := accepted (sv_node s) in
    serve_act s (Plain Accept_loop) Peer
      (sv_set_conn c (new_conn false) (sv_set_node s (new_connection (sv_node s))))
      [Plain (Accept_got c)].

(** handleConn.  The control stream is accepted under [n.ctx]; Conn.Handshake
    ends when the peer's first frame is there, or the stream's error.  Its step is
    at the moment at which it takes effect on the Verifier.  It read the clock
    before that, so the reading [he_Clock env] may be older than those of
    handshakes that took effect earlier: nothing relates the readings of
    different handshakes here. *)
Inductive serve_conn (s : server) : dthread -> label -> server -> list dthread -> Prop :=
| serve_control_fails c l env e conn e' conn' w :
    l = Peer \/ (l = Tau /\ cancelled (sv_node s) = true) -> sv_conns s !! c = Some conn ->
    Conn_Handshake env (Err e) (config s) conn = (Err e', conn', w) ->
    serve_conn s (Plain (Conn_start c)) l
      (sv_set_conn c conn' (sv_set_node s (close_conn c (sv_node s)))) [Plain (Conn_exit c)]
| serve_control c e : serve_conn s (Plain (Conn_start c)) Peer s [Hello_at c e]
| serve_handshake_fails c env e conn err conn' w :
    env_sound env = true -> sv_conns s !! c = Some conn ->
    Conn_Handshake env (Ok e) (config s) conn = (Err err, conn', w) ->
    serve_conn s (Hello_at c e) Peer
      (log_event (EvHandshake c env e (sv_verifier s) (Err err))
         (sv_set_conn c conn' (sv_set_verifier w (sv_set_node s (close_conn c (sv_node s))))))
      [Plain (Conn_exit c)]
| serve_handshakes c env e conn st conn' w :
    env_sound env = true -> sv_conns s !! c = Some conn ->
    Conn_Handshake env (Ok e) (config s) conn = (Ok st, conn', w) ->
    serve_conn s (Hello_at c e) Peer
      (log_event (EvHandshake c env e (sv_verifier s) (Ok st))
         (sv_set_conn c conn' (sv_set_verifier w s)))
      [Plain (Conn_loop c)]
| serve_accept_fails c l e conn e' conn' :
    l = Peer \/ (l = Tau /\ cancelled (sv_node s) = true) -> sv_conns s !! c = Some conn ->
    AcceptOperation (Err e) conn = (Err e', conn') ->
    serve_conn s (Plain (Conn_loop c)) l (sv_set_conn c conn' s) [Plain (Conn_exit c)]
| serve_accepts_op c e conn op conn' :
    sv_conns s !! c = Some conn -> AcceptOperation (Ok e) conn = (Ok op, conn') ->
    serve_conn s (Plain (Conn_loop c)) Peer (sv_set_conn c conn' s) [Got_op c op]
| serve_op_adds c op :
    serve_conn s (Got_op c op) Tau (sv_set_node s (wg_add (sv_node s))) [Added_op c op]
| serve_op_spawns c op :
    serve_conn s (Added_op c op) Tau s [Plain (Conn_loop c); Recv_op c op]
| serve_conn_closes c conn : sv_conns s !! c = Some conn ->
    serve_conn s (Plain (Conn_exit c)) Tau
      (sv_set_conn c (Conn_Close conn) (sv_set_node s (close_conn c (sv_node s)))) [Plain (Conn_closed c)]
| serve_conn_done c :
    serve_conn s (Plain (Conn_closed c)) Tau (sv_set_node s (wg_done (sv_node s))) [].

(** handleOperation and the goroutine around it. *)
Inductive serve_op (s : server) : dthread -> label -> server -> list dthread -> Prop :=
| serve_recv_closed c op : c ∈ closed (sv_node s) ->
    serve_op s (Recv_op c op) Tau s [Plain (Op_exit c)]
| serve_ignores c op op' : op_dispatch (sv_agents s) op = (Ok None, op') ->
    serve_op s (Recv_op c op) Peer (log_event (EvFinished c op None (Operation_Close op')) s)
      [Plain (Op_exit c)]
| serve_dispatches c op agent inv op' :
    op_dispatch (sv_agents s) op = (Ok (Some (agent, inv)), op') ->
    serve_op s (Recv_op c op) Peer (log_event (EvCall c agent inv) s) [Run_agent c op agent inv op']
| serve_returns c op0 agent inv op r op' : agent inv op = (r, op') -> panics r = false ->
    serve_op s (Run_agent c op0 agent inv op) AgentReturns
      (log_event (EvFinished c op0 (Some inv) (Operation_Close op')) s) [Plain (Op_exit c)]
| serve_op_done c :
    serve_op s (Plain (Op_exit c)) Tau (sv_set_node s (wg_done (sv_node s))) [].

Definition sact (s : server) (t : dthread) (l : label) (s' : server) (ts : list dthread) : Prop :=
  serve_act s t l s' ts \/ serve_conn s t l s' ts \/ serve_op s t l s' ts.

(** The panics. *)
Inductive serve_panics (s : server) : dthread -> label -> panic -> Prop :=
| panic_handshake c env e conn conn' w p : env_sound env = true -> sv_conns s !! c = Some conn ->
    Conn_Handshake env (Ok e) (config s) conn = (Panic p, conn', w) -> serve_panics s (Hello_at c e) Peer p
| panic_dispatch c op op' p : op_dispatch (sv_agents s) op = (Panic p, op') ->
    serve_panics s (Recv_op c op) Peer p
| panic_agent c op0 agent inv op op' p : agent inv op = (Panic p, op') ->
    serve_panics s (Run_agent c op0 agent inv op) AgentReturns p.

Inductive sstep : server -> label -> server -> Prop :=
| serve_call_Listen s : sv_crashed s = None ->
    sstep s Call (sv_set_threads s (Plain Listen_call :: sv_threads s))
| serve_call_Stop s : sv_crashed s = None ->
    sstep s Call (sv_set_threads s (Plain Stop_call :: sv_threads s))
| serve_RegisterAgent s id agent agents :
    sv_crashed s = None -> RegisterAgent id (Some agent) (sv_agents s) = (Ok tt, agents) ->
    sstep s Call (log_event (EvRegister id agent) (sv_set_agents agents s))
| serve_RegisterAgent_fails s id a e agents :
    sv_crashed s = None -> RegisterAgent id a (sv_agents s) = (Err e, agents) ->
    sstep s Call (sv_set_agents agents s)
| serve_moves s t l s' ts pre post :
    sv_crashed s = None -> sv_threads s = pre ++ t :: post -> sact s t l s' ts ->
    sstep s l (sv_set_threads s' (pre ++ ts ++ post))
| serve_crashes s t l p pre post :
    sv_crashed s = None -> sv_threads s = pre ++ t :: post -> serve_panics s t l p ->
    sstep s l (crash p s).

Definition ssteps : server -> server -> Prop := rtc (fun s s' => exists l, sstep s l s').
Definition served (s : server) : Prop := ssteps NewServer s.

Lemma served_invariant (P : server -> Prop) :
  P NewServer -> (forall s l s', P s -> sstep s l s' -> P s') -> forall s, served s -> P s.
Proof.
  intros H0 Hs s H. unfold served, ssteps in H. remember NewServer as s0 eqn:E. clear E.
  induction H as [s|s1 s2 s3 [l Hst] _ IH]; [done|]. apply IH. by eapply Hs.
Qed.
End Serve.

(** ** Refinement of NodeLife *)

Lemma act_threads n t l n' ts x :
  act n t l n' ts -> act (with_threads n x) t l (with_threads n' x) ts.
Proof.
  intros [H|[H|[H|[H|H]]]]; unfold act.
  - left. destruct H; by constructor.
  - right; left. destruct H; by constructor.
  - do 2 right; left. destruct H; try by constructor. exact (accept_succeeds (with_threads n x)).
  - do 3 right; left. destruct H; by constructor.
  - do 4 right. destruct H; by constructor.
Qed.

Section Refinement.
Context `{HE : Ed25519} `{HN : NetEnv} `{HQ : Quic}.
Context (cfg : NodeConfig).

Lemma sact_crashed s t l s' ts : sact cfg s t l s' ts -> sv_crashed s' = sv_crashed s.
Proof. by intros [H|[H|H]]; destruct H. Qed.

Lemma fmap_Plain (ts : list thread) : erase_thread <$> (Plain <$> ts) = ts.
Proof. induction ts as [|t ts IH]; [done|]. cbn in *. by f_equal. Qed.

Lemma sact_erase s t l s' ts :
  sact cfg s t l s' ts -> act (sv_node s) (erase_thread t) l (sv_node s') (erase_thread <$> ts).
Proof.
  intros [H|[H|H]].
  - destruct H; cbn [erase_thread sv_node sv_set_node sv_set_conn]; rewrite ?fmap_Plain; unfold act;
      [by left|by right; left|by right; right; left|right; right; left; apply accept_succeeds].
  - destruct H; try (destruct H as [->|[-> ?]]);
      cbn [erase_thread sv_node sv_set_node sv_set_conn sv_set_verifier log_event fmap list_fmap];
      unfold act; do 3 right; left; by constructor.
  - destruct H; cbn [erase_thread sv_node sv_set_node log_event fmap list_fmap];
      unfold act; do 4 right; by constructor.
Qed.

Lemma sstep_erase s l s' :
  sstep cfg s l s' -> sv_crashed s' = None ->
  (l = Call /\ erase s' = erase s) \/ step (erase s) l (erase s').
Proof.
  intros H Hc. destruct H as [s|s|s id a tbl ? ?|s id a e tbl ? ?|s t l s' ts pre post ? Ht Ha|s t l p pre post]; [..|done].
  - right. apply (call_Listen (erase s)).
  - right. apply (call_Stop (erase s)).
  - by left.
  - by left.
  - right. apply sact_erase in Ha.
    apply (act_threads _ _ _ _ _ (erase_thread <$> sv_threads s)) in Ha.
    apply (thread_moves (erase s) _ _ _ _ (erase_thread <$> pre) (erase_thread <$> post)) in Ha.
    + unfold erase at 2. cbn [sv_node sv_threads sv_set_threads]. by rewrite !fmap_app.
    + unfold erase. cbn [with_threads threads]. by rewrite Ht, fmap_app.
Qed.

Lemma sstep_was_up s l s' : sstep cfg s l s' -> sv_crashed s = None.
Proof. by destruct 1. Qed.

Lemma served_erase s : served cfg s -> sv_crashed s = None -> node_reachable (erase s).
Proof.
  apply (served_invariant cfg (fun s => sv_crashed s = None -> node_reachable (erase s))).
  - intros _. apply rtc_refl.
  - intros s1 l s2 IH Hst Hc. specialize (IH (sstep_was_up _ _ _ Hst)).
    destruct (sstep_erase _ _ _ Hst Hc) as [[_ ->]|Hn]; [done|].
    eapply rtc_r; [done|]. by exists l.
Qed.

(** Every thread that works for a connection finds it, and the threads of the
    five kinds that hold data are never plain. *)
Definition conn_no (t : thread) : option nat :=
  match t with
  | Accept_got c | Accept_added c | Conn_start c | Conn_hello c | Conn_loop c | Conn_got c
  | Conn_added c | Conn_exit c | Conn_closed c | Op_recv c | Op_agent c | Op_exit c => Some c
  | _ => None
  end.

Definition dataless (t : dthread) : bool :=
  match t with
  | Plain (Conn_hello _ | Conn_got _ | Conn_added _ | Op_recv _ | Op_agent _) => false
  | _ => true
  end.

Definition thread_wf (s : server) (t : dthread) : Prop :=
  dataless t = true /\ forall c, conn_no (erase_thread t) = Some c -> is_Some (sv_conns s !! c).

Definition threads_wf (s : server) : Prop := Forall (thread_wf s) (sv_threads s).

Lemma insert_known (m : gmap nat Conn) c c' conn : is_Some (m !! c) -> is_Some (<[c' := conn]> m !! c).
Proof. intros. rewrite lookup_insert_is_Some'. auto. Qed.

Lemma sact_conns s t l s' ts :
  sact cfg s t l s' ts -> forall c, is_Some (sv_conns s !! c) -> is_Some (sv_conns s' !! c).
Proof. intros [H|[H|H]]; destruct H; cbn; auto using insert_known. Qed.

Lemma sact_threads_wf s t l s' ts : sact cfg s t l s' ts -> thread_wf s t -> Forall (thread_wf s') ts.
Proof.
  intros Ha [_ Hw]. apply Forall_forall. intros t' Ht'. pose proof (sact_conns _ _ _ _ _ Ha) as Hm.
  enough (dataless t' = true /\ forall c, conn_no (erase_thread t') = Some c ->
    conn_no (erase_thread t) = Some c \/ is_Some (sv_conns s' !! c)) as [Hd Hc].
  { split; [done|]. intros c E. destruct (Hc c E); auto. }
  revert Ht'. clear Hw Hm. destruct Ha as [H|[H|H]].
  - destruct H as [t l n ts Ha|t l n ts Ha|t l n ts Ha Hn|].
    1,2,3: intros (t0 & -> & Ht0)%list_elem_of_fmap; revert Ht0; destruct Ha;
      cbn in *; try lia; rewrite ?elem_of_cons, elem_of_nil; naive_solver.
    intros ->%list_elem_of_singleton. split; [done|]. intros c' [= <-]. right.
    cbn. rewrite lookup_insert_is_Some'. auto.
  - destruct H; cbn; rewrite ?elem_of_cons, elem_of_nil; naive_solver.
  - destruct H; cbn; rewrite ?elem_of_cons, elem_of_nil; naive_solver.
Qed.

Lemma sstep_threads_wf s l s' : threads_wf s -> sstep cfg s l s' -> threads_wf s'.
Proof.
  unfold threads_wf. intros Hi H.
  destruct H as [s|s|s id a tbl ? ?|s id a e tbl ? ?|s t l s' ts pre post ? Ht Ha|s t l p pre post];
    try exact Hi; [by apply Forall_cons_2; [split|exact Hi]..|]. cbn. rewrite Ht in Hi.
  apply Forall_app in Hi as [H1 [H2 H3]%Forall_cons].
  assert (forall t, thread_wf s t -> thread_wf s' t) as Hm.
  { intros t' [? ?]. split; [done|]. intros c E. eapply sact_conns; eauto. }
  apply Forall_app. split; [by eapply Forall_impl|]. apply Forall_app.
  split; [exact (sact_threads_wf _ _ _ _ _ Ha H2)|by eapply Forall_impl].
Qed.

Lemma served_threads_wf s : served cfg s -> threads_wf s.
Proof. apply (served_invariant cfg threads_wf); [apply Forall_nil_2|exact sstep_threads_wf]. Qed.

(** Conversely, what [NodeLife] can do by itself or when an agent returns the
    node can do, and only an agent's panic ends in anything else. *)
Lemma Handshake_control_fails env e local conn :
  exists e' conn' w, Conn_Handshake env (Err e) local conn = (Err e', conn', w).
Proof.
  unfold Conn_Handshake, OpenStreamSync, qc_AcceptStream.
  destruct (state conn), (isClient conn); eauto.
Qed.

Lemma AcceptOperation_fails e conn : exists e' conn', AcceptOperation (Err e) conn = (Err e', conn').
Proof. unfold AcceptOperation, AcceptStream, qc_AcceptStream. destruct (state conn); cbn; eauto. Qed.

Definition own_or_agent (l : label) : bool :=
  own l || match l with AgentReturns => true | _ => false end.

Lemma sact_progress s t l n ts :
  thread_wf s t -> act (sv_node s) (erase_thread t) l n ts -> own_or_agent l = true ->
  (exists s' ts', sact cfg s t l s' ts') \/ (exists p, serve_panics cfg s t l p).
Proof.
  intros [Hd Hc] H Hl. destruct t as [t|c e|c op|c op|c op|c op0 agent inv op]; cbn [erase_thread] in *.
  - left. destruct H as [H|[H|[H|[H|H]]]].
    + eexists _, _. left. by apply serve_Listen.
    + eexists _, _. left. by apply serve_Stop.
    + eexists _, _. left. eapply serve_acceptLoop; [done|]. by destruct H.
    + destruct H as [c|c|c|c|c|c|c|c|c|c|c|c]; cbn in Hd, Hl; try done;
        destruct (Hc c eq_refl) as [conn Hconn].
      * destruct (Handshake_control_fails (mkEnv (Err EOF) (Err EOF) 0 0) EOF (config cfg s) conn)
          as (e' & conn' & w & E).
        eexists _, _. right; left. eapply serve_control_fails; eauto.
      * destruct (AcceptOperation_fails EOF conn) as (e' & conn' & E).
        eexists _, _. right; left. eapply serve_accept_fails; eauto.
      * eexists _, _. right; left. by eapply serve_conn_closes.
      * eexists _, _. right; left. apply serve_conn_done.
    + destruct H; cbn in Hd, Hl; try done. eexists _, _. right; right. apply serve_op_done.
  - by destruct H as [H|[H|[H|[H|H]]]]; inversion H; subst.
  - left. destruct H as [H|[H|[H|[H|H]]]]; inversion H; subst. eexists _, _. right; left. apply serve_op_adds.
  - left. destruct H as [H|[H|[H|[H|H]]]]; inversion H; subst. eexists _, _. right; left. apply serve_op_spawns.
  - left. destruct H as [H|[H|[H|[H|H]]]]; inversion H; subst; try done.
    eexists _, _. right; right. by apply serve_recv_closed.
  - destruct H as [H|[H|[H|[H|H]]]]; inversion H; subst.
    destruct (agent inv op) as [r op'] eqn:E. destruct (panics r) eqn:Ep.
    + right. destruct r; try done. eexists. by eapply panic_agent.
    + left. eexists _, _. right; right. by eapply serve_returns.
Qed.

Lemma with_threads_id n x : with_threads (with_threads n x) (threads n) = n.
Proof. by destruct n. Qed.

Lemma sstep_progress s l n :
  threads_wf s -> sv_crashed s = None -> own_or_agent l = true -> step (erase s) l n ->
  exists s', sstep cfg s l s'.
Proof.
  intros Hw Hup Hl H. remember (erase s) as n0 eqn:E. destruct H as [n0|n0|n0 t l n1 ts pre post Ht Ha]; [done..|].
  subst n0. cbn [erase threads with_threads] in Ht.
  apply fmap_app_inv in Ht as (pre' & rest & -> & Hrest & Ht).
  destruct rest as [|t' post']; [done|]. cbn in Hrest. simplify_eq.
  apply (act_threads _ _ _ _ _ (threads (sv_node s))) in Ha. unfold erase in Ha. rewrite with_threads_id in Ha.
  unfold threads_wf in Hw. rewrite Ht in Hw. apply Forall_app in Hw as [_ [Hwt _]%Forall_cons].
  destruct (sact_progress _ _ _ _ _ Hwt Ha Hl) as [(s' & ts' & Hs)|[p Hp]].
  - eexists. by eapply serve_moves.
  - eexists. by eapply serve_crashes.
Qed.
End Refinement.
