(* ===== verification/ServeRun.v ===== *)
(** * Schedules of a serving node

    An executable scheduler for the transition system of [Serve], sound for its
    steps, and the runs that the witnesses use. *)

From Stdlib Require Import Strings.Byte.
From stdpp Require Import base numbers list gmap strings relations.
From S2P Require Import Prelude Machine GoTime GoStrings Varint Frame Stream Capability.
From S2P Require Import Base58 Identity DidWeb Verifier Hello Handshake HandshakeConc Conn Dispatch NodeLife NodeStop.
From S2P Require Import Serve.
Open Scope Z_scope.

(** What happens next: a call, or a move of the [i]-th thread, with what it takes
    from outside. *)
Inductive choice : Type :=
| DoListen
| DoStop
| DoRegister (id : bytes) (agent : Agent)
| DoGo (i : nat)                  (* the thread goes on by itself *)
| DoAccept (i : nat)              (* the listener accepts a connection *)
| DoControl (i : nat) (e : ends)  (* the control stream arrives *)
| DoHello (i : nat) (env : henv)  (* the handshake runs *)
| DoOp (i : nat) (e : ends)       (* an operation stream arrives *)
| DoDispatch (i : nat)            (* the first frame of an operation arrives *)
| DoReturn (i : nat).             (* an agent returns *)

Section Run.
Context `{HE : Ed25519} `{HN : NetEnv} `{HQ : Quic}.
Context (cfg : NodeConfig).

(** A thread that goes on by itself. *)
Definition go_on (s : server) (t : dthread) : option (label * server * list dthread) :=
  let n := sv_node s in
  match t with
  | Plain Listen_call =>
      if started n || stopped n then Some (ListenReturns false, sv_set_node s n, [])
      else Some (Tau, sv_set_node s (set_started n), [Plain Listen_bind])
  | Plain Listen_bind => Some (Tau, sv_set_node s n, [Plain Listen_bound])
  | Plain Listen_bound => Some (Tau, sv_set_node s (set_listener (Some true) n), [Plain Listen_assigned])
  | Plain Listen_assigned => Some (Tau, sv_set_node s (wg_add n), [Plain Listen_added])
  | Plain Listen_added => Some (ListenReturns true, sv_set_node s n, [Plain Accept_loop])
  | Plain Stop_call =>
      if stopped n then Some (StopReturns false, sv_set_node s n, [])
      else Some (Tau, sv_set_node s (set_stopped n), [Plain Stop_flagged])
  | Plain Stop_flagged => Some (Tau, sv_set_node s (set_cancelled n), [Plain Stop_cancelled])
  | Plain Stop_cancelled =>
      Some (Tau, sv_set_node s (set_listener ((fun _ => false) <$> listener n) n), [Plain Stop_closed])
  | Plain Stop_closed => if (wg n =? 0)%nat then Some (StopReturns true, sv_set_node s n, []) else None
  | Plain (Accept_got c) => Some (Tau, sv_set_node s (wg_add n), [Plain (Accept_added c)])
  | Plain (Accept_added c) => Some (Tau, sv_set_node s n, [Plain Accept_loop; Plain (Conn_start c)])
  | Got_op c op => Some (Tau, sv_set_node s (wg_add n), [Added_op c op])
  | Added_op c op => Some (Tau, s, [Plain (Conn_loop c); Recv_op c op])
  | Plain (Conn_exit c) =>
      conn ← sv_conns s !! c;
      Some (Tau, sv_set_conn c (Conn_Close conn) (sv_set_node s (close_conn c n)), [Plain (Conn_closed c)])
  | Plain (Conn_closed c) | Plain (Op_exit c) => Some (Tau, sv_set_node s (wg_done n), [])
  | _ => None
  end.

Definition move (s : server) (t : dthread) (ch : choice) : option (label * server * list dthread) :=
  match ch, t with
  | DoGo _, t => go_on s t
  | DoAccept _, Plain Accept_loop =>
      let c := accepted (sv_node s) in
      Some (Peer, sv_set_conn c (new_conn false) (sv_set_node s (new_connection (sv_node s))), [Plain (Accept_got c)])
  | DoControl _ e, Plain (Conn_start c) => Some (Peer, s, [Hello_at c e])
  | DoHello _ env, Hello_at c e =>
      if negb (env_sound env) then None else
      conn ← sv_conns s !! c;
      match Conn_Handshake env (Ok e) (config cfg s) conn with
      | (Ok st, conn', w) =>
          Some (Peer, log_event (EvHandshake c env e (sv_verifier s) (Ok st))
                        (sv_set_conn c conn' (sv_set_verifier w s)), [Plain (Conn_loop c)])
      | (Err err, conn', w) =>
          Some (Peer, log_event (EvHandshake c env e (sv_verifier s) (Err err))
                        (sv_set_conn c conn' (sv_set_verifier w (sv_set_node s (close_conn c (sv_node s))))),
                [Plain (Conn_exit c)])
      | (Panic _, _, _) => None
      end
  | DoOp _ e, Plain (Conn_loop c) =>
      conn ← sv_conns s !! c;
      match AcceptOperation (Ok e) conn with
      | (Ok op, conn') => Some (Peer, sv_set_conn c conn' s, [Got_op c op])
      | _ => None
      end
  | DoDispatch _, Recv_op c op =>
      match op_dispatch (sv_agents s) op with
      | (Ok (Some (agent, inv)), op') =>
          Some (Peer, log_event (EvCall c agent inv) s, [Run_agent c op agent inv op'])
      | (Ok None, op') =>
          Some (Peer, log_event (EvFinished c op None (Operation_Close op')) s, [Plain (Op_exit c)])
      | _ => None
      end
  | DoReturn _, Run_agent c op0 agent inv op =>
      let '(r, op') := agent inv op in
      if panics r then None
      else Some (AgentReturns, log_event (EvFinished c op0 (Some inv) (Operation_Close op')) s, [Plain (Op_exit c)])
  | _, _ => None
  end.

(** The panic of a thread that has what it waits for. *)
Definition panic_of (s : server) (t : dthread) (ch : choice) : option (label * panic) :=
  match ch, t with
  | DoHello _ env, Hello_at c e =>
      if negb (env_sound env) then None else
      conn ← sv_conns s !! c;
      match Conn_Handshake env (Ok e) (config cfg s) conn with
      | (Panic p, _, _) => Some (Peer, p)
      | _ => None
      end
  | DoReturn _, Run_agent c op0 agent inv op =>
      match agent inv op with (Panic p, _) => Some (AgentReturns, p) | _ => None end
  | _, _ => None
  end.

Definition index (ch : choice) : nat :=
  match ch with
  | DoGo i | DoAccept i | DoControl i _ | DoHello i _ | DoOp i _ | DoDispatch i | DoReturn i => i
  | _ => 0%nat
  end.

Definition sexec (ch : choice) (s : server) : option server :=
  if sv_crashed s then None else
  match ch with
  | DoListen => Some (sv_set_threads s (Plain Listen_call :: sv_threads s))
  | DoStop => Some (sv_set_threads s (Plain Stop_call :: sv_threads s))
  | DoRegister id agent =>
      match RegisterAgent id (Some agent) (sv_agents s) with
      | (Ok _, agents) => Some (log_event (EvRegister id agent) (sv_set_agents agents s))
      | (_, agents) => Some (sv_set_agents agents s)
      end
  | _ =>
      t ← sv_threads s !! index ch;
      match move s t ch with
      | Some (_, s', ts) =>
          Some (sv_set_threads s' (take (index ch) (sv_threads s) ++ ts ++ drop (S (index ch)) (sv_threads s)))
      | None => '(_, p) ← panic_of s t ch; Some (crash p s)
      end
  end.

Fixpoint sexec_all (chs : list choice) (s : server) : option server :=
  match chs with
  | [] => Some s
  | ch :: chs => s ← sexec ch s; sexec_all chs s
  end.

(** ** Soundness *)

Lemma go_on_sound s t l s' ts : go_on s t = Some (l, s', ts) -> sact cfg s t l s' ts.
Proof.
  unfold go_on. intros H. destruct t as [t|c e|c op|c op|c op|c op0 agent inv op]; [destruct t|..]; try done;
    repeat (case_match; try done); simplify_option_eq.
  - left. by apply (serve_Listen s _ _ _ []), listen_refused.
  - left. by apply (serve_Listen s _ _ _ [Listen_bind]), listen_start.
  - left. apply (serve_Listen s _ _ _ [Listen_bound]), listen_binds.
  - left. apply (serve_Listen s _ _ _ [Listen_assigned]), listen_assigns.
  - left. apply (serve_Listen s _ _ _ [Listen_added]), listen_adds.
  - left. apply (serve_Listen s _ _ _ [Accept_loop]), listen_spawns.
  - left. by apply (serve_Stop s _ _ _ []), stop_again.
  - left. by apply (serve_Stop s _ _ _ [Stop_flagged]), stop_flags.
  - left. apply (serve_Stop s _ _ _ [Stop_cancelled]), stop_cancels.
  - left. apply (serve_Stop s _ _ _ [Stop_closed]), stop_closes.
  - left. apply (serve_Stop s _ _ _ []), stop_waits. by zbool.
  - left. by apply (serve_acceptLoop s _ _ _ [Accept_added c]); [apply accept_adds|].
  - left. by apply (serve_acceptLoop s _ _ _ [Accept_loop; Conn_start c]); [apply accept_spawns|].
  - right; left. by eapply serve_conn_closes.
  - right; left. apply serve_conn_done.
  - right; right. apply serve_op_done.
  - right; left. apply serve_op_adds.
  - right; left. apply serve_op_spawns.
Qed.

Lemma move_sound s t ch l s' ts : move s t ch = Some (l, s', ts) -> sact cfg s t l s' ts.
Proof.
  unfold move. intros H. destruct ch; try done; [by apply go_on_sound|..];
    destruct t as [[]|c e'|c op|c op|c op|c op0 agent inv op]; try done.
  - simplify_eq. left. apply serve_accepts.
  - simplify_eq. right; left. apply serve_control.
  - destruct (env_sound env) eqn:Es; [|done]. cbn [negb] in H.
    destruct (sv_conns s !! c) as [conn|] eqn:Ec; [|done]. cbn in H.
    destruct (Conn_Handshake _ _ _ _) as [[[st|err|p] conn'] w] eqn:Eh; simplify_eq; right; left;
      [by eapply serve_handshakes|by eapply serve_handshake_fails].
  - destruct (sv_conns s !! c) as [conn|] eqn:Ec; [|done]. cbn in H.
    destruct (AcceptOperation _ _) as [[op| |] conn'] eqn:Ea; simplify_eq. right; left.
    by eapply serve_accepts_op.
  - destruct (op_dispatch _ _) as [[[[agent inv]|]| |] op'] eqn:Ed; simplify_eq; right; right;
      [by eapply serve_dispatches|by eapply serve_ignores].
  - destruct (agent inv op) as [r op'] eqn:Ea. destruct (panics r) eqn:Ep; simplify_eq.
    right; right. by eapply serve_returns.
Qed.

Lemma panic_of_sound s t ch l p : panic_of s t ch = Some (l, p) -> serve_panics cfg s t l p.
Proof.
  unfold panic_of. intros H. destruct ch; try done;
    destruct t as [[]|c e'|c op|c op|c op|c op0 agent inv op]; try done.
  - destruct (env_sound env) eqn:Es; [|done]. cbn [negb] in H.
    destruct (sv_conns s !! c) as [conn|] eqn:Ec; [|done]. cbn in H.
    destruct (Conn_Handshake _ _ _ _) as [[[st|err|q] conn'] w] eqn:Eh; simplify_eq.
    by eapply panic_handshake.
  - destruct (agent inv op) as [[]] eqn:Ea; simplify_eq. by eapply panic_agent.
Qed.

Lemma sexec_sound ch s s' : sexec ch s = Some s' -> exists l, sstep cfg s l s'.
Proof.
  unfold sexec. destruct (sv_crashed s) eqn:Hc; [done|]. intros H.
  assert (forall t, sv_threads s !! index ch = Some t ->
    match move s t ch with
    | Some (_, s', ts) =>
        Some (sv_set_threads s' (take (index ch) (sv_threads s) ++ ts ++ drop (S (index ch)) (sv_threads s)))
    | None => '(_, p) ← panic_of s t ch; Some (crash p s)
    end = Some s' -> exists l, sstep cfg s l s') as Hmove.
  { intros t Ht. apply take_drop_middle in Ht. destruct (move s t ch) as [[[l s1] ts]|] eqn:Em.
    - intros [= <-]. exists l. eapply serve_moves; [done|by symmetry|by eapply move_sound].
    - destruct (panic_of s t ch) as [[l p]|] eqn:Ep; [|done]. intros [= <-]. exists l.
      eapply serve_crashes; [done|by symmetry|by eapply panic_of_sound]. }
  destruct ch; try (destruct (sv_threads s !! index _) as [t|] eqn:Et; [exact (Hmove t eq_refl H)|done]).
  - simplify_eq. exists Call. by apply serve_call_Listen.
  - simplify_eq. exists Call. by apply serve_call_Stop.
  - destruct (RegisterAgent id (Some agent) (sv_agents s)) as [[[]|e|p] agents] eqn:Er; simplify_eq.
    + exists Call. by eapply serve_RegisterAgent.
    + exists Call. by eapply serve_RegisterAgent_fails.
    + unfold RegisterAgent in Er. by repeat case_match.
Qed.

Lemma sexec_all_sound chs s s' : sexec_all chs s = Some s' -> ssteps cfg s s'.
Proof.
  revert s. induction chs as [|ch chs IH]; intros s; cbn; [intros [= <-]; apply rtc_refl|].
  destruct (sexec ch s) as [s1|] eqn:E; [|done]. cbn. intros H%IH. apply sexec_sound in E.
  by eapply rtc_l.
Qed.
End Run.

(** ** Runs

    The server is party b; party a connects and invokes the echo agent on its
    first operation, stream 4. *)

Definition listening_choices : list choice := [DoListen; DoGo 0; DoGo 0; DoGo 0; DoGo 0; DoGo 0].
Definition connect_choices (e : ends) (env : henv) : list choice :=
  [DoAccept 0; DoGo 0; DoGo 0; DoControl 1 e; DoHello 1 env].

Definition echo_stream : ends :=
  (mkReader (frame_bytes (invoke_frame 4 (str "echo") (str "say") (str "hi"))) EOF, write_all).

Definition echo_choices : list choice :=
  DoRegister (str "echo") echo_agent :: listening_choices ++
  connect_choices (demo_ends party_a) (p_env party_b) ++
  [DoOp 1 echo_stream; DoGo 1; DoGo 1; DoDispatch 2].

Definition echo_cfg : NodeConfig := p_config party_b.

Definition run_of (cfg : NodeConfig) (chs : list choice) : server :=
  default (NewServer cfg)
    (sexec_all (HE := toy_ed25519) (HN := offline) (HQ := rfc9000) cfg chs (NewServer cfg)).

Lemma run_served cfg chs :
  match sexec_all (HE := toy_ed25519) (HN := offline) (HQ := rfc9000) cfg chs (NewServer cfg) with
  | Some _ => true | None => false end = true ->
  served (HE := toy_ed25519) (HN := offline) (HQ := rfc9000) cfg (run_of cfg chs).
Proof.
  unfold run_of. destruct (sexec_all cfg chs (NewServer cfg)) as [s|] eqn:E; [|done]. intros _.
  cbn [default]. by eapply (sexec_all_sound (HE := toy_ed25519) (HN := offline) (HQ := rfc9000) cfg chs).
Qed.

Definition echo_run : server := run_of echo_cfg echo_choices.

Lemma echo_run_served : served (HE := toy_ed25519) (HN := offline) (HQ := rfc9000) echo_cfg echo_run.
Proof. apply run_served. vm_compute. reflexivity. Qed.

(** The agent is told who called. *)
Definition echo_invoke : Invoke :=
  mkInvoke (str "echo") (str "say") (str "hi") (s_DID (p_signer party_a)).

Lemma echo_run_log : sv_log echo_run = EvCall 0 echo_agent echo_invoke :: tail (sv_log echo_run).
Proof.
  assert (head (sv_log echo_run) = Some (EvCall 0 echo_agent echo_invoke)) as E.
  { vm_cast_no_check (eq_refl (Some (EvCall 0 echo_agent echo_invoke))). }
  by destruct (sv_log echo_run); simplify_eq/=.
Qed.

(** A HELLO that announces 2^43 + 1 capabilities. *)
Definition fat_hello : ends :=
  (mkReader (frame_bytes (hello_frame ([x00; x02; x00] ++ [xc0; x00; x08; x00; x00; x00; x00; x01]))) EOF, write_all).

Definition crash_choices : list choice :=
  listening_choices ++ connect_choices fat_hello (p_env party_b).

(** Whoever reaches the port can end the process, with an unsigned frame of a
    dozen bytes. *)
Example remote_crash :
  sv_crashed (run_of echo_cfg crash_choices) = Some (PanicMakeSlice (2 ^ 43 + 1)).
Proof. vm_compute. reflexivity. Qed.

(** The same run, with Stop called while the agent runs. *)
Definition stop_run : server := run_of echo_cfg (echo_choices ++ [DoStop; DoGo 0]).

Lemma stop_run_served : served (HE := toy_ed25519) (HN := offline) (HQ := rfc9000) echo_cfg stop_run.
Proof. apply run_served. vm_compute. reflexivity. Qed.

Definition is_hello (t : dthread) : bool := match t with Hello_at _ _ => true | _ => false end.

Lemma no_hello ts : existsb is_hello ts = false -> forall c e, Hello_at c e ∉ ts.
Proof.
  intros H c e Hin%list_elem_of_In. assert (existsb is_hello ts = true); [|congruence].
  apply existsb_exists. by exists (Hello_at c e).
Qed.

(** Two connections: party a, and a replay of the HELLO of party a. *)
Definition replay_choices : list choice :=
  listening_choices ++ connect_choices (demo_ends party_a) (p_env party_b) ++
  connect_choices (demo_ends party_a) (p_env party_b).

Example replay_refused :
  (fun ev => match ev with EvHandshake c _ _ _ r => (c, is_ok r) | _ => (0%nat, true) end) <$>
    sv_log (run_of echo_cfg replay_choices) = [(1%nat, false); (0%nat, true)].
Proof. vm_compute. reflexivity. Qed.

(** Three connections: a HELLO signed at time 0, one signed a millisecond after the
    end of its window, and the first again.  The handshake of the third read the
    clock at the end of the window, but was overtaken by that of the second on
    its way to the Verifier's mutex. *)
Definition race_env (now : Time) : henv := mkEnv (Err (External 9)) (Ok (repeat xbb 16)) demo_now now.
Definition race_ends (f : Frame) : ends := (mkReader (frame_bytes f) EOF, write_all).

Definition race_connections : list (list choice) :=
  [connect_choices (race_ends first_hello) (race_env 0);
   connect_choices (race_ends other_hello) (race_env (300001 * 1000000));
   connect_choices (race_ends first_hello) (race_env (300000 * 1000000))].
Definition race_prefix (n : nat) : server :=
  run_of echo_cfg (listening_choices ++ concat (take n race_connections)).
Definition race_run : server := race_prefix 3.

(** The Verifier that the [n]-th of them finds. *)
Definition race_verifier (n : nat) : option Verifier := sv_verifier (race_prefix n).

Lemma race_run_served : served (HE := toy_ed25519) (HN := offline) (HQ := rfc9000) echo_cfg race_run.
Proof. apply run_served. vm_compute. reflexivity. Qed.

(** All three complete. *)
Definition race_log : list history :=
  [EvHandshake 2 (race_env (300000 * 1000000)) (race_ends first_hello) (race_verifier 2) (Ok race_state);
   EvHandshake 1 (race_env (300001 * 1000000)) (race_ends other_hello) (race_verifier 1) (Ok race_state);
   EvHandshake 0 (race_env 0) (race_ends first_hello) (race_verifier 0) (Ok race_state)].

Lemma race_run_log : sv_log race_run = race_log.
Proof. vm_cast_no_check (eq_refl race_log). Qed.

Lemma three_envs c2 env2 e2 v2 r2 c1 env1 e1 v1 r1 c0 env0 e0 v0 r0 c env e v r :
  EvHandshake c env e v r ∈ [EvHandshake c2 env2 e2 v2 r2; EvHandshake c1 env1 e1 v1 r1; EvHandshake c0 env0 e0 v0 r0] ->
  env = env2 \/ env = env1 \/ env = env0.
Proof. rewrite !elem_of_cons, elem_of_nil. naive_solver. Qed.

Lemma race_log_env c env e v r :
  EvHandshake c env e v r ∈ race_log ->
  env = race_env (300000 * 1000000) \/ env = race_env (300001 * 1000000) \/ env = race_env 0.
Proof. apply three_envs. Qed.
