(* ===== verification/ServeInv.v ===== *)
(** * What a serving node did

    The history of the transition system of [Serve]: every connection handshakes
    at most once, every agent call is for an agent registered before, on a
    connection whose handshake established the identity the agent is told, and
    every finished operation is a run of handleOperation; the causes of a crash;
    replayed HELLOs; Stop. *)

From Stdlib Require Import Strings.Byte.
From stdpp Require Import base numbers list gmap strings relations.
From S2P Require Import Prelude Machine GoTime GoStrings Varint Frame Stream Capability.
From S2P Require Import Base58 Identity DidWeb Verifier Hello Handshake Conn Dispatch NodeLife NodeStop Serve.
Open Scope Z_scope.

Section History.
Context `{HE : Ed25519} `{HN : NetEnv} `{HQ : Quic}.
Context (cfg : NodeConfig).

(** Connection [c] completed its handshake with state [st]. *)
Definition handshaken (log : list history) (c : nat) (st : HandshakeState) : Prop :=
  exists env e v, EvHandshake c env e v (Ok st) ∈ log.

(** [op] was accepted on a connection [c] that had completed its handshake. *)
Definition op_authentic (log : list history) (c : nat) (op : Operation) : Prop :=
  exists st, handshaken log c st /\ state (op_conn op) = Some st.

Definition registered (log : list history) (agents : agent_table) : Prop :=
  forall id agent, agents !! id = Some agent -> EvRegister id agent ∈ log.

Definition no_handshake (log : list history) (c : nat) : Prop :=
  forall env e v r, EvHandshake c env e v r ∉ log.

(** What an event tells, given what happened before it. *)
Definition event_ok (past : list history) (ev : history) : Prop :=
  match ev with
  | EvRegister id agent => id <> [] /\ forall agent', EvRegister id agent' ∉ past
  | EvHandshake c env e v r => no_handshake past c /\
      exists conn' w, Conn_Handshake env (Ok e)
        (mkConfig (cfg_Signer cfg) v (cfg_Capabilities cfg)) (new_conn false) = (r, conn', w)
  | EvCall c agent inv => EvRegister (inv_AgentID inv) agent ∈ past /\
      exists st, handshaken past c st /\ inv_PeerNodeID inv = PeerNodeID st
  | EvFinished c op0 inv op => op_authentic past c op0 /\
      exists agents, registered past agents /\ handleOperation agents op0 = (Ok inv, op)
  end.

Fixpoint log_ok (log : list history) : Prop :=
  match log with
  | [] => True
  | ev :: past => event_ok past ev /\ log_ok past
  end.

Lemma log_ok_at l1 ev past : log_ok (l1 ++ ev :: past) -> event_ok past ev /\ log_ok past.
Proof. induction l1 as [|e l1 IH]; [done|]. intros [_ H]. auto. Qed.

(** The connection a thread has yet to handshake on. *)
Definition starting (t : dthread) : option nat :=
  match t with
  | Plain (Accept_got c | Accept_added c | Conn_start c) | Hello_at c _ => Some c
  | _ => None
  end.

Definition fresh (s : server) (c : nat) : Prop :=
  sv_conns s !! c = Some (new_conn false) /\ no_handshake (sv_log s) c.

(** What a thread that works on an operation relies on. *)
Definition op_thread_ok (log : list history) (t : dthread) : Prop :=
  match t with
  | Got_op c op | Added_op c op | Recv_op c op => op_authentic log c op
  | Run_agent c op0 agent inv op => op_authentic log c op0 /\
      exists agents, registered log agents /\ op_dispatch agents op0 = (Ok (Some (agent, inv)), op)
  | _ => True
  end.

Record hist_inv (s : server) : Prop := {
  hi_log : log_ok (sv_log s);
  hi_agents id agent : sv_agents s !! id = Some agent <-> EvRegister id agent ∈ sv_log s;
  hi_conns c conn st : sv_conns s !! c = Some conn -> state conn = Some st -> handshaken (sv_log s) c st;
  hi_accepted c env e v r : EvHandshake c env e v r ∈ sv_log s -> (c < accepted (sv_node s))%nat;
  hi_ops : Forall (op_thread_ok (sv_log s)) (sv_threads s);
  hi_fresh t c : t ∈ sv_threads s -> starting t = Some c -> fresh s c;
}.

(** ** The log only grows *)

Lemma handshaken_cons ev log c st : handshaken log c st -> handshaken (ev :: log) c st.
Proof. intros (env & e & v & H). exists env, e, v. by right. Qed.

Lemma op_authentic_cons ev log c op : op_authentic log c op -> op_authentic (ev :: log) c op.
Proof. intros (st & ? & ?). exists st. eauto using handshaken_cons. Qed.

Lemma registered_cons ev log agents : registered log agents -> registered (ev :: log) agents.
Proof. intros H id a E. right. eauto. Qed.

Lemma op_thread_ok_cons ev log t : op_thread_ok log t -> op_thread_ok (ev :: log) t.
Proof.
  destruct t; cbn; auto using op_authentic_cons.
  intros (? & agents & ? & ?). split; [by apply op_authentic_cons|].
  exists agents. split; [by apply registered_cons|done].
Qed.

Lemma sact_log s t l s' ts :
  sact cfg s t l s' ts -> sv_agents s' = sv_agents s /\
  (sv_log s' = sv_log s \/ exists ev, sv_log s' = ev :: sv_log s /\
     (forall id a, ev <> EvRegister id a)).
Proof. intros [H|[H|H]]; destruct H; cbn; split; eauto 10. Qed.

Lemma op_thread_ok_step s t l s' ts t' :
  sact cfg s t l s' ts -> op_thread_ok (sv_log s) t' -> op_thread_ok (sv_log s') t'.
Proof. intros [_ [->|(ev & -> & _)]]%sact_log; auto using op_thread_ok_cons. Qed.

(** ** Operations *)

Lemma AcceptOperation_authentic s c conn e op conn' :
  hist_inv s -> sv_conns s !! c = Some conn -> AcceptOperation (Ok e) conn = (Ok op, conn') ->
  op_authentic (sv_log s) c op.
Proof.
  intros Hi Hc [(_ & _ & ? & ?)|(Hs & _ & Hst & _ & _ & [[? _]|(_ & op' & E & Ho & _)])]%AcceptOperation_effect;
    [done|done|]. simplify_eq. destruct (state conn) as [st|] eqn:Es; [|done].
  exists st. split; [by eapply hi_conns|done].
Qed.

Lemma agents_registered s : hist_inv s -> registered (sv_log s) (sv_agents s).
Proof. intros Hi id agent H. by apply hi_agents. Qed.

Lemma sact_ops s t l s' ts :
  sact cfg s t l s' ts -> hist_inv s -> op_thread_ok (sv_log s) t ->
  Forall (op_thread_ok (sv_log s')) ts.
Proof.
  intros [H|[H|H]] Hi Ht.
  - destruct H as [t l n ts _|t l n ts _|t l n ts _ _|]; [apply Forall_fmap, Forall_true; done..|].
    by repeat constructor.
  - destruct H; cbn in *; repeat constructor; try done. by eapply AcceptOperation_authentic.
  - destruct H; cbn in *; repeat constructor; try done.
    + by apply op_authentic_cons.
    + exists (sv_agents s). split; [by apply registered_cons, agents_registered|done].
Qed.

(** Each event is as it should be. *)
Lemma sact_log_ok s t l s' ts :
  sact cfg s t l s' ts -> hist_inv s -> op_thread_ok (sv_log s) t ->
  (forall c, starting t = Some c -> fresh s c) -> log_ok (sv_log s').
Proof.
  intros [H|[H|H]] Hi Ht Hf.
  - destruct H; exact (hi_log _ Hi).
  - destruct H as [| |c env e conn err conn' w _ Hc Hh|c env e conn st conn' w _ Hc Hh| | | | | |];
      try exact (hi_log _ Hi).
    all: destruct (Hf c eq_refl) as [Hn Hno]; rewrite Hc in Hn; injection Hn as ->.
    all: split; [|exact (hi_log _ Hi)]; split; [done|]; by eexists _, _.
  - destruct H as [|c op op' Hd|c op agent inv op' Hd|c op0 agent inv op r op' Ha Hp|];
      try exact (hi_log _ Hi); (split; [|exact (hi_log _ Hi)]).
    + split; [done|]. exists (sv_agents s). split; [by apply agents_registered|].
      by rewrite handleOperation_split, Hd.
    + destruct (op_dispatch_Some _ _ _ _ _ Hd) as [H1 H2]. split; [by apply hi_agents|].
      destruct Ht as (st & Hst & Ho). exists st. split; [done|].
      rewrite H2. unfold Operation_PeerNodeID. by rewrite Ho.
    + destruct Ht as (Hau & agents & Hr & Hd). split; [done|]. exists agents. split; [done|].
      rewrite handleOperation_split, Hd, Ha. by destruct r.
Qed.

(** ** Connections *)

Lemma Handshake_fails_state env res local conn err conn' w :
  Conn_Handshake env res local conn = (Err err, conn', w) -> state conn' = state conn.
Proof.
  intros (_ & _ & _ & Hsome & Hnone)%Conn_Handshake_effect. destruct (state conn) eqn:E.
  - by destruct (Hsome ltac:(done)) as [-> _].
  - by destruct (Hnone eq_refl) as [-> _].
Qed.

Lemma Handshake_completes_state env res local conn st conn' w :
  Conn_Handshake env res local conn = (Ok st, conn', w) -> state conn = None /\ state conn' = Some st.
Proof.
  intros (_ & _ & _ & Hsome & Hnone)%Conn_Handshake_effect. destruct (state conn) eqn:E.
  - by destruct (Hsome ltac:(done)) as [_ [? ?]].
  - by destruct (Hnone eq_refl) as [-> _].
Qed.

Lemma sact_hi_conns s t l s' ts c conn st :
  sact cfg s t l s' ts -> hist_inv s -> sv_conns s' !! c = Some conn -> state conn = Some st ->
  handshaken (sv_log s') c st.
Proof.
  intros Ha Hi. assert (forall conn1, sv_conns s !! c = Some conn1 -> state conn1 = Some st ->
    handshaken (sv_log s') c st) as Hold.
  { intros conn1 H1 H2. pose proof (hi_conns _ Hi _ _ _ H1 H2) as Hh.
    destruct (sact_log _ _ _ _ _ Ha) as [_ [->|(ev & -> & _)]]; auto using handshaken_cons. }
  assert (forall c1 conn0 conn1, sv_conns s !! c1 = Some conn0 ->
    (forall st, state conn1 = Some st -> state conn0 = Some st \/ handshaken (sv_log s') c1 st) ->
    <[c1 := conn1]> (sv_conns s) !! c = Some conn -> state conn = Some st -> handshaken (sv_log s') c st) as Hins.
  { intros c1 conn0 conn1 H0 H1. destruct (decide (c1 = c)) as [->|Hne].
    - rewrite lookup_insert_eq. intros [= <-] Hs. destruct (H1 st Hs); eauto.
    - rewrite lookup_insert_ne by done. eauto. }
  destruct Ha as [H|[H|H]].
  - destruct H; cbn in *; [by apply Hold..|]. intros Hl Hs. destruct (decide (c0 = c)) as [->|Hne].
    + rewrite lookup_insert_eq in Hl. by simplify_eq.
    + rewrite lookup_insert_ne in Hl by done. by eapply Hold.
  - destruct H as [c1 l env e conn0 e' conn1 w _ H1 H2| |c1 env e conn0 err conn1 w _ H1 H2
      |c1 env e conn0 st1 conn1 w _ H1 H2|c1 l e conn0 e' conn1 _ H1 H2|c1 e conn0 op conn1 H1 H2| | |c1 conn0 H1|];
      cbn in *; try (by apply Hold); apply (Hins c1 conn0); try done; intros st' Hs'.
    + left. by rewrite <-(Handshake_fails_state _ _ _ _ _ _ _ H2).
    + left. by rewrite <-(Handshake_fails_state _ _ _ _ _ _ _ H2).
    + right. apply Handshake_completes_state in H2 as [_ Hn]. assert (st' = st1) as -> by congruence.
      eexists _, _, _. by left.
    + left. by apply AcceptOperation_effect in H2 as [(_ & -> & _)|(_ & _ & <- & _)].
    + left. by apply AcceptOperation_effect in H2 as [(_ & -> & _)|(_ & _ & <- & _)].
    + by left.
  - destruct H; cbn in *; by apply Hold.
Qed.

(** A connection that waits for its handshake is left alone by the threads that
    do not handle it. *)
Lemma sact_fresh_frame s t l s' ts c :
  sact cfg s t l s' ts -> handler c (erase_thread t) = 0%nat -> (c < accepted (sv_node s))%nat ->
  fresh s c -> fresh s' c.
Proof.
  intros [H|[H|H]] Hh Hlt [Hc Hno]; destruct H; cbn in *;
    try destruct (Nat.eqb_spec c0 c); try done; (split; cbn; [rewrite ?lookup_insert_ne by (done || lia); done|]);
    try done; intros ? ? ? ?; rewrite not_elem_of_cons; split; auto; congruence.
Qed.

(** The thread's own connection stays fresh while it is starting. *)
Lemma sact_fresh_own s t l s' ts t' c :
  sact cfg s t l s' ts -> hist_inv s -> (forall c, starting t = Some c -> fresh s c) ->
  t' ∈ ts -> starting t' = Some c -> fresh s' c.
Proof.
  intros Ha Hi Hf Ht' Hst. destruct Ha as [H|[H|H]].
  - destruct H as [t l n ts Ha|t l n ts Ha|t l n ts Ha Hn|].
    1,2,3: apply list_elem_of_fmap in Ht' as (t0 & -> & Ht0); destruct Ha; cbn in *; try lia;
      rewrite ?elem_of_cons, elem_of_nil in Ht0; destruct_or?; subst; cbn in *; simplify_eq;
      apply (Hf _ eq_refl).
    apply list_elem_of_singleton in Ht' as ->. cbn in Hst. injection Hst as <-.
    split; cbn; [by rewrite lookup_insert_eq|].
    intros env e v r Hin%(hi_accepted _ Hi). lia.
  - destruct H; cbn in *; rewrite ?elem_of_cons, elem_of_nil in Ht'; destruct_or?; subst; cbn in *;
      simplify_eq. by apply Hf.
  - destruct H; cbn in *; rewrite ?elem_of_cons, elem_of_nil in Ht'; destruct_or?; by subst.
Qed.

Lemma sact_accepted s t l s' ts c env e v r :
  sact cfg s t l s' ts -> EvHandshake c env e v r ∈ sv_log s' ->
  EvHandshake c env e v r ∈ sv_log s \/ handler c (erase_thread t) = 1%nat.
Proof.
  intros [H|[H|H]]; destruct H; cbn; rewrite ?elem_of_cons; try naive_solver.
  all: intros [?|?]; [right; simplify_eq; by rewrite Nat.eqb_refl|by left].
Qed.

(** ** The invariant holds *)

Lemma hist_NewServer : hist_inv (NewServer cfg).
Proof.
  split; cbn; try done.
  - intros id agent. by rewrite lookup_empty, elem_of_nil.
  - intros c env e v r H. by apply elem_of_nil in H.
  - intros t c H. by apply elem_of_nil in H.
Qed.

Lemma starting_handler t c : starting t = Some c -> handler c (erase_thread t) = 1%nat.
Proof. destruct t as [[]| | | | |]; cbn; intros; simplify_eq; by rewrite Nat.eqb_refl. Qed.

Lemma starting_counted t c pre post :
  t ∈ pre ++ post -> starting t = Some c ->
  (1 <= count (handler c) (erase_thread <$> pre) + count (handler c) (erase_thread <$> post))%nat.
Proof.
  intros Hin Hst%starting_handler. apply elem_of_app in Hin as [Hin|Hin];
    apply list_elem_of_split in Hin as (a & b & ->); rewrite fmap_app, fmap_cons, count_split; lia.
Qed.

(** One thread moves. *)
Lemma sact_hist s t l s' ts pre post :
  inv_handlers (erase s) -> hist_inv s -> sv_threads s = pre ++ t :: post -> sact cfg s t l s' ts ->
  hist_inv (sv_set_threads s' (pre ++ ts ++ post)).
Proof.
  intros Hh Hi Ht Ha. pose proof (sact_log _ _ _ _ _ Ha) as [Hag Hlog].
  assert (op_thread_ok (sv_log s) t) as Hot.
  { pose proof (hi_ops _ Hi) as H. rewrite Ht in H. by apply Forall_app in H as [_ [? _]%Forall_cons]. }
  assert (forall c, starting t = Some c -> fresh s c) as Hft.
  { intros c. apply (hi_fresh _ Hi). rewrite Ht. set_solver. }
  assert (forall c, (handler c (erase_thread t) + (count (handler c) (erase_thread <$> pre)
    + count (handler c) (erase_thread <$> post)) <= if c <? accepted (sv_node s) then 1 else 0)%nat) as Hcount.
  { intros c. specialize (Hh c). cbn [erase threads with_threads accepted] in Hh.
    rewrite Ht, fmap_app, fmap_cons in Hh. by rewrite count_split in Hh. }
  assert (accepted (sv_node s) <= accepted (sv_node s'))%nat as Hacc.
  { apply sact_erase in Ha. destruct (act_handlers _ _ _ _ _ 0%nat Ha) as [[-> _]|[-> _]]; lia. }
  split; cbn [sv_set_threads sv_log sv_agents sv_conns sv_node sv_threads].
  - by eapply sact_log_ok.
  - intros id agent. rewrite Hag, (hi_agents _ Hi). destruct Hlog as [->|(ev & -> & Hne)]; [done|].
    rewrite elem_of_cons. naive_solver.
  - intros c conn st. by eapply sact_hi_conns.
  - intros c env e v r Hin. destruct (sact_accepted _ _ _ _ _ _ _ _ _ _ Ha Hin) as [Hold|Hc].
    + pose proof (hi_accepted _ Hi _ _ _ _ _ Hold). lia.
    + specialize (Hcount c). destruct (Nat.ltb_spec c (accepted (sv_node s))); lia.
  - pose proof (hi_ops _ Hi) as H. rewrite Ht in H. apply Forall_app in H as [H1 [_ H3]%Forall_cons].
    apply Forall_app. split; [eapply Forall_impl; [done|]; intros; by eapply op_thread_ok_step|].
    apply Forall_app. split; [by eapply sact_ops|].
    eapply Forall_impl; [done|]; intros; by eapply op_thread_ok_step.
  - intros t' c Ht' Hst. rewrite !elem_of_app in Ht'.
    assert (t' ∈ pre ++ post -> fresh (sv_set_threads s' (pre ++ ts ++ post)) c) as Hother.
    { intros Hin. pose proof (starting_counted _ _ _ _ Hin Hst) as Hge. specialize (Hcount c).
      apply (sact_fresh_frame s t l s' ts c Ha).
      - destruct (c <? accepted (sv_node s))%nat; lia.
      - destruct (Nat.ltb_spec c (accepted (sv_node s))); [done|lia].
      - apply (hi_fresh _ Hi t'); [|done]. rewrite Ht. set_solver. }
    destruct Ht' as [?|[Hin|?]]; [apply Hother; set_solver| |apply Hother; set_solver].
    exact (sact_fresh_own _ _ _ _ _ _ _ Ha Hi Hft Hin Hst).
Qed.

Lemma RegisterAgent_Ok id a agents agents' :
  RegisterAgent id (Some a) agents = (Ok tt, agents') ->
  id <> [] /\ agents !! id = None /\ agents' = <[id := a]> agents.
Proof.
  unfold RegisterAgent. case_bool_decide; [done|]. destruct (agents !! id) eqn:E; [done|].
  intros [= <-]. done.
Qed.

Lemma RegisterAgent_Err id a agents e agents' : RegisterAgent id a agents = (Err e, agents') -> agents' = agents.
Proof.
  unfold RegisterAgent. case_bool_decide; [by intros [= _ <-]|]. destruct a; [|by intros [= _ <-]].
  destruct (agents !! id); [by intros [= _ <-]|done].
Qed.

(** A registration. *)
Lemma register_hist s id agent agents :
  hist_inv s -> RegisterAgent id (Some agent) (sv_agents s) = (Ok tt, agents) ->
  hist_inv (log_event (EvRegister id agent) (sv_set_agents agents s)).
Proof.
  intros Hi (Hne & Hnew & ->)%RegisterAgent_Ok. destruct Hi as [H1 H2 H3 H4 H5 H6].
  assert (forall a, EvRegister id a ∉ sv_log s) as Hno by (intros a Hin%H2; congruence).
  split; cbn.
  - done.
  - intros id' a'. rewrite elem_of_cons, <-H2. destruct (decide (id = id')) as [->|Hd].
    + rewrite lookup_insert_eq. naive_solver.
    + rewrite lookup_insert_ne by done. naive_solver.
  - intros. eapply handshaken_cons, H3; eauto.
  - intros c env e v r [?|Hin]%elem_of_cons; [done|by eapply H4].
  - eapply Forall_impl; [done|]. intros t. apply op_thread_ok_cons.
  - intros t c Ht Hst. destruct (H6 t c Ht Hst) as [Hc Hn]. split; [done|].
    intros env e v r [?|Hin]%elem_of_cons; [done|by eapply Hn].
Qed.

Lemma sstep_hist s l s' : served cfg s -> hist_inv s -> sstep cfg s l s' -> hist_inv s'.
Proof.
  intros Hs Hi H. pose proof (sstep_was_up _ _ _ _ H) as Hup.
  pose proof (node_reachable_inv_handlers _ (served_erase cfg s Hs Hup)) as Hh.
  destruct H as [s ?|s ?|s id a tbl ? Hr|s id a e tbl ? Hr|s t l s' ts pre post ? Ht Ha|s t l p pre post].
  1,2: destruct Hi as [I1 I2 I3 I4 I5 I6]; split; cbn; try done; [by apply Forall_cons_2|];
    intros t c [->|Hin]%elem_of_cons; [done|apply (I6 _ _ Hin)].
  - by apply register_hist.
  - apply RegisterAgent_Err in Hr as ->. by destruct s.
  - by eapply sact_hist.
  - destruct Hi as [I1 I2 I3 I4 I5 I6]. by split.
Qed.

Lemma served_hist s : served cfg s -> hist_inv s.
Proof.
  intros Hs. apply (served_invariant cfg (fun s => served cfg s /\ hist_inv s)); [| |done].
  - split; [apply rtc_refl|exact hist_NewServer].
  - intros s1 l s2 [H1 H2] Hst. split; [|by eapply sstep_hist].
    eapply rtc_r; [exact H1|]. by exists l.
Qed.

(** ** Closed connections *)

Definition conn_closed (s : server) (c : nat) : Prop :=
  exists conn, sv_conns s !! c = Some conn /\ c_closed conn <> None.

Definition closed_inv (s : server) : Prop :=
  forall c, c ∈ closed (sv_node s) -> (c < accepted (sv_node s))%nat /\ conn_closed s c.

Lemma closed_insert s c c1 conn1 (s' : server) :
  sv_conns s' = <[c1 := conn1]> (sv_conns s) ->
  (c1 = c -> c_closed conn1 <> None) -> (c1 <> c -> conn_closed s c) -> conn_closed s' c.
Proof.
  intros E H1 H2. unfold conn_closed. rewrite E. destruct (decide (c1 = c)) as [->|Hne].
  - exists conn1. rewrite lookup_insert_eq. auto.
  - destruct (H2 Hne) as (conn & ? & ?). exists conn. by rewrite lookup_insert_ne.
Qed.

(** Connection [c1] is closed, or another step is taken on it. *)
Lemma closed_add s c c1 conn1 (s' : server) :
  closed_inv s -> sv_conns s' = <[c1 := conn1]> (sv_conns s) -> c_closed conn1 <> None ->
  (c1 < accepted (sv_node s))%nat -> c ∈ c1 :: closed (sv_node s) ->
  (c < accepted (sv_node s))%nat /\ conn_closed s' c.
Proof.
  intros Hi E H1 Hlt [->|[Hc Hcc]%Hi]%elem_of_cons; (split; [done|]); by eapply closed_insert.
Qed.

Lemma closed_keep s c c1 conn1 (s' : server) :
  closed_inv s -> sv_conns s' = <[c1 := conn1]> (sv_conns s) ->
  (forall conn0, sv_conns s !! c1 = Some conn0 -> c_closed conn0 <> None -> c_closed conn1 <> None) ->
  c ∈ closed (sv_node s) -> (c < accepted (sv_node s))%nat /\ conn_closed s' c.
Proof.
  intros Hi E H1 [Hc Hcc]%Hi. split; [done|]. eapply closed_insert; [done| |done]. intros ->.
  destruct Hcc as (conn0 & ? & ?). eauto.
Qed.

Lemma AcceptOperation_closed res conn r conn' :
  AcceptOperation res conn = (r, conn') -> c_closed conn' = c_closed conn.
Proof.
  unfold AcceptOperation, AcceptStream, qc_AcceptStream. destruct (state conn), res; cbn; intros; by simplify_eq.
Qed.

Lemma Handshake_fresh_closed env res local err conn' w :
  Conn_Handshake env res local (new_conn false) = (Err err, conn', w) -> c_closed conn' <> None.
Proof. intros (_ & _ & _ & _ & H)%Conn_Handshake_effect. by destruct (H eq_refl). Qed.

Lemma sact_closed s t l s' ts c :
  sact cfg s t l s' ts -> (forall c, starting t = Some c -> fresh s c) ->
  (forall c, handler c (erase_thread t) = 1%nat -> (c < accepted (sv_node s))%nat) -> closed_inv s ->
  c ∈ closed (sv_node s') -> (c < accepted (sv_node s))%nat /\ conn_closed s' c.
Proof.
  intros Ha Hf Hacc Hi. destruct Ha as [H|[H|H]].
  - destruct H as [t l n ts H|t l n ts H|t l n ts H Hn|]; [by destruct H; apply Hi..|].
    intros [Hlt Hc]%Hi. split; [done|]. eapply closed_insert; [done| |done]. subst c0. lia.
  - destruct H as [c1 l env e conn0 e' conn1 w _ H1 H2|c1 e|c1 env e conn0 err conn1 w _ H1 H2
      |c1 env e conn0 st1 conn1 w _ H1 H2|c1 l e conn0 e' conn1 _ H1 H2|c1 e conn0 op conn1 H1 H2
      |c1 op|c1 op|c1 conn0 H1|c1]; cbn [sv_node sv_set_node sv_set_conn sv_set_verifier log_event close_conn closed];
      try (intros Hin; by apply Hi); intros Hin; cbn in Hacc.
    + destruct (Hf c1 eq_refl) as [E _]. rewrite H1 in E. injection E as ->.
      apply Handshake_fresh_closed in H2. eapply closed_add; eauto. apply Hacc. by rewrite Nat.eqb_refl.
    + destruct (Hf c1 eq_refl) as [E _]. rewrite H1 in E. injection E as ->.
      apply Handshake_fresh_closed in H2. eapply closed_add; eauto. apply Hacc. by rewrite Nat.eqb_refl.
    + eapply closed_keep; eauto. intros conn E. destruct (Hf c1 eq_refl) as [E' _].
      rewrite E' in E. by simplify_eq.
    + eapply closed_keep; eauto. intros conn E. apply AcceptOperation_closed in H2. congruence.
    + eapply closed_keep; eauto. intros conn E. apply AcceptOperation_closed in H2. congruence.
    + eapply (closed_add s c c1 (Conn_Close conn0)); eauto; [cbn; by destruct (c_closed conn0)|].
      apply Hacc. by rewrite Nat.eqb_refl.
  - by destruct H; apply Hi.
Qed.

Lemma served_closed s : served cfg s -> closed_inv s.
Proof.
  intros Hs. apply (served_invariant cfg (fun s => served cfg s /\ closed_inv s)); [| |done].
  { split; [apply rtc_refl|]. intros c H. by apply elem_of_nil in H. }
  intros s1 l s2 [H1 H2] Hst. split; [eapply rtc_r; [exact H1|]; by exists l|].
  pose proof (served_hist s1 H1) as Hi.
  pose proof (node_reachable_inv_handlers _ (served_erase cfg s1 H1 (sstep_was_up _ _ _ _ Hst))) as Hh.
  destruct Hst as [s1|s1|s1|s1|s1 t l s' ts pre post ? Ht Ha|]; try exact H2. intros c Hc.
  destruct (sact_closed s1 t l s' ts c Ha) as [Hlt Hcc]; [..|done|done|].
  - intros c0. apply (hi_fresh _ Hi). rewrite Ht. set_solver.
  - intros c0 Hc0. specialize (Hh c0). cbn [erase threads with_threads accepted] in Hh.
    rewrite Ht, fmap_app, fmap_cons, count_split, Hc0 in Hh.
    destruct (Nat.ltb_spec c0 (accepted (sv_node s1))); [done|lia].
  - split; [|done]. apply sact_erase in Ha. cbn.
    destruct (act_handlers _ _ _ _ _ 0%nat Ha) as [[-> _]|[-> _]]; lia.
Qed.
End History.
