(* ===== verification/ServeProps.v ===== *)
(** * Properties of a serving node

    The theorems about the transition system of [Serve], from its refinement of
    [NodeLife] and from the history invariant of [ServeInv]. *)

From Stdlib Require Import Strings.Byte.
From stdpp Require Import base numbers list gmap strings relations.
From S2P Require Import Prelude Machine GoTime GoStrings Varint Frame Stream Capability.
From S2P Require Import Base58 Identity DidWeb Verifier Hello Handshake HandshakeConc Conn Dispatch NodeLife NodeStop.
From S2P Require Import Serve ServeRun ServeInv.
Open Scope Z_scope.

Section Facts.
Context `{HE : Ed25519} `{HN : NetEnv} `{HQ : Quic}.
Context (cfg : NodeConfig).

(** The Verifier a handshake uses. *)
Definition used (v : option Verifier) : Verifier := default NewVerifier v.

(** The handshake of a fresh server connection. *)
Lemma server_handshake_cases env e v r conn' w :
  Conn_Handshake env (Ok e) (mkConfig (cfg_Signer cfg) v (cfg_Capabilities cfg)) (new_conn false) = (r, conn', w) ->
  (w = v /\ ((exists err, r = Err err) \/
     exists p, r = Panic p /\ own_hello_panics env (mkConfig (cfg_Signer cfg) v (cfg_Capabilities cfg)) p)) \/
  exists f v', (readFrame e.1).1 = Ok f /\
    process_hello (he_Clock env) (cfg_Capabilities cfg) f (used v) = (r, v') /\
    w = match v with Some _ => Some v' | None => None end.
Proof.
  unfold Conn_Handshake. cbn [new_conn state isClient qc_AcceptStream].
  destruct (runHandshake env _ _) as [[r' qs] w'] eqn:E.
  apply runHandshake_cases in E. cbn [cfg_Verifier cfg_Capabilities fresh_stream st_in] in E.
  intros Hr. assert (r = r' /\ w = w') as [-> ->] by (destruct r'; by simplify_eq). exact E.
Qed.

(** A connection handshakes once. *)
Lemma handshake_once log c env e v r env' e' v' r' :
  log_ok cfg log -> EvHandshake c env e v r ∈ log -> EvHandshake c env' e' v' r' ∈ log ->
  env = env' /\ e = e' /\ v = v' /\ r = r'.
Proof.
  induction log as [|ev log IH]; [by intros _ ?%elem_of_nil|].
  intros [He Hl] [H1|H1]%elem_of_cons [H2|H2]%elem_of_cons.
  - by simplify_eq.
  - subst ev. destruct He as [Hno _]. by apply Hno in H2.
  - subst ev. destruct He as [Hno _]. by apply Hno in H1.
  - by apply IH.
Qed.

Lemma log_ok_elem log ev : log_ok cfg log -> ev ∈ log -> exists l1 past, log = l1 ++ ev :: past /\ event_ok cfg past ev.
Proof.
  intros Hl (l1 & past & ->)%list_elem_of_split. exists l1, past. split; [done|].
  by apply log_ok_at in Hl as [? _].
Qed.

Lemma handshaken_vouched log c env e v st :
  log_ok cfg log -> EvHandshake c env e v (Ok st) ∈ log ->
  exists f, (readFrame e.1).1 = Ok f /\ vouched (he_Clock env) (cfg_Capabilities cfg) (used v) f st.
Proof.
  intros Hl (l1 & past & _ & _ & conn' & w & H)%(log_ok_elem _ _ Hl).
  apply server_handshake_cases in H as [[_ [[? ?]|(? & ? & _)]]|(f & v' & Hf & Hp & _)]; [done..|].
  exists f. split; [done|]. by eapply process_hello_vouched.
Qed.
End Facts.

(** C3: every agent call is authentic.  In every interleaving of connections,
    operations, registrations, Listen and Stop: when the node calls an agent for
    an operation of connection [c], the agent had been registered under the ID
    that the peer's INVOKE names and is still the agent of that ID; connection
    [c] had completed its one and only handshake; the identity the agent is told
    is the NodeID that handshake established; and the peer's first frame on the
    control stream vouches for it ([vouched]: a HELLO that, from minor 2 on,
    carries a fresh signature block of that DID over all of it). *)
Theorem served_calls_authentic `{HE : Ed25519} `{HN : NetEnv} `{HQ : Quic} cfg s later c agent inv past :
  served cfg s -> sv_log s = later ++ EvCall c agent inv :: past ->
  EvRegister (inv_AgentID inv) agent ∈ past /\ sv_agents s !! inv_AgentID inv = Some agent /\
  exists env e v st f,
    EvHandshake c env e v (Ok st) ∈ past /\
    (forall env' e' v' r', EvHandshake c env' e' v' r' ∈ sv_log s ->
       env' = env /\ e' = e /\ v' = v /\ r' = Ok st) /\
    inv_PeerNodeID inv = PeerNodeID st /\ (readFrame e.1).1 = Ok f /\
    vouched (he_Clock env) (cfg_Capabilities cfg) (used v) f st.
Proof.
  intros Hs Hlog. pose proof (served_hist cfg s Hs) as Hi.
  pose proof (hi_log _ _ Hi) as Hl. rewrite Hlog in Hl.
  pose proof (log_ok_at _ _ _ _ Hl) as [(Hreg & st & (env & e & v & Hh) & Hp) Hpast].
  split; [done|]. split.
  { apply (hi_agents _ _ Hi). rewrite Hlog. set_solver. }
  destruct (handshaken_vouched cfg past c env e v st Hpast Hh) as (f & Hf & Hv).
  exists env, e, v, st, f. split_and!; try done. intros env' e' v' r' Hin. rewrite Hlog in Hin.
  eapply (handshake_once cfg (later ++ EvCall c agent inv :: past)); [done|done|]. set_solver.
Qed.

Lemma served_calls_authentic_witness :
  EvRegister (str "echo") echo_agent ∈ tail (sv_log echo_run) /\
  exists env e v st, EvHandshake 0 env e v (Ok st) ∈ tail (sv_log echo_run) /\
    PeerNodeID st = s_DID (p_signer party_a).
Proof.
  destruct (served_calls_authentic (HE := toy_ed25519) (HN := offline) (HQ := rfc9000) echo_cfg echo_run []
    0 echo_agent echo_invoke (tail (sv_log echo_run)) echo_run_served echo_run_log)
    as (H1 & _ & env & e & v & st & f & H2 & _ & H3 & _).
  split; [exact H1|]. exists env, e, v, st. split; [exact H2|]. symmetry. exact H3.
Defined.

(** ** Steps and Stop *)

Section Stop.
Context `{HE : Ed25519} `{HN : NetEnv} `{HQ : Quic}.
Context (cfg : NodeConfig).

(** The node's own steps, and those plus the returns of agents. *)
Definition sown (s s' : server) : Prop := exists l, own l = true /\ sstep cfg s l s'.
Definition sprogress (s s' : server) : Prop := exists l, own_or_agent l = true /\ sstep cfg s l s'.

(** A registered agent that the node called panics with [p] on its invocation. *)
Definition agent_panics (s : server) (p : panic) : Prop :=
  exists c op0 agent inv op op', Run_agent c op0 agent inv op ∈ sv_threads s /\
    EvRegister (inv_AgentID inv) agent ∈ sv_log s /\ agent inv op = (Panic p, op').

(** The process was ended by it. *)
Definition agent_crashed (s : server) : Prop := exists p, sv_crashed s = Some p /\ agent_panics s p.

(** A reachable state of a running process. *)
Definition up (s : server) : Prop := served cfg s /\ sv_crashed s = None.

Lemma sprogress_sim s s' :
  up s -> sprogress s s' -> agent_crashed s' \/ (up s' /\ progress (erase s) (erase s')).
Proof.
  intros [Hs Hup] (l & Hl & Hst). assert (served cfg s') as Hs' by (eapply rtc_r; [exact Hs|]; by exists l).
  destruct (sv_crashed s') as [p|] eqn:Hc.
  - left. pose proof (hi_ops _ _ (served_hist cfg s Hs)) as Hops.
    destruct Hst as [s|s|s|s|s t l s' ts pre post ? Ht Ha|s t l q pre post ? Ht Hp]; cbn in Hc; try congruence.
    + apply sact_crashed in Ha. congruence.
    + destruct Hp as [| |c op0 agent inv op op' q Ha]; try done.
      rewrite Ht in Hops. apply Forall_app in Hops as [_ [(_ & agents & Hr & Hd) _]%Forall_cons].
      apply op_dispatch_Some in Hd as [Hd _]. exists q. split; [done|]. exists c, op0, agent, inv, op, op'.
      split_and!; [cbn; rewrite Ht; set_solver|by apply Hr|done].
  - right. split; [done|]. destruct (sstep_erase cfg s l s' Hst Hc) as [[-> _]|Hn]; [done|]. by exists l.
Qed.

Lemma sprogress_moves s : up s -> (exists n, progress (erase s) n) -> exists s', sprogress s s'.
Proof.
  intros [Hs Hup] (n & l & Hl & Hst). destruct (sstep_progress cfg s l n) as [s' H']; [|done..|].
  - by eapply served_threads_wf.
  - exists s', l. by split.
Qed.
End Stop.

(** C17: the detailed node behaves as [NodeLife] says.  Forgetting the data, every
    state that the node reaches without a panic is reachable in [NodeLife] and
    each of its steps is a step there with the same label, RegisterAgent being
    invisible; conversely, whatever [NodeLife] allows the node to do by itself,
    or when an agent returns, the node can do. *)
Theorem serve_refines_node `{HE : Ed25519} `{HN : NetEnv} `{HQ : Quic} cfg s :
  up cfg s ->
  node_reachable (erase s) /\
  (forall l s', sstep cfg s l s' -> sv_crashed s' = None ->
     (l = Call /\ erase s' = erase s) \/ step (erase s) l (erase s')) /\
  (forall l n, own_or_agent l = true -> step (erase s) l n -> exists s', sstep cfg s l s').
Proof.
  intros [Hs Hup]. split_and!.
  - by eapply served_erase.
  - by apply sstep_erase.
  - intros l n. apply sstep_progress; [|done]. by eapply served_threads_wf.
Qed.

Lemma serve_refines_node_witness : node_reachable (erase echo_run).
Proof.
  apply (serve_refines_node (HE := toy_ed25519) (HN := offline) (HQ := rfc9000) echo_cfg echo_run).
  split; [exact echo_run_served|vm_compute; reflexivity].
Defined.

(** A handshake that waits for its peer's first frame stays where it is, whatever
    the node and its agents do. *)
Lemma sprogress_keeps_hello `{HE : Ed25519} `{HN : NetEnv} `{HQ : Quic} cfg s s' c e :
  sprogress cfg s s' -> Hello_at c e ∈ sv_threads s -> Hello_at c e ∈ sv_threads s'.
Proof.
  intros (l & Hl & Hst) Hin. destruct Hst as [| |s|s|s t l s' ts pre post ? Ht Ha|]; try done; [by right..|].
  cbn. rewrite Ht in Hin. rewrite !elem_of_app, elem_of_cons in Hin. rewrite !elem_of_app.
  destruct Hin as [Hin|[<-|Hin]]; [by left| |by do 2 right].
  destruct Ha as [Ha|[Ha|Ha]]; by inversion Ha; subst.
Qed.

(** C20: when Stop completes.  Take a serving node on which Stop has been called,
    and suppose that from then on nothing comes from outside: no call, and
    nothing from any peer, except that the running agents return.  If no
    handshake is waiting for its peer's first frame, then however the goroutines
    are scheduled, after finitely many steps every goroutine has ended and every
    call of Stop and Listen has returned (unless an agent panics, which ends the
    process), and at no point on the way can the node be stuck.  If a handshake
    is waiting, it still is after any number of steps, and the shutdown does not
    complete. *)
Theorem served_stop_completes `{HE : Ed25519} `{HN : NetEnv} `{HQ : Quic} cfg s :
  served cfg s -> sv_crashed s = None -> stopped (sv_node s) = true ->
  ((forall c e, Hello_at c e ∉ sv_threads s) ->
   inevitably (sprogress cfg) (fun s' => agent_crashed s' \/ sv_threads s' = []) s) /\
  (forall c e s', Hello_at c e ∈ sv_threads s -> rtc (sprogress cfg) s s' -> Hello_at c e ∈ sv_threads s').
Proof.
  intros Hs Hup Hst. split.
  2:{ intros c e s' Hin Hr. clear Hs Hup Hst. induction Hr as [s|s1 s2 s3 H12 _ IH]; [done|].
      apply IH. by eapply sprogress_keeps_hello. }
  intros Hno.
  eapply (inevitably_impl (sprogress cfg) (fun s' => agent_crashed s' \/ threads (erase s') = [])).
  { intros s' [?|E]; [by left|right]. cbn in E. by destruct (sv_threads s'). }
  apply (inevitably_sim progress (sprogress cfg) erase (up cfg) agent_crashed (fun n => threads n = []));
    [apply sprogress_sim|apply sprogress_moves|done|].
  apply stop_completes; [by eapply served_erase|done|].
  intros t (t' & -> & Ht')%list_elem_of_fmap [c E].
  pose proof (served_threads_wf cfg s Hs) as Hw. unfold threads_wf in Hw. rewrite Forall_forall in Hw.
  destruct (Hw t' Ht') as [Hd _]. destruct t'; cbn in E; subst; [done| |done..]. by eapply Hno.
Qed.

(** C21: Stop closes the connections of running operations.  Once Stop has been
    called on a serving node, then however the goroutines are scheduled, with no
    event from outside and while the agents keep running, after finitely many
    steps the node has closed the connection of every running agent. *)
Theorem served_stop_severs `{HE : Ed25519} `{HN : NetEnv} `{HQ : Quic} cfg s :
  served cfg s -> sv_crashed s = None -> stopped (sv_node s) = true ->
  inevitably (sown cfg) (fun s' => forall c op0 agent inv op,
    Run_agent c op0 agent inv op ∈ sv_threads s' -> conn_closed s' c) s.
Proof.
  intros Hs Hup Hst.
  assert (forall s s', up cfg s -> sown cfg s s' -> up cfg s' /\ own_step (erase s) (erase s')) as Hsim.
  { intros s1 s2 [H1 H2] (l & Hl & Hstep). assert (sv_crashed s2 = None) as Hc.
    { destruct Hstep as [| | | |s1 t l s' ts pre post ? Ht Ha|s1 t l q pre post ? Ht Hp]; try done.
      - cbn. by rewrite (sact_crashed _ _ _ _ _ _ Ha).
      - by destruct Hp. }
    split; [split; [eapply rtc_r; [exact H1|]; by exists l|done]|].
    destruct (sstep_erase cfg s1 l s2 Hstep Hc) as [[-> _]|Hn]; [done|]. by exists l. }
  eapply (inevitably_impl (sown cfg) (fun s' => up cfg s' /\
    (False \/ forall c, Op_agent c ∈ threads (erase s') -> c ∈ closed (erase s')))).
  { intros s' [[Hs' _] [[]|H]] c op0 agent inv op Hin. apply (served_closed cfg s' Hs').
    apply H. apply list_elem_of_fmap. exists (Run_agent c op0 agent inv op). done. }
  apply inevitably_inv; [intros s1 s2 H1 H2; by apply (Hsim s1 s2)|done|].
  apply (inevitably_sim own_step (sown cfg) erase (up cfg) (fun _ => False)
    (fun n => forall c, Op_agent c ∈ threads n -> c ∈ closed n)); [|..|done|].
  - intros s1 s2 H1 H2. right. by apply Hsim.
  - intros s1 [H1 H2] (n & l & Hl & Hn). destruct (sstep_progress cfg s1 l n) as [s2 H3];
      [by eapply served_threads_wf|done|unfold own_or_agent; by rewrite Hl|done|]. exists s2, l. by split.
  - apply stop_severs_operations; [by eapply served_erase|done].
Qed.

Lemma served_stop_completes_witness :
  inevitably (sprogress (HE := toy_ed25519) (HN := offline) (HQ := rfc9000) echo_cfg)
    (fun s' => agent_crashed s' \/ sv_threads s' = []) stop_run.
Proof.
  apply (served_stop_completes (HE := toy_ed25519) (HN := offline) (HQ := rfc9000) echo_cfg stop_run).
  - exact stop_run_served.
  - vm_compute. reflexivity.
  - vm_compute. reflexivity.
  - apply no_hello. vm_compute. reflexivity.
Defined.

Lemma served_stop_severs_witness :
  inevitably (sown (HE := toy_ed25519) (HN := offline) (HQ := rfc9000) echo_cfg)
    (fun s' => forall c op0 agent inv op,
       Run_agent c op0 agent inv op ∈ sv_threads s' -> conn_closed s' c) stop_run.
Proof.
  apply (served_stop_severs (HE := toy_ed25519) (HN := offline) (HQ := rfc9000) echo_cfg stop_run).
  - exact stop_run_served.
  - vm_compute. reflexivity.
  - vm_compute. reflexivity.
Defined.

(** ** Crashes *)


Section Crash.
Context `{HE : Ed25519} `{HN : NetEnv} `{HQ : Quic} `{HT : !NetTotal}.
Context (cfg : NodeConfig).


End Crash.




(** ** Replayed identities *)

Section Replays.
Context `{HE : Ed25519} `{HN : NetEnv} `{HQ : Quic}.
Context (cfg : NodeConfig).

(** The readings of the clock are in the range in which the window can be
    computed.  (Nothing is said of their order.) *)
Definition log_clocks_ok (w : Duration) (log : list history) : Prop :=
  forall c env e v r, EvHandshake c env e v r ∈ log -> clock_ok w (he_Clock env).

Definition clocks_until (T : Time) (log : list history) : Prop :=
  forall c env e v r, EvHandshake c env e v r ∈ log -> he_Clock env <= T.

(** The signature block with which the peer of a control stream identified
    itself. *)
Definition stream_block (e : ends) : option SignatureBlock :=
  match (readFrame e.1).1 with Ok f => hello_block f | _ => None end.

(** [v] will refuse the block of every completed handshake, up to a time [T] that
    no reading since then has passed. *)
Definition remembers (log : list history) (v : Verifier) : Prop :=
  forall since c env e v0 st past b T,
    log = since ++ EvHandshake c env e v0 (Ok st) :: past -> stream_block e = Some b ->
    he_Clock env <= T -> clocks_until T since -> spent v T b.

(** Every handshake found a Verifier that remembered those before it. *)
Fixpoint verifiers_ok (w : Duration) (log : list history) : Prop :=
  match log with
  | [] => True
  | EvHandshake _ _ _ v _ :: past => (exists v', v = Some v' /\ v_Window v' = w /\ remembers past v') /\
      verifiers_ok w past
  | _ :: past => verifiers_ok w past
  end.

Lemma clocks_until_cons T ev log : clocks_until T (ev :: log) -> clocks_until T log.
Proof. intros H c env e v r Hin. eapply H. by right. Qed.

Lemma remembers_cons ev log v :
  (forall c env e v0 r, ev <> EvHandshake c env e v0 r) -> remembers log v -> remembers (ev :: log) v.
Proof.
  intros Hne H [|ev' since] c env e v0 st past b T E Hb Hle Hs; injection E as -> ->.
  - by destruct (Hne c env e v0 (Ok st)).
  - eapply H; [done..|]. by eapply clocks_until_cons.
Qed.

(** One more handshake. *)
Lemma remembers_handshake w log c env e v r conn' w' :
  remembers log v -> v_Window v = w -> clock_ok w (he_Clock env) ->
  Conn_Handshake env (Ok e) (mkConfig (cfg_Signer cfg) (Some v) (cfg_Capabilities cfg)) (new_conn false) = (r, conn', w') ->
  exists v', w' = Some v' /\ v_Window v' = w /\ remembers (EvHandshake c env e (Some v) r :: log) v'.
Proof.
  intros Hr Hw Hck Hh.
  apply server_handshake_cases in Hh as [[-> Hfail]|(f & v' & Hf & Hp & ->)].
  - exists v. split_and!; try done.
    intros [|ev since] c1 env1 e1 v1 st1 past b T E Hb Hle Hs; injection E as E1 E2.
    + simplify_eq. by destruct Hfail as [[? ?]|(? & ? & _)].
    + eapply Hr; [done..|]. by eapply clocks_until_cons.
  - change (used (Some v)) with v in Hp. exists v'.
    pose proof (process_hello_Window (he_Clock env) (cfg_Capabilities cfg) f v) as Hwin.
    rewrite Hp in Hwin. split_and!; [done|by rewrite <-Hw|].
    intros [|ev since] c1 env1 e1 v1 st1 past b T E Hb Hle Hs; injection E as E1 E2.
    + simplify_eq. unfold stream_block in Hb. rewrite Hf in Hb. eapply spent_later; [exact Hle|].
      destruct (process_hello_accepted _ _ _ _ _ _ _ Hp Hb) as [msg Hv]. by eapply Verify_spends.
    + subst ev. pose proof (process_hello_spent_until (he_Clock env) T (cfg_Capabilities cfg) f v b) as Hk.
      rewrite Hp in Hk. apply Hk; [by rewrite Hw|eapply Hs; by left|].
      eapply Hr; [done..|]. by eapply clocks_until_cons.
Qed.

Lemma verifiers_at w later c env e v r past :
  verifiers_ok w (later ++ EvHandshake c env e v r :: past) ->
  (exists v', v = Some v' /\ v_Window v' = w /\ remembers past v') /\ verifiers_ok w past.
Proof. induction later as [|ev later IH]; [done|]. cbn. destruct ev; intros H; apply IH; tauto. Qed.

(** A completed handshake verified the block of its HELLO, within the window. *)
Lemma accepted_block env e v st conn' w b :
  Conn_Handshake env (Ok e) (mkConfig (cfg_Signer cfg) (Some v) (cfg_Capabilities cfg)) (new_conn false) =
    (Ok st, conn', w) ->
  stream_block e = Some b -> clock_ok (v_Window v) (he_Clock env) ->
  he_Clock env - TimestampMS b * 1000000 <= v_Window v /\ recorded v (did_of b) (Nonce b) = None.
Proof.
  intros [[_ [[? ?]|(? & ? & _)]]|(f & v' & Hf & Hp & _)]%server_handshake_cases Hb Hc; [done..|].
  unfold stream_block in Hb. rewrite Hf in Hb. change (used (Some v)) with v in Hp.
  destruct (process_hello_accepted _ _ _ _ _ _ _ Hp Hb) as [msg Hv].
  apply Verify_Ok_inv in Hv as (_ & Hskew & _ & Hrec & _). apply check_and_record_Ok in Hrec as (Hnone & _).
  split; [|done]. destruct (Z.le_gt_cases (he_Clock env - TimestampMS b * 1000000) (v_Window v)) as [|Hgt]; [done|].
  apply abs_skew_expired in Hgt; [lia|by destruct Hc].
Qed.

(** The Verifier of a node that has one. *)
Definition replay_inv (w : Duration) (s : server) : Prop :=
  log_clocks_ok w (sv_log s) ->
  verifiers_ok w (sv_log s) /\
  exists v, sv_verifier s = Some v /\ v_Window v = w /\ remembers (sv_log s) v.

Lemma replay_other w s s' :
  sv_verifier s' = sv_verifier s ->
  (sv_log s' = sv_log s \/ exists ev, sv_log s' = ev :: sv_log s /\ forall c env e v r, ev <> EvHandshake c env e v r) ->
  replay_inv w s -> replay_inv w s'.
Proof.
  intros Hv [Hl|(ev & Hl & Hne)] Hi; unfold replay_inv in *; rewrite Hl, Hv; [done|].
  intros Hc. destruct Hi as (H1 & v & H2 & H3 & H4).
  { intros c env e v r Hin. eapply Hc. by right. }
  split.
  - destruct ev; try done. by destruct (Hne c env e v0 r).
  - exists v. split_and!; try done. by apply remembers_cons.
Qed.

Lemma replay_handshake w s (s' : server) c env e r conn' w' :
  sv_log s' = EvHandshake c env e (sv_verifier s) r :: sv_log s -> sv_verifier s' = w' ->
  Conn_Handshake env (Ok e) (config cfg s) (new_conn false) = (r, conn', w') ->
  replay_inv w s -> replay_inv w s'.
Proof.
  unfold replay_inv, config. intros -> -> Hh Hi Hc.
  destruct Hi as (H1 & v & H2 & H3 & H4); [intros c1 env1 e1 v1 r1 Hin; eapply Hc; by right|]. rewrite H2 in *.
  destruct (remembers_handshake w (sv_log s) c env e v r conn' w' H4 H3) as (v' & -> & H5 & H6);
    [eapply Hc; by left|done|].
  split; [split; [by exists v|done]|by exists v'].
Qed.

Lemma sstep_replay w s l s' : served cfg s -> replay_inv w s -> sstep cfg s l s' -> replay_inv w s'.
Proof.
  intros Hs Hi Hst. pose proof (hi_fresh _ _ (served_hist cfg s Hs)) as Hf.
  destruct Hst as [| |s id a tbl ? ?|s id a err tbl ? ?|s t l s' ts pre post ? Ht Ha|]; try exact Hi.
  { eapply replay_other; [..|exact Hi]; [done|]. right. by eexists. }
  assert (forall c e, Hello_at c e = t -> forall conn, sv_conns s !! c = Some conn -> conn = new_conn false) as Hfr.
  { intros c e <- conn Hc. destruct (Hf (Hello_at c e) c) as [E _]; [rewrite Ht; set_solver|done|]. congruence. }
  destruct Ha as [Ha|[Ha|Ha]].
  - destruct Ha; (eapply replay_other; [..|exact Hi]; [done|by left]).
  - destruct Ha as [| |c env e conn err conn' w' _ Hc Hh|c env e conn st conn' w' _ Hc Hh| | | | | |];
      try (eapply replay_other; [..|exact Hi]; [done|by left]);
      rewrite (Hfr c e eq_refl _ Hc) in Hh; (eapply (replay_handshake w s); [done|done|exact Hh|exact Hi]).
  - destruct Ha; (eapply replay_other; [..|exact Hi]; [done|]); first [by left|right; eexists; by split].
Qed.

Lemma served_replay v0 s : cfg_Verifier cfg = Some v0 -> served cfg s -> replay_inv (v_Window v0) s.
Proof.
  intros Hv Hs. apply (served_invariant cfg (fun s => served cfg s /\ replay_inv (v_Window v0) s)); [| |done].
  - split; [apply rtc_refl|]. intros _. split; [done|]. exists v0. split_and!; try done.
    intros [|] c env e v st past b T [=].
  - intros s1 l s2 [H1 H2] Hst. split; [eapply rtc_r; [exact H1|]; by exists l|by eapply sstep_replay].
Qed.
End Replays.

(** Whether a handshake read the clock after [T]. *)
Definition read_after (T : Time) (ev : history) : Prop :=
  match ev with EvHandshake _ env _ _ _ => T < he_Clock env | _ => False end.

#[export] Instance read_after_dec T ev : Decision (read_after T ev).
Proof. destruct ev; cbn; apply _. Defined.

(** C18: what a replayed identity takes.  On a node whose config has a Verifier,
    suppose that two connections complete their handshake with HELLOs whose
    signature blocks have the same DID, nonce and timestamp, one taking effect on
    the Verifier after the other, in whatever interleaving.  Then the second had
    read the clock before the end of the block's window, and between the two
    another handshake took effect that had read it after that end.  So a replay
    needs a handshake that is overtaken, between reading the clock and taking the
    Verifier's mutex, by one that read the clock later; as long as handshakes
    take effect in the order of their readings there is none. *)
Theorem session_replay_needs_race `{HE : Ed25519} `{HN : NetEnv} `{HQ : Quic} cfg v0 s
    later c2 env2 e2 v2 st2 between c1 env1 e1 v1 st1 past b1 b2 :
  cfg_Verifier cfg = Some v0 -> served cfg s -> log_clocks_ok (v_Window v0) (sv_log s) ->
  sv_log s = later ++ EvHandshake c2 env2 e2 v2 (Ok st2) :: between ++ EvHandshake c1 env1 e1 v1 (Ok st1) :: past ->
  stream_block e1 = Some b1 -> stream_block e2 = Some b2 -> same_id b1 b2 ->
  exists c3 env3 e3 v3 r3, EvHandshake c3 env3 e3 v3 r3 ∈ between /\
    he_Clock env2 - TimestampMS b2 * 1000000 <= v_Window v0 < he_Clock env3 - TimestampMS b2 * 1000000.
Proof.
  intros Hv Hs Hck Hlog Hb1 Hb2 (Hd & Hn & Hts).
  pose proof (hi_log _ _ (served_hist cfg s Hs)) as Hl.
  destruct (served_replay cfg v0 s Hv Hs Hck) as [Hvs _]. rewrite Hlog in Hl, Hvs, Hck.
  assert (clock_ok (v_Window v0) (he_Clock env2) /\ clock_ok (v_Window v0) (he_Clock env1)) as [Hc2 Hc1]
    by (split; [apply (Hck c2 env2 e2 v2 (Ok st2))|apply (Hck c1 env1 e1 v1 (Ok st1))]; set_solver).
  pose proof (log_ok_at _ _ _ _ Hl) as [(_ & conn2 & w2 & Hh2) Hl1].
  apply log_ok_at in Hl1 as [(_ & conn1 & w1 & Hh1) _].
  apply verifiers_at in Hvs as [(v2' & -> & Hw2 & Hr) Hvs].
  apply verifiers_at in Hvs as [(v1' & -> & Hw1 & _) _]. rewrite <-Hw2 in Hc2. rewrite <-Hw1 in Hc1.
  destruct (accepted_block cfg _ _ _ _ _ _ _ Hh1 Hb1 Hc1) as [Hin1 _].
  destruct (accepted_block cfg _ _ _ _ _ _ _ Hh2 Hb2 Hc2) as [Hin2 Hnone].
  rewrite Hw1, Hts in Hin1. rewrite Hw2 in Hin2.
  set (T := TimestampMS b2 * 1000000 + v_Window v0).
  destruct (decide (Exists (read_after T) between)) as [(ev & Hev & HT)%Exists_exists|Hno].
  { destruct ev as [|c3 env3 e3 v3 r3| |]; [done| |done..]. exists c3, env3, e3, v3, r3.
    split; [done|]. cbn in HT. subst T. lia. }
  assert (spent v2' T b1) as [Hs1|Hs1].
  - eapply Hr; [done..|subst T; lia|]. intros c env e v r Hin.
    destruct (Z.le_gt_cases (he_Clock env) T) as [|Hgt]; [done|]. destruct Hno.
    apply Exists_exists. exists (EvHandshake c env e v r). split; [done|]. cbn. lia.
  - rewrite Hd, Hn in Hs1. congruence.
  - rewrite Hw2, Hts in Hs1. subst T. lia.
Qed.

Lemma session_replay_needs_race_witness :
  exists b, stream_block (race_ends first_hello) = Some b /\
    exists c3 env3 e3 v3 r3, EvHandshake c3 env3 e3 v3 r3 ∈
      [EvHandshake 1 (race_env (300001 * 1000000)) (race_ends other_hello) (race_verifier 1) (Ok race_state)] /\
      300000 * 1000000 - TimestampMS b * 1000000 <= ReplayWindow < he_Clock env3 - TimestampMS b * 1000000.
Proof.
  destruct (stream_block (race_ends first_hello)) as [b|] eqn:E; [|vm_compute in E; discriminate E].
  exists b. split; [reflexivity|].
  apply (session_replay_needs_race (HE := toy_ed25519) (HN := offline) (HQ := rfc9000) echo_cfg
    (p_verifier party_b) race_run [] 2 (race_env (300000 * 1000000)) (race_ends first_hello) (race_verifier 2)
    race_state
    [EvHandshake 1 (race_env (300001 * 1000000)) (race_ends other_hello) (race_verifier 1) (Ok race_state)]
    0 (race_env 0) (race_ends first_hello) (race_verifier 0) race_state [] b b).
  - reflexivity.
  - exact race_run_served.
  - intros c env e v r Hin. rewrite race_run_log in Hin. apply race_log_env in Hin.
    destruct Hin as [->|[->| ->]]; vm_compute; intuition congruence.
  - exact race_run_log.
  - exact E.
  - exact E.
  - repeat split.
Defined.
