(* ===== verification/Addressing.v ===== *)
(** * Address resolution

    [addressing.go], the Resolver: DIDs and handles to peer addresses, through
    DNS TXT records, the well-known document and did:web. *)

From Stdlib Require Import Strings.Byte.
From stdpp Require Import base numbers list gmap strings.
From S2P Require Import Prelude Machine GoStrings GoJson Varint Frame Stream Identity DidWeb GoUrl.
Open Scope Z_scope.

Record Address := mkAddress {
  a_DID : bytes;
  a_Endpoint : bytes;
  a_AgentID : bytes;
  a_Accept : list bytes;
}.

(** ** Parsing *)

Definition parseHandle (s : bytes) : go (bytes * bytes) :=
  let s := TrimPrefix s [x40] in
  if bool_decide (s = []) then Err (Errorf "%w: empty" (Some (Sentinel ErrMalformedHandle)) []) else
  match IndexByte s x40 with
  | None => Err (Errorf "%w: missing @: %q" (Some (Sentinel ErrMalformedHandle)) [ArgStr s])
  | Some at_ =>
      let local := take at_ s in
      let domain := drop (at_ + 1) s in
      if bool_decide (local = []) || bool_decide (domain = []) then
        Err (Errorf "%w: empty part: %q" (Some (Sentinel ErrMalformedHandle)) [ArgStr s])
      else if bool_decide (x40 ∈ domain) then
        Err (Errorf "%w: too many @: %q" (Some (Sentinel ErrMalformedHandle)) [ArgStr s])
      else Ok (local, domain)
  end.

Definition parseTXTDIDValue (s : bytes) : go bytes :=
  if negb (HasPrefix s (str "did=")) then
    Err (Errorf "aire: TXT record missing did= prefix: %q" None [ArgStr s])
  else
  let did := TrimPrefix s (str "did=") in
  if bool_decide (did = []) || negb (HasPrefix did (str "did:")) then
    Err (Errorf "aire: TXT record value is not a DID: %q" None [ArgStr s])
  else Ok did.

Definition handle_uri (local domain : bytes) : bytes :=
  str "aire://" ++ local ++ str "@" ++ domain.

Definition verifyAlsoKnownAs (doc : didDocument) (local domain : bytes) : go unit :=
  let expected := handle_uri local domain in
  if bool_decide (expected ∈ doc_AlsoKnownAs doc) then Ok tt
  else Err (Errorf "%w: expected %s in alsoKnownAs" (Some (Sentinel ErrAlsoKnownAsMismatch))
              [ArgStr expected]).

Definition parseAIREURI (s : bytes) : go bytes :=
  if bool_decide (s = []) then Err (newError "aire: empty URI") else
  u ← on_err (fun e => Errorf "aire: parse URI %q: %w" (Some e) [ArgStr s]) (url_Parse s);
  if negb (bool_decide (u_Scheme u = str "aire")) then
    Err (Errorf "aire: not an aire URI: %q" None [ArgStr s])
  else if bool_decide (u_Host u = []) then
    Err (Errorf "aire: empty host in URI: %q" None [ArgStr s])
  else if bool_decide (Port u = []) then Ok (u_Host u ++ str ":4433")
  else Ok (u_Host u).

(** The inner loop of pickAIREv1: the first endpoint whose URI parses. *)
Fixpoint pick_endpoint (eps : list serviceEndpoint) (defaultAgentID : bytes) : option Address :=
  match eps with
  | [] => None
  | ep :: eps =>
      match parseAIREURI (ep_URI ep) with
      | Ok endpoint =>
          let agentID := if bool_decide (ep_AgentID ep = []) then defaultAgentID else ep_AgentID ep in
          Some (mkAddress [] endpoint agentID (ep_Accept ep))
      | _ => pick_endpoint eps defaultAgentID
      end
  end.

Fixpoint pick_service (svcs : list serviceEntry) (defaultAgentID : bytes) : option Address :=
  match svcs with
  | [] => None
  | svc :: svcs =>
      if negb (bool_decide (svc_Type svc = str "AIREv1")) then pick_service svcs defaultAgentID
      else
      match pick_endpoint (svc_ServiceEndpoint svc) defaultAgentID with
      | Some addr => Some addr
      | None => pick_service svcs defaultAgentID
      end
  end.

Definition pickAIREv1 (doc : didDocument) (defaultAgentID : bytes) : go Address :=
  match pick_service (doc_Service doc) defaultAgentID with
  | Some addr => Ok addr
  | None => Err ErrNoAIREv1Service
  end.

(** [strings.SplitN(did, ":", 3)] has a second part exactly when there is a
    colon; that part ends at the next one. *)
Definition methodOf (did : bytes) : bytes :=
  match Cut did x3a with
  | (_, rest, true) => str "did:" ++ (Cut rest x3a).1.1
  | (_, _, false) => did
  end.

(** ** Resolution *)

Section Resolver.
Context `{HN : NetEnv}.

Definition resolveDIDWeb (r : Resolver) (did defaultAgentID : bytes) : go (Address * didDocument) :=
  docURL ← didWebToURL did;
  doc ← fetchDIDDocument r docURL;
  addr ← pickAIREv1 doc defaultAgentID;
  Ok (mkAddress did (a_Endpoint addr) (a_AgentID addr) (a_Accept addr), doc).

Definition resolveDID (r : Resolver) (did defaultAgentID : bytes) : go (Address * didDocument) :=
  if HasPrefix did (str "did:web:") then resolveDIDWeb r did defaultAgentID
  else if HasPrefix did (str "did:key:") then
    Err (Errorf "%w: did:key has no service entry; provide an explicit endpoint"
           (Some (Sentinel ErrUnsupportedDIDMethod)) [])
  else Err (Errorf "%w: %s" (Some (Sentinel ErrUnsupportedDIDMethod)) [ArgStr (methodOf did)]).

Definition resolveHandleViaTXT (r : Resolver) (local domain : bytes) : go bytes :=
  let name := str "_aire." ++ local ++ str "." ++ domain in
  records ← lookupTXT r name;
  match records with
  | [] => Err (Errorf "aire: no TXT records at %s" None [ArgStr name])
  | [rec] => parseTXTDIDValue rec
  | _ => Err (Errorf "aire: multiple TXT records at %s; ambiguous" None [ArgStr name])
  end.

Definition resolveHandleViaWellKnown (r : Resolver) (local domain : bytes) : go bytes :=
  let wkURL := str "https://" ++ domain ++ str "/.well-known/aire-did?name=" ++ QueryEscape local in
  http_NewRequest wkURL;;
  resp ← on_err (fun e => Errorf "aire: fetch %s: %w" (Some e) [ArgStr wkURL]) (httpClient r wkURL);
  if negb (StatusCode resp =? 200) then
    Err (Errorf "aire: well-known %s: status %d" None [ArgStr wkURL; ArgInt (StatusCode resp)])
  else
  body ← on_err (fun e => Errorf "aire: read %s: %w" (Some e) [ArgStr wkURL])
           (ReadAll (LimitReader (Body resp) 4096));
  let did := TrimRight_newline (TrimSpace body) in
  if bool_decide (did = []) || negb (HasPrefix did (str "did:")) then
    Err (Errorf "aire: well-known %s: body is not a DID: %q" None [ArgStr wkURL; ArgStr body])
  else Ok did.

Definition resolveHandle (r : Resolver) (local domain : bytes) : go bytes :=
  match resolveHandleViaTXT r local domain with
  | Ok did => Ok did
  | Err _ => resolveHandleViaWellKnown r local domain
  | Panic p => Panic p
  end.

Definition Resolve (r : Resolver) (ref : bytes) : go Address :=
  if HasPrefix ref (str "did:") then
    '(addr, _) ← resolveDID r ref [];
    Ok addr
  else
  '(local, domain) ← parseHandle ref;
  did ← resolveHandle r local domain;
  '(addr, doc) ← resolveDID r did local;
  verifyAlsoKnownAs doc local domain;;
  Ok addr.

(** The package-level Resolve uses a zero Resolver. *)
Definition Resolve_default (ref : bytes) : go Address := Resolve (mkResolver None None) ref.
End Resolver.

(** ** Examples from the tests *)

Example uri_port : parseAIREURI (str "aire://host.example.com:4433") = Ok (str "host.example.com:4433").
Proof. vm_compute. reflexivity. Qed.
Example uri_no_port : parseAIREURI (str "aire://host.example.com") = Ok (str "host.example.com:4433").
Proof. vm_compute. reflexivity. Qed.
Example uri_ipv6 : parseAIREURI (str "aire://[2001:db8::1]:5000") = Ok (str "[2001:db8::1]:5000").
Proof. vm_compute. reflexivity. Qed.
Example uri_bad : (fun s => is_ok (parseAIREURI (str s))) <$> [""%string; "https://x"; "aire://"; "not a url"]%string
  = [false; false; false; false].
Proof. vm_compute. reflexivity. Qed.

(** Two URIs without a host name that are accepted, and the endpoints they
    yield. *)
Example uri_empty_host : parseAIREURI (str "aire://:5000") = Ok (str ":5000").
Proof. vm_compute. reflexivity. Qed.
Example uri_empty_port : parseAIREURI (str "aire://host.example.com:") = Ok (str "host.example.com::4433").
Proof. vm_compute. reflexivity. Qed.

(** ** Handles *)

Lemma TrimPrefix_cases s c :
  (exists t, s = c :: t /\ TrimPrefix s [c] = t) \/ (head s <> Some c /\ TrimPrefix s [c] = s).
Proof.
  unfold TrimPrefix. destruct (HasPrefix s [c]) eqn:E.
  - left. apply HasPrefix_true in E as [t ->]. exists t. split; [done|]. apply drop_0.
  - right. split; [|done]. intros H. destruct s as [|b s]; simplify_eq/=.
    pose proof (HasPrefix_app [c] s) as Hp. cbn [app] in Hp. congruence.
Qed.

(** The handles: [local@domain], or with one more ['@'] in front. *)
Definition is_handle (s local domain : bytes) : Prop :=
  local <> [] /\ domain <> [] /\ x40 ∉ local /\ x40 ∉ domain /\
  (s = local ++ x40 :: domain \/ s = x40 :: local ++ x40 :: domain).

Lemma parseHandle_body s local domain :
  local <> [] -> domain <> [] -> x40 ∉ local -> x40 ∉ domain ->
  TrimPrefix s [x40] = local ++ x40 :: domain -> parseHandle s = Ok (local, domain).
Proof.
  intros H1 H2 H3 H4 E. unfold parseHandle. rewrite E.
  rewrite bool_decide_eq_false_2 by (by destruct local).
  rewrite IndexByte_app by done. rewrite take_app_length.
  replace (drop (length local + 1) (local ++ x40 :: domain)) with domain
    by (by rewrite <-drop_drop, drop_app_length).
  by rewrite !bool_decide_eq_false_2 by done.
Qed.

Lemma parseHandle_Ok s local domain :
  parseHandle s = Ok (local, domain) -> is_handle s local domain.
Proof.
  intros E.
  unfold parseHandle in E. case_bool_decide; [done|].
  destruct (IndexByte (TrimPrefix s [x40]) x40) as [i|] eqn:Hi; [|done].
  apply IndexByte_split in Hi as (l & d & Et & Hl & E1 & E2).
  rewrite <-Nat.add_1_r in E2. rewrite E1, E2 in E.
  destruct (bool_decide (l = []) || bool_decide (d = [])) eqn:Hne; [done|]. zbool.
  case_bool_decide; [done|]. simplify_eq. split_and!; try done.
  destruct (TrimPrefix_cases s x40) as [(t & -> & Ht)|[_ Ht]]; [right|left]; congruence.
Qed.

Lemma parseHandle_handle s local domain : is_handle s local domain -> parseHandle s = Ok (local, domain).
Proof.
  intros (H1 & H2 & H3 & H4 & Hs). apply parseHandle_body; try done.
  destruct local as [|b local]; [done|].
  destruct (TrimPrefix_cases s x40) as [(t & -> & Ht)|[Hh Ht]]; rewrite Ht.
  - destruct Hs as [Hs|Hs]; simplify_eq/=; [set_solver|done].
  - destruct Hs as [->| ->]; [done|by destruct Hh].
Qed.

(** ParseHandle accepts exactly the handles local@domain, with or without a
    leading '@', whose two parts are non-empty and contain no '@', and returns
    those parts; every other string is an ErrMalformedHandle. *)
Lemma parseHandle_exact s :
  match parseHandle s with
  | Ok (local, domain) => is_handle s local domain
  | Err e => errors_Is e ErrMalformedHandle = true /\ forall local domain, ~ is_handle s local domain
  | Panic _ => False
  end.
Proof.
  destruct (parseHandle s) as [[local domain]|e|p] eqn:E.
  - by apply parseHandle_Ok.
  - split.
    + unfold parseHandle in E. repeat case_match; by simplify_eq.
    + intros local domain Hh%parseHandle_handle. congruence.
  - unfold parseHandle in E. by repeat case_match.
Qed.

(** ** Endpoints *)

Lemma LastIndexByte_Some s c i :
  LastIndexByte s c = Some i -> exists p q, s = p ++ c :: q /\ length p = i /\ c ∉ q.
Proof.
  revert i. induction s as [|b s IH]; intros i; [done|]. cbn [LastIndexByte].
  destruct (LastIndexByte s c) as [j|] eqn:E.
  - intros [= <-]. destruct (IH j eq_refl) as (p & q & -> & <- & ?). by exists (b :: p), q.
  - case_bool_decide; [|done]. intros [= <-]. subst b. exists [], s. split_and!; try done.
    clear IH. intros Hin. induction s as [|b s IHs]; [by apply elem_of_nil in Hin|].
    cbn [LastIndexByte] in E. destruct (LastIndexByte s c); [done|].
    case_bool_decide; [done|]. apply elem_of_cons in Hin as [?|Hin]; [congruence|auto].
Qed.

Lemma LastIndexByte_app p c q : c ∉ q -> LastIndexByte (p ++ c :: q) c = Some (length p).
Proof.
  intros Hq. induction p as [|b p IH]; cbn [app LastIndexByte length].
  - assert (LastIndexByte q c = None) as ->.
    { destruct (LastIndexByte q c) as [i|] eqn:E; [|done].
      apply LastIndexByte_Some in E as (x & y & -> & _). set_solver. }
    by rewrite bool_decide_eq_true_2.
  - by rewrite IH.
Qed.

(** A host with an explicit port. *)
Definition has_port (host : bytes) : Prop :=
  exists h port, host = h ++ x3a :: port /\ port <> [] /\ Forall (fun c => is_number c = true) port.

Lemma number_not_colon port : Forall (fun c => is_number c = true) port -> x3a ∉ port.
Proof. intros H Hin. rewrite Forall_forall in H. by specialize (H _ Hin). Qed.

Lemma Port_spec u : Port u <> [] <-> has_port (u_Host u).
Proof.
  unfold Port, has_port. split.
  - destruct (LastIndexByte (u_Host u) x3a) as [i|] eqn:E; [|done].
    apply LastIndexByte_Some in E as (p & q & -> & <- & Hq).
    rewrite <-drop_drop, !drop_app_length. change (drop 1 (x3a :: q)) with q.
    cbn [validOptionalPort]. rewrite bool_decide_eq_true_2 by done. cbn [andb].
    destruct (forallb is_number q) eqn:Hd; [|done]. intros Hne. exists p, q. split_and!; try done.
    rewrite forallb_forall in Hd. apply Forall_forall. intros c Hc. apply Hd.
    by apply list_elem_of_In.
  - intros (h & port & -> & Hne & Hd). rewrite LastIndexByte_app by (by apply number_not_colon).
    rewrite <-drop_drop, !drop_app_length. cbn [validOptionalPort].
    rewrite bool_decide_eq_true_2 by done.
    rewrite (proj2 (forallb_forall _ _)); [done|].
    intros c Hc. rewrite Forall_forall in Hd. apply Hd. by apply list_elem_of_In.
Qed.

(** C39: the endpoint of an AIRE URI.  parseAIREURI succeeds exactly on the URIs
    that parse with scheme aire and a non-empty authority host, and returns the
    host as it stands if it carries an explicit (numeric, non-empty) port and
    the host with ":4433" appended otherwise. *)
Theorem parseAIREURI_endpoint s ep :
  parseAIREURI s = Ok ep <->
  exists u, s <> [] /\ url_Parse s = Ok u /\ u_Scheme u = str "aire" /\ u_Host u <> [] /\
    ((has_port (u_Host u) /\ ep = u_Host u) \/
     (~ has_port (u_Host u) /\ ep = u_Host u ++ str ":4433")).
Proof.
  unfold parseAIREURI. case_bool_decide as Hs; [split; [done|by intros (u & ? & _)]|].
  rewrite bind_Ok. setoid_rewrite on_err_Ok. split.
  - intros (u & Hu & E). exists u. case_bool_decide as Hsc; [|done]. cbn [negb] in E.
    case_bool_decide as Hh; [done|]. split_and!; try done. rewrite <-Port_spec.
    case_bool_decide as Hp; simplify_eq; [right|left]; split; try done. by intros [].
  - intros (u & _ & Hu & Hsc & Hh & Hep). exists u. split; [done|].
    rewrite bool_decide_eq_true_2 by done. cbn [negb]. rewrite bool_decide_eq_false_2 by done.
    rewrite <-Port_spec in Hep. case_bool_decide as Hp.
    + destruct Hep as [[? _]|[_ ->]]; done.
    + destruct Hep as [[_ ->]|[? _]]; [done|]. by destruct (H Hp).
Qed.

(** ** Handles are verified in both directions *)

Lemma pick_endpoint_Some eps d addr :
  pick_endpoint eps d = Some addr ->
  exists ep, ep ∈ eps /\ parseAIREURI (ep_URI ep) = Ok (a_Endpoint addr) /\
    a_Accept addr = ep_Accept ep /\
    a_AgentID addr = (if bool_decide (ep_AgentID ep = []) then d else ep_AgentID ep).
Proof.
  induction eps as [|ep eps IH]; [done|]. cbn [pick_endpoint].
  destruct (parseAIREURI (ep_URI ep)) as [endpoint|?|?] eqn:E.
  - intros [= <-]. exists ep. split_and!; try done. set_solver.
  - intros (ep' & ? & ?)%IH. exists ep'. split; [set_solver|done].
  - intros (ep' & ? & ?)%IH. exists ep'. split; [set_solver|done].
Qed.

(** The address a document gives: an endpoint of one of its AIREv1 services. *)
Definition serves (doc : didDocument) (d : bytes) (addr : Address) : Prop :=
  exists svc ep, svc ∈ doc_Service doc /\ svc_Type svc = str "AIREv1" /\
    ep ∈ svc_ServiceEndpoint svc /\ parseAIREURI (ep_URI ep) = Ok (a_Endpoint addr) /\
    a_Accept addr = ep_Accept ep /\
    a_AgentID addr = (if bool_decide (ep_AgentID ep = []) then d else ep_AgentID ep).

Lemma pickAIREv1_serves doc d addr : pickAIREv1 doc d = Ok addr -> serves doc d addr.
Proof.
  unfold pickAIREv1, serves. destruct (pick_service _ d) as [a|] eqn:E; [|done].
  intros [= <-]. induction (doc_Service doc) as [|svc svcs IH]; [done|]. cbn [pick_service] in E.
  case_bool_decide as Ht; cbn [negb] in E.
  - destruct (pick_endpoint _ d) as [a'|] eqn:Ep; simplify_eq.
    + apply pick_endpoint_Some in Ep as (ep & ? & ?). exists svc, ep. set_solver.
    + destruct (IH E) as (svc' & ep & ? & ?). exists svc', ep. set_solver.
  - destruct (IH E) as (svc' & ep & ? & ?). exists svc', ep. set_solver.
Qed.

Lemma resolveDID_Ok `{HN : NetEnv} r did d addr doc :
  resolveDID r did d = Ok (addr, doc) ->
  HasPrefix did (str "did:web:") = true /\ a_DID addr = did /\ serves doc d addr /\
  exists url, didWebToURL did = Ok url /\ fetchDIDDocument r url = Ok doc.
Proof.
  unfold resolveDID. destruct (HasPrefix did (str "did:web:")); [|by destruct (HasPrefix did (str "did:key:"))].
  intros (url & Hu & (doc' & Hf & (a & Hp & [= <- <-])%bind_Ok)%bind_Ok)%bind_Ok.
  apply pickAIREv1_serves in Hp. eauto 10.
Qed.

(** C26: a handle resolves only with consent from both sides.  If Resolve
    succeeds on a reference that is not a DID, the reference is a handle
    local@domain; the DID in the address is a did:web that the domain's TXT
    record or well-known document gave for it; the DID Document fetched for that
    DID lists aire://local@domain in alsoKnownAs; and the endpoint, agent ID and
    versions come from one of that document's AIREv1 services, the local part
    being the agent ID when the service names none. *)
Theorem handle_resolution_is_bidirectional `{HN : NetEnv} r ref addr :
  HasPrefix ref (str "did:") = false -> Resolve r ref = Ok addr ->
  exists local domain url doc,
    is_handle ref local domain /\ resolveHandle r local domain = Ok (a_DID addr) /\
    HasPrefix (a_DID addr) (str "did:web:") = true /\
    didWebToURL (a_DID addr) = Ok url /\ fetchDIDDocument r url = Ok doc /\
    handle_uri local domain ∈ doc_AlsoKnownAs doc /\ serves doc local addr.
Proof.
  intros Hd E. unfold Resolve in E. rewrite Hd in E.
  apply bind_Ok in E as ([local domain] & Hh & E). apply bind_Ok in E as (did & Hres & E).
  apply bind_Ok in E as ([addr' doc] & Hdid & E). apply bind_Ok in E as ([] & Ha & [= <-]).
  assert (is_handle ref local domain) as Hhandle.
  { pose proof (parseHandle_Ok ref local domain Hh). done. }
  apply resolveDID_Ok in Hdid as (Hw & <- & Hs & url & Hu & Hf).
  exists local, domain, url, doc. split_and!; try done.
  unfold verifyAlsoKnownAs in Ha. by case_bool_decide.
Qed.

(** A small world: one TXT record and one DID Document. *)
Definition demo_doc : didDocument :=
  mkDoc (str "did:web:aire.example.com") [str "aire://summarizer@aire.example.com"]
    [mkService (str "#aire") (str "AIREv1")
       [mkEndpoint (str "aire://aire.example.com") [str "aire/v0.2"] []]]
    [mkVM (str "did:web:aire.example.com#key-1") (str "Ed25519VerificationKey2020")
       (str "did:web:aire.example.com") (encodeMultibaseEd25519 (toy_public (repeat x0b 32)))].

Definition demo_members : list (bytes * json) :=
  (str "@context", JStr (str "https://www.w3.org/ns/did/v1")) :: reverse (doc_members demo_doc).

Definition demo_net : NetEnv := {|
  http_NewRequest _ := Ok tt;
  http_DefaultDo url :=
    if bool_decide (url = str "https://aire.example.com/.well-known/did.json")
    then Ok (mkResponse 200 (mkReader (print_json (JObj demo_members)) EOF)) else Err (External 0);
  net_LookupTXT name :=
    if bool_decide (name = str "_aire.summarizer.aire.example.com")
    then Ok [str "did=did:web:aire.example.com"] else Err (External 1);
|}.

Lemma handle_resolution_is_bidirectional_witness :
  exists local domain url doc,
    is_handle (str "@summarizer@aire.example.com") local domain /\
    resolveHandle (HN := demo_net) (mkResolver None None) local domain = Ok (str "did:web:aire.example.com") /\
    HasPrefix (str "did:web:aire.example.com") (str "did:web:") = true /\
    didWebToURL (str "did:web:aire.example.com") = Ok url /\
    fetchDIDDocument (HN := demo_net) (mkResolver None None) url = Ok doc /\
    handle_uri local domain ∈ doc_AlsoKnownAs doc /\
    serves doc local (mkAddress (str "did:web:aire.example.com") (str "aire.example.com:4433")
                        (str "summarizer") [str "aire/v0.2"]).
Proof.
  apply (handle_resolution_is_bidirectional (HN := demo_net) (mkResolver None None)
    (str "@summarizer@aire.example.com")
    (mkAddress (str "did:web:aire.example.com") (str "aire.example.com:4433")
       (str "summarizer") [str "aire/v0.2"])).
  - vm_compute. reflexivity.
  - vm_compute. reflexivity.
Defined.

(** ** What is published resolves *)

Lemma pick_service_first pre svc post d addr :
  Forall (fun s => svc_Type s <> str "AIREv1") pre -> svc_Type svc = str "AIREv1" ->
  pick_endpoint (svc_ServiceEndpoint svc) d = Some addr -> pick_service (pre ++ svc :: post) d = Some addr.
Proof.
  intros Hpre Ht Hep. induction Hpre as [|s pre Hs _ IH]; cbn [app pick_service].
  - by rewrite bool_decide_eq_true_2, Hep.
  - by rewrite bool_decide_eq_false_2.
Qed.

Lemma pick_endpoint_first svc ep eps d endpoint :
  svc_ServiceEndpoint svc = ep :: eps -> parseAIREURI (ep_URI ep) = Ok endpoint ->
  pick_endpoint (svc_ServiceEndpoint svc) d =
  Some (mkAddress [] endpoint (if bool_decide (ep_AgentID ep = []) then d else ep_AgentID ep) (ep_Accept ep)).
Proof. intros -> E. cbn [pick_endpoint]. by rewrite E. Qed.

Lemma resolveHandle_txt `{HN : NetEnv} r local domain id :
  lookupTXT r (str "_aire." ++ local ++ str "." ++ domain) = Ok [str "did=did:" ++ id] ->
  resolveHandle r local domain = Ok (str "did:" ++ id).
Proof.
  intros E. unfold resolveHandle, resolveHandleViaTXT. rewrite E. cbn [mbind go_bind].
  change (str "did=did:" ++ id) with (str "did=" ++ str "did:" ++ id).
  unfold parseTXTDIDValue. rewrite HasPrefix_app, TrimPrefix_app, HasPrefix_app. done.
Qed.

(** C27: what a domain publishes resolves.  Let the TXT record of local@domain
    name a did:web DID, and let the document at the URL of that DID be the JSON
    text of an object that has the members of a DID Document, in any order and
    among members of other names ([published]).  If the document lists aire://local@domain in
    alsoKnownAs and the first endpoint of its first AIREv1 service has a parsable
    URI, then Resolve returns the address of that endpoint as published, with the
    local part as agent ID when the endpoint names none. *)
Theorem published_handle_resolves `{HN : NetEnv} r ref local domain did doc pre svc post ep eps endpoint :
  HasPrefix ref (str "did:") = false -> is_handle ref local domain ->
  lookupTXT r (str "_aire." ++ local ++ str "." ++ domain) = Ok [str "did=" ++ did] ->
  published r did doc ->
  handle_uri local domain ∈ doc_AlsoKnownAs doc ->
  doc_Service doc = pre ++ svc :: post ->
  Forall (fun s => svc_Type s <> str "AIREv1") pre -> svc_Type svc = str "AIREv1" ->
  svc_ServiceEndpoint svc = ep :: eps -> parseAIREURI (ep_URI ep) = Ok endpoint ->
  Resolve r ref = Ok (mkAddress did endpoint
    (if bool_decide (ep_AgentID ep = []) then local else ep_AgentID ep) (ep_Accept ep)).
Proof.
  intros Href Hh Htxt (url & Hurl & Hdoc)%fetch_published Haka Hsvc Hpre Ht Heps Huri.
  destruct (didWebToURL_prefix did url Hurl) as [id Hid].
  assert (did = str "did:" ++ str "web:" ++ id) as Hid' by done. unfold Resolve.
  rewrite Href, (parseHandle_handle _ _ _ Hh). cbn [mbind go_bind].
  rewrite (resolveHandle_txt r local domain (str "web:" ++ id)) by (by rewrite Hid' in Htxt).
  rewrite <-Hid'. cbn [mbind go_bind]. unfold resolveDID.
  rewrite (proj2 (HasPrefix_true did (str "did:web:"))) by eauto.
  unfold resolveDIDWeb. rewrite Hurl. cbn [mbind go_bind].
  rewrite Hdoc. cbn [mbind go_bind].
  unfold pickAIREv1. rewrite Hsvc.
  rewrite (pick_service_first pre svc post local _ Hpre Ht (pick_endpoint_first svc ep eps local _ Heps Huri)).
  cbn [mbind go_bind]. unfold verifyAlsoKnownAs. by rewrite (bool_decide_eq_true_2 _ Haka).
Qed.

Lemma demo_published : published (HN := demo_net) (mkResolver None None) (str "did:web:aire.example.com") demo_doc.
Proof.
  exists (str "https://aire.example.com/.well-known/did.json"), demo_members. split_and!.
  - vm_compute. reflexivity.
  - reflexivity.
  - vm_compute. reflexivity.
  - vm_compute. reflexivity.
  - apply Nat.leb_le. vm_compute. reflexivity.
  - assert (filter (known doc_fields) demo_members = reverse (doc_members demo_doc)) as -> by
      (vm_compute; reflexivity).
    apply reverse_Permutation.
Qed.

Lemma published_handle_resolves_witness :
  Resolve (HN := demo_net) (mkResolver None None) (str "@summarizer@aire.example.com") =
  Ok (mkAddress (str "did:web:aire.example.com") (str "aire.example.com:4433")
        (str "summarizer") [str "aire/v0.2"]).
Proof.
  apply (published_handle_resolves (HN := demo_net) (mkResolver None None)
    (str "@summarizer@aire.example.com") (str "summarizer") (str "aire.example.com")
    (str "did:web:aire.example.com") demo_doc []
    (mkService (str "#aire") (str "AIREv1")
       [mkEndpoint (str "aire://aire.example.com") [str "aire/v0.2"] []]) []
    (mkEndpoint (str "aire://aire.example.com") [str "aire/v0.2"] []) []).
  - vm_compute. reflexivity.
  - apply parseHandle_Ok. vm_compute. reflexivity.
  - vm_compute. reflexivity.
  - exact demo_published.
  - by apply (bool_decide_unpack _).
  - reflexivity.
  - constructor.
  - reflexivity.
  - reflexivity.
  - vm_compute. reflexivity.
Defined.
