(* ===== verification/WebIdentity.v ===== *)
(** * did:web identities

    How the two uses of a DID Document fit together: [identity.go] takes the key
    of a did:web signer from it (Verifier.ResolveKey) and [addressing.go] the
    endpoint to dial (Resolver.Resolve).  [NetEnv] is the network at one moment:
    the document may change between the two uses. *)

From Stdlib Require Import Strings.Byte.
From stdpp Require Import base numbers list gmap strings.
From S2P Require Import Prelude Machine GoTime GoStrings Varint Frame Stream Capability.
From S2P Require Import Base58 Identity DidWeb Verifier Hello Handshake Conn Session Addressing.
Open Scope Z_scope.

(** ** The key a document lists *)

Definition names_key (want : bytes) (vm : verificationMethod) : Prop :=
  vm_ID vm = want /\ vm_Type vm = str "Ed25519VerificationKey2020".

(** The first verification method of that ID and type spells the key. *)
Definition lists (doc : didDocument) (want pub : bytes) : Prop :=
  exists pre vm post,
    doc_VerificationMethod doc = pre ++ vm :: post /\ Forall (fun m => ~ names_key want m) pre /\
    names_key want vm /\ vm_PublicKeyMultibase vm = encodeMultibaseEd25519 pub /\
    length pub = PublicKeySize.

Lemma find_method_Some vms want vm :
  find_method vms want = Some vm <->
  exists pre post, vms = pre ++ vm :: post /\ Forall (fun m => ~ names_key want m) pre /\ names_key want vm.
Proof.
  assert (forall m, bool_decide (vm_ID m = want) && bool_decide (vm_Type m = str "Ed25519VerificationKey2020")
    = true <-> names_key want m) as Hb.
  { intros m. unfold names_key. by rewrite andb_true_iff, !bool_decide_eq_true. }
  induction vms as [|m vms IH]; cbn [find_method].
  { split; [done|]. intros (pre & post & E & _). by destruct pre. }
  destruct (_ && _) eqn:E.
  - apply Hb in E. split; [intros [= <-]; by exists [], vms|].
    intros ([|m' pre] & post & [= <- ->] & Hp & Hv); [done|]. by apply Forall_cons in Hp as [? _].
  - rewrite IH. split.
    + intros (pre & post & -> & Hp & Hv). exists (m :: pre), post. split_and!; try done.
      apply Forall_cons. split; [|done]. intros Hm%Hb. congruence.
    + intros ([|m' pre] & post & [= <- ->] & Hp & Hv); [apply Hb in Hv; congruence|].
      apply Forall_cons in Hp as [_ Hp]. eauto.
Qed.

Lemma lists_iff doc want pub :
  lists doc want pub <->
  exists vm, find_method (doc_VerificationMethod doc) want = Some vm /\
    decodeMultibaseEd25519 (vm_PublicKeyMultibase vm) = Ok pub.
Proof.
  unfold lists. setoid_rewrite find_method_Some. setoid_rewrite decodeMultibase_iff. naive_solver.
Qed.

Lemma lists_functional doc want pub pub' : lists doc want pub -> lists doc want pub' -> pub = pub'.
Proof. rewrite !lists_iff. intros (vm & E & ?) (vm' & E' & ?). congruence. Qed.

Lemma Cut_cases s c did frag found :
  Cut s c = (did, frag, found) ->
  c ∉ did /\ if found then s = did ++ c :: frag else s = did /\ frag = [].
Proof.
  unfold Cut. destruct (IndexByte s c) as [i|] eqn:E; intros [= <- <- <-].
  - by apply IndexByte_Some in E as [??].
  - split; [|done]. by apply IndexByte_None.
Qed.

Section Web.
Context `{HE : Ed25519} `{HN : NetEnv}.

(** ResolveKey on a did:web VMID reads the document of its DID, *)
Lemma ResolveKey_didweb_eq v r vmid did frag found url doc :
  Cut vmid x23 = (did, frag, found) -> v_Resolver v = Some r ->
  didWebToURL did = Ok url -> fetchDIDDocument r url = Ok doc -> frag <> [] ->
  ResolveKey v vmid =
  match find_method (doc_VerificationMethod doc) vmid with
  | Some vm => decodeMultibaseEd25519 (vm_PublicKeyMultibase vm)
  | None => Err (Errorf "verification method %s not found in document" None [ArgStr vmid])
  end.
Proof.
  intros Hcut Hr Hurl Hdoc Hf. destruct (didWebToURL_prefix did url Hurl) as [id Hid].
  unfold ResolveKey. rewrite Hcut, Hr, Hurl. cbn [mbind go_bind].
  assert (HasPrefix did (str "did:key:") = false) as -> by by rewrite Hid.
  rewrite (proj2 (HasPrefix_true did (str "did:web:"))) by eauto.
  rewrite bool_decide_eq_false_2 by done. rewrite Hdoc. cbn [mbind go_bind].
  apply Cut_cases in Hcut as [_ Hv]. destruct found; [|by destruct Hv].
  change (did ++ [x23] ++ frag) with (did ++ x23 :: frag). by rewrite <-Hv.
Qed.

(** and finds exactly the key that it lists under the VMID. *)
Lemma ResolveKey_didweb v r vmid did frag found url doc pub :
  Cut vmid x23 = (did, frag, found) -> v_Resolver v = Some r ->
  didWebToURL did = Ok url -> fetchDIDDocument r url = Ok doc -> frag <> [] ->
  ResolveKey v vmid = Ok pub <-> lists doc vmid pub.
Proof.
  intros Hcut Hr Hurl Hdoc Hf. rewrite (ResolveKey_didweb_eq v r vmid did frag found url doc) by done.
  rewrite lists_iff. destruct (find_method _ vmid) as [vm|]; naive_solver.
Qed.

(** A did:web VMID that resolves does so through its document. *)
Lemma ResolveKey_didweb_inv v vmid did frag found pub :
  Cut vmid x23 = (did, frag, found) -> HasPrefix did (str "did:web:") = true ->
  ResolveKey v vmid = Ok pub ->
  exists r url doc, v_Resolver v = Some r /\ didWebToURL did = Ok url /\
    fetchDIDDocument r url = Ok doc /\ lists doc vmid pub.
Proof.
  intros Hcut Hp E. pose proof Hp as [id Hid]%HasPrefix_true.
  assert (HasPrefix did (str "did:key:") = false) as Hk by by rewrite Hid.
  pose proof E as E'. unfold ResolveKey in E'. rewrite Hcut, Hk, Hp in E'.
  case_bool_decide as Hf; [done|]. destruct (v_Resolver v) as [r|] eqn:Hr; [|done].
  apply bind_Ok in E' as (url & Hu & E'). apply bind_Ok in E' as (doc & Hd & _).
  exists r, url, doc. split_and!; try done. by apply (ResolveKey_didweb v r vmid did frag found url doc pub).
Qed.

(** ** Verification *)

(** A Signer for a did:web DID, with the key that its document lists. *)
Definition didweb_signer (did frag priv : bytes) : Signer :=
  mkSigner did (did ++ x23 :: frag) (ed_Sign priv).

Lemma didweb_wire `{HL : !Ed25519Laws} did frag priv url :
  didWebToURL did = Ok url -> x23 ∉ did -> len (did ++ x23 :: frag) <= MaxVarint ->
  WireSigner (didweb_signer did frag priv).
Proof.
  intros (id & ->)%didWebToURL_prefix Hh Hl. split; cbn [s_DID s_VMID s_Sign didweb_signer].
  - by rewrite Cut_app.
  - done.
  - done.
  - intros msg. apply ed_Sign_fits.
Qed.

(** A Verifier with a Resolver can check a did:web signer whose document is
    published and lists its key. *)
Lemma didweb_verifiable `{HL : !Ed25519Laws} v r did frag priv doc :
  v_Resolver v = Some r -> published r did doc -> x23 ∉ did -> frag <> [] ->
  lists doc (did ++ x23 :: frag) (ed_Public priv) -> Verifiable v (didweb_signer did frag priv).
Proof.
  intros Hr (url & Hu & Hd)%fetch_published Hh Hf Hl. exists (ed_Public priv). split; [|apply ed_Verify_Sign].
  apply (ResolveKey_didweb v r _ did frag true url doc (ed_Public priv)); [by apply Cut_app|done..].
Qed.
End Web.

(** C11: exactly which did:web signatures verify.  For an Ed25519 block with a
    timestamp within the window, an unseen nonce and a did:web VMID whose
    document is published: the nonce is recorded; if the document lists a key
    under the VMID, Verify succeeds when the signature verifies under that key and
    fails with ErrBadSignature when it does not; if it lists none, because no
    method has that ID and type or its key does not decode, Verify fails with
    ErrUnresolvableDID. *)
Theorem didweb_verify_exact `{HE : Ed25519} `{HN : NetEnv} now block msg v r did frag doc :
  Algorithm block = SigAlgEd25519 -> abs_skew now (TimestampMS block) <= v_Window v ->
  VMID block = did ++ x23 :: frag -> x23 ∉ did -> frag <> [] ->
  recorded v did (Nonce block) = None -> v_Resolver v = Some r -> published r did doc ->
  let '(res, v') := Verify now block msg v in
  recorded v' did (Nonce block) = Some (TimestampMS block) /\
  ((exists pub, lists doc (VMID block) pub /\
      if ed_Verify pub msg (Signature block) then res = Ok tt
      else exists e, res = Err e /\ errors_Is e ErrBadSignature = true) \/
   ((forall pub, ~ lists doc (VMID block) pub) /\
      exists e, res = Err e /\ errors_Is e ErrUnresolvableDID = true)).
Proof.
  intros Ha Hs Hvm Hh Hf Hn Hr (url & Hu & Hdoc)%fetch_published.
  assert (Cut (VMID block) x23 = (did, frag, true)) as Hcut by (rewrite Hvm; by apply Cut_app).
  assert (did_of block = did) as Hd by (unfold did_of; by rewrite Hcut).
  assert (did <> []) as Hne by (apply didWebToURL_prefix in Hu as [id ->]; done).
  rewrite <-Hd in Hn, Hne |- *.
  destruct (Verify_records now block msg v) as (v' & -> & Hrec & _ & Hres); [done..|].
  split; [done|]. rewrite <-Hres in Hr.
  pose proof (fun pub => ResolveKey_didweb v' r _ _ _ _ url doc pub Hcut Hr Hu Hdoc Hf) as Hk.
  unfold check_signature. rewrite Hcut.
  destruct (ResolveKey v' (VMID block)) as [pub|e|p] eqn:E; cbn [on_err mbind go_bind].
  - left. exists pub. split; [by apply Hk|]. apply ResolveKey_size in E.
    unfold VerifyEd25519. rewrite E. cbn. destruct (ed_Verify _ _ _); [done|]. eauto.
  - right. split; [|eauto]. intros pub Hl%Hk. done.
  - rewrite (ResolveKey_didweb_eq v' r _ _ _ _ url doc Hcut Hr Hu Hdoc Hf) in E.
    case_match; [by apply decodeMultibase_never_panics in E|done].
Qed.

(** ** Reaching a published node *)

(** An address is that of a did:web, and of the document fetched for it. *)
Lemma Resolve_document `{HN : NetEnv} r ref addr :
  Resolve r ref = Ok addr ->
  HasPrefix (a_DID addr) (str "did:web:") = true /\
  exists url doc d, didWebToURL (a_DID addr) = Ok url /\ fetchDIDDocument r url = Ok doc /\ serves doc d addr.
Proof.
  unfold Resolve. case_match.
  - intros ([a doc] & (Hw & <- & Hs & url & Hu & Hf)%resolveDID_Ok & [= <-])%bind_Ok. eauto 10.
  - intros ([local domain] & _ & (did & _ & ([a doc] & Hd & ([] & _ & [= <-])%bind_Ok)%bind_Ok)%bind_Ok)%bind_Ok.
    apply resolveDID_Ok in Hd as (Hw & <- & Hs & url & Hu & Hf). eauto 10.
Qed.

Lemma Conn_Handshake_client `{HE : Ed25519} `{HN : NetEnv} `{HQ : Quic} env e cfg st c w :
  Conn_Handshake env (Ok e) cfg (new_conn true) = (Ok st, c, w) ->
  exists f, (readFrame e.1).1 = Ok f /\
    vouched (he_Clock env) (cfg_Capabilities cfg) (config_verifier cfg) f st.
Proof.
  unfold Conn_Handshake. cbn [new_conn state isClient OpenStreamSync].
  destruct (runHandshake env _ _) as [[r qs] w'] eqn:E. intros Hr.
  assert (r = Ok st) as -> by (destruct r; by simplify_eq).
  apply runHandshake_Ok_inv in E as (f & v' & Hf & Hp & _).
  exists f. split; [done|]. by eapply process_hello_vouched.
Qed.

(** C5: the node behind an address.  Let a client resolve a reference, a handle or
    a DID, with a Resolver [r1] on the network [net1], and then, on the network
    [net2], complete a handshake with a peer whose NodeID is the DID of the
    address at minor version 2, with a Verifier that uses a Resolver [r2].  Then
    that DID is a did:web with one document URL; the document that [r1] fetched
    from it has the address among its AIREv1 endpoints; and the peer's HELLO
    carries a signature block of this DID whose signature, over everything the
    HELLO says, verifies under the key that the document that [r2] fetched from it
    lists for the block's VMID.  If the document has not changed in between, one
    and the same document gives both. *)
Theorem resolved_peer_authentic `{HE : Ed25519} (net1 net2 : NetEnv) `{HQ : Quic}
    r1 r2 ref addr env e cfg v st c w :
  Resolve (HN := net1) r1 ref = Ok addr -> cfg_Verifier cfg = Some v -> v_Resolver v = Some r2 ->
  Conn_Handshake (HN := net2) env (Ok e) cfg (new_conn true) = (Ok st, c, w) ->
  PeerNodeID st = a_DID addr -> NegotiatedMinor st = 2 ->
  HasPrefix (a_DID addr) (str "did:web:") = true /\
  exists url doc1 doc2 d f inner trailing block n pub,
    didWebToURL (a_DID addr) = Ok url /\ fetchDIDDocument (HN := net1) r1 url = Ok doc1 /\
    fetchDIDDocument (HN := net2) r2 url = Ok doc2 /\ serves doc1 d addr /\
    (readFrame e.1).1 = Ok f /\ Payload f = inner ++ trailing /\
    DecodeSignatureBlock trailing = Ok (block, n) /\ did_of block = a_DID addr /\
    lists doc2 (VMID block) pub /\
    ed_Verify pub (DomainSeparator ++ FrameHello :: inner ++ meta_bytes block) (Signature block) = true.
Proof.
  intros (Hw & url & doc1 & d & Hu & Hd & Hs)%Resolve_document Hv Hr Hh Hid Hmin. split; [done|].
  apply Conn_Handshake_client in Hh as (f & Hf & _ & _ & ver & caps & inner & trailing & Hp & _ & _ & Hm & _ & Hvouch).
  destruct Hvouch as (block & n & pub & Hb & Hdid & _ & _ & _ & Hk & Hver & _); [lia|].
  assert (config_verifier cfg = v) as Hcv by (unfold config_verifier; by rewrite Hv).
  rewrite Hcv in Hk. rewrite Hid in Hdid.
  destruct (Cut (VMID block) x23) as [[did frag] found] eqn:Hcut.
  assert (did = a_DID addr) as -> by (rewrite <-Hdid; unfold did_of; by rewrite Hcut).
  destruct (ResolveKey_didweb_inv v _ _ _ _ pub Hcut Hw Hk) as (r & url' & doc2 & Hr' & Hu' & Hd2 & Hl).
  assert (r = r2) as -> by congruence. assert (url' = url) as -> by congruence.
  exists url, doc1, doc2, d, f, inner, trailing, block, n, pub. by split_and!.
Qed.

(** ** A did:web node *)

Definition web_did : bytes := str "did:web:aire.example.com".
Definition web_priv : bytes := repeat x0b 32.
Definition web_signer : Signer := didweb_signer (HE := toy_ed25519) web_did (str "key-1") web_priv.

(** A node with that signer, and a client that resolves did:web. *)
Definition web_party : party :=
  mkParty web_signer demo_caps_b (repeat xcc 16) (demo_env (repeat xcc 16)) NewVerifier
    (payload_of (buildSignedHello web_signer demo_caps_b (repeat xcc 16) demo_now)).
Definition with_verifier (p : party) (v : Verifier) : party :=
  mkParty (p_signer p) (p_caps p) (p_nonce p) (p_env p) v (p_hello p).
Definition web_client : party :=
  with_verifier party_a (mkVerifier (Some (mkResolver None None)) ReplayWindow ∅).

Lemma demo_doc_lists : lists demo_doc (web_did ++ x23 :: str "key-1") (toy_public web_priv).
Proof.
  exists [], (hd (mkVM [] [] [] []) (doc_VerificationMethod demo_doc)), []. split_and!; try done.
Qed.

Lemma web_signer_verifiable : Verifiable (HE := toy_ed25519) (HN := demo_net) (p_verifier web_client) web_signer.
Proof.
  apply (didweb_verifiable (HL := toy_ed25519_laws) _ (mkResolver None None) _ _ _ demo_doc);
    [done|exact demo_published|by apply (bool_decide_unpack _)|done|exact demo_doc_lists].
Qed.

Lemma with_verifier_ok p v : party_ok p -> 0 <= v_Window v < maxDuration -> party_ok (with_verifier p v).
Proof. intros (? & ? & ? & ? & ? & ? & _) [? ?]. unfold party_ok. cbn. by split_and!. Qed.

Lemma web_client_ok : party_ok web_client.
Proof. apply with_verifier_ok; [exact party_a_ok|done]. Qed.

Lemma web_party_ok : party_ok web_party.
Proof.
  unfold party_ok. split_and!.
  - apply (didweb_wire (HE := toy_ed25519) (HL := toy_ed25519_laws) _ _ _ (str "https://aire.example.com/.well-known/did.json"));
      [vm_compute; reflexivity|by apply (bool_decide_unpack _)|vm_compute; congruence].
  - exact (proj1 (proj2 party_b_ok)).
  - reflexivity.
  - reflexivity.
  - vm_compute. reflexivity.
  - vm_compute. congruence.
  - vm_compute. congruence.
  - vm_compute. congruence.
Qed.

Definition web_handshake : go HandshakeState * Conn * option Verifier :=
  Conn_Handshake (HE := toy_ed25519) (HN := demo_net) (HQ := rfc9000) (p_env web_client)
    (Ok (demo_ends web_party)) (p_config web_client) (new_conn true).

Lemma web_handshake_completes :
  Conn_Handshake (HE := toy_ed25519) (HN := demo_net) (HQ := rfc9000) (p_env web_client)
    (Ok (demo_ends web_party)) (p_config web_client) (new_conn true) =
  (Ok (mkHS web_did 2 [mkCap (str "com.acme.chat/1") 2 false]), web_handshake.1.2, web_handshake.2).
Proof.
  destruct (Conn_Handshake_party (HE := toy_ed25519) (HN := demo_net) (HQ := rfc9000) true web_client web_party
    (demo_ends web_party) [mkCap (str "com.acme.chat/1") 2 false]) as (c & w & E & _).
  - exact web_client_ok.
  - exact web_party_ok.
  - split_and!; [vm_compute; congruence|reflexivity|exact web_signer_verifiable].
  - apply demo_ends_carries.
  - vm_compute. reflexivity.
  - unfold web_handshake. by rewrite E.
Qed.

Lemma resolved_peer_authentic_witness :
  exists f inner trailing block n pub,
    (readFrame (demo_ends web_party).1).1 = Ok f /\ Payload f = inner ++ trailing /\
    DecodeSignatureBlock trailing = Ok (block, n) /\ did_of block = web_did /\
    ed_Verify (Ed25519 := toy_ed25519) pub
      (DomainSeparator ++ FrameHello :: inner ++ meta_bytes block) (Signature block) = true.
Proof.
  destruct (resolved_peer_authentic (HE := toy_ed25519) (HQ := rfc9000) demo_net demo_net
    (mkResolver None None) (mkResolver None None) (str "@summarizer@aire.example.com")
    (mkAddress web_did (str "aire.example.com:4433") (str "summarizer") [str "aire/v0.2"])
    (p_env web_client) (demo_ends web_party) (p_config web_client) (p_verifier web_client)
    (mkHS web_did 2 [mkCap (str "com.acme.chat/1") 2 false]) web_handshake.1.2 web_handshake.2)
    as (_ & _ & _ & _ & _ & f & inner & trailing & block & n & pub & _ & _ & _ & _ & H1 & H2 & H3 & H4 & _ & H5).
  - vm_compute. reflexivity.
  - reflexivity.
  - reflexivity.
  - exact web_handshake_completes.
  - reflexivity.
  - reflexivity.
  - exists f, inner, trailing, block, n, pub. split_and!; [exact H1|exact H2|exact H3|exact H4|exact H5].
Defined.

(** The block of the did:web signer verifies, and one signed with another key
    does not. *)
Definition web_block (priv : bytes) : SignatureBlock :=
  mkBlock SigAlgEd25519 (s_VMID web_signer) demo_nonce 1781568000123 (toy_tag (toy_public priv) (str "hi")).

Lemma didweb_verify_exact_witness :
  let '(res, v') := Verify (HE := toy_ed25519) (HN := demo_net) demo_now (web_block web_priv) (str "hi")
                      (p_verifier web_client) in
  recorded v' web_did demo_nonce = Some 1781568000123 /\
  ((exists pub, lists demo_doc (s_VMID web_signer) pub /\
      if bool_decide (Signature (web_block web_priv) = toy_tag pub (str "hi")) then res = Ok tt
      else exists e, res = Err e /\ errors_Is e ErrBadSignature = true) \/
   ((forall pub, ~ lists demo_doc (s_VMID web_signer) pub) /\
      exists e, res = Err e /\ errors_Is e ErrUnresolvableDID = true)).
Proof.
  apply (didweb_verify_exact (HE := toy_ed25519) (HN := demo_net) demo_now (web_block web_priv) (str "hi")
    (p_verifier web_client) (mkResolver None None) web_did (str "key-1") demo_doc).
  - reflexivity.
  - vm_compute. congruence.
  - reflexivity.
  - by apply (bool_decide_unpack _).
  - discriminate.
  - reflexivity.
  - reflexivity.
  - exact demo_published.
Defined.

Example web_block_outcomes :
  (Verify (HE := toy_ed25519) (HN := demo_net) demo_now (web_block web_priv) (str "hi")
     (p_verifier web_client)).1 = Ok tt /\
  (match (Verify (HE := toy_ed25519) (HN := demo_net) demo_now (web_block (repeat x0c 32)) (str "hi")
            (p_verifier web_client)).1 with
   | Err e => errors_Is e ErrBadSignature
   | _ => false
   end) = true.
Proof. vm_compute. split; reflexivity. Qed.
