(* ===== verification/Conformance.v ===== *)
(** * Conformance vectors

    The vectors of [testdata/vectors-v0.1.json], [vectors-v0.2.json] and
    [vectors-v0.3.json], evaluated in the model as the repository's conformance
    tests evaluate them in Go. *)

From Stdlib Require Import Strings.Byte.
From stdpp Require Import base numbers list gmap strings.
From S2P Require Import Prelude Machine GoTime GoStrings Varint Frame Stream Cancel Budget Capability.
From S2P Require Import Base58 Identity DidWeb Verifier Hello Handshake.
Open Scope Z_scope.

(** [hex.DecodeString] on well-formed input. *)
Fixpoint hex_bytes (s : bytes) : bytes :=
  match s with
  | h :: l :: s => to_byte (unhex h * 16 + unhex l) :: hex_bytes s
  | _ => []
  end.
Definition hex (s : string) : bytes := hex_bytes (str s).
Arguments hex s%_string.

(** A vector: the frame and its encoding, checked in both directions. *)
Record vector := mkVector { vec_encoded : bytes; vec_frame : Frame }.

Definition payload_ok (r : go bytes) : option bytes :=
  match r with Ok b => Some b | _ => None end.

Definition conforms (v : vector) : bool :=
  bool_decide (payload_ok (Encode (vec_frame v)) = Some (vec_encoded v)) &&
  match Decode (vec_encoded v) with
  | Ok (f, n) => bool_decide (f = vec_frame v) && (n =? length (vec_encoded v))%nat
  | _ => false
  end.

(** ** Frames, v0.1 *)

Definition vectors_v01 : list vector := [
  mkVector (hex "01000000")
    (mkFrame (to_byte 1) (to_byte 0) 0 (hex ""));
  mkVector (hex "03002a026869")
    (mkFrame (to_byte 3) (to_byte 0) 42 (hex "6869"));
  mkVector (hex "0400800040004064abababababababababababababababababababababababababababababababababababababababababababababababababababababababababababababababababababababababababababababababababababababababababababababababababababab")
    (mkFrame (to_byte 4) (to_byte 0) 16384 (hex "abababababababababababababababababababababababababababababababababababababababababababababababababababababababababababababababababababababababababababababababababababababababababababababababababababab"));
  mkVector (hex "05000500")
    (mkFrame (to_byte 5) (to_byte 0) 5 (hex ""));
  mkVector (hex "09000000")
    (mkFrame (to_byte 9) (to_byte 0) 0 (hex ""));
  mkVector (hex "0300d00000000000000000")
    (mkFrame (to_byte 3) (to_byte 0) 1152921504606846976 (hex ""));
  mkVector (hex "0100001a0001056e6f646531010e636f72652e73747265616d696e670101")
    (mkFrame (to_byte 1) (to_byte 0) 0 (hex "0001056e6f646531010e636f72652e73747265616d696e670101"))
].

Example vectors_v01_conform : forallb conforms vectors_v01 = true.
Proof. vm_compute. reflexivity. Qed.

(** The capability vector of v0.1 as a HELLO. *)
Example hello_v01 :
  decodeHelloPayloadV02 (hex "0001056e6f646531010e636f72652e73747265616d696e670101") =
  Ok (mkVersion 0 1, str "node1", [mkCap (str "core.streaming") 1 true], []).
Proof. vm_compute. reflexivity. Qed.

(** ** The signed HELLO, v0.2

    Ed25519 itself is a parameter, so the signature of the vector stands for what
    Sign returns; everything else is computed. *)

Definition v02_pub : bytes := hex "a462ddd3be2ca57ebaf4e57bb45a1c100bf4ee4a721dc9d28868f5789d9274a3".
Definition v02_did : bytes := str "did:key:z6MkqWxM23zvnFMz6oZnWnPGF9jdp4g3JLK2TcJzPGevVDBY".
Definition v02_vmid : bytes := str "did:key:z6MkqWxM23zvnFMz6oZnWnPGF9jdp4g3JLK2TcJzPGevVDBY#z6MkqWxM23zvnFMz6oZnWnPGF9jdp4g3JLK2TcJzPGevVDBY".
Definition v02_nonce : bytes := hex "000102030405060708090a0b0c0d0e0f".
Definition v02_timestamp : Z := 1781568000000.
Definition v02_signature : bytes := hex "0e7f787a159f29e536c867f45896853e37f3c84d39d4874c84e846759fb351660be5d4e9052186b9d3b3869cefe28ddf1281f464f1d19f287b80551393072207".
Definition v02_inner : bytes := hex "0002386469643a6b65793a7a364d6b7157784d32337a766e464d7a366f5a6e576e504746396a64703467334a4c4b3254634a7a50476576564442590115616972652e6469642d6d6574686f642e6b65792f310101".
Definition v02_message : bytes := hex "414952452d5349472d763100010002386469643a6b65793a7a364d6b7157784d32337a766e464d7a366f5a6e576e504746396a64703467334a4c4b3254634a7a50476576564442590115616972652e6469642d6d6574686f642e6b65792f3101010140696469643a6b65793a7a364d6b7157784d32337a766e464d7a366f5a6e576e504746396a64703467334a4c4b3254634a7a5047657656444259237a364d6b7157784d32337a766e464d7a366f5a6e576e504746396a64703467334a4c4b3254634a7a5047657656444259000102030405060708090a0b0c0d0e0f0000019ecdba5000".
Definition v02_caps : list Capability := [mkCap CapDIDMethodKey 1 true].
Definition v02_block : SignatureBlock :=
  mkBlock SigAlgEd25519 v02_vmid v02_nonce v02_timestamp v02_signature.

Example v02_didkey :
  MakeDIDKey v02_pub = v02_did /\ ParseDIDKey v02_did = Ok v02_pub /\
  DIDKeyVMID v02_did = Ok v02_vmid.
Proof. vm_compute. repeat split. Qed.

Example v02_inner_payload : encodeHelloInner CurrentVersion v02_did v02_caps = Ok v02_inner.
Proof. vm_compute. reflexivity. Qed.

Example v02_signed_message : signedMessageBytes FrameHello v02_inner v02_block = Ok v02_message.
Proof. vm_compute. reflexivity. Qed.

(** The signer of the vector signs the expected message and nothing else. *)
Definition v02_signer : Signer :=
  mkSigner v02_did v02_vmid (fun msg => if bool_decide (msg = v02_message) then v02_signature else []).

Example v02_encoded :
  (payload ← buildSignedHello v02_signer v02_caps v02_nonce (UnixMilli v02_timestamp);
   Encode (mkFrame FrameHello x00 0 payload)) =
  Ok (hex "010000411a0002386469643a6b65793a7a364d6b7157784d32337a766e464d7a366f5a6e576e504746396a64703467334a4c4b3254634a7a50476576564442590115616972652e6469642d6d6574686f642e6b65792f3101010140696469643a6b65793a7a364d6b7157784d32337a766e464d7a366f5a6e576e504746396a64703467334a4c4b3254634a7a5047657656444259237a364d6b7157784d32337a766e464d7a366f5a6e576e504746396a64703467334a4c4b3254634a7a5047657656444259000102030405060708090a0b0c0d0e0f0000019ecdba500040400e7f787a159f29e536c867f45896853e37f3c84d39d4874c84e846759fb351660be5d4e9052186b9d3b3869cefe28ddf1281f464f1d19f287b80551393072207").
Proof. vm_compute. reflexivity. Qed.

(** ** CANCEL and BUDGET, v0.3 *)

Definition vectors_v03 : list vector := [
  mkVector (hex "050005020000")
    (mkFrame (to_byte 5) (to_byte 0) 5 (hex "0000"));
  mkVector (hex "05000a0f030d706172656e743a2041424f5254")
    (mkFrame (to_byte 5) (to_byte 0) 10 (hex "030d706172656e743a2041424f5254"));
  mkVector (hex "0600050e03010243e8020253880303555344")
    (mkFrame (to_byte 6) (to_byte 0) 5 (hex "03010243e8020253880303555344"));
  mkVector (hex "0600070b010408000001a2ce8bd3ff")
    (mkFrame (to_byte 6) (to_byte 0) 7 (hex "010408000001a2ce8bd3ff"))
].

Example vectors_v03_conform : forallb conforms vectors_v03 = true.
Proof. vm_compute. reflexivity. Qed.

Example cancel_vectors :
  (DecodeCancel (hex "0000"), DecodeCancel (hex "030d706172656e743a2041424f5254")) =
  (Ok (mkCancel ReasonUserCancelled []),
   Ok (mkCancel ReasonUpstreamCancelled (str "parent: ABORT"))) /\
  (CancelReason_String ReasonUserCancelled, CancelReason_String ReasonUpstreamCancelled) =
  (str "USER_CANCELLED", str "UPSTREAM_CANCELLED").
Proof. vm_compute. split; reflexivity. Qed.

Example budget_vectors :
  DecodeBudget (hex "03010243e8020253880303555344") = Ok (mkBudget (Some 1000) (Some 5000) (str "USD") None) /\
  DecodeBudget (hex "010408000001a2ce8bd3ff") = Ok (mkBudget None None [] (Some 1798761599999)) /\
  Budget_Encode (mkBudget (Some 1000) (Some 5000) (str "USD") None) = Ok (hex "03010243e8020253880303555344") /\
  Budget_Encode (mkBudget None None [] (Some 1798761599999)) = Ok (hex "010408000001a2ce8bd3ff").
Proof. vm_compute. repeat split. Qed.

(** ** The registry of error codes

    The codes of the handshake, the identity layer and the operations share one
    namespace. *)
Definition error_codes : list Z :=
  [ErrCodeIncompatibleVersion; ErrCodeMissingRequiredCapability; ErrCodeMalformedFrame;
   ErrCodeProtocolViolation; ErrCodeBadSignature; ErrCodeStaleTimestamp; ErrCodeReplayedNonce;
   ErrCodeUnresolvableDID; ErrCodeKeyMismatch; ErrCodeCancelled; ErrCodeBudgetExceeded;
   ErrCodeDeadlineExceeded; ErrCodeDelegateFailed].

Example error_codes_distinct : NoDup error_codes.
Proof. apply (bool_decide_unpack _). vm_compute. exact I. Qed.
